(* ===== verification/_CoqProject ===== *)
-Q . S2P
Prelude.v
Worklist.v
Ordering.v
CppString.v
Paths.v
Json.v
PackageMaps.v
IdPaths.v
Symbols.v
ScipMessages.v
IndexBuilder.v
Clang.v
Formatter.v
QualifiedNames.v
FormatterRefinement.v
CommandLine.v
Compdb.v
Toolchains.v
CompdbParser.v
Ipc.v
CliOptions.v
MacroIndexer.v
Preprocessor.v
IncludeTrees.v
TuAst.v
NameResolver.v
HashKeys.v
TuIndexer.v
TuInvariants.v
AstConsumer.v
ShardWellFormed.v
Planner.v
Worker.v
WorkerProtocol.v
Scheduler.v
Driver.v
System.v
Merge.v
DriverSetup.v
Main.v
ParserSource.v
DriverRun.v
Accounting.v
WorkerProcess.v
OsSupport.v
Exceptions.v
Reporting.v
DebugHelpers.v
Histories.v
EndToEnd.v
