(* ===== verification/Prelude.v ===== *)
(** * Verification of scip-clang

    scip-clang indexes C++ code: it reads a compilation database, runs Clang on every
    translation unit, and writes one SCIP index for the whole project.  A _driver_ process
    owns the compilation database, the queue of jobs and the final index; _worker_
    processes run Clang.  This development models the program's own code (src/indexer/)
    as Gallina functions, file by file, and proves what makes each part correct.

    ** How the parts interact

    - The driver (Driver.cc) takes batches of commands from the parser of the compilation
      database (CompilationDatabase.cc), which adjusts their command lines for Clang
      (CommandLineCleaner, LlvmCommandLineParsing, toolchains).  A scheduler assigns a
      semantic-analysis job per command to idle workers, through bounded queues with JSON
      messages (IpcMessages, JsonIpcQueue).
    - A worker (Worker.cc) runs Clang.  The preprocessor callbacks (Preprocessing.cc) hash
      what is seen of every file; the (path, hash) pairs are sent to the driver.
    - The driver's planner hands every (path, hash) pair to exactly one worker: the
      EmitIndex job of the same translation unit.
    - The worker visits the AST (AstConsumer.cc, Indexer.cc), names what it finds
      (SymbolFormatter.cc, SymbolName.cc), resolves paths to stable file ids
      (IdPathMappings.cc, PackageMap.cc, Path.cc) and writes a shard.
    - The driver merges the shards (Driver.cc, ScipExtras.cc) into the index.
    - Both processes are the same program (main.cc): the driver spawns workers with
      command lines that they parse with the same [parseArguments], and finds them through
      queues in shared memory that are named after the driver and the worker.

    ** Files and what they model (sources are under src/indexer/)

    - [Prelude]: results and failures, [ENFORCE] (Enforce.h), state-passing operations,
      machine integers, generic lemmas, hint databases.
    - [Worklist]: the bounded depth-first loop that Indexer.cc and
      ApproximateNameResolver.cc share, and that it visits what is reachable.
    - [Ordering] (Comparison.h/.cc, AbslExtras.h), [CppString], [Paths] (Path.h/.cc),
      [Json] (Derive.h), [PackageMaps] (PackageMap.h/.cc), [IdPaths] (IdPathMappings.h/.cc,
      FileMetadata.h).
    - [Symbols] (SymbolName.h/.cc, and the symbol grammar of SymbolFormatter.cc), [Clang],
      [Formatter] (SymbolFormatter.h/.cc), with the reference [QualifiedNames] and the
      refinement [FormatterRefinement].
    - [ScipMessages], [IndexBuilder] (ScipExtras.h/.cc): merging of indexes.
    - [CommandLine] (LlvmCommandLineParsing.cc, CommandLineCleaner.h/.cc), [Compdb],
      [Toolchains], [CompdbParser] (CompilationDatabase.h/.cc).
    - [Ipc] (IpcMessages.h/.cc, JsonIpcQueue.h/.cc, part of CliOptions), [CliOptions]
      (CliOptions.h/.cc, Statistics.h/.cc).
    - [HashKeys] (Derive.h): hashes and equality of the keys of hash containers.
    - [MacroIndexer], [TuAst], [TuIndexer], [TuInvariants] (Indexer.h/.cc), [NameResolver]
      (ApproximateNameResolver.h/.cc), [Preprocessor], [IncludeTrees] (Preprocessing.h/.cc,
      Hash.h), [AstConsumer], [ShardWellFormed] (AstConsumer.h/.cc).
    - [Worker], [WorkerProtocol] (Worker.h/.cc); [WorkerProcess]: the worker as a process
      of [System].
    - [Planner], [Scheduler], [Driver] (Driver.cc, RAII.h): planner, scheduler and run
      loop; [System]: the driver and its worker processes as one transition system; [Merge]:
      merging of shards and statistics; [DriverSetup]: options, queues, command lines of
      workers (also os/Linux.cc); [Main] (main.cc): command line and choice of the process; [ParserSource]: the parser of the compilation database
      implements the driver's interface [JobSource]; [DriverRun]: [Driver::run] and
      [driverMain], which compose all of these; [Accounting]: the totals of a run.
    - [Histories]: executions of the system with the log of every process; [EndToEnd]: the
      whole program, where each process runs [main] on its command line.
    - [OsSupport] (os/Os.cc, os/Linux.cc, FileSystem.cc), [Exceptions] (Exception.h/.cc,
      Enforce.cc, [Bomb] of RAII.h), [Reporting] (Timer.h/.cc, Logging.h/.cc,
      ProgressReporter.h/.cc), [DebugHelpers] (DebugHelpers.h/.cc and the debug texts of
      other files).

    Names of operations are the source's; where a C++ class and another one share a
    method name the class comes first ([db_finish], [tu_saveInclude], [Worker_run]).

    ** How code is modelled

    - An operation that can stop the process returns a [result]: a failed [ENFORCE] (debug
      builds, parameter [BuildMode]), an empty [std::optional], an access out of range,
      or [std::exit].  [OutOfFuel] stands for no behaviour: theorems show that it does not
      occur.
    - Objects are records that are passed along ([ST]); references to one shared object
      (the file metadata map, the package map) are threaded where they are changed.
    - Hash containers are maps or duplicate-free lists whose iteration order is a
      parameter ([HashIteration]); theorems hold for every order.
    - Byte strings are lists of bytes; fixed-width integers are [Z] with [wrap32] and
      [wrap64] written out.
    - Code that is not in the repository (Clang's AST, source manager and preprocessor,
      LLVM paths and regexes, Abseil string functions, RapidJSON, protobuf setters, the
      file system, processes) is a class of parameters; what is assumed of it is a class
      of laws ([ClangAstLaws], [LlvmPathLaws], [JsonLaws], [HashIterationLaws], ...), each
      with a concrete instance that satisfies it.

    ** What the theorems show

    - Driver and scheduler: the run loop keeps its invariant, refines the life cycle of a
      job, terminates, and with the real parser indexes a whole database
      ([driver_run_safe], [iteration_refines_lifecycle], [driver_run_terminates],
      [driver_indexes_database]); what happens on timeouts, late results and failed sends,
      and how the reported totals add up ([totals_account_for_every_task]).
    - Driver and workers together: in every state of the system, for every interleaving,
      a worker that is about to read a request can serve it, every result that waits is one
      that the driver accepts, and the operations of the driver succeed
      ([system_stays_in_step]), as long as no worker is killed before it read its request.
    - A whole run: with a well-formed database and workers that announce shards as they
      write them, [Driver::run] ends and writes an index with everything that the shards
      contain ([driver_run_writes_index], from [merge_is_total_and_complete]).
    - End to end: if the processes of the workers run the program on the command lines that
      the driver makes, in every execution, with crashes and timeouts, the driver ends and
      writes an index with what the shards contain, and every shard was written by one of
      these processes ([program_writes_index], which joins the run of the driver, the
      system, and the workers).
    - Spawning: every worker reads back the options that the driver passes, and receives
      what the driver sends it ([spawned_workers_connect]).
    - Planner: every version of every file is handed out exactly once.
    - Worker: for whatever Clang reports, it answers as the abstract protocol [serve] says
      and announces only well-formed shards ([worker_answers_in_order],
      [shard_well_formed]); its log is an execution of the process that [System] assumes,
      and its announcements are what [driver_run_writes_index] asks for
      ([worker_refines_process]).
    - Preprocessor: over the events of any include tree the reported files and hashes are
      those of the tree ([semantic_analysis_reports_tree]).
    - Formatter: the caching symbol formatter computes qualified names
      ([formatter_computes_qualified_names]); symbols can be read back.
    - Merging: forward declarations are resolved and nothing is lost; the output does not
      depend on iteration orders in deterministic mode.
    - Compilation database and command lines: the streaming parser agrees with the
      document; the command-line scanner agrees with a character automaton.
    - Paths, packages and file ids: lookups and round trips.
    - What is shown to people: backtraces end and show the frames in their order
      ([backtrace_shows_frames]), progress reports repaint one line of a terminal
      ([reports_repaint_line]).

    ** Bounds

    The command-line scanner gets [S (S len)] rounds, the fill and parse loops of the
    resumable parser one more than the pending tokens, [parse_batches] one more than the
    number of objects, the package lookup one more than the length of the path, the
    assignment loop of the driver the number of pending jobs, its shutdown loop the number
    of idle workers, the context recursion of the formatter one more than the nesting
    depth, [usingShadowSuffix] two rounds, the loop of the worker one more than the
    messages and commands that are left, the filter of backtraces the length of its text, the
    loop of [exec] one more than the length of the output.  Each bound is shown to be enough.  The bound of
    10'000 of [worklist] is the code's own.

    ** Not modelled

    Tracing (names of categories for Perfetto), the texts of log messages other than those
    of [Exceptions] and [DebugHelpers], and the conversions between string types of
    LlvmAdapter.h: strings have one type here.  The installation of signal handlers, the
    macOS variants of os/, and the wait for the processes of workers that are about to end,
    which only logs.  Protobuf serialisation and the YAML text of the preprocessor history;
    the traversal of the AST itself, which is Clang's; cxxopts, which [parseArguments]
    calls.  Declarations in headers and the set-up of Clang's options have no behaviour of
    their own to state.  The order in which messages of different processes arrive is a
    parameter of the run loop ([Round]); [System] and [Histories] derive it from executions
    of worker processes, in which a process does not give up waiting.  Tests and tools only
    call what is modelled here. *)
From Stdlib Require Export Ascii String ZArith Lia.
From Stdlib Require Export ssreflect.
From stdpp Require Export base option list gmap sets strings sorting numbers.
From Stdlib Require Export List.
From stdpp Require Export list.

#[export] Set Default Goal Selector "!".
#[export] Set Warnings "-rewrite-rw,-ssr-reserved,-level-tolerance,-register-all".
Open Scope Z_scope.
Open Scope list_scope.

(** ** Byte strings

    [std::string], [std::string_view] and [llvm::StringRef] are lists of bytes.
    [lit] turns a source literal into one. *)
Abbreviation str := (list ascii).

Definition lit (s : string) : str := list_ascii_of_string s.
Arguments lit _%_string_scope : simpl never.

Declare Scope cpp_scope.
Delimit Scope cpp_scope with cpp.
Notation "'@@' s" := (lit s) (at level 1, s at level 0, only parsing) : cpp_scope.
Open Scope cpp_scope.

(** ** Failure

    The ways an operation of the program can stop without a result: a failed
    [ENFORCE] (debug builds only), [std::optional::value()] on an empty
    optional, a container access out of range (or through an end iterator), and
    [std::exit].  [OutOfFuel] is no behaviour of the program: a loop that the
    model bounds returns it when the bound was too small, and the theorems
    about such a loop show that it never is. *)
Inductive failure : Type :=
| EnforceFailed (what : string)
| BadOptionalAccess
| OutOfRange
| OutOfFuel
| Exit (code : Z).

Inductive result (A : Type) : Type :=
| Ok (a : A)
| Err (e : failure).
Arguments Ok {A} a.
Arguments Err {A} e.

#[export] Instance failure_eq_dec : EqDecision failure.
Proof. solve_decision. Defined.
#[export] Instance result_eq_dec `{EqDecision A} : EqDecision (result A).
Proof. solve_decision. Defined.

#[export] Instance result_ret : MRet result := @Ok.
#[export] Instance result_bind : MBind result := fun A B f m =>
  match m with Ok a => f a | Err e => Err e end.
#[export] Instance result_fmap : FMap result := fun A B f m =>
  match m with Ok a => Ok (f a) | Err e => Err e end.

Definition is_ok {A} (m : result A) : bool := match m with Ok _ => true | Err _ => false end.

(** [std::optional<T>::value()]. *)
Definition optional_value {A} (o : option A) : result A :=
  match o with Some a => Ok a | None => Err BadOptionalAccess end.

(** [v\[i\]] of a vector, with the out-of-range access made visible. *)
Definition vector_at {A} (v : list A) (i : nat) : result A :=
  match v !! i with Some a => Ok a | None => Err OutOfRange end.

(** A loop over a container whose body may fail. *)
Fixpoint foldM {A S} (f : S -> A -> result S) (s : S) (l : list A) : result S :=
  match l with
  | [] => Ok s
  | x :: xs => f s x ≫= fun s' => foldM f s' xs
  end.

(** ** Build modes

    [scip_clang::debugMode] (Version.h) is a constant of the build.  Everything
    that runs an [ENFORCE] is parameterised by it, so each theorem says in
    which builds it holds. *)
Class BuildMode : Type := debugMode : bool.

Definition ENFORCE_NO_TIMER {B : BuildMode} (x : bool) (what : string)
    : result unit :=
  if debugMode then
    if negb x then Err (EnforceFailed what) else Ok ()
  else Ok ().

Definition ENFORCE {B : BuildMode} (x : bool) (what : string) : result unit :=
  if debugMode then ENFORCE_NO_TIMER x what else Ok ().

(** The flag says whether [spdlog::warn] ran. *)
Definition ENFORCE_OR_WARN {B : BuildMode} (check : bool) (what : string)
    : result bool :=
  ENFORCE check what ;; Ok (negb debugMode && check).

(** ** Lemmas on [result] *)
Lemma bind_Ok {A B} (a : A) (f : A -> result B) : (Ok a ≫= f) = f a.
Proof. done. Qed.

Lemma Ok_inj {A} (a b : A) : Ok a = Ok b -> a = b.
Proof. congruence. Qed.

Lemma bind_Ok_inv {A B} (m : result A) (f : A -> result B) b :
  m ≫= f = Ok b -> exists a, m = Ok a /\ f a = Ok b.
Proof. destruct m as [a|e]; [by exists a | done]. Qed.

Lemma fmap_Ok_inv {A B} (f : A -> B) (m : result A) b :
  f <$> m = Ok b -> exists a, m = Ok a /\ f a = b.
Proof. destruct m as [a|e]; [intros [= <-]; by exists a | done]. Qed.

Lemma ENFORCE_true {B : BuildMode} what : ENFORCE true what = Ok ().
Proof. by rewrite /ENFORCE /ENFORCE_NO_TIMER; destruct debugMode. Qed.

Lemma ENFORCE_pass {B : BuildMode} x what : x = true -> ENFORCE x what = Ok ().
Proof. intros ->; apply ENFORCE_true. Qed.

Lemma ENFORCE_debug x what :
  @ENFORCE true x what = if x then Ok () else Err (EnforceFailed what).
Proof. by destruct x. Qed.

Lemma ENFORCE_release x what : @ENFORCE false x what = Ok ().
Proof. done. Qed.

Lemma ENFORCE_Ok_inv {B : BuildMode} x what u :
  ENFORCE x what = Ok u -> debugMode = false \/ x = true.
Proof.
  rewrite /ENFORCE /ENFORCE_NO_TIMER; destruct debugMode, x; naive_solver.
Qed.

Lemma optional_value_Ok {A} (o : option A) a :
  optional_value o = Ok a <-> o = Some a.
Proof. destruct o; naive_solver. Qed.

Lemma vector_at_Ok {A} (v : list A) i a : vector_at v i = Ok a <-> v !! i = Some a.
Proof. rewrite /vector_at; destruct (v !! i); naive_solver. Qed.

Lemma foldM_app {A S} (f : S -> A -> result S) s l1 l2 :
  foldM f s (l1 ++ l2) = foldM f s l1 ≫= fun s' => foldM f s' l2.
Proof.
  revert s; induction l1 as [|x l1 IH]; intros s; [done|].
  cbn [foldM app]. destruct (f s x); [apply IH | done].
Qed.

(** An invariant kept by each step is kept by the loop. *)
Lemma foldM_invariant {A S} (P : S -> Prop) (f : S -> A -> result S) l s s' :
  (forall t x t', x ∈ l -> P t -> f t x = Ok t' -> P t') ->
  P s -> foldM f s l = Ok s' -> P s'.
Proof.
  revert s; induction l as [|x l IH]; intros s Hstep Hs; cbn [foldM].
  - by intros [= <-].
  - intros (t & Hf & Hl)%bind_Ok_inv. apply (IH t); [| |done].
    + intros u y u' Hy; apply Hstep; by apply list_elem_of_further.
    + apply (Hstep s x); [apply list_elem_of_here|done|done].
Qed.

(** A loop whose body never fails returns a value. *)
Lemma foldM_total {A S} (P : S -> Prop) (f : S -> A -> result S) l s :
  (forall t x, x ∈ l -> P t -> exists t', f t x = Ok t' /\ P t') ->
  P s -> exists s', foldM f s l = Ok s' /\ P s'.
Proof.
  revert s; induction l as [|x l IH]; intros s Hstep Hs; cbn [foldM]; [by exists s|].
  destruct (Hstep s x) as (t & -> & Ht); [apply list_elem_of_here|done|].
  apply IH; [|done]. intros u y Hy; apply Hstep; by apply list_elem_of_further.
Qed.

(** A loop with a pure body is a fold. *)
Lemma foldM_pure {A S} (f : S -> A -> result S) (g : S -> A -> S) l s :
  (forall t x, f t x = Ok (g t x)) -> foldM f s l = Ok (foldl g s l).
Proof.
  intros Hfg; revert s; induction l as [|x l IH]; intros s; [done|].
  cbn [foldM foldl]. by rewrite Hfg bind_Ok.
Qed.

Lemma foldl_invariant {A S} (P : S -> Prop) (f : S -> A -> S) l s :
  (forall t x, x ∈ l -> P t -> P (f t x)) -> P s -> P (foldl f s l).
Proof.
  revert s; induction l as [|x l IH]; intros s Hstep Hs; [done|]. simpl. apply IH.
  - intros t y Hy; apply Hstep; by apply list_elem_of_further.
  - apply Hstep; [apply list_elem_of_here|done].
Qed.

(** A fold that appends one element per item is a map. *)
Lemma foldl_snoc {A B} (f : A -> B) l acc :
  foldl (fun acc x => acc ++ [f x]) acc l = acc ++ map f l.
Proof.
  revert acc; induction l as [|x l IH]; intros acc; simpl; [by rewrite app_nil_r|].
  by rewrite IH -app_assoc.
Qed.

(** The index that accompanies an element in [for (i = 0; ...)]. *)
Lemma elem_of_enumerate {A} (l : list A) n x :
  (n, x) ∈ zip (seq 0 (length l)) l -> l !! n = Some x.
Proof.
  intros [i Hi]%list_elem_of_lookup. apply lookup_zip_Some in Hi as [Hs Hl].
  apply lookup_seq in Hs as [-> _]. done.
Qed.

(** ** Stateful operations

    [ST S A]: an operation on a state [S] that returns an [A] or fails. *)
Definition ST (S A : Type) : Type := S -> result (A * S).
#[export] Instance ST_ret {S} : MRet (ST S) := fun A a s => Ok (a, s).
#[export] Instance ST_bind {S} : MBind (ST S) := fun A B f m s =>
  match m s with Ok (a, s') => f a s' | Err e => Err e end.

Definition st_gets {S A} (f : S -> A) : ST S A := fun s => Ok (f s, s).
Definition st_modify {S} (f : S -> S) : ST S unit := fun s => Ok ((), f s).
Definition st_lift {S A} (m : result A) : ST S A := fun s => a ← m; Ok (a, s).

(** [if (!opt.has_value()) { return {}; }]. *)
Definition st_optional {S A B} (o : option A) (k : A -> ST S (option B)) : ST S (option B) :=
  match o with Some a => k a | None => mret None end.

Lemma ST_bind_unfold {S A B} (m : ST S A) (f : A -> ST S B) s :
  (m ≫= f) s = match m s with Ok (a, s') => f a s' | Err e => Err e end.
Proof. done. Qed.

Lemma ST_bind_Ok {S A B} (m : ST S A) (f : A -> ST S B) s a s' :
  m s = Ok (a, s') -> (m ≫= f) s = f a s'.
Proof. intros H. by rewrite ST_bind_unfold H. Qed.

Lemma ST_bind_inv {S A B} (m : ST S A) (f : A -> ST S B) s b s'' :
  (m ≫= f) s = Ok (b, s'') -> exists a s', m s = Ok (a, s') /\ f a s' = Ok (b, s'').
Proof. rewrite ST_bind_unfold. destruct (m s) as [[a s']|]; [by exists a, s'|done]. Qed.

Lemma st_lift_inv {S A} (m : result A) (s : S) a s' :
  st_lift m s = Ok (a, s') -> m = Ok a /\ s' = s.
Proof. unfold st_lift. destruct m; [|done]. intros [= -> ->]. done. Qed.

(** ** Machine integers *)
Definition wrap32 (z : Z) : Z := z mod 2 ^ 32.
Definition wrap64 (z : Z) : Z := z mod 2 ^ 64.
(** A value of [uint32_t] converted to [int32_t]. *)
Definition to_int32 (z : Z) : Z := if wrap32 z <? 2 ^ 31 then wrap32 z else wrap32 z - 2 ^ 32.
Definition uint32 (z : Z) : Prop := 0 <= z < 2 ^ 32.
Definition uint64 (z : Z) : Prop := 0 <= z < 2 ^ 64.

Lemma wrap32_range z : uint32 (wrap32 z).
Proof. apply Z.mod_pos_bound; lia. Qed.
Lemma wrap64_range z : uint64 (wrap64 z).
Proof. apply Z.mod_pos_bound; lia. Qed.
Lemma wrap32_small z : uint32 z -> wrap32 z = z.
Proof. apply Z.mod_small. Qed.
Lemma wrap64_small z : uint64 z -> wrap64 z = z.
Proof. apply Z.mod_small. Qed.

(** ** Lists *)
Lemma existsb_In {A} (f : A -> bool) l :
  existsb f l = true <-> exists x, x ∈ l /\ f x = true.
Proof.
  rewrite existsb_exists. by setoid_rewrite list_elem_of_In.
Qed.

Lemma forallb_In {A} (f : A -> bool) l :
  forallb f l = true <-> forall x, x ∈ l -> f x = true.
Proof.
  rewrite forallb_forall. by setoid_rewrite list_elem_of_In.
Qed.

(** ** Automation *)
Create HintDb result discriminated.
Create Rewrite HintDb result_rw.
#[export] Hint Rewrite @bind_Ok @ENFORCE_true : result_rw.
#[export] Hint Resolve ENFORCE_true wrap32_range wrap64_range : result.

(** Takes a hypothesis [m = Ok r] about a chain of binds apart. *)
Ltac inv_ok :=
  repeat match goal with
  | H : Ok _ = Ok _ |- _ => injection H as H; subst
  | H : Err _ = Ok _ |- _ => discriminate H
  | H : (_ ≫= _) = Ok _ |- _ =>
      let a := fresh "a" in let E := fresh "E" in
      apply bind_Ok_inv in H as (a & E & H)
  | H : (_ <$> _) = Ok _ |- _ =>
      let a := fresh "a" in let E := fresh "E" in
      apply fmap_Ok_inv in H as (a & E & H)
  | H : optional_value _ = Ok _ |- _ => apply optional_value_Ok in H
  | H : vector_at _ _ = Ok _ |- _ => apply vector_at_Ok in H
  end; simplify_eq/=.
