(* ===== verification/Worklist.v ===== *)
(** * Bounded depth-first search

    [saveTagDecl] (Indexer.cc) and [tryResolveMember] (ApproximateNameResolver.cc)
    walk a graph with the same loop: a stack, a set of what was seen, and a limit on
    the number of iterations after which the loop gives up.  The loop is here once,
    with what it computes when the limit is large enough. *)
From S2P Require Import Prelude.

Section Worklist.
Context {A S : Type} `{Countable A}.

(** The body of the loop for an element that was not seen: the new state, and what it
    pushes, the top of the stack first. *)
Variable visit : S -> A -> result (S * list A).

(** The stack has its top first; [bound] iterations are left. *)
Fixpoint worklist (bound : nat) (stack : list A) (seen : gset A) (s : S) : result S :=
  match stack with
  | [] => Ok s
  | x :: stack =>
      match bound with
      | O => Ok s
      | Datatypes.S bound =>
          if bool_decide (x ∈ seen) then worklist bound stack seen s
          else
            r ← visit s x;
            worklist bound (r.2 ++ stack) ({[x]} ∪ seen) r.1
      end
  end.

(** What the body keeps, the loop keeps. *)
Lemma worklist_invariant (P : S -> Prop) (Q : failure -> Prop) bound stack seen s :
  (forall s x, P s -> match visit s x with Ok (s', _) => P s' | Err e => Q e end) ->
  P s -> match worklist bound stack seen s with Ok s' => P s' | Err e => Q e end.
Proof.
  intros Hv. revert stack seen s. induction bound as [|bound IH]; intros stack seen s Hs.
  { by destruct stack. }
  destruct stack as [|x stack]; [done|]. cbn [worklist]. case_bool_decide; [by apply IH|].
  specialize (Hv s x Hs). destruct (visit s x) as [[s' pushed]|e]; [|done]. by apply IH.
Qed.

(** ** What it visits *)
Variable succ : A -> list A.

Inductive reach (seen : gset A) : list A -> A -> Prop :=
| reach_root l x : x ∈ l -> x ∉ seen -> reach seen l x
| reach_step l x y : reach seen l x -> y ∈ succ x -> y ∉ seen -> reach seen l y.

(** [vs] is visited in this order, starting from [s]. *)
Definition visits (s : S) (vs : list A) : result S := foldM (fun s x => fst <$> visit s x) s vs.

Definition pushes (l : list A) : nat := sum_list_with (fun x => length (succ x)) l.

Lemma pushes_app l1 l2 : pushes (l1 ++ l2) = (pushes l1 + pushes l2)%nat.
Proof. apply sum_list_with_app. Qed.

Lemma reach_mono seen l l' x : l ⊆ l' -> reach seen l x -> reach seen l' x.
Proof.
  intros Hl. induction 1 as [l x Hx Hs|l x y Hx IH Hy Hs]; [constructor; set_solver|].
  apply (reach_step _ _ x); [by apply IH|done|done].
Qed.

Lemma reach_seen_cons seen x stack y :
  x ∈ seen -> reach seen (x :: stack) y <-> reach seen stack y.
Proof.
  intros Hx. split; [|apply reach_mono; set_solver].
  remember (x :: stack) as l eqn:El. induction 1 as [l y Hy Hs|l z y Hz IH Hy Hs]; subst l.
  - apply elem_of_cons in Hy as [->|Hy]; [done|by constructor].
  - apply (reach_step _ _ z); [by apply IH|done|done].
Qed.

(** Visiting [x] leaves what can be reached without it. *)
Lemma reach_visit seen x stack y :
  x ∉ seen ->
  reach seen (x :: stack) y <-> y = x \/ reach ({[x]} ∪ seen) (succ x ++ stack) y.
Proof.
  intros Hx. split.
  - remember (x :: stack) as l eqn:El. induction 1 as [l y Hy Hs|l z y Hz IH Hy Hs]; subst l.
    + apply elem_of_cons in Hy as [->|Hy]; [by left|].
      destruct (decide (y = x)) as [->|]; [by left|]. right. constructor; set_solver.
    + destruct (decide (y = x)) as [->|]; [by left|]. right.
      destruct (IH eq_refl) as [->|Hr]; [constructor; set_solver|].
      apply (reach_step _ _ z); [done|done|set_solver].
  - intros [->|Hr]; [constructor; [by left|done]|].
    remember ({[x]} ∪ seen) as seen' eqn:Es. remember (succ x ++ stack) as l eqn:El.
    induction Hr as [l y Hy Hs|l z y Hz IH Hy Hs]; subst.
    + apply elem_of_app in Hy as [Hy|Hy].
      * apply (reach_step _ _ x); [constructor; [by left|done]|done|set_solver].
      * constructor; [by right|set_solver].
    + apply (reach_step _ _ z); [by apply IH|done|set_solver].
Qed.

(** A region that contains what can be reached, and its weight. *)
Definition region (seen : gset A) (stack region : list A) : Prop :=
  NoDup region /\ forall y, reach seen stack y -> y ∈ region.

Lemma region_visit seen x stack R :
  x ∉ seen -> region seen (x :: stack) R ->
  exists R', region ({[x]} ∪ seen) (succ x ++ stack) R'
    /\ pushes R = (length (succ x) + pushes R')%nat.
Proof.
  intros Hx [Hnd HR]. assert (x ∈ R) as Hin by (apply HR; constructor; [by left|done]).
  apply elem_of_Permutation in Hin as [R' HP]. exists R'. split.
  - rewrite HP in Hnd. apply NoDup_cons in Hnd as [Hni Hnd]. split; [done|].
    intros y Hy. assert (y ∈ R) as HyR by (apply HR, reach_visit; [done|by right]).
    rewrite HP in HyR. apply elem_of_cons in HyR as [->|]; [|done].
    exfalso. revert Hy. clear. intros Hy. remember ({[x]} ∪ seen) as s eqn:E.
    destruct Hy; subst; set_solver.
  - unfold pushes. by rewrite HP.
Qed.

(** With enough iterations the loop visits what can be reached, each element once. *)
Lemma worklist_visits bound stack seen s R :
  (forall s x s' pushed, visit s x = Ok (s', pushed) -> pushed ≡ₚ succ x) ->
  region seen stack R -> (length stack + pushes R <= bound)%nat ->
  (exists vs s', visits s vs = Ok s' /\ worklist bound stack seen s = Ok s'
    /\ NoDup vs /\ forall y, y ∈ vs <-> reach seen stack y)
  \/ (exists vs x s' e, visits s vs = Ok s' /\ reach seen stack x /\ visit s' x = Err e
        /\ worklist bound stack seen s = Err e /\ forall y, y ∈ vs -> reach seen stack y).
Proof.
  intros Hsucc. revert stack seen s R. induction bound as [|bound IH]; intros stack seen s R HR Hb.
  - destruct stack as [|x stack]; [|simpl in Hb; lia]. left. exists [], s.
    split_and!; [done..|constructor|]. intros y. rewrite elem_of_nil. split; [done|].
    remember [] as l eqn:El. induction 1; subst; [set_solver|auto].
  - destruct stack as [|x stack]; simpl in *.
    { left. exists [], s. split_and!; [done..|constructor|]. intros y. rewrite elem_of_nil.
      split; [done|]. remember [] as l eqn:El. induction 1; subst; [set_solver|auto]. }
    case_bool_decide as Hx.
    + assert (region seen stack R) as HR'.
      { destruct HR as [Hnd HR]. split; [done|]. intros y Hy. apply HR. by apply reach_seen_cons. }
      destruct (IH stack seen s R HR') as
        [(vs & s' & H1 & H2 & Hnd & Hvs)|(vs & z & s' & e & H1 & Hz & H2 & H3 & Hvs)]; [lia| |].
      * left. exists vs, s'. split_and!; [done..|]. intros y. by rewrite reach_seen_cons.
      * right. exists vs, z, s', e. split_and!; [done|by apply reach_seen_cons|done..|].
        intros y Hy. by apply reach_seen_cons, Hvs.
    + destruct (visit s x) as [[s1 pushed]|e] eqn:Ev; simpl.
      2: { right. exists [], x, s, e. split_and!; [done|constructor; [by left|done]|done..|].
        intros y ?%elem_of_nil. done. }
      pose proof (Hsucc _ _ _ _ Ev) as HP.
      destruct (region_visit seen x stack R Hx HR) as (R' & [Hnd' HR'] & Hp).
      assert (forall y, reach ({[x]} ∪ seen) (pushed ++ stack) y
                <-> reach ({[x]} ∪ seen) (succ x ++ stack) y) as Hr.
      { intros y. split; apply reach_mono; intros z; rewrite HP; done. }
      assert (region ({[x]} ∪ seen) (pushed ++ stack) R') as HRp.
      { split; [done|]. intros y Hy. by apply HR', Hr. }
      destruct (IH (pushed ++ stack) ({[x]} ∪ seen) s1 R' HRp) as
        [(vs & s' & H1 & H2 & Hnd & Hvs)|(vs & z & s' & e & H1 & Hz & H2 & H3 & Hvs)].
      { rewrite length_app HP. lia. }
      * left. exists (x :: vs), s'. split_and!; [by rewrite /visits /= Ev| done | |].
        -- constructor; [|done]. rewrite Hvs. intros Hxr. clear -Hxr.
           remember ({[x]} ∪ seen) as t eqn:E. destruct Hxr; subst; set_solver.
        -- intros y. rewrite elem_of_cons Hvs Hr. symmetry. by apply reach_visit.
      * right. exists (x :: vs), z, s', e. split_and!; [by rewrite /visits /= Ev| |done|done|].
        -- apply reach_visit; [done|]. right. by apply Hr.
        -- intros y [->|Hy]%elem_of_cons; [constructor; [by left|done]|].
           apply reach_visit; [done|]. right. by apply Hr, Hvs.
Qed.
End Worklist.
