(* ===== verification/Ordering.v ===== *)
(** * Three-way comparison and ordered extraction

    Comparison.h, Comparison.cc and Derive.h give every type of the indexer a
    [std::strong_ordering]; AbslExtras.h uses it to take hash containers apart
    in a deterministic order.  [std::strong_ordering] is [comparison], and the
    laws a comparison must have for sorting are the class [StrongOrdering]. *)
From S2P Require Import Prelude.

(** ** The laws of [std::strong_ordering] *)
Class StrongOrdering {A} (cmp : A -> A -> comparison) : Prop := {
  cmp_antisym x y : cmp y x = CompOpp (cmp x y);
  cmp_eq_l x y z : cmp x y = Eq -> cmp x z = cmp y z;
  cmp_lt_trans x y z : cmp x y = Lt -> cmp y z = Lt -> cmp x z = Lt;
}.

(** Comparison that distinguishes everything it is given. *)
Class ExactOrdering {A} (cmp : A -> A -> comparison) : Prop := {
  exact_strong :: StrongOrdering cmp;
  cmp_eq_exact x y : cmp x y = Eq -> x = y;
}.

Section Laws.
Context {A : Type} (cmp : A -> A -> comparison) `{!StrongOrdering cmp}.

Lemma cmp_refl x : cmp x x = Eq.
Proof.
  pose proof (cmp_antisym x x) as H. by destruct (cmp x x).
Qed.

Lemma cmp_sym_eq x y : cmp x y = Eq -> cmp y x = Eq.
Proof. rewrite (cmp_antisym x y). by intros ->. Qed.

Lemma cmp_eq_r x y z : cmp x y = Eq -> cmp z x = cmp z y.
Proof.
  intros H. rewrite (cmp_antisym x z) (cmp_antisym y z). f_equal.
  by apply cmp_eq_l.
Qed.

Lemma cmp_gt_lt x y : cmp x y = Gt <-> cmp y x = Lt.
Proof. rewrite (cmp_antisym y x). destruct (cmp y x); naive_solver. Qed.

Definition cmp_le (x y : A) : Prop := cmp x y <> Gt.

#[global] Instance cmp_le_dec x y : Decision (cmp_le x y).
Proof. unfold cmp_le. destruct (cmp x y); (by left) || (right; naive_solver). Defined.

#[global] Instance cmp_le_total : Total cmp_le.
Proof.
  intros x y. unfold cmp_le. rewrite (cmp_antisym x y).
  destruct (cmp x y); naive_solver.
Qed.

#[global] Instance cmp_le_trans : Transitive cmp_le.
Proof.
  intros x y z Hxy Hyz. unfold cmp_le in *.
  destruct (cmp x y) eqn:E1; [by rewrite (cmp_eq_l _ _ _ E1)| |done].
  destruct (cmp y z) eqn:E2; [|by rewrite (cmp_lt_trans _ _ _ E1 E2)|done].
  by rewrite -(cmp_eq_r _ _ x E2) E1.
Qed.

Lemma cmp_le_antisym_eq x y : cmp_le x y -> cmp_le y x -> cmp x y = Eq.
Proof.
  unfold cmp_le. rewrite (cmp_antisym x y). destruct (cmp x y); naive_solver.
Qed.
End Laws.

Lemma cmp_exact_iff {A} (cmp : A -> A -> comparison) `{!ExactOrdering cmp} x y :
  cmp x y = Eq <-> x = y.
Proof. split; [apply cmp_eq_exact | intros ->; apply cmp_refl; apply _]. Qed.

(** ** The macros of Comparison.h

    [CMP_CHECK] returns from the enclosing [operator<=>] unless the
    sub-comparison is equal; the rest of the function is the continuation. *)
Definition CMP_CHECK (c k : comparison) : comparison :=
  match c with Eq => k | c => c end.

Definition CMP_EXPR {A} (cmp : A -> A -> comparison) (x y : A) (k : comparison) :=
  CMP_CHECK (cmp x y) k.

Lemma CMP_CHECK_eq c k : CMP_CHECK c k = Eq <-> c = Eq /\ k = Eq.
Proof. destruct c; simpl; intuition congruence. Qed.
Lemma CMP_CHECK_assoc a b c : CMP_CHECK (CMP_CHECK a b) c = CMP_CHECK a (CMP_CHECK b c).
Proof. by destruct a. Qed.
Lemma CMP_CHECK_Eq_r c : CMP_CHECK c Eq = c.
Proof. by destruct c. Qed.
Create Rewrite HintDb cmp.
#[export] Hint Rewrite CMP_CHECK_assoc CMP_CHECK_Eq_r : cmp.

(** Comparing through a projection, and one comparison after another. *)
Definition cmp_on {A B} (f : A -> B) (cmp : B -> B -> comparison) : A -> A -> comparison :=
  fun x y => cmp (f x) (f y).
Definition cmp_then {A} (c1 c2 : A -> A -> comparison) : A -> A -> comparison :=
  fun x y => CMP_CHECK (c1 x y) (c2 x y).

#[export] Instance cmp_on_strong {A B} (f : A -> B) cmp `{!StrongOrdering cmp} :
  StrongOrdering (cmp_on f cmp).
Proof.
  unfold cmp_on. split; intros.
  - apply cmp_antisym.
  - by apply cmp_eq_l.
  - by eapply cmp_lt_trans.
Qed.

#[export] Instance cmp_then_strong {A} (c1 c2 : A -> A -> comparison)
    `{!StrongOrdering c1, !StrongOrdering c2} : StrongOrdering (cmp_then c1 c2).
Proof.
  unfold cmp_then. split.
  - intros x y. rewrite (cmp_antisym (cmp:=c1) x y) (cmp_antisym (cmp:=c2) x y).
    by destruct (c1 x y).
  - intros x y z [H1 H2]%CMP_CHECK_eq.
    by rewrite (cmp_eq_l _ _ z H1) (cmp_eq_l _ _ z H2).
  - intros x y z Hxy Hyz.
    destruct (c1 x y) eqn:E1; simpl in Hxy; [| |done].
    + rewrite (cmp_eq_l _ _ z E1). destruct (c1 y z); simpl in *; [|done|done].
      by eapply cmp_lt_trans.
    + destruct (c1 y z) eqn:E2; simpl in Hyz; [| |done].
      * by rewrite -(cmp_eq_r _ _ _ x E2) E1.
      * by rewrite (cmp_lt_trans _ _ _ E1 E2).
Qed.

Lemma cmp_on_exact {A B} (f : A -> B) cmp `{!ExactOrdering cmp} :
  Inj (=) (=) f -> ExactOrdering (cmp_on f cmp).
Proof.
  intros Hf. split; [apply _|]. intros x y H. by apply Hf, (cmp_eq_exact (cmp:=cmp)).
Qed.

Lemma cmp_ext {A} (c1 c2 : A -> A -> comparison) :
  (forall x y, c1 x y = c2 x y) -> StrongOrdering c1 -> StrongOrdering c2.
Proof.
  intros H [Ha He Ht]. split.
  - intros x y. by rewrite -!H.
  - intros x y z. rewrite -!H. apply He.
  - intros x y z. rewrite -!H. apply Ht.
Qed.

(** ** Built-in comparisons *)
Definition cmp_bool (x y : bool) : comparison :=
  match x, y with
  | false, true => Lt
  | true, false => Gt
  | _, _ => Eq
  end.

#[export] Instance Z_compare_exact : ExactOrdering Z.compare.
Proof.
  split; [split|].
  - intros. apply Z.compare_antisym.
  - by intros x y z ->%Z.compare_eq.
  - intros x y z. rewrite !Z.compare_lt_iff. lia.
  - by intros x y ->%Z.compare_eq.
Qed.
#[export] Instance nat_compare_exact : ExactOrdering Nat.compare.
Proof.
  split; [split|].
  - intros. apply Nat.compare_antisym.
  - by intros x y z ->%Nat.compare_eq.
  - intros x y z. rewrite !Nat.compare_lt_iff. lia.
  - by intros x y ->%Nat.compare_eq.
Qed.
#[export] Instance cmp_bool_exact : ExactOrdering cmp_bool.
Proof.
  split; [split|]; intros; repeat match goal with b : bool |- _ => destruct b end; done.
Qed.
#[export] Instance ascii_compare_exact : ExactOrdering Ascii.compare.
Proof.
  split; [split|].
  - intros. apply Ascii.compare_antisym.
  - by intros x y z ->%Ascii.compare_eq_iff.
  - intros x y z. unfold Ascii.compare. rewrite !N.compare_lt_iff. lia.
  - by intros x y ->%Ascii.compare_eq_iff.
Qed.

(** ** [cmp::compareRange] *)
Definition compareRange_by {A} (f : A -> A -> comparison) (c1 c2 : list A) : comparison :=
  CMP_CHECK (Nat.compare (length c1) (length c2))
    (foldr (fun '(x, y) k => CMP_CHECK (f x y) k) Eq (zip c1 c2)).

Section compareRange.
Context {A : Type} (f : A -> A -> comparison).

Lemma compareRange_nil : compareRange_by f [] [] = Eq.
Proof. done. Qed.

Lemma compareRange_cons x y l1 l2 :
  length l1 = length l2 ->
  compareRange_by f (x :: l1) (y :: l2) = CMP_CHECK (f x y) (compareRange_by f l1 l2).
Proof.
  intros H. unfold compareRange_by; simpl. rewrite H !Nat.compare_refl. done.
Qed.

Lemma compareRange_length l1 l2 :
  compareRange_by f l1 l2 = Eq -> length l1 = length l2.
Proof. unfold compareRange_by. by intros [H%Nat.compare_eq _]%CMP_CHECK_eq. Qed.

(** Different sizes: the elements do not matter. *)
Lemma compareRange_size_first l1 l2 :
  length l1 <> length l2 ->
  compareRange_by f l1 l2 = Nat.compare (length l1) (length l2).
Proof.
  rewrite -Nat.compare_eq_iff. unfold compareRange_by.
  by destruct (Nat.compare _ _).
Qed.

Lemma compareRange_lt_length l1 l2 :
  compareRange_by f l1 l2 = Lt -> (length l1 <= length l2)%nat.
Proof.
  unfold compareRange_by.
  destruct (Nat.compare (length l1) (length l2)) eqn:E; simpl; [|by apply Nat.compare_lt_iff in E; lia|done].
  apply Nat.compare_eq in E. lia.
Qed.

Lemma compareRange_lt_size l1 l2 :
  (length l1 < length l2)%nat -> compareRange_by f l1 l2 = Lt.
Proof.
  intros H. rewrite -> compareRange_size_first by lia. by apply Nat.compare_lt_iff.
Qed.

Context `{!StrongOrdering f}.

Lemma compareRange_antisym l1 l2 :
  compareRange_by f l2 l1 = CompOpp (compareRange_by f l1 l2).
Proof.
  destruct (decide (length l1 = length l2)) as [Hl|Hl].
  - revert l2 Hl. induction l1 as [|x l1 IH]; intros [|y l2] Hl; try done.
    injection Hl as Hl. rewrite !compareRange_cons // (cmp_antisym x y) IH //. by destruct (f x y).
  - rewrite -> !compareRange_size_first by lia. apply Nat.compare_antisym.
Qed.

Lemma compareRange_eq_l l1 l2 l3 :
  compareRange_by f l1 l2 = Eq -> compareRange_by f l1 l3 = compareRange_by f l2 l3.
Proof.
  intros H. pose proof (compareRange_length _ _ H) as Hl.
  destruct (decide (length l2 = length l3)) as [Hl3|Hl3].
  - revert l2 l3 H Hl Hl3.
    induction l1 as [|x l1 IH]; intros [|y l2] [|z l3] H; try done.
    intros [= Hl] [= Hl3]. rewrite compareRange_cons // in H.
    apply CMP_CHECK_eq in H as [H1 H2].
    rewrite -> !compareRange_cons by lia.
    by rewrite (cmp_eq_l _ _ z H1) (IH l2).
  - rewrite -> !compareRange_size_first by lia. by rewrite Hl.
Qed.

Lemma compareRange_lt_trans l1 l2 l3 :
  compareRange_by f l1 l2 = Lt -> compareRange_by f l2 l3 = Lt ->
  compareRange_by f l1 l3 = Lt.
Proof.
  intros H12 H23.
  pose proof (compareRange_lt_length _ _ H12). pose proof (compareRange_lt_length _ _ H23).
  destruct (decide (length l1 = length l3)) as [H13|H13];
    [|apply compareRange_lt_size; lia].
  assert (length l1 = length l2) as E12 by lia.
  assert (length l2 = length l3) as E23 by lia.
  clear H H0 H13. revert l2 l3 H12 H23 E12 E23.
  induction l1 as [|x l1 IH]; intros [|y l2] [|z l3] H12 H23; try done.
  intros [= E12] [= E23]. rewrite -> compareRange_cons in * by lia.
  destruct (f x y) eqn:Exy; simpl in H12; [| |done].
  - rewrite (cmp_eq_l _ _ z Exy).
    destruct (f y z); simpl in *; [by eapply (IH l2)|done|done].
  - destruct (f y z) eqn:Eyz; simpl in H23; [| |done].
    + by rewrite -(cmp_eq_r f _ _ x Eyz) Exy.
    + by rewrite (cmp_lt_trans _ _ _ Exy Eyz).
Qed.

#[global] Instance compareRange_strong : StrongOrdering (compareRange_by f).
Proof.
  split; [apply compareRange_antisym|apply compareRange_eq_l|apply compareRange_lt_trans].
Qed.
End compareRange.

#[export] Instance compareRange_exact {A} (f : A -> A -> comparison) `{!ExactOrdering f} :
  ExactOrdering (compareRange_by f).
Proof.
  split; [apply _|]. intros l1 l2 H. pose proof (compareRange_length _ _ _ H) as Hl.
  revert l2 H Hl. induction l1 as [|x l1 IH]; intros [|y l2] H Hl; try done.
  injection Hl as Hl. rewrite compareRange_cons // in H.
  apply CMP_CHECK_eq in H as [->%cmp_eq_exact H]. f_equal. by apply IH.
Qed.

Lemma compareRange_ext {A} (f g : A -> A -> comparison) l1 l2 :
  (forall x y, f x y = g x y) -> compareRange_by f l1 l2 = compareRange_by g l1 l2.
Proof.
  intros Hfg. unfold compareRange_by. f_equal.
  induction (zip l1 l2) as [|[x y] l IH]; simpl; [done|]. by rewrite Hfg IH.
Qed.

(** The two-argument overload compares the elements with their own [<=>]. *)
Definition compareRange := @compareRange_by.
Arguments compareRange {A} f c1 c2.

(** ** [cmp::compareStrings]

    [memcmp] of the first [n] bytes: the difference of the first pair of bytes
    that differ, as unsigned characters (the code uses its sign only). *)
Fixpoint memcmp (s1 s2 : str) (n : nat) : Z :=
  match n, s1, s2 with
  | S n', c1 :: s1', c2 :: s2' =>
      let d := Z.of_N (N_of_ascii c1) - Z.of_N (N_of_ascii c2) in
      if d =? 0 then memcmp s1' s2' n' else d
  | _, _, _ => 0
  end.

Inductive Comparison : Type := Greater | Equal | Less.

Definition comparisonToStrongOrdering (c : Comparison) : comparison :=
  match c with Greater => Gt | Equal => Eq | Less => Lt end.

Definition compareStrings (s1 s2 : str) : Comparison :=
  let s1size := length s1 in
  let s2size := length s2 in
  if (s1size <? s2size)%nat then Less
  else if (s2size <? s1size)%nat then Greater
  else
    let c := memcmp s1 s2 s2size in
    if c <? 0 then Less
    else if c =? 0 then Equal
    else Greater.

(** [operator<=>] of [CmpStr]; [CMP_STR] is [CMP_EXPR] with it. *)
Definition CmpStr (s1 s2 : str) : comparison :=
  comparisonToStrongOrdering (compareStrings s1 s2).
Definition CMP_STR (s1 s2 : str) (k : comparison) : comparison := CMP_EXPR CmpStr s1 s2 k.

Lemma memcmp_sign (s1 s2 : str) :
  length s1 = length s2 ->
  Z.compare (memcmp s1 s2 (length s2)) 0 = compareRange_by Ascii.compare s1 s2.
Proof.
  revert s2; induction s1 as [|a s1 IH]; intros [|b s2] Hl; try done.
  injection Hl as Hl. rewrite compareRange_cons // -IH //=.
  unfold Ascii.compare.
  destruct (Z.eqb_spec (Z.of_N (N_of_ascii a) - Z.of_N (N_of_ascii b)) 0) as [E|E].
  - replace (N_of_ascii a) with (N_of_ascii b) by lia. by rewrite N.compare_refl.
  - destruct (N.compare_spec (N_of_ascii a) (N_of_ascii b)) as [H|H|H]; simpl.
    + lia.
    + apply Z.compare_lt_iff. lia.
    + apply Z.compare_gt_iff. lia.
Qed.

(** The string comparison is the size-first range comparison of bytes. *)
Lemma CmpStr_compareRange s1 s2 : CmpStr s1 s2 = compareRange_by Ascii.compare s1 s2.
Proof.
  unfold CmpStr, compareStrings.
  destruct (Nat.ltb_spec (length s1) (length s2)).
  { by rewrite compareRange_lt_size. }
  destruct (Nat.ltb_spec (length s2) (length s1)).
  { rewrite -> compareRange_size_first by lia. symmetry. by apply Nat.compare_gt_iff. }
  rewrite -memcmp_sign; [lia|].
  destruct (Z.ltb_spec (memcmp s1 s2 (length s2)) 0); [symmetry; by apply Z.compare_lt_iff|].
  destruct (Z.eqb_spec (memcmp s1 s2 (length s2)) 0) as [->|]; [done|].
  symmetry; apply Z.compare_gt_iff; lia.
Qed.

#[export] Instance CmpStr_exact : ExactOrdering CmpStr.
Proof.
  split; [eapply cmp_ext; [|apply (compareRange_strong Ascii.compare)]|].
  - intros x y. symmetry. apply CmpStr_compareRange.
  - intros x y. rewrite CmpStr_compareRange. apply cmp_eq_exact.
Qed.

(** ** [extractTransform] (AbslExtras.h)

    A hash container is the list of its entries in the order [begin()] would
    yield them, which the hash function and the insertion history decide.  The
    callback updates a state. *)
Section extractTransform.
Context {T S : Type} (cmp : T -> T -> comparison).

(** [absl::c_sort] with [operator<]. *)
Definition c_sort (entries : list T) : list T := merge_sort (cmp_le cmp) entries.

(** The [flat_hash_set] overload. *)
Definition extractTransform_set (set : list T) (deterministic : bool)
    (f : S -> T -> S) (s : S) : S :=
  if negb deterministic then foldl f s set
  else foldl f s (c_sort set).
End extractTransform.

Section extractTransform_map.
Context {K V S : Type} (cmp : K -> K -> comparison).

(** The [flat_hash_map] overload: entries are compared by their keys. *)
Definition extractTransform_map (map : list (K * V)) (deterministic : bool)
    (f : S -> K -> V -> S) (s : S) : S :=
  if negb deterministic then foldl (fun s kv => f s kv.1 kv.2) s map
  else foldl (fun s kv => f s kv.1 kv.2) s (c_sort (cmp_on fst cmp) map).
End extractTransform_map.

Section sort_facts.
Context {T : Type} (cmp : T -> T -> comparison) `{!StrongOrdering cmp}.

Lemma c_sort_Permutation l : c_sort cmp l ≡ₚ l.
Proof. apply merge_sort_Permutation. Qed.

Lemma c_sort_sorted l : StronglySorted (cmp_le cmp) (c_sort cmp l).
Proof. apply StronglySorted_merge_sort; apply _. Qed.

Lemma c_sort_elem_of l x : x ∈ c_sort cmp l <-> x ∈ l.
Proof. by rewrite c_sort_Permutation. Qed.

(** Any sorting of entries that the comparison tells apart gives the same
    list: the choice of sorting algorithm does not matter. *)
Lemma sorted_permutation_unique l1 l2 :
  (forall x y, x ∈ l1 -> y ∈ l1 -> cmp x y = Eq -> x = y) ->
  StronglySorted (cmp_le cmp) l1 -> StronglySorted (cmp_le cmp) l2 ->
  l1 ≡ₚ l2 -> l1 = l2.
Proof.
  intros Hinj H1 H2 HP.
  apply (Sorted_unique_strong (cmp_le cmp)); [| | |done].
  - intros x y Hx Hy Hle Hge. apply Hinj; [done|by rewrite HP|].
    by apply cmp_le_antisym_eq.
  - by apply StronglySorted_Sorted.
  - by apply StronglySorted_Sorted.
Qed.

Lemma c_sort_order_irrelevant l1 l2 :
  (forall x y, x ∈ l1 -> y ∈ l1 -> cmp x y = Eq -> x = y) ->
  l1 ≡ₚ l2 -> c_sort cmp l1 = c_sort cmp l2.
Proof.
  intros Hinj HP. apply sorted_permutation_unique.
  - intros x y. rewrite !c_sort_elem_of. apply Hinj.
  - apply c_sort_sorted.
  - apply c_sort_sorted.
  - by rewrite !c_sort_Permutation.
Qed.
End sort_facts.

(** Without equal elements a sorted list is strictly sorted. *)
Lemma sorted_strictly {T B} (cmp : T -> T -> comparison) (f : T -> B) l :
  (forall x y, cmp x y = Eq -> f x = f y) -> NoDup (f <$> l) ->
  StronglySorted (cmp_le cmp) l -> StronglySorted (fun x y => cmp x y = Lt) l.
Proof.
  intros Hf Hnd. induction 1 as [|x l Hs IH Hx]; [constructor|].
  rewrite fmap_cons in Hnd. apply NoDup_cons in Hnd as [Hni Hnd]. constructor; [by apply IH|].
  apply Forall_forall. intros y Hy. rewrite Forall_forall in Hx. specialize (Hx y Hy).
  unfold cmp_le in Hx. destruct (cmp x y) eqn:E; [|done|done].
  destruct Hni. rewrite (Hf _ _ E). apply list_elem_of_fmap. by exists y.
Qed.

(** Distinct keys make entries distinguishable by key. *)
Lemma NoDup_fst_inj {K V} (l : list (K * V)) (x y : K * V) :
  NoDup l.*1 -> x ∈ l -> y ∈ l -> x.1 = y.1 -> x = y.
Proof.
  intros Hnd Hx Hy Hf. destruct x as [k v], y as [k' v']; simpl in Hf; subst k'.
  induction l as [|[a b] l IH]; [by apply not_elem_of_nil in Hx|].
  apply NoDup_cons in Hnd as [Hni Hnd].
  assert (forall w, (k, w) ∈ l -> k ∈ l.*1) as Hin.
  { intros w Hw. apply list_elem_of_fmap. by exists (k, w). }
  apply elem_of_cons in Hx as [[= <- <-]|Hx]; apply elem_of_cons in Hy as [[= ]|Hy];
    subst; try done; try (exfalso; apply Hni; eauto; fail). by apply IH.
Qed.

Section extract_facts.
Context {K V S : Type} (cmp : K -> K -> comparison) `{!ExactOrdering cmp}.

(** In deterministic mode the sequence of callbacks depends on the entries
    only, not on the iteration order of the container. *)
Lemma extractTransform_map_order_irrelevant (f : S -> K -> V -> S) s m1 m2 :
  NoDup m1.*1 -> m1 ≡ₚ m2 ->
  extractTransform_map cmp m1 true f s = extractTransform_map cmp m2 true f s.
Proof.
  intros Hnd HP. unfold extractTransform_map; simpl. f_equal.
  apply c_sort_order_irrelevant; [apply _| |done].
  intros x y Hx Hy He. apply (NoDup_fst_inj m1); [done..|].
  by apply (cmp_eq_exact (cmp:=cmp)).
Qed.

Lemma extractTransform_set_order_irrelevant (f : S -> K -> S) s m1 m2 :
  m1 ≡ₚ m2 ->
  extractTransform_set cmp m1 true f s = extractTransform_set cmp m2 true f s.
Proof.
  intros HP. unfold extractTransform_set; simpl. f_equal.
  apply c_sort_order_irrelevant; [apply _| |done].
  intros x y _ _. apply cmp_eq_exact.
Qed.

Lemma foldl_pointwise {A} (f g : S -> A -> S) s l :
  (forall t x, f t x = g t x) -> foldl f s l = foldl g s l.
Proof. intros E. revert s; induction l as [|x l IH]; intros s; simpl; [done|]. by rewrite E IH. Qed.

(** The same for callbacks that agree pointwise. *)
Lemma extractTransform_map_agree (f g : S -> K -> V -> S) s m1 m2 :
  NoDup m1.*1 -> m1 ≡ₚ m2 -> (forall t k v, f t k v = g t k v) ->
  extractTransform_map cmp m1 true f s = extractTransform_map cmp m2 true g s.
Proof.
  intros Hnd HP E. rewrite (extractTransform_map_order_irrelevant f s m1 m2) //.
  unfold extractTransform_map; simpl. by apply foldl_pointwise.
Qed.

(** Every entry is visited exactly once in both modes. *)
Lemma extractTransform_map_visits m d :
  extractTransform_map cmp m d (fun (acc : list (K * V)) k v => acc ++ [(k, v)]) [] ≡ₚ m.
Proof.
  assert (forall l acc, foldl (fun acc (kv : K * V) => acc ++ [(kv.1, kv.2)]) acc l = acc ++ l) as Hf.
  { intros l. induction l as [|[k v] l IH]; intros acc; simpl; [by rewrite app_nil_r|].
    by rewrite IH -app_assoc. }
  unfold extractTransform_map. destruct d; simpl; rewrite Hf; [|done].
  apply c_sort_Permutation.
Qed.
End extract_facts.

(** ** Iteration order of hash containers

    Where the code walks a hash map that is a [gmap] here, the order is whatever
    the hash table decides: a parameter that yields the entries in some order.
    The same for a hash set, which is the list of its elements. *)
Class HashIteration : Type := {
  iterate : forall {K V} `{Countable K}, gmap K V -> list (K * V);
  iterate_set : forall {A}, list A -> list A;
}.
Class HashIterationLaws `{HashIteration} : Prop := {
  iterate_entries : forall {K V} `{Countable K} (m : gmap K V), iterate m ≡ₚ map_to_list m;
  iterate_set_entries : forall {A} (l : list A), iterate_set l ≡ₚ l;
}.

Definition tree_iteration : HashIteration := {|
  iterate K V _ _ m := map_to_list m;
  iterate_set A l := l;
|}.
Lemma tree_iteration_laws : @HashIterationLaws tree_iteration.
Proof. by split. Qed.

Lemma iterate_elem_of `{HashIterationLaws} `{Countable K} {V} (m : gmap K V) k v :
  (k, v) ∈ iterate m <-> m !! k = Some v.
Proof. rewrite iterate_entries. apply elem_of_map_to_list. Qed.

Lemma iterate_NoDup `{HashIterationLaws} `{Countable K} {V} (m : gmap K V) :
  NoDup (iterate m).*1.
Proof. rewrite iterate_entries. apply NoDup_fst_map_to_list. Qed.

(** ** Hash sets with an element comparison

    A [flat_hash_set] whose [operator==] is derived from [operator<=>] is a list
    without two equal elements. *)
Section hash_set.
Context {T : Type} (cmp : T -> T -> comparison).

Definition set_contains (x : T) (s : list T) : bool :=
  existsb (fun y => match cmp x y with Eq => true | _ => false end) s.
Definition set_insert (x : T) (s : list T) : list T :=
  if set_contains x s then s else s ++ [x].
Definition set_insert_all (xs s : list T) : list T := foldl (fun s x => set_insert x s) s xs.
End hash_set.

Section hash_set_facts.
Context {T : Type} (cmp : T -> T -> comparison) `{!ExactOrdering cmp}.

Lemma set_contains_spec x s : set_contains cmp x s = true <-> x ∈ s.
Proof.
  unfold set_contains. rewrite existsb_In. split.
  - intros (y & Hy & He). destruct (cmp x y) eqn:E; [|done|done].
    by apply (cmp_eq_exact (cmp:=cmp)) in E as ->.
  - intros Hx. exists x. by rewrite cmp_refl.
Qed.

Lemma elem_of_set_insert x y s : y ∈ set_insert cmp x s <-> y = x \/ y ∈ s.
Proof.
  unfold set_insert. destruct (set_contains cmp x s) eqn:E.
  - apply set_contains_spec in E. split; [by right|by intros [->|]].
  - rewrite elem_of_app list_elem_of_singleton. intuition.
Qed.

Lemma set_insert_NoDup x s : NoDup s -> NoDup (set_insert cmp x s).
Proof.
  intros Hs. unfold set_insert. destruct (set_contains cmp x s) eqn:E; [done|].
  apply NoDup_app. split_and!; [done| |apply NoDup_singleton].
  intros y Hy ->%list_elem_of_singleton. apply set_contains_spec in Hy. congruence.
Qed.

Lemma elem_of_set_insert_all y xs s : y ∈ set_insert_all cmp xs s <-> y ∈ xs \/ y ∈ s.
Proof.
  unfold set_insert_all. revert s. induction xs as [|x xs IH]; intros s; simpl.
  - split; [by right|by intros [?%not_elem_of_nil|]].
  - rewrite IH elem_of_set_insert elem_of_cons. intuition.
Qed.

Lemma set_insert_all_NoDup xs s : NoDup s -> NoDup (set_insert_all cmp xs s).
Proof.
  unfold set_insert_all. revert s. induction xs as [|x xs IH]; intros s Hs; simpl; [done|].
  by apply IH, set_insert_NoDup.
Qed.
End hash_set_facts.

(** ** Properties *)

(** [cmp::compareStrings] is a strict total order on byte strings: it answers
    [Equal] exactly on equal strings, swapping the arguments swaps [Less] and
    [Greater], it is transitive, and a shorter string is always [Less]. *)
Theorem compareStrings_total_order (s1 s2 s3 : str) :
  (compareStrings s1 s2 = Equal <-> s1 = s2)
  /\ (compareStrings s1 s2 = Less <-> compareStrings s2 s1 = Greater)
  /\ (compareStrings s1 s2 = Less -> compareStrings s2 s3 = Less -> compareStrings s1 s3 = Less)
  /\ ((length s1 < length s2)%nat -> compareStrings s1 s2 = Less).
Proof.
  assert (forall a b c, compareStrings a b = c <-> CmpStr a b = comparisonToStrongOrdering c) as Hc.
  { intros a b c. unfold CmpStr. destruct (compareStrings a b), c; simpl; intuition congruence. }
  rewrite !Hc; simpl. split_and!.
  - apply cmp_exact_iff, _.
  - symmetry. apply cmp_gt_lt, _.
  - apply cmp_lt_trans.
  - rewrite CmpStr_compareRange. apply compareRange_lt_size.
Qed.

(** C22. In deterministic mode [extractTransform] runs its callback in an order that
    is a function of the entries alone: two containers with the same entries, in
    whatever order their hash tables yield them, give the same result; and the
    callback sees every entry exactly once, in both modes. *)
Theorem extractTransform_deterministic {K V S} (cmp : K -> K -> comparison)
    `{!ExactOrdering cmp} (m1 m2 : list (K * V)) :
  NoDup m1.*1 -> m1 ≡ₚ m2 ->
  (forall (f : S -> K -> V -> S) s,
     extractTransform_map cmp m1 true f s = extractTransform_map cmp m2 true f s)
  /\ (forall d, extractTransform_map cmp m1 d
        (fun (acc : list (K * V)) k v => acc ++ [(k, v)]) [] ≡ₚ m2).
Proof.
  intros Hnd HP. split.
  - intros f s. by apply extractTransform_map_order_irrelevant.
  - intros d. by rewrite extractTransform_map_visits HP.
Qed.

Lemma extractTransform_deterministic_witness :
  extractTransform_map CmpStr [(lit "b", 1); (lit "a", 2)] true (fun (acc : list Z) _ v => acc ++ [v]) []
  = extractTransform_map CmpStr [(lit "a", 2); (lit "b", 1)] true (fun (acc : list Z) _ v => acc ++ [v]) [].
Proof.
  apply (extractTransform_deterministic (S:=list Z) CmpStr
    [(lit "b", 1); (lit "a", 2)] [(lit "a", 2); (lit "b", 1)]).
  - apply (bool_decide_unpack _). vm_compute. exact I.
  - apply perm_swap.
Defined.
