(* ===== verification/CppString.v ===== *)
(** * [std::string] and [std::string_view]

    The members of the standard string classes that the indexer uses, on byte
    lists.  [npos] is [None]. *)
From S2P Require Import Prelude.

(** The Abseil string functions in use. *)
Class AbslStrings : Type := {
  StripAsciiWhitespace : str -> str;
  StripPrefix : str -> str -> str;
  StrContains : str -> str -> bool
}.

Definition starts_with (p s : str) : bool := bool_decide (p `prefix_of` s).
Definition ends_with (p s : str) : bool := bool_decide (p `suffix_of` s).

(** [substr(i)] and [substr(i, n)]. *)
Definition substr (s : str) (i : nat) : str := drop i s.
Definition substr_len (s : str) (i n : nat) : str := take n (drop i s).

(** [find(c, start)]: the first position at or after [start]. *)
Fixpoint find_char_aux (c : ascii) (s : str) (i : nat) : option nat :=
  match s with
  | [] => None
  | x :: s' => if Ascii.eqb x c then Some i else find_char_aux c s' (S i)
  end.
Definition find_char (s : str) (c : ascii) (start : nat) : option nat :=
  find_char_aux c (drop start s) start.

(** [rfind(c)] and [find_last_of(c)]: the last position. *)
Fixpoint rfind_aux (c : ascii) (s : str) (i : nat) (acc : option nat) : option nat :=
  match s with
  | [] => acc
  | x :: s' => rfind_aux c s' (S i) (if Ascii.eqb x c then Some i else acc)
  end.
Definition rfind_char (s : str) (c : ascii) : option nat := rfind_aux c s 0 None.

(** [find(needle, start)]. *)
Fixpoint find_str_aux (p s : str) (i : nat) : option nat :=
  if starts_with p s then Some i
  else match s with [] => None | _ :: s' => find_str_aux p s' (S i) end.
Definition find_str (s p : str) (start : nat) : option nat :=
  find_str_aux p (drop start s) start.

Definition str_contains (s p : str) : bool :=
  match find_str s p 0 with Some _ => true | None => false end.

Lemma starts_with_spec p s : starts_with p s = true <-> exists k, s = p ++ k.
Proof. unfold starts_with. rewrite bool_decide_eq_true. done. Qed.

Lemma starts_with_app p s : starts_with p (p ++ s) = true.
Proof. apply starts_with_spec. by exists s. Qed.

Lemma starts_with_nil s : starts_with [] s = true.
Proof. apply (starts_with_app []). Qed.

Lemma ends_with_spec p s : ends_with p s = true <-> exists k, s = k ++ p.
Proof. unfold ends_with. rewrite bool_decide_eq_true. done. Qed.

(** ** Search for a byte *)
Lemma find_char_aux_None c s i : find_char_aux c s i = None <-> c ∉ s.
Proof.
  revert i; induction s as [|x s IH]; intros i; simpl.
  - split; [intros _; apply not_elem_of_nil|done].
  - rewrite not_elem_of_cons. destruct (Ascii.eqb_spec x c) as [->|Hx].
    + split; [done|by intros []].
    + rewrite IH. intuition congruence.
Qed.

Lemma find_char_aux_Some c s i j :
  find_char_aux c s i = Some j <->
  exists a b, s = a ++ (c :: b) /\ c ∉ a /\ j = (i + length a)%nat.
Proof.
  revert i; induction s as [|x s IH]; intros i; simpl.
  { split; [done|]. intros ([|? ?] & b & H & _); done. }
  destruct (Ascii.eqb_spec x c) as [->|Hx].
  - split.
    + intros [= <-]. exists [], s. split_and!; [done|apply not_elem_of_nil|simpl; lia].
    + intros ([|y a] & b & H & Hni & ->); [simpl; f_equal; lia|].
      injection H as <- _. exfalso; apply Hni; by left.
  - rewrite IH. split.
    + intros (a & b & -> & Hni & ->). exists (x :: a), b.
      split_and!; [done|by apply not_elem_of_cons|simpl; lia].
    + intros ([|y a] & b & H & Hni & ->); simplify_eq/=.
      apply not_elem_of_cons in Hni as [_ Hni]. exists a, b. split_and!; [done..|lia].
Qed.

Lemma rfind_aux_app c s1 s2 i acc :
  rfind_aux c (s1 ++ s2) i acc = rfind_aux c s2 (i + length s1) (rfind_aux c s1 i acc).
Proof.
  revert i acc; induction s1 as [|x s1 IH]; intros i acc; simpl; [f_equal; lia|].
  rewrite IH. f_equal; lia.
Qed.

Lemma rfind_aux_absent c s i acc : c ∉ s -> rfind_aux c s i acc = acc.
Proof.
  revert i acc; induction s as [|x s IH]; intros i acc; [done|].
  rewrite not_elem_of_cons. intros [Hx Hs]; simpl.
  destruct (Ascii.eqb_spec x c); [congruence|by apply IH].
Qed.

Lemma rfind_char_split c a b :
  c ∉ b -> rfind_char (a ++ (c :: b)) c = Some (length a).
Proof.
  intros H. unfold rfind_char. rewrite rfind_aux_app /=.
  by rewrite Ascii.eqb_refl rfind_aux_absent.
Qed.

(** Every string with the byte splits at its last occurrence. *)
Lemma last_occurrence (c : ascii) (s : str) :
  c ∈ s -> exists a b, s = a ++ (c :: b) /\ c ∉ b.
Proof.
  induction s as [|x s IH]; [by intros ?%not_elem_of_nil|].
  intros H. destruct (decide (c ∈ s)) as [Hs|Hs].
  - destruct (IH Hs) as (a & b & -> & Hb). by exists (x :: a), b.
  - apply elem_of_cons in H as [->|H]; [|done]. by exists [], s.
Qed.

Lemma rfind_char_Some c s j :
  rfind_char s c = Some j <-> exists a b, s = a ++ (c :: b) /\ c ∉ b /\ j = length a.
Proof.
  split.
  - destruct (decide (c ∈ s)) as [Hc|Hc].
    + destruct (last_occurrence c s Hc) as (a & b & -> & Hb).
      rewrite rfind_char_split //. intros [= <-]. by exists a, b.
    + unfold rfind_char. by rewrite rfind_aux_absent.
  - intros (a & b & -> & Hb & ->). by apply rfind_char_split.
Qed.

Lemma rfind_char_None c s : rfind_char s c = None <-> c ∉ s.
Proof.
  split; intros H.
  - intros (a & b & -> & Hb)%last_occurrence. by rewrite rfind_char_split in H.
  - unfold rfind_char. by apply rfind_aux_absent.
Qed.

(** ** Search for a string *)
Lemma find_str_aux_None p s i :
  find_str_aux p s i = None <-> forall a b, s <> a ++ p ++ b.
Proof.
  revert i; induction s as [|x s IH]; intros i; simpl.
  - destruct (starts_with p []) eqn:E.
    + split; [done|]. apply starts_with_spec in E as [k E]. by intros []%(fun H => H [] k).
    + split; [|done]. intros _ a b H. symmetry in H.
      apply app_eq_nil in H as [_ [-> _]%app_eq_nil]. done.
  - destruct (starts_with p (x :: s)) eqn:E.
    + split; [done|]. apply starts_with_spec in E as [k E]. by intros []%(fun H => H [] k).
    + rewrite IH. split.
      * intros H [|y a] b Hs; simplify_eq/=; [|by eapply H].
        rewrite Hs starts_with_app in E. done.
      * intros H a b ->. by apply (H (x :: a) b).
Qed.

Lemma find_str_aux_Some p s i j :
  find_str_aux p s i = Some j -> exists a b, s = a ++ p ++ b /\ j = (i + length a)%nat.
Proof.
  revert i; induction s as [|x s IH]; intros i; simpl.
  - destruct (starts_with p []) eqn:E; [|done]. intros [= <-].
    apply starts_with_spec in E as [k E]. exists [], k. split; [done|simpl; lia].
  - destruct (starts_with p (x :: s)) eqn:E.
    + intros [= <-]. apply starts_with_spec in E as [k E]. exists [], k. split; [done|simpl; lia].
    + intros (a & b & -> & ->)%IH. exists (x :: a), b. split; [done|simpl; lia].
Qed.

Lemma str_contains_spec s p : str_contains s p = true <-> exists a b, s = a ++ p ++ b.
Proof.
  unfold str_contains, find_str. destruct (find_str_aux p (drop 0 s) 0) eqn:E.
  - split; [intros _|done]. apply find_str_aux_Some in E as (a & b & H & _). by exists a, b.
  - split; [done|]. rewrite find_str_aux_None in E. intros (a & b & H). by edestruct E.
Qed.

(** ** Byte-list facts *)
Lemma prefix_drop (p s : str) : starts_with p s = true -> s = p ++ drop (length p) s.
Proof. intros [k ->]%starts_with_spec. by rewrite drop_app_length. Qed.

Lemma starts_with_length p s : starts_with p s = true -> (length p <= length s)%nat.
Proof. intros [k ->]%starts_with_spec. rewrite length_app. lia. Qed.

Lemma drop_past (a b : str) (c : ascii) : drop (length a + 1) (a ++ (c :: b)) = b.
Proof.
  change (c :: b) with ([c] ++ b). rewrite app_assoc.
  by rewrite drop_app_length' // length_app.
Qed.

Lemma last_split_inj (a b a' b' : str) (c : ascii) :
  c ∉ b -> c ∉ b' -> a ++ (c :: b) = a' ++ (c :: b') -> a = a' /\ b = b'.
Proof.
  intros Hb Hb' E.
  assert (rfind_char (a ++ (c :: b)) c = Some (length a')) as Hr
    by by rewrite E rfind_char_split.
  rewrite rfind_char_split // in Hr. injection Hr as Hr.
  apply app_inj_1 in E as [-> [= ->]]; done.
Qed.

(** ** Decimal numbers

    [fmt::format("{}", n)] of an unsigned integer, and [std::from_chars]. *)
Definition digit (n : N) : ascii := ascii_of_N (48 + n).
Definition is_digit (c : ascii) : bool := Ascii.leb "0" c && Ascii.leb c "9".
Definition digit_value (c : ascii) : N := N_of_ascii c - 48.

Fixpoint decimal_fuel (fuel : nat) (n : N) : str :=
  match fuel with
  | O => []
  | S fuel' =>
      if (n <? 10)%N then [digit n]
      else decimal_fuel fuel' (n / 10) ++ [digit (n mod 10)]
  end.
Definition decimal (n : N) : str := decimal_fuel (S (N.to_nat (N.log2 n))) n.
Definition fmt_uint (z : Z) : str := decimal (Z.to_N z).

Definition decimal_value (s : str) : N := foldl (fun acc c => (acc * 10 + digit_value c)%N) 0%N s.

Fixpoint take_digits (s : str) : str :=
  match s with
  | c :: s' => if is_digit c then c :: take_digits s' else []
  | [] => []
  end.

(** [std::from_chars] into a [uint32_t]: the longest run of digits, which must be
    non-empty and in range; text after it is ignored. *)
Definition from_chars_uint32 (s : str) : option Z :=
  match take_digits s with
  | [] => None
  | ds => let v := Z.of_N (decimal_value ds) in if v <? 2 ^ 32 then Some v else None
  end.

Lemma digit_facts n : (n < 10)%N -> is_digit (digit n) = true /\ digit_value (digit n) = n.
Proof.
  rewrite -(N2Nat.id n). intros H.
  destruct (N.to_nat n) as [|m]; [done|]. do 9 (destruct m as [|m]; [done|]). lia.
Qed.

Lemma decimal_value_app s c :
  decimal_value (s ++ [c]) = (decimal_value s * 10 + digit_value c)%N.
Proof. unfold decimal_value. by rewrite foldl_app. Qed.

Lemma decimal_fuel_spec fuel n :
  (N.log2 n < N.of_nat fuel)%N ->
  decimal_value (decimal_fuel fuel n) = n
  /\ Forall (fun c => is_digit c = true) (decimal_fuel fuel n)
  /\ decimal_fuel fuel n <> [].
Proof.
  revert n; induction fuel as [|fuel IH]; intros n Hf; [lia|]. simpl.
  destruct (N.ltb_spec n 10) as [Hn|Hn].
  - destruct (digit_facts n Hn) as [Hd Hv].
    split_and!; [done|by constructor|done].
  - assert (n mod 10 < 10)%N as Hm by (apply N.mod_lt; lia).
    destruct (digit_facts _ Hm) as [Hd Hv].
    destruct (IH (n / 10)%N) as (IHv & IHd & _).
    { apply N.lt_le_trans with (N.log2 n); [|lia].
      assert (n / 10 <= n / 2)%N by (apply N.div_le_compat_l; lia).
      apply N.le_lt_trans with (N.log2 (n / 2)); [by apply N.log2_le_mono|].
      rewrite -N.div2_div. rewrite N.div2_spec N.log2_shiftr.
      assert (0 < N.log2 n)%N by (apply N.log2_pos; lia). lia. }
    split_and!.
    + rewrite decimal_value_app IHv Hv. pose proof (N.div_mod n 10). lia.
    + apply Forall_app. split; [done|by constructor].
    + by intros []%app_eq_nil.
Qed.

Lemma decimal_spec n :
  decimal_value (decimal n) = n /\ Forall (fun c => is_digit c = true) (decimal n)
  /\ decimal n <> [].
Proof. apply decimal_fuel_spec. lia. Qed.

#[export] Instance decimal_inj : Inj (=) (=) decimal.
Proof.
  intros a b H. by rewrite -(proj1 (decimal_spec a)) -(proj1 (decimal_spec b)) H.
Qed.

Lemma take_digits_app s1 s2 :
  Forall (fun c => is_digit c = true) s1 ->
  head s2 = None \/ (exists c, head s2 = Some c /\ is_digit c = false) ->
  take_digits (s1 ++ s2) = s1.
Proof.
  intros H1 H2. induction H1 as [|c s1 Hc _ IH]; simpl.
  - destruct s2 as [|c s2]; [done|]. destruct H2 as [?|(c' & [= ->] & Hc)]; [done|].
    simpl. by rewrite Hc.
  - by rewrite Hc IH.
Qed.

Lemma from_chars_fmt_uint z :
  uint32 z -> from_chars_uint32 (fmt_uint z) = Some z.
Proof.
  intros Hz. unfold from_chars_uint32, fmt_uint.
  destruct (decimal_spec (Z.to_N z)) as (Hv & Hd & Hne).
  pose proof (take_digits_app _ [] Hd (or_introl eq_refl)) as Ht.
  rewrite app_nil_r in Ht. rewrite Ht.
  destruct (decimal (Z.to_N z)) as [|c s]; [done|].
  rewrite Hv Z2N.id; [apply Hz|]. by rewrite (proj2 (Z.ltb_lt z _) (proj2 Hz)).
Qed.

Lemma fmt_uint_digits z : Forall (fun c => is_digit c = true) (fmt_uint z).
Proof. apply decimal_spec. Qed.
Lemma fmt_uint_nonempty z : fmt_uint z <> [].
Proof. apply decimal_spec. Qed.
Lemma fmt_uint_inj a b : 0 <= a -> 0 <= b -> fmt_uint a = fmt_uint b -> a = b.
Proof. intros Ha Hb H. apply decimal_inj in H. lia. Qed.
