(* ===== verification/Paths.v ===== *)
(** * Paths

    Path.h and Path.cc: absolute paths, root-relative paths and the roots they
    are relative to, on a POSIX system ([preferred_separator] is ['/']).  The
    functions of [llvm::sys::path] are operations of the class [LlvmPath]; the
    documented facts about them that the code relies on are [LlvmPathLaws]. *)
From S2P Require Import Prelude CppString Ordering.

Definition sep : ascii := "/"%char.

Class LlvmPath : Type := {
  is_absolute : str -> bool;
  is_relative : str -> bool;
  parent_path : str -> str;
  path_extension : str -> str;
  path_components : str -> list str;
  remove_dots : str -> str;
}.

Class LlvmPathLaws `{LlvmPath} : Prop := {
  is_absolute_posix p : is_absolute p = true <-> exists q, p = sep :: q;
  is_relative_negb p : is_relative p = negb (is_absolute p);
  parent_path_prefix p : exists q, p = parent_path p ++ q;
  parent_path_shorter p : p <> [] -> (length (parent_path p) < length p)%nat;
  remove_dots_absolute p : is_absolute p = true -> is_absolute (remove_dots p) = true;
}.

(** [fileName] in the anonymous namespace of Path.cc. *)
Definition fileName (path : str) : option str :=
  match rfind_char path sep with
  | None => None
  | Some i => if (i =? length path - 1)%nat then None else Some (substr path (i + 1))
  end.

Lemma fileName_Some path f :
  fileName path = Some f <-> f <> [] /\ sep ∉ f /\ exists dir, path = dir ++ (sep :: f).
Proof.
  unfold fileName. destruct (rfind_char path sep) as [i|] eqn:E.
  - apply rfind_char_Some in E as (a & b & -> & Hb & ->).
    rewrite length_app /= /substr drop_past.
    destruct (Nat.eqb_spec (length a) (length a + S (length b) - 1)) as [Hn|Hn].
    + destruct b as [|c b]; [|simpl in Hn; lia]. split; [done|].
      intros (Hf & Hs & dir & Hd). by apply last_split_inj in Hd as [_ <-].
    + split.
      * intros [= <-]. split_and!; [intros ->; simpl in Hn; lia|done|by exists a].
      * intros (Hf & Hs & dir & Hd).
        by apply last_split_inj in Hd as [_ ->].
  - rewrite rfind_char_None in E. split; [done|]. intros (_ & _ & dir & ->).
    exfalso. apply E, elem_of_app. right. by left.
Qed.

(** ** [makeRelative]'s loop over separators *)
Fixpoint skip_separators (longer : str) (start fuel : nat) : nat :=
  match fuel with
  | O => start
  | S fuel' =>
      if (start <? length longer)%nat
         && match longer !! start with Some c => Ascii.eqb c sep | None => false end
      then skip_separators longer (S start) fuel'
      else start
  end.

(** What the loop computes: the text after the separators. *)
Fixpoint trim_separators (s : str) : str :=
  match s with
  | c :: s' => if Ascii.eqb c sep then trim_separators s' else s
  | [] => []
  end.

Lemma drop_skip_separators longer start fuel :
  (length longer - start <= fuel)%nat ->
  drop (skip_separators longer start fuel) longer = trim_separators (drop start longer).
Proof.
  revert start; induction fuel as [|fuel IH]; intros start Hf; simpl.
  - by rewrite drop_ge; [lia|].
  - destruct (Nat.ltb_spec start (length longer)) as [Hlt|Hge]; simpl.
    + destruct (lookup_lt_is_Some_2 longer start Hlt) as [c Hc].
      rewrite Hc (drop_S _ _ _ Hc) /=. destruct (Ascii.eqb c sep); [apply IH; lia|].
      by apply drop_S.
    + by rewrite drop_ge.
Qed.

Lemma trim_separators_spec s :
  exists seps, s = seps ++ trim_separators s /\ Forall (eq sep) seps.
Proof.
  induction s as [|c s IH]; simpl; [by exists []|].
  destruct (Ascii.eqb_spec c sep) as [->|Hc]; [|by exists []].
  destruct IH as (seps & IH & HF). exists (sep :: seps). rewrite {1}IH.
  by split; [|constructor].
Qed.

Lemma trim_separators_no_sep s : head (trim_separators s) <> Some sep.
Proof.
  induction s as [|c s IH]; simpl; [done|].
  destruct (Ascii.eqb_spec c sep); [done|]. simpl. congruence.
Qed.

Lemma trim_separators_id s : head s <> Some sep -> trim_separators s = s.
Proof.
  destruct s as [|c s]; simpl; [done|]. intros H.
  destruct (Ascii.eqb_spec c sep); congruence.
Qed.

Lemma trim_separators_app seps s :
  Forall (eq sep) seps -> trim_separators (seps ++ s) = trim_separators s.
Proof. induction 1 as [|c l <- _ IH]; simpl; [done|]. apply IH. Qed.

(** ** Absolute paths *)
Record AbsolutePathRef : Type := mkAbsolutePathRef { asStringView : str }.
Record AbsolutePath : Type := mkAbsolutePath { asStringRef : str }.

#[export] Instance AbsolutePathRef_eq_dec : EqDecision AbsolutePathRef.
Proof. solve_decision. Defined.
#[export] Instance AbsolutePath_eq_dec : EqDecision AbsolutePath.
Proof. solve_decision. Defined.
#[export] Instance AbsolutePath_countable : Countable AbsolutePath.
Proof.
  refine (inj_countable' asStringRef mkAbsolutePath _). by intros [].
Defined.
#[export] Instance AbsolutePathRef_countable : Countable AbsolutePathRef.
Proof.
  refine (inj_countable' asStringView mkAbsolutePathRef _). by intros [].
Defined.

Definition AbsolutePath_cmp : AbsolutePath -> AbsolutePath -> comparison :=
  fun lhs rhs => CMP_STR (asStringRef lhs) (asStringRef rhs) Eq.

#[export] Instance AbsolutePath_cmp_exact : ExactOrdering AbsolutePath_cmp.
Proof.
  assert (forall x y, AbsolutePath_cmp x y = cmp_on asStringRef CmpStr x y) as H.
  { intros x y. unfold AbsolutePath_cmp, CMP_STR, CMP_EXPR. apply CMP_CHECK_Eq_r. }
  split.
  - eapply cmp_ext; [intros x y; symmetry; apply H|apply _].
  - intros [x] [y]. rewrite H /cmp_on /=. intros E. f_equal.
    exact (cmp_eq_exact (cmp:=CmpStr) _ _ E).
Qed.

Inductive RootKind : Type := Project | Build | External.
#[export] Instance RootKind_eq_dec : EqDecision RootKind.
Proof. solve_decision. Defined.

Definition RootKind_to_Z (k : RootKind) : Z :=
  match k with Project => 0 | Build => 1 | External => 2 end.
Definition RootKind_cmp : RootKind -> RootKind -> comparison := cmp_on RootKind_to_Z Z.compare.
#[export] Instance RootKind_cmp_exact : ExactOrdering RootKind_cmp.
Proof. refine (cmp_on_exact _ _ _). intros [] []; naive_solver. Qed.

Section AbsolutePaths.
Context `{BuildMode, LlvmPath}.

(** The private constructor of [AbsolutePathRef]. *)
Definition AbsolutePathRef_new (value : str) : result AbsolutePathRef :=
  ENFORCE (negb (bool_decide (value = []))) "!this->value.empty()" ;;
  ENFORCE (is_absolute value) "llvm::sys::path::is_absolute(this->value)" ;;
  Ok (mkAbsolutePathRef value).

Definition tryFrom (path : str) : result (option AbsolutePathRef) :=
  if is_absolute path then Some <$> AbsolutePathRef_new path
  else Ok None.

Definition makeRelative (this longerPath : AbsolutePathRef) : option str :=
  if starts_with (asStringView this) (asStringView longerPath) then
    let start := skip_separators (asStringView longerPath)
                   (length (asStringView this)) (length (asStringView longerPath)) in
    Some (substr (asStringView longerPath) start)
  else None.

Definition isNormalized (this : AbsolutePathRef) : bool :=
  if existsb (fun it => bool_decide (it = lit ".") || bool_decide (it = lit ".."))
       (path_components (asStringView this))
  then false
  else negb (str_contains (asStringView this) (lit "//")).

Definition normalize (this : AbsolutePathRef) : str := remove_dots (asStringView this).

Definition prefix_of_path (this : AbsolutePathRef) : result (option AbsolutePathRef) :=
  tryFrom (parent_path (asStringView this)).

Definition AbsolutePath_new (value : str) : result AbsolutePath :=
  o ← tryFrom value;
  ENFORCE (bool_decide (is_Some o)) "AbsolutePathRef::tryFrom(...).has_value()" ;;
  Ok (mkAbsolutePath value).

Definition AbsolutePath_ofRef (ref : AbsolutePathRef) : AbsolutePath :=
  mkAbsolutePath (asStringView ref).

Definition asRef (this : AbsolutePath) : result AbsolutePathRef :=
  optRef ← tryFrom (asStringRef this);
  ENFORCE (bool_decide (is_Some optRef)) "optRef.has_value()" ;;
  optional_value optRef.

(** [for (auto it = p.prefixesBegin(); it != p.prefixesEnd(); ++it)]: the paths
    [*it] takes, from [data] on.  [fuel] bounds the number of iterations. *)
Fixpoint prefixes_from (data : option AbsolutePathRef) (fuel : nat)
    : result (list AbsolutePathRef) :=
  match data, fuel with
  | None, _ => Ok []
  | Some _, O => Err OutOfRange
  | Some p, S fuel' =>
      next ← prefix_of_path p;
      rest ← prefixes_from next fuel';
      Ok (p :: rest)
  end.

Definition prefixes (this : AbsolutePathRef) : result (list AbsolutePathRef) :=
  prefixes_from (Some this) (S (length (asStringView this))).
End AbsolutePaths.

(** ** Root-relative paths *)
Record RootRelativePathRef : Type := mkRootRelativePathRef {
  rel_value : str;
  rel_kind : RootKind;
}.
Record RootRelativePath : Type := mkRootRelativePath {
  rrp_value : str;
  rrp_kind : RootKind;
}.
#[export] Instance RootRelativePathRef_eq_dec : EqDecision RootRelativePathRef.
Proof. solve_decision. Defined.
#[export] Instance RootKind_countable : Countable RootKind.
Proof.
  refine (inj_countable RootKind_to_Z
    (fun z => if z =? 0 then Some Project else if z =? 1 then Some Build else Some External) _).
  by intros [].
Defined.
#[export] Instance RootRelativePathRef_countable : Countable RootRelativePathRef.
Proof.
  refine (inj_countable' (fun r => (rel_value r, rel_kind r))
    (fun p => mkRootRelativePathRef p.1 p.2) _). by intros [].
Defined.

(** [operator<=>(const RootRelativePathRef &, const RootRelativePathRef &)]. *)
Definition RootRelativePathRef_cmp (lhs rhs : RootRelativePathRef) : comparison :=
  CMP_STR (rel_value lhs) (rel_value rhs)
    (CMP_EXPR RootKind_cmp (rel_kind lhs) (rel_kind rhs) Eq).

(** The parts [AbslHashValue] mixes: the kind only as [bool(self._kind)]. *)
Definition RootRelativePathRef_hash_parts (self : RootRelativePathRef) : str * bool :=
  (rel_value self, negb (RootKind_to_Z (rel_kind self) =? 0)).

#[export] Instance RootRelativePathRef_cmp_exact : ExactOrdering RootRelativePathRef_cmp.
Proof.
  assert (forall x y, RootRelativePathRef_cmp x y
    = cmp_then (cmp_on rel_value CmpStr) (cmp_on rel_kind RootKind_cmp) x y) as H.
  { intros x y. unfold RootRelativePathRef_cmp, CMP_STR, CMP_EXPR, cmp_then, cmp_on.
    by autorewrite with cmp. }
  split; [eapply cmp_ext; [intros; symmetry; apply H|apply _]|].
  intros [v k] [v' k']. rewrite H /cmp_then /cmp_on /=.
  intros [E1 E2]%CMP_CHECK_eq.
  f_equal; [by apply (cmp_eq_exact (cmp:=CmpStr))|by apply (cmp_eq_exact (cmp:=RootKind_cmp))].
Qed.

Section RootPaths.
Context `{BuildMode, LlvmPath}.

Definition RootRelativePathRef_new (value : str) (kind : RootKind)
    : result RootRelativePathRef :=
  ENFORCE (negb (bool_decide (value = [])))
    "use default ctor to make empty paths for explicitness" ;;
  ENFORCE (is_relative value) "llvm::sys::path::is_relative(this->value)" ;;
  Ok (mkRootRelativePathRef value kind).

Definition extension (this : RootRelativePathRef) : str :=
  path_extension (rel_value this).

Definition RootRelativePath_new (path : str) (kind : RootKind)
    : result RootRelativePath :=
  if bool_decide (path = []) then Ok (mkRootRelativePath path kind)
  else
    ENFORCE (is_relative path) "llvm::sys::path::is_relative(this->value)" ;;
    Ok (mkRootRelativePath path kind).

Definition RootRelativePath_ofRef (ref : RootRelativePathRef) : result RootRelativePath :=
  RootRelativePath_new (rel_value ref) (rel_kind ref).

Definition RootRelativePath_asRef (this : RootRelativePath) : result RootRelativePathRef :=
  RootRelativePathRef_new (rrp_value this) (rrp_kind this).

Definition replaceExtension (this : RootRelativePath) (newExtension : str)
    : RootRelativePath :=
  match rfind_char (rrp_value this) "."%char with
  | None => this
  | Some it => mkRootRelativePath (take it (rrp_value this) ++ newExtension) (rrp_kind this)
  end.

(** ** Roots *)
Record RootPath : Type := mkRootPath {
  root_value : AbsolutePath;
  root_kind : RootKind;
}.

Definition joinPath (s1 s2 : str) : str :=
  if ends_with [sep] s1 then s1 ++ s2
  else s1 ++ [sep] ++ s2.

Definition tryMakeRelative (this : RootPath) (maybePathInsideProject : AbsolutePathRef)
    : result (option RootRelativePathRef) :=
  root ← asRef (root_value this);
  match makeRelative root maybePathInsideProject with
  | Some optStrView => Some <$> RootRelativePathRef_new optStrView (root_kind this)
  | None => Ok None
  end.

Definition makeAbsoluteAllowKindMismatch (this : RootPath)
    (relativePathRef : RootRelativePathRef) : result AbsolutePath :=
  AbsolutePath_new (joinPath (asStringRef (root_value this)) (rel_value relativePathRef)).

Definition makeAbsolute (this : RootPath) (relativePathRef : RootRelativePathRef)
    : result AbsolutePath :=
  ENFORCE (bool_decide (root_kind this = rel_kind relativePathRef))
    "this->kind() == relativePathRef.kind()" ;;
  makeAbsoluteAllowKindMismatch this relativePathRef.
End RootPaths.

(** ** Behaviour *)
Section Facts.
Context `{BM : BuildMode, LP : LlvmPath, LPL : !LlvmPathLaws}.

(** An [AbsolutePath] as its constructor leaves it. *)
Definition AbsolutePath_wf (p : AbsolutePath) : Prop := is_absolute (asStringRef p) = true.
Definition AbsolutePathRef_wf (p : AbsolutePathRef) : Prop :=
  is_absolute (asStringView p) = true.

Lemma is_absolute_nonempty p : is_absolute p = true -> p <> [].
Proof. rewrite is_absolute_posix. by intros [q ->]. Qed.

Lemma is_absolute_cons q : is_absolute (sep :: q) = true.
Proof. apply is_absolute_posix. by exists q. Qed.

Lemma is_relative_head p : is_relative p = true <-> head p <> Some sep.
Proof.
  rewrite is_relative_negb negb_true_iff -not_true_iff_false is_absolute_posix.
  destruct p as [|c p]; simpl; [by split; [|intros _ [q ?]]|].
  split; [intros Hn [= ->]; apply Hn; by exists p | intros Hc [q [= -> _]]; done].
Qed.

Lemma AbsolutePathRef_new_abs p :
  is_absolute p = true -> AbsolutePathRef_new p = Ok (mkAbsolutePathRef p).
Proof.
  intros Hp. unfold AbsolutePathRef_new.
  rewrite bool_decide_false; [by apply is_absolute_nonempty|].
  rewrite Hp. by autorewrite with result_rw.
Qed.

Lemma tryFrom_abs p : is_absolute p = true -> tryFrom p = Ok (Some (mkAbsolutePathRef p)).
Proof. intros Hp. unfold tryFrom. by rewrite Hp AbsolutePathRef_new_abs. Qed.

(** [tryFrom] never fails: its [ENFORCE]s are implied by its test. *)
Lemma tryFrom_spec p :
  tryFrom p = Ok (if is_absolute p then Some (mkAbsolutePathRef p) else None).
Proof.
  destruct (is_absolute p) eqn:E; [by apply tryFrom_abs|].
  unfold tryFrom. by rewrite E.
Qed.

Lemma AbsolutePath_new_abs p :
  is_absolute p = true -> AbsolutePath_new p = Ok (mkAbsolutePath p).
Proof.
  intros Hp. unfold AbsolutePath_new. by rewrite tryFrom_abs //= ENFORCE_true.
Qed.

Lemma asRef_wf p :
  AbsolutePath_wf p -> asRef p = Ok (mkAbsolutePathRef (asStringRef p)).
Proof. intros Hp. unfold asRef. by rewrite tryFrom_abs //= ENFORCE_true. Qed.

Lemma asRef_Ok_inv p r : asRef p = Ok r -> AbsolutePath_wf p /\ r = mkAbsolutePathRef (asStringRef p).
Proof.
  unfold asRef. rewrite tryFrom_spec bind_Ok /AbsolutePath_wf.
  destruct (is_absolute (asStringRef p)); intros; inv_ok.
  done.
Qed.

Lemma joinPath_abs s1 s2 : is_absolute s1 = true -> is_absolute (joinPath s1 s2) = true.
Proof.
  rewrite !is_absolute_posix. intros [q ->]. unfold joinPath.
  destruct (ends_with _ _); [by exists (q ++ s2)|by exists (q ++ [sep] ++ s2)].
Qed.

(** [makeRelative] is prefix removal followed by separator removal. *)
Lemma makeRelative_spec root longer :
  makeRelative root longer =
    if starts_with (asStringView root) (asStringView longer)
    then Some (trim_separators (drop (length (asStringView root)) (asStringView longer)))
    else None.
Proof.
  unfold makeRelative, substr. destruct (starts_with _ _); [|done].
  rewrite drop_skip_separators; [lia|done].
Qed.

Lemma makeRelative_join root r :
  is_relative r = true ->
  makeRelative (mkAbsolutePathRef root) (mkAbsolutePathRef (joinPath root r)) = Some r.
Proof.
  intros Hr%is_relative_head. rewrite makeRelative_spec /= /joinPath.
  destruct (ends_with [sep] root).
  - rewrite starts_with_app drop_app_length. by rewrite trim_separators_id.
  - rewrite starts_with_app drop_app_length. 
    rewrite (trim_separators_app [sep]); [by apply Forall_singleton|by rewrite trim_separators_id].
Qed.

(** A path below the root with one separator after the root. *)
Definition below (root p r : str) : Prop :=
  p = joinPath root r /\ is_relative r = true /\ r <> [].

Lemma below_tryMakeRelative root k p r :
  AbsolutePath_wf root -> below (asStringRef root) p r ->
  tryMakeRelative (mkRootPath root k) (mkAbsolutePathRef p)
    = Ok (Some (mkRootRelativePathRef r k)).
Proof.
  intros Hroot (-> & Hr & Hne). unfold tryMakeRelative; simpl.
  rewrite asRef_wf // bind_Ok makeRelative_join //.
  unfold RootRelativePathRef_new. rewrite bool_decide_false // Hr.
  by autorewrite with result_rw.
Qed.

(** The path of a file that is relative to a root. *)
Definition doc_path_ok (path : str) : Prop := path <> [] /\ is_relative path = true.

Lemma RootRelativePathRef_new_checked v k r :
  debugMode = true -> RootRelativePathRef_new v k = Ok r -> doc_path_ok (rel_value r).
Proof.
  intros Hd. unfold RootRelativePathRef_new, ENFORCE, ENFORCE_NO_TIMER. rewrite Hd.
  case_bool_decide; [done|]. cbn. destruct (is_relative v) eqn:E; [|done]. by intros [= <-].
Qed.
Lemma tryMakeRelative_checked this p r :
  debugMode = true -> tryMakeRelative this p = Ok (Some r) -> doc_path_ok (rel_value r).
Proof.
  unfold tryMakeRelative. intros Hd (root & _ & H)%bind_Ok_inv. destruct (makeRelative _ _); [|done].
  apply fmap_Ok_inv in H as (r' & H & [= ->]). by eapply RootRelativePathRef_new_checked.
Qed.

Lemma makeAbsolute_below root k r :
  AbsolutePath_wf root ->
  makeAbsolute (mkRootPath root k) (mkRootRelativePathRef r k)
    = Ok (mkAbsolutePath (joinPath (asStringRef root) r)).
Proof.
  intros Hroot. unfold makeAbsolute, makeAbsoluteAllowKindMismatch; simpl.
  rewrite bool_decide_true // ENFORCE_true bind_Ok.
  by apply AbsolutePath_new_abs, joinPath_abs.
Qed.

(** The result of [makeRelative], when it exists, is a suffix of the longer
    path that does not start with a separator. *)
Lemma makeRelative_Some root longer r :
  makeRelative root longer = Some r <->
  exists seps, asStringView longer = asStringView root ++ seps ++ r
    /\ Forall (eq sep) seps /\ is_relative r = true.
Proof.
  rewrite makeRelative_spec. setoid_rewrite is_relative_head. split.
  - destruct (starts_with _ _) eqn:E; [|done]. intros [= <-].
    apply prefix_drop in E. destruct (trim_separators_spec
      (drop (length (asStringView root)) (asStringView longer))) as (seps & Hs & HF).
    exists seps. rewrite -Hs. split_and!; [done|done|]. apply trim_separators_no_sep.
  - intros (seps & -> & HF & Hr). rewrite starts_with_app drop_app_length.
    by rewrite trim_separators_app ?trim_separators_id.
Qed.

(** The prefix iteration ends, and every path it yields is an absolute prefix
    of the first one. *)
Lemma prefixes_from_total p fuel :
  is_absolute p = true -> (length p < fuel)%nat ->
  exists ps, prefixes_from (Some (mkAbsolutePathRef p)) fuel = Ok (mkAbsolutePathRef p :: ps)
    /\ Forall (fun q => is_absolute (asStringView q) = true
          /\ starts_with (asStringView q) p = true
          /\ (length (asStringView q) < length p)%nat) ps.
Proof.
  revert p; induction fuel as [|fuel IH]; intros p Hp Hf; [lia|].
  cbn [prefixes_from]. unfold prefix_of_path. cbn [asStringView].
  rewrite tryFrom_spec bind_Ok.
  destruct (is_absolute (parent_path p)) eqn:Hpp.
  - pose proof (parent_path_shorter p (is_absolute_nonempty p Hp)) as Hlt.
    destruct (IH (parent_path p) Hpp) as (ps & -> & HF); [lia|].
    rewrite bind_Ok. eexists; split; [done|].
    destruct (parent_path_prefix p) as [q Hq].
    constructor; simpl.
    + split_and!; [done| |done]. apply starts_with_spec. by exists q.
    + eapply Forall_impl; [exact HF|]. simpl. intros x (Hx & Hs & Hl).
      split_and!; [done| |lia]. apply starts_with_spec in Hs as [k Hk].
      apply starts_with_spec. exists (k ++ q). by rewrite app_assoc -Hk.
  - exists []. split; [by destruct fuel|constructor].
Qed.
End Facts.

(** ** The chain of ancestors

    The list of absolute ancestors of a path, starting with itself: a pure
    reading of the prefix iteration. *)
Section Ancestors.
Context `{BM : BuildMode, LP : LlvmPath}.

Fixpoint ancestors_fuel (p : str) (fuel : nat) : list str :=
  match fuel with
  | O => []
  | S fuel' => if is_absolute p then p :: ancestors_fuel (parent_path p) fuel' else []
  end.
Definition ancestors (p : str) : list str := ancestors_fuel p (S (length p)).

Context `{!LlvmPathLaws}.

Lemma ancestors_fuel_enough p n :
  (length p < n)%nat -> ancestors_fuel p n = ancestors p.
Proof.
  unfold ancestors. remember (S (length p)) as k eqn:Ek.
  assert (length p < k)%nat as Hk by lia. clear Ek. revert p k Hk.
  induction n as [|n IH]; intros p [|k] Hk Hn; [lia..|]. simpl.
  destruct (is_absolute p) eqn:Hp; [|done]. f_equal.
  pose proof (parent_path_shorter p (is_absolute_nonempty p Hp)). apply IH; lia.
Qed.

Lemma ancestors_unfold p :
  ancestors p = if is_absolute p then p :: ancestors (parent_path p) else [].
Proof.
  unfold ancestors at 1. simpl. destruct (is_absolute p) eqn:Hp; [|done].
  pose proof (parent_path_shorter p (is_absolute_nonempty p Hp)).
  by rewrite ancestors_fuel_enough.
Qed.

(** Induction along the chain of ancestors. *)
Lemma ancestors_ind (P : str -> Prop) :
  (forall p, is_absolute p = true ->
    (is_absolute (parent_path p) = true -> P (parent_path p)) -> P p) ->
  forall p, is_absolute p = true -> P p.
Proof.
  intros Hstep p. remember (length p) as n eqn:En. revert p En.
  induction n as [n IH] using lt_wf_ind. intros p -> Hp. apply Hstep; [done|].
  intros Hpp. eapply IH; [|done|done].
  by apply parent_path_shorter, is_absolute_nonempty.
Qed.

(** The iterator yields the ancestors. *)
Lemma prefixes_from_ancestors p fuel :
  is_absolute p = true -> (length p < fuel)%nat ->
  prefixes_from (Some (mkAbsolutePathRef p)) fuel
    = Ok (map mkAbsolutePathRef (ancestors p)).
Proof.
  intros Hp. revert fuel. pattern p. apply ancestors_ind; [|done]. clear p Hp.
  intros p Hp IH [|fuel] Hf; [lia|]. cbn [prefixes_from].
  unfold prefix_of_path. cbn [asStringView].
  rewrite tryFrom_spec bind_Ok. rewrite ancestors_unfold Hp.
  pose proof (parent_path_shorter p (is_absolute_nonempty p Hp)).
  destruct (is_absolute (parent_path p)) eqn:Hpp.
  - rewrite IH //; lia.
  - rewrite (ancestors_unfold (parent_path p)) Hpp. by destruct fuel.
Qed.
End Ancestors.

(** ** A POSIX instance, for concrete inputs *)
Fixpoint split_sep (s cur : str) : list str :=
  match s with
  | [] => [cur]
  | c :: s' => if Ascii.eqb c sep then cur :: split_sep s' [] else split_sep s' (cur ++ [c])
  end.

Fixpoint drop_trailing_seps (rev_p : str) : str :=
  match rev_p with
  | c :: rest => if Ascii.eqb c sep then drop_trailing_seps rest else rev_p
  | [] => []
  end.

Fixpoint drop_component (rev_p : str) : str :=
  match rev_p with
  | c :: rest => if Ascii.eqb c sep then rev_p else drop_component rest
  | [] => []
  end.

Definition posix_parent_path (p : str) : str :=
  match p with
  | [] => []
  | _ =>
      match rev p with
      | c :: rest =>
          if Ascii.eqb c sep then rev rest
          else match drop_component rest with
               | [] => []
               | d :: above =>
                   match drop_trailing_seps above with [] => [sep] | q => rev q end
               end
      | [] => []
      end
  end.

Definition posix_absolute (p : str) : bool :=
  match p with c :: _ => Ascii.eqb c sep | [] => false end.

Definition posix_path : LlvmPath := {|
  is_absolute := posix_absolute;
  is_relative p := negb (posix_absolute p);
  parent_path := posix_parent_path;
  path_extension p :=
    match rfind_char p "."%char with Some i => substr p i | None => [] end;
  path_components p := split_sep p [];
  remove_dots p :=
    if posix_absolute p then
      match concat (map (fun c => sep :: c)
              (filter (fun c => c <> lit "." /\ c <> []) (split_sep p []))) with
      | [] => [sep]
      | q => q
      end
    else p;
|}.

Lemma drop_component_suffix l : exists x, l = x ++ drop_component l.
Proof.
  induction l as [|c l [x IH]]; simpl; [by exists []|].
  destruct (Ascii.eqb c sep); [by exists []|]. exists (c :: x). by rewrite {1}IH.
Qed.

Lemma drop_component_head l d r : drop_component l = d :: r -> d = sep.
Proof.
  induction l as [|c l IH]; simpl; [done|].
  destruct (Ascii.eqb_spec c sep) as [->|]; [congruence|done].
Qed.

Lemma drop_trailing_seps_suffix l :
  exists x, l = x ++ drop_trailing_seps l /\ Forall (eq sep) x.
Proof.
  induction l as [|c l (x & IH & HF)]; simpl; [by exists []|].
  destruct (Ascii.eqb_spec c sep) as [->|]; [|by exists []].
  exists (sep :: x). rewrite {1}IH. by split; [|constructor].
Qed.

Lemma Forall_sep_replicate x : Forall (eq sep) x -> x = replicate (length x) sep.
Proof. induction 1 as [|c l <- _ IH]; [done|]. simpl. by f_equal. Qed.

(** The parent is a proper prefix. *)
Lemma posix_parent_path_prefix p :
  p <> [] -> exists q, p = posix_parent_path p ++ q /\ q <> [].
Proof.
  intros Hp. unfold posix_parent_path. destruct p as [|a p]; [done|]. clear Hp.
  remember (rev (a :: p)) as l eqn:El.
  assert (a :: p = rev l) as -> by by rewrite El rev_involutive.
  destruct l as [|c rest]; [by apply (f_equal (@length ascii)) in El; rewrite length_rev in El|].
  clear El. simpl. destruct (Ascii.eqb c sep).
  { by exists [c]. }
  destruct (drop_component_suffix rest) as [x Hx].
  destruct (drop_component rest) as [|d above] eqn:Ed.
  { exists (rev rest ++ [c]). split; [done|]. by intros []%app_eq_nil. }
  apply drop_component_head in Ed as ->. rewrite Hx.
  destruct (drop_trailing_seps_suffix above) as (y & Hy & HF).
  destruct (drop_trailing_seps above) as [|e q].
  - rewrite app_nil_r in Hy. subst y. rewrite (Forall_sep_replicate above HF).
    rewrite rev_app_distr /=.
    assert (forall n, rev (replicate n sep) ++ [sep] = [sep] ++ replicate n sep) as Hrep.
    { intros n. induction n as [|n IH]; [done|]. by rewrite {1}replicate_S /= IH replicate_cons_app. }
    rewrite Hrep. eexists. rewrite -!app_assoc. split; [done|].
    by intros [_ [_ ?]%app_eq_nil]%app_eq_nil.
  - rewrite Hy. rewrite !rev_app_distr. cbn [rev]. rewrite !rev_app_distr.
    eexists. rewrite -!app_assoc. split; [done|].
    by intros [_ [_ [_ ?]%app_eq_nil]%app_eq_nil]%app_eq_nil.
Qed.

Lemma posix_path_laws : @LlvmPathLaws posix_path.
Proof.
  split; simpl.
  - intros [|c p]; simpl; [by split; [|intros []]|].
    destruct (Ascii.eqb_spec c sep) as [->|Hc]; split; [by exists p|done|done|].
    intros [q [= -> _]]; done.
  - done.
  - intros [|a p]; [by exists []|].
    destruct (posix_parent_path_prefix (a :: p)) as (q & Hq & _); [done|]. by exists q.
  - intros p Hp. destruct (posix_parent_path_prefix p Hp) as (q & Hq & Hn).
    apply (f_equal (@length ascii)) in Hq. rewrite length_app in Hq.
    destruct q; simpl in Hq; [done|lia].
  - intros p Hp. rewrite Hp.
    by destruct (filter _ (split_sep p [])) as [|[|c l] ls].
Qed.

(** ** Properties *)

(** C21. Round trip between root-relative and absolute paths, in debug and release
    builds: making a non-empty relative path absolute and relative again to the
    same root gives it back, and the absolute path lies inside the root. *)
Theorem makeAbsolute_tryMakeRelative `{BuildMode, LlvmPath, !LlvmPathLaws}
    (root : AbsolutePath) (k : RootKind) (r : str) :
  AbsolutePath_wf root -> is_relative r = true -> r <> [] ->
  exists abs,
    makeAbsolute (mkRootPath root k) (mkRootRelativePathRef r k) = Ok abs
    /\ AbsolutePath_wf abs
    /\ tryMakeRelative (mkRootPath root k) (mkAbsolutePathRef (asStringRef abs))
       = Ok (Some (mkRootRelativePathRef r k)).
Proof.
  intros Hroot Hr Hne. eexists. split; [by apply makeAbsolute_below|].
  split; [by apply joinPath_abs|]. by apply below_tryMakeRelative.
Qed.

Lemma makeAbsolute_tryMakeRelative_witness :
  exists abs,
    @makeAbsolute true posix_path (mkRootPath (mkAbsolutePath (lit "/home/proj")) Project)
      (mkRootRelativePathRef (lit "src/a.cc") Project) = Ok abs
    /\ @AbsolutePath_wf posix_path abs
    /\ @tryMakeRelative true posix_path (mkRootPath (mkAbsolutePath (lit "/home/proj")) Project)
         (mkAbsolutePathRef (asStringRef abs))
       = Ok (Some (mkRootRelativePathRef (lit "src/a.cc") Project)).
Proof.
  apply (@makeAbsolute_tryMakeRelative true posix_path posix_path_laws
    (mkAbsolutePath (lit "/home/proj")) Project (lit "src/a.cc")); done.
Defined.

(** [makeRelative] has no component boundary check.  For a root without a
    trailing separator and any non-empty [s] that does not start with one, the
    sibling path [root ++ s] is reported as inside the root, and going back to an
    absolute path gives a different path. *)
Theorem tryMakeRelative_accepts_siblings `{BuildMode, LlvmPath, !LlvmPathLaws}
    (root : AbsolutePath) (k : RootKind) (s : str) :
  AbsolutePath_wf root -> ends_with [sep] (asStringRef root) = false ->
  is_relative s = true -> s <> [] ->
  let sibling := asStringRef root ++ s in
  tryMakeRelative (mkRootPath root k) (mkAbsolutePathRef sibling)
    = Ok (Some (mkRootRelativePathRef s k))
  /\ exists abs, makeAbsolute (mkRootPath root k) (mkRootRelativePathRef s k) = Ok abs
       /\ asStringRef abs <> sibling.
Proof.
  intros Hroot Hend Hs Hne sibling. split.
  - unfold tryMakeRelative. cbn [root_value root_kind]. rewrite asRef_wf // bind_Ok.
    assert (makeRelative (mkAbsolutePathRef (asStringRef root)) (mkAbsolutePathRef sibling) = Some s)
      as -> by by apply makeRelative_Some; exists [].
    unfold RootRelativePathRef_new. rewrite bool_decide_false // Hs.
    by autorewrite with result_rw.
  - eexists. split; [by apply makeAbsolute_below|]. cbn [asStringRef].
    unfold joinPath. rewrite Hend /sibling. intros E%app_inv_head.
    by apply (f_equal (@length ascii)) in E; simpl in E; lia.
Qed.

Lemma tryMakeRelative_accepts_siblings_witness :
  @tryMakeRelative true posix_path (mkRootPath (mkAbsolutePath (lit "/home/proj")) Project)
    (mkAbsolutePathRef (lit "/home/proj2/a"))
  = Ok (Some (mkRootRelativePathRef (lit "2/a") Project)).
Proof.
  apply (@tryMakeRelative_accepts_siblings true posix_path posix_path_laws
    (mkAbsolutePath (lit "/home/proj")) Project (lit "2/a")); done.
Defined.

(** Iterating over the prefixes of an absolute path ends: it yields the path
    itself and then absolute, strictly shorter textual prefixes of it. *)
Theorem prefixes_terminates `{BuildMode, LlvmPath, !LlvmPathLaws} (p : AbsolutePathRef) :
  AbsolutePathRef_wf p ->
  exists ps, prefixes p = Ok (p :: ps)
    /\ Forall (fun q => AbsolutePathRef_wf q
          /\ starts_with (asStringView q) (asStringView p) = true
          /\ (length (asStringView q) < length (asStringView p))%nat) ps.
Proof.
  destruct p as [p]. intros Hp. unfold prefixes. cbn [asStringView].
  apply prefixes_from_total; [done|lia].
Qed.

Lemma prefixes_terminates_witness :
  exists ps, @prefixes true posix_path (mkAbsolutePathRef (lit "/a/b")) = Ok (mkAbsolutePathRef (lit "/a/b") :: ps)
    /\ Forall (fun q => @AbsolutePathRef_wf posix_path q
          /\ starts_with (asStringView q) (lit "/a/b") = true
          /\ (length (asStringView q) < 4)%nat) ps.
Proof.
  apply (@prefixes_terminates true posix_path posix_path_laws (mkAbsolutePathRef (lit "/a/b"))).
  done.
Defined.

Example prefixes_example :
  @prefixes true posix_path (mkAbsolutePathRef (lit "/a/b"))
  = Ok [mkAbsolutePathRef (lit "/a/b"); mkAbsolutePathRef (lit "/a"); mkAbsolutePathRef (lit "/")].
Proof. vm_compute. reflexivity. Qed.

(** The ordering of [RootRelativePathRef] is exact (equal means same text and
    same root kind), and values that compare equal mix the same data into their
    hash. *)
Theorem RootRelativePathRef_cmp_hash (lhs rhs : RootRelativePathRef) :
  (RootRelativePathRef_cmp lhs rhs = Eq <-> lhs = rhs)
  /\ RootRelativePathRef_cmp rhs lhs = CompOpp (RootRelativePathRef_cmp lhs rhs)
  /\ (RootRelativePathRef_cmp lhs rhs = Eq ->
      RootRelativePathRef_hash_parts lhs = RootRelativePathRef_hash_parts rhs).
Proof.
  pose proof (cmp_exact_iff RootRelativePathRef_cmp lhs rhs) as E. split_and!; [done| |].
  - apply cmp_antisym.
  - by intros ->%E.
Qed.
