(* ===== verification/Json.v ===== *)
(** * JSON values and serialization

    [llvm::json] is not part of the repository: it is the class [JsonLib], with
    the documented facts about it in [JsonLaws].  [Serializable] is the pair of
    overloads [toJSON]/[fromJSON] a type has; [SerializableLaws] is what a sender
    and a receiver rely on.  The macros of Derive.h are combinators here. *)
From S2P Require Import Prelude.

Class JsonLib : Type := {
  Value : Type;
  json_string : str -> Value;
  json_uint64 : Z -> Value;
  json_array : list Value -> Value;
  json_object : list (str * Value) -> Value;
  getAsString : Value -> option str;
  getAsUINT64 : Value -> option Z;
  getAsArray : Value -> option (list Value);
  is_object : Value -> bool;
  object_get : Value -> str -> option Value;
  isUTF8 : str -> bool;
}.

(** Association-list lookup, for the initializer list of an object. *)
Fixpoint assoc {A} (k : str) (l : list (str * A)) : option A :=
  match l with
  | [] => None
  | (k', v) :: l' => if bool_decide (k' = k) then Some v else assoc k l'
  end.

Class JsonLaws `{JsonLib} : Prop := {
  getAsString_string s : isUTF8 s = true -> getAsString (json_string s) = Some s;
  getAsUINT64_uint64 n : uint64 n -> getAsUINT64 (json_uint64 n) = Some n;
  getAsUINT64_range v n : getAsUINT64 v = Some n -> uint64 n;
  getAsArray_array vs : getAsArray (json_array vs) = Some vs;
  is_object_object kvs : is_object (json_object kvs) = true;
  object_get_object kvs k : NoDup kvs.*1 -> object_get (json_object kvs) k = assoc k kvs;
  isUTF8_ascii s : Forall (fun c => Ascii.leb c "127"%char = true) s -> isUTF8 s = true;
}.

Class Serializable `{JsonLib} (T : Type) : Type := {
  toJSON : T -> Value;
  fromJSON : Value -> option T;
}.

(** The values of a type that JSON can carry: valid UTF-8, integers in range. *)
Class JsonOk (T : Type) : Type := json_ok : T -> Prop.

Class SerializableLaws `{JsonLib} (T : Type) `{!Serializable T, !JsonOk T} : Prop :=
  fromJSON_toJSON (t : T) : json_ok t -> fromJSON (toJSON t) = Some t.

Section Serialize.
Context `{JsonLib}.

(** [llvm::json::ObjectMapper::map], after the test that the value is an object. *)
Definition mapper_map {T} `{!Serializable T} (mapper : Value) (prop : str) : option T :=
  object_get mapper prop ≫= fromJSON.

(** Overloads that llvm supplies. *)
#[export] Instance string_serializable : Serializable str := {|
  toJSON := json_string; fromJSON := getAsString |}.
#[export] Instance uint64_serializable : Serializable Z := {|
  toJSON := json_uint64; fromJSON := getAsUINT64 |}.
#[export] Instance vector_serializable `{!Serializable T} : Serializable (list T) | 10 := {|
  toJSON l := json_array (map toJSON l);
  fromJSON v := vs ← getAsArray v; mapM fromJSON vs |}.

#[export] Instance string_json_ok : JsonOk str := fun s => isUTF8 s = true.
#[export] Instance uint64_json_ok : JsonOk Z := uint64.
#[export] Instance vector_json_ok `{!JsonOk T} : JsonOk (list T) | 10 := Forall json_ok.

(** [DERIVE_SERIALIZE_1_NEWTYPE]. *)
Definition DERIVE_SERIALIZE_1_NEWTYPE {T F} `{!Serializable F}
    (get : T -> F) (set : F -> T) : Serializable T := {|
  toJSON t := toJSON (get t);
  fromJSON v := set <$> fromJSON v |}.

(** [DERIVE_SERIALIZE_2]. *)
Definition DERIVE_SERIALIZE_2 {T F1 F2} `{!Serializable F1, !Serializable F2}
    (name1 name2 : string) (get1 : T -> F1) (get2 : T -> F2) (mk : F1 -> F2 -> T)
    : Serializable T := {|
  toJSON t := json_object [(lit name1, toJSON (get1 t)); (lit name2, toJSON (get2 t))];
  fromJSON v :=
    if is_object v then
      f1 ← mapper_map v (lit name1);
      f2 ← mapper_map v (lit name2);
      Some (mk f1 f2)
    else None |}.

Context `{!JsonLaws}.

#[export] Instance string_serializable_laws : SerializableLaws str.
Proof. intros s. apply getAsString_string. Qed.
#[export] Instance uint64_serializable_laws : SerializableLaws Z.
Proof. intros n. apply getAsUINT64_uint64. Qed.
#[export] Instance vector_serializable_laws `{!Serializable T, !JsonOk T, !SerializableLaws T} :
  SerializableLaws (list T) | 10.
Proof.
  intros l Hl. unfold fromJSON, toJSON; simpl. rewrite getAsArray_array /=.
  induction Hl as [|x l Hx _ IH]; [done|]. simpl.
  by rewrite (fromJSON_toJSON x Hx) /= IH.
Qed.

Lemma newtype_serializable_laws {T F} `{!Serializable F, !JsonOk F, !SerializableLaws F, !JsonOk T}
    (get : T -> F) (set : F -> T) :
  (forall t, set (get t) = t) -> (forall t : T, json_ok t -> json_ok (get t)) ->
  @SerializableLaws _ T (DERIVE_SERIALIZE_1_NEWTYPE get set) _.
Proof.
  intros Hset Hok t Ht. unfold toJSON, fromJSON; simpl.
  rewrite fromJSON_toJSON; [by apply Hok|]. simpl. by rewrite Hset.
Qed.

Lemma record2_serializable_laws {T F1 F2}
    `{!Serializable F1, !JsonOk F1, !SerializableLaws F1}
    `{!Serializable F2, !JsonOk F2, !SerializableLaws F2, !JsonOk T}
    (name1 name2 : string) (get1 : T -> F1) (get2 : T -> F2) (mk : F1 -> F2 -> T) :
  lit name1 <> lit name2 ->
  (forall t, mk (get1 t) (get2 t) = t) ->
  (forall t : T, json_ok t -> json_ok (get1 t) /\ json_ok (get2 t)) ->
  @SerializableLaws _ T (DERIVE_SERIALIZE_2 name1 name2 get1 get2 mk) _.
Proof.
  intros Hne Hmk Hok t [H1 H2]%Hok. unfold toJSON, fromJSON; simpl.
  assert (NoDup [lit name1; lit name2]) as Hnd.
  { apply NoDup_cons; split; [by intros ?%list_elem_of_singleton|apply NoDup_singleton]. }
  rewrite is_object_object /mapper_map !object_get_object //=.
  rewrite (bool_decide_true (lit name1 = lit name1)) //=.
  rewrite (bool_decide_false (lit name1 = lit name2)) //=.
  rewrite (bool_decide_true (lit name2 = lit name2)) //=.
  by rewrite !fromJSON_toJSON //= Hmk.
Qed.
End Serialize.

(** ** A concrete value type, for concrete inputs *)
Inductive json : Type :=
| JString (s : str)
| JNumber (n : Z)
| JArray (l : list json)
| JObject (kvs : list (str * json)).

Definition json_lib : JsonLib := {|
  Value := json;
  json_string := JString;
  json_uint64 := JNumber;
  json_array := JArray;
  json_object := JObject;
  getAsString v := match v with JString s => Some s | _ => None end;
  getAsUINT64 v := match v with
    | JNumber n => if (0 <=? n) && (n <? 2 ^ 64) then Some n else None
    | _ => None end;
  getAsArray v := match v with JArray l => Some l | _ => None end;
  is_object v := match v with JObject _ => true | _ => false end;
  object_get v k := match v with JObject kvs => assoc k kvs | _ => None end;
  isUTF8 s := true;
|}.

Lemma json_lib_laws : @JsonLaws json_lib.
Proof.
  split; simpl; try done.
  - intros n [H1 H2]. by rewrite (proj2 (Z.leb_le 0 n) H1) (proj2 (Z.ltb_lt _ _) H2).
  - intros [s|m|l|kvs] n; try done. simpl. case_match eqn:E; [|done]. intros [= <-].
    apply andb_true_iff in E as [?%Z.leb_le ?%Z.ltb_lt]. done.
Qed.
