(* ===== verification/PackageMaps.v ===== *)
(** * Package map

    FileMetadata.h and PackageMap.h/.cc: the map from package roots to package
    ids, its construction from a JSON file, and the caching ancestor lookup.
    The file system is the class [FileSystem]; [absl::StrSplit] is the class
    [AbslSplit].  Interned string views are the strings they point to. *)
From S2P Require Import Prelude CppString Ordering Paths Json.

Record PackageId : Type := mkPackageId { package_name : str; package_version : str }.

Record PackageMetadata : Type := mkPackageMetadata {
  package_id : PackageId;
  rootPath : AbsolutePathRef;
  isMainPackage : bool;
}.
#[export] Instance PackageId_eq_dec : EqDecision PackageId.
Proof. solve_decision. Defined.
#[export] Instance PackageMetadata_eq_dec : EqDecision PackageMetadata.
Proof. solve_decision. Defined.

(** What [llvm::sys::fs] answers about the file system. *)
Class FileSystem : Type := {
  fs_exists : str -> bool;
  fs_read : str -> str;
  (** [real_path]: the canonical path, or an error; [true] for
      [no_such_file_or_directory]. *)
  real_path : str -> str + bool;
  fs_is_directory : str -> bool;
}.

Class AbslSplit : Type := StrSplit : str -> ascii -> list str.
Class AbslSplitLaws `{AbslSplit} : Prop := {
  StrSplit_join s d : foldr (fun p acc => match acc with None => Some p | Some a => Some (p ++ (d :: a)) end)
                       None (StrSplit s d) = Some s;
  StrSplit_pieces s d p : p ∈ StrSplit s d -> d ∉ p;
}.

(** [llvm::json::parse]. *)
Class JsonParser `{JsonLib} : Type := json_parse : str -> option Value.

Record PackageMapEntry : Type := mkPackageMapEntry {
  entry_rootPath : str;
  entry_package : str;
}.

(** [fromJSON] for [PackageMapEntry] (there is no [toJSON]). *)
Definition PackageMapEntry_fromJSON `{JsonLib} (v : Value) : option PackageMapEntry :=
  if is_object v then
    rootPath ← (mapper_map v (lit "path") : option str);
    package ← (mapper_map v (lit "package") : option str);
    Some (mkPackageMapEntry rootPath package)
  else None.

Definition char_between (lo c hi : ascii) : bool := Ascii.leb lo c && Ascii.leb c hi.

Definition valid_char (c : ascii) : bool :=
  char_between "a" c "z" || char_between "A" c "Z" || char_between "0" c "9"
  || Ascii.eqb c "." || Ascii.eqb c "_" || Ascii.eqb c "-".

Fixpoint checkValid (s : str) : bool :=
  match s with
  | [] => true
  | c :: s' => if valid_char c then checkValid s' else false
  end.

Lemma checkValid_Forall s : checkValid s = true <-> Forall (fun c => valid_char c = true) s.
Proof.
  induction s as [|c s IH]; simpl; [by split|].
  rewrite Forall_cons -IH. destruct (valid_char c); intuition congruence.
Qed.

Record PackageMap : Type := mkPackageMap {
  pm_map : gmap AbsolutePathRef PackageMetadata;
  warnedBadPaths : gset str;
  pm_projectRootPath : RootPath;
  isTesting : bool;
}.

Definition set_pm_map (this : PackageMap) m : PackageMap :=
  mkPackageMap m (warnedBadPaths this) (pm_projectRootPath this) (isTesting this).
Definition set_warnedBadPaths (this : PackageMap) w : PackageMap :=
  mkPackageMap (pm_map this) w (pm_projectRootPath this) (isTesting this).

(** [insert]/[emplace] of a hash map: an existing entry is kept. *)
Definition map_emplace {V} (m : gmap AbsolutePathRef V) k v : gmap AbsolutePathRef V :=
  match m !! k with Some _ => m | None => <[k := v]> m end.

Section PackageMaps.
Context `{BuildMode, LlvmPath, FileSystem, AbslSplit}.

(** One iteration of the loop of [populate]; the state is the map and
    [foundMainPackageMetadata].  Entries that are skipped leave it alone. *)
Definition populate_entry (projectRootPath : RootPath)
    (st : gmap AbsolutePathRef PackageMetadata * bool) (entry : PackageMapEntry)
    : result (gmap AbsolutePathRef PackageMetadata * bool) :=
  let '(m, foundMain) := st in
  match real_path (entry_rootPath entry) with
  | inr _ => Ok st
  | inl buf =>
      if negb (fs_is_directory buf) then Ok st
      else
        let pathKey :=
          if bool_decide (last buf = Some sep) then take (length buf - 1) buf else buf in
        match StrSplit (entry_package entry) "@"%char with
        | [name; version] =>
            if bool_decide (name = []) || bool_decide (version = []) then Ok st
            else if negb (checkValid name) || negb (checkValid version) then Ok st
            else
              o ← tryFrom pathKey;
              rootPath ← optional_value o;
              projectRoot ← asRef (root_value projectRootPath);
              let isMain := bool_decide (rootPath = projectRoot) in
              match m !! rootPath with
              | None =>
                  Ok (<[rootPath := mkPackageMetadata (mkPackageId name version) rootPath isMain]> m,
                      foundMain || isMain)
              | Some prior => Ok (m, foundMain)
              end
        | _ => Ok st
        end
  end.

Definition populate `{JsonLib, !JsonParser} (this : PackageMap) (path : str)
    : result PackageMap :=
  if negb (fs_exists path) then Err (Exit 1)
  else
    match (v ← json_parse (fs_read path); vs ← getAsArray v; mapM PackageMapEntry_fromJSON vs) with
    | None => Err (Exit 1)
    | Some [] => Err (Exit 1)
    | Some entries =>
        st ← foldM (populate_entry (pm_projectRootPath this)) (pm_map this, false) entries;
        let '(m, foundMain) := st in
        if negb foundMain then Err (Exit 1) else Ok (set_pm_map this m)
    end.

Definition PackageMap_new `{JsonLib, !JsonParser} (projectRootPath : RootPath)
    (packageMapPath : str) (isTesting : bool) : result PackageMap :=
  let this := mkPackageMap ∅ ∅ projectRootPath isTesting in
  if bool_decide (packageMapPath = []) then Ok this
  else populate this packageMapPath.

Definition checkPathIsNormalized (this : PackageMap) (filepath : AbsolutePathRef)
    : bool * PackageMap :=
  if isNormalized filepath then (true, this)
  else if (size (warnedBadPaths this) <? 5)%nat
          && negb (bool_decide (asStringView filepath ∈ warnedBadPaths this))
  then (false, set_warnedBadPaths this ({[asStringView filepath]} ∪ warnedBadPaths this))
  else (false, this).

Definition testPackageId : PackageId := mkPackageId (lit "test-pkg") (lit "test-version").

(** The loop of [lookup] over the prefixes of the path; [it] is the iterator's
    payload and [prefixLookup] the prefixes seen so far without an entry. *)
Fixpoint lookup_loop (m : gmap AbsolutePathRef PackageMetadata)
    (it : option AbsolutePathRef) (prefixLookup : list AbsolutePathRef) (fuel : nat)
    : result (option PackageMetadata * gmap AbsolutePathRef PackageMetadata) :=
  match it, fuel with
  | None, _ => Ok (None, m)
  | Some _, O => Err OutOfRange
  | Some prefix, S fuel' =>
      match m !! prefix with
      | None =>
          next ← prefix_of_path prefix;
          lookup_loop m next (prefixLookup ++ [prefix]) fuel'
      | Some packageInfo =>
          Ok (Some packageInfo,
              foldl (fun m p => map_emplace m p packageInfo) m prefixLookup)
      end
  end.

Definition lookup (this : PackageMap) (filepath : AbsolutePathRef)
    : result (option PackageMetadata * PackageMap) :=
  if bool_decide (pm_map this = ∅) then
    if isTesting this then
      o ← tryFrom (lit "/");
      root ← optional_value o;
      Ok (Some (mkPackageMetadata testPackageId root true), this)
    else Ok (None, this)
  else
    match pm_map this !! filepath with
    | Some info => Ok (Some info, this)
    | None =>
        let '(normalized, this) := checkPathIsNormalized this filepath in
        o ← tryFrom (if normalized then asStringView filepath else normalize filepath);
        filepath ← optional_value o;
        res ← lookup_loop (pm_map this) (Some filepath) [] (S (length (asStringView filepath)));
        Ok (res.1, set_pm_map this res.2)
    end.
End PackageMaps.

(** ** What [lookup] promises

    The package of a path is the entry of its nearest ancestor in the map that
    [populate] built; caching must not change that answer. *)
Section Spec.
Context `{BM : BuildMode, LP : LlvmPath}.

Definition nearest (base : gmap AbsolutePathRef PackageMetadata) (p : str)
    : option PackageMetadata :=
  head (omap (fun q => base !! mkAbsolutePathRef q) (ancestors p)).

(** [m] is [base] plus cached answers. *)
Record cache_of (base m : gmap AbsolutePathRef PackageMetadata) : Prop := {
  cache_base k v : base !! k = Some v -> m !! k = Some v;
  cache_absolute k v : m !! k = Some v -> is_absolute (asStringView k) = true;
  cache_answer k v : m !! k = Some v -> nearest base (asStringView k) = Some v;
}.

Context `{!LlvmPathLaws}.

Lemma nearest_step base p :
  is_absolute p = true ->
  nearest base p = match base !! mkAbsolutePathRef p with
                   | Some i => Some i
                   | None => nearest base (parent_path p)
                   end.
Proof.
  intros Hp. unfold nearest. rewrite ancestors_unfold Hp /=.
  by destruct (base !! mkAbsolutePathRef p).
Qed.

Lemma nearest_not_absolute base p : is_absolute p = false -> nearest base p = None.
Proof. intros Hp. unfold nearest. by rewrite ancestors_unfold Hp. Qed.

(** The answer is the entry of some ancestor, and of no farther one. *)
Lemma nearest_Some base p i :
  nearest base p = Some i <->
  exists l1 q l2, ancestors p = l1 ++ (q :: l2) /\ base !! mkAbsolutePathRef q = Some i
    /\ Forall (fun a => base !! mkAbsolutePathRef a = None) l1.
Proof.
  unfold nearest. induction (ancestors p) as [|q l IH]; simpl.
  - split; [done|]. intros ([|? ?] & q' & l2 & Hl & _); done.
  - destruct (base !! mkAbsolutePathRef q) as [j|] eqn:Eq; simpl.
    + split; [intros [= ->]; by exists [], q, l|].
      intros ([|a l1] & q' & l2 & Hl & Hb & HF); simplify_eq/=; [congruence|].
      apply Forall_cons in HF as [HF _]. congruence.
    + rewrite IH. split.
      * intros (l1 & q' & l2 & -> & Hb & HF). exists (q :: l1), q', l2.
        split_and!; [done|done|by constructor].
      * intros ([|a l1] & q' & l2 & Hl & Hb & HF); simplify_eq/=.
        apply Forall_cons in HF as [_ HF]. by exists l1, q', l2.
Qed.

Lemma cache_of_refl base :
  (forall k v, base !! k = Some v -> is_absolute (asStringView k) = true) ->
  cache_of base base.
Proof.
  intros Habs. split; [done|done|]. intros [p] v Hv.
  rewrite nearest_step; [by eapply Habs|]. simpl. by rewrite Hv.
Qed.

Lemma cache_of_emplace base m k v :
  cache_of base m -> is_absolute (asStringView k) = true ->
  nearest base (asStringView k) = Some v -> cache_of base (map_emplace m k v).
Proof.
  intros [Hb Ha Hn] Hk Hv. unfold map_emplace. destruct (m !! k) eqn:E; [by split|].
  split.
  - intros k' v' H'. rewrite lookup_insert_ne; [|by apply Hb].
    intros ->. apply Hb in H'. congruence.
  - intros k' v' [[<- <-]|[_ H']]%lookup_insert_Some; [done|by eapply Ha].
  - intros k' v' [[<- <-]|[_ H']]%lookup_insert_Some; [done|by eapply Hn].
Qed.

Lemma cache_of_foldl base m ps v :
  cache_of base m ->
  Forall (fun k => is_absolute (asStringView k) = true
            /\ nearest base (asStringView k) = Some v) ps ->
  cache_of base (foldl (fun m p => map_emplace m p v) m ps).
Proof.
  intros Hm HF. revert m Hm. induction HF as [|k ps [Hk Hv] _ IH]; intros m Hm; [done|].
  simpl. by apply IH, cache_of_emplace.
Qed.

(** The loop computes the nearest entry and keeps the cache sound. *)
Lemma lookup_loop_nearest base m p acc fuel :
  cache_of base m -> is_absolute p = true -> (length p < fuel)%nat ->
  Forall (fun k => is_absolute (asStringView k) = true
            /\ nearest base (asStringView k) = nearest base p) acc ->
  exists m', lookup_loop m (Some (mkAbsolutePathRef p)) acc fuel = Ok (nearest base p, m')
    /\ cache_of base m'.
Proof.
  intros Hm Hp. revert acc fuel. pattern p. apply ancestors_ind; [|done]. clear p Hp.
  intros p Hp IH acc [|fuel] Hf Hacc; [lia|]. cbn [lookup_loop].
  destruct (m !! mkAbsolutePathRef p) as [i|] eqn:E.
  - pose proof (cache_answer _ _ Hm _ _ E) as Hn. cbn [asStringView] in Hn.
    rewrite Hn. eexists; split; [done|]. apply cache_of_foldl; [done|].
    by rewrite Hn in Hacc.
  - assert (base !! mkAbsolutePathRef p = None) as Eb.
    { destruct (base !! mkAbsolutePathRef p) eqn:Eb; [|done].
      apply (cache_base _ _ Hm) in Eb. congruence. }
    pose proof (nearest_step base p Hp) as Hn. rewrite Eb in Hn.
    unfold prefix_of_path. cbn [asStringView]. rewrite tryFrom_spec bind_Ok.
    pose proof (parent_path_shorter p (is_absolute_nonempty p Hp)).
    destruct (is_absolute (parent_path p)) eqn:Hpp.
    + rewrite Hn. apply IH; [done|lia|]. apply Forall_app. rewrite -Hn. split; [done|].
      by apply Forall_singleton.
    + rewrite Hn nearest_not_absolute //. exists m. by destruct fuel.
Qed.

(** The path [lookup] works on after normalization. *)
Definition lookup_path (f : AbsolutePathRef) : str :=
  if isNormalized f then asStringView f else normalize f.

(** A package map whose cache is sound for what was populated. *)
Definition pm_inv (base : gmap AbsolutePathRef PackageMetadata) (this : PackageMap) : Prop :=
  base <> ∅ /\ cache_of base (pm_map this).

Lemma pm_inv_nonempty base this : pm_inv base this -> pm_map this <> ∅.
Proof.
  intros [Hne Hc] He. apply Hne, map_empty. intros k.
  destruct (base !! k) eqn:E; [|done]. apply (cache_base _ _ Hc) in E.
  by rewrite He lookup_empty in E.
Qed.

Lemma checkPathIsNormalized_map this f :
  pm_map (checkPathIsNormalized this f).2 = pm_map this
  /\ (checkPathIsNormalized this f).1 = isNormalized f.
Proof.
  unfold checkPathIsNormalized. destruct (isNormalized f); [done|]. by case_match.
Qed.

Lemma lookup_inv base this f :
  pm_inv base this -> AbsolutePathRef_wf f ->
  exists this', lookup this f =
    Ok (match pm_map this !! f with
        | Some i => Some i
        | None => nearest base (lookup_path f)
        end, this') /\ pm_inv base this'.
Proof.
  intros Hinv Hf. pose proof (pm_inv_nonempty _ _ Hinv) as Hne. destruct Hinv as [Hb Hc].
  unfold lookup. rewrite bool_decide_false //.
  destruct (pm_map this !! f) as [i|] eqn:E; [by eexists; split|].
  destruct (checkPathIsNormalized_map this f) as [Hm Hn].
  destruct (checkPathIsNormalized this f) as [b this1]; simpl in Hm, Hn. subst b.
  assert (is_absolute (lookup_path f) = true) as Habs.
  { unfold lookup_path. destruct (isNormalized f); [done|by apply remove_dots_absolute]. }
  change (if isNormalized f then asStringView f else normalize f) with (lookup_path f).
  rewrite (tryFrom_abs _ Habs). cbn -[lookup_loop]. rewrite Hm.
  destruct (lookup_loop_nearest base (pm_map this) (lookup_path f) []
    (S (length (lookup_path f)))) as (m' & -> & Hc'); [done|done|lia|constructor|].
  eexists; split; [done|]. by split.
Qed.
End Spec.

(** ** What [populate] builds *)
Section Populate.
Context `{BM : BuildMode, LP : LlvmPath, !LlvmPathLaws, FS : FileSystem, AS : AbslSplit}.

Definition PackageId_wf (id : PackageId) : Prop :=
  package_name id <> [] /\ package_version id <> []
  /\ checkValid (package_name id) = true /\ checkValid (package_version id) = true.

(** An entry of the populated map. *)
Definition entry_wf (projectRoot : AbsolutePath) (k : AbsolutePathRef) (v : PackageMetadata)
    : Prop :=
  is_absolute (asStringView k) = true /\ rootPath v = k /\ PackageId_wf (package_id v)
  /\ isMainPackage v = bool_decide (k = mkAbsolutePathRef (asStringRef projectRoot)).

Lemma populate_entry_inv root m found e m' found' :
  populate_entry root (m, found) e = Ok (m', found') ->
  (m' = m /\ found' = found)
  \/ exists k v, m !! k = None /\ m' = <[k := v]> m /\ entry_wf (root_value root) k v
       /\ found' = found || isMainPackage v.
Proof.
  unfold populate_entry.
  destruct (real_path (entry_rootPath e)) as [buf|]; [|intros [= <- <-]; by left].
  destruct (negb (fs_is_directory buf)); [intros [= <- <-]; by left|].
  set (pathKey := if bool_decide _ then _ else _). clearbody pathKey.
  destruct (StrSplit _ _) as [|name [|version [|]]]; try (intros [= <- <-]; by left).
  destruct (bool_decide (name = []) || bool_decide (version = [])) eqn:E1;
    [intros [= <- <-]; by left|].
  destruct (negb (checkValid name) || negb (checkValid version)) eqn:E2;
    [intros [= <- <-]; by left|].
  rewrite tryFrom_spec bind_Ok. destruct (is_absolute pathKey) eqn:Habs; [|done].
  cbn [optional_value]. rewrite bind_Ok. intros (r & Hr & Hres)%bind_Ok_inv.
  apply asRef_Ok_inv in Hr as [_ ->].
  destruct (m !! mkAbsolutePathRef pathKey) eqn:E; injection Hres as <- <-; [by left|right].
  apply orb_false_iff in E1 as [?%bool_decide_eq_false ?%bool_decide_eq_false].
  apply orb_false_iff in E2 as [?%negb_false_iff ?%negb_false_iff].
  eexists _, _. split_and!; [done|done| |done].
  by split_and!.
Qed.

Lemma populate_loop_inv root entries m found m' found' :
  foldM (populate_entry root) (m, found) entries = Ok (m', found') ->
  (forall k v, m !! k = Some v -> entry_wf (root_value root) k v) ->
  (found = true <-> exists k v, m !! k = Some v /\ isMainPackage v = true) ->
  (forall k v, m' !! k = Some v -> entry_wf (root_value root) k v)
  /\ (found' = true <-> exists k v, m' !! k = Some v /\ isMainPackage v = true).
Proof.
  intros Hf Hwf Hfound.
  apply (foldM_invariant (fun st =>
    (forall k v, st.1 !! k = Some v -> entry_wf (root_value root) k v)
    /\ (st.2 = true <-> exists k v, st.1 !! k = Some v /\ isMainPackage v = true)))
    in Hf; [done| |done].
  intros [t b] e [t' b'] _ [Hw Hb] [[-> ->]|(k & v & Hk & -> & Hv & ->)]%populate_entry_inv;
    [done|]. simpl in *. split.
  - intros k' v' [[<- <-]|[_ ?]]%lookup_insert_Some; eauto.
  - rewrite orb_true_iff Hb. split.
    + intros [(k' & v' & Hl & Hm)|Hm].
      * exists k', v'. split; [|done]. rewrite lookup_insert_ne //. congruence.
      * exists k, v. by rewrite lookup_insert_eq.
    + intros (k' & v' & [[<- <-]|[_ ?]]%lookup_insert_Some & Hm); [by right|left; eauto].
Qed.
End Populate.

(** ** Concrete inputs *)
Fixpoint split_on (d : ascii) (s cur : str) : list str :=
  match s with
  | [] => [cur]
  | c :: s' => if Ascii.eqb c d then cur :: split_on d s' [] else split_on d s' (cur ++ [c])
  end.
Definition demo_split : AbslSplit := fun s d => split_on d s [].

(** Every path is canonical and a directory; files are empty. *)
Definition demo_fs : FileSystem := {|
  fs_exists _ := true;
  fs_read _ := [];
  real_path p := inl p;
  fs_is_directory _ := true;
|}.

(** A parser that always yields the package map with the one entry [dir, pkg]. *)
Definition demo_parser (dir pkg : string) : @JsonParser json_lib :=
  fun _ => Some (JArray [JObject [(lit "path", JString (lit dir)); (lit "package", JString (lit pkg))]]).

Lemma split_on_join d s cur :
  foldr (fun p acc => match acc with None => Some p | Some a => Some (p ++ (d :: a)) end)
    None (split_on d s cur) = Some (cur ++ s).
Proof.
  revert cur; induction s as [|c s IH]; intros cur; simpl; [by rewrite app_nil_r|].
  destruct (Ascii.eqb_spec c d) as [->|]; simpl; rewrite IH; [done|].
  by rewrite -app_assoc.
Qed.

Lemma split_on_pieces d s cur p : d ∉ cur -> p ∈ split_on d s cur -> d ∉ p.
Proof.
  revert cur; induction s as [|c s IH]; intros cur Hc; simpl.
  - by intros ->%list_elem_of_singleton.
  - destruct (Ascii.eqb_spec c d) as [->|Hn].
    + intros [->|Hp]%elem_of_cons; [done|]. eapply IH; [|done]. apply not_elem_of_nil.
    + apply IH. rewrite not_elem_of_app. split; [done|].
      intros ->%list_elem_of_singleton. done.
Qed.

Lemma demo_split_laws : @AbslSplitLaws demo_split.
Proof.
  split.
  - intros s d. apply split_on_join.
  - intros s d p. apply split_on_pieces, not_elem_of_nil.
Qed.

(** ** Properties *)

(** C19. Lookups agree with the abstract specification and never corrupt the cache:
    on a map whose cache is sound for the populated entries, looking up a path
    that is normalized succeeds with the package of its nearest ancestor among the
    populated entries, and leaves a map whose cache is sound for the same entries.
    Hence the answer does not depend on which lookups were made before. *)
Theorem lookup_nearest_ancestor
    `{BM : BuildMode, LP : LlvmPath, !LlvmPathLaws}
    (base : gmap AbsolutePathRef PackageMetadata) (this : PackageMap) (f : AbsolutePathRef) :
  pm_inv base this -> AbsolutePathRef_wf f -> isNormalized f = true ->
  exists this', lookup this f = Ok (nearest base (asStringView f), this') /\ pm_inv base this'.
Proof.
  intros Hinv Hf Hn. destruct (lookup_inv base this f Hinv Hf) as (this' & -> & Hinv').
  exists this'. split; [|done]. unfold lookup_path. rewrite Hn.
  destruct (pm_map this !! f) as [i|] eqn:E; [|done].
  destruct Hinv as [_ Hc]. apply (cache_answer _ _ Hc) in E. by rewrite E.
Qed.


(** A package-map entry for the file-system root is not handled: its trailing
    separator is removed, the resulting empty path is not absolute, and reading the
    empty optional throws. *)
Theorem populate_entry_root_dir
    `{BM : BuildMode, LP : LlvmPath, !LlvmPathLaws, FS : FileSystem, AS : AbslSplit}
    (root : RootPath) m found (p package name version : str) :
  real_path p = inl (lit "/") -> fs_is_directory (lit "/") = true ->
  StrSplit package "@"%char = [name; version] ->
  name <> [] -> version <> [] -> checkValid name = true -> checkValid version = true ->
  populate_entry root (m, found) (mkPackageMapEntry p package) = Err BadOptionalAccess.
Proof.
  intros Hp Hd Hs Hn Hv Cn Cv. unfold populate_entry. cbn [entry_rootPath entry_package].
  rewrite Hp Hd Hs Cn Cv (bool_decide_false (name = [])) // (bool_decide_false (version = [])) //=.
  rewrite tryFrom_spec. destruct (is_absolute []) eqn:E; [|done].
  by apply is_absolute_nonempty in E.
Qed.

Definition demo_root : RootPath := mkRootPath (mkAbsolutePath (lit "/p")) Project.
Definition demo_metadata : PackageMetadata :=
  mkPackageMetadata (mkPackageId (lit "n") (lit "1")) (mkAbsolutePathRef (lit "/p")) true.
Definition demo_base : gmap AbsolutePathRef PackageMetadata :=
  {[ mkAbsolutePathRef (lit "/p") := demo_metadata ]}.

Lemma lookup_nearest_ancestor_witness :
  exists this',
    @lookup true posix_path (mkPackageMap demo_base ∅ demo_root false) (mkAbsolutePathRef (lit "/p/a/b"))
      = Ok (Some demo_metadata, this')
    /\ @pm_inv posix_path demo_base this'.
Proof.
  apply (@lookup_nearest_ancestor true posix_path posix_path_laws demo_base
    (mkPackageMap demo_base ∅ demo_root false) (mkAbsolutePathRef (lit "/p/a/b"))).
  - split; [vm_compute; discriminate|]. apply (@cache_of_refl posix_path posix_path_laws).
    intros k v; simpl; unfold demo_base. intros [<- _]%lookup_singleton_Some. vm_compute. reflexivity.
  - vm_compute. reflexivity.
  - vm_compute. reflexivity.
Defined.


Lemma populate_entry_root_dir_witness :
  @populate_entry true posix_path demo_fs demo_split demo_root (∅, false)
    (mkPackageMapEntry (lit "/") (lit "n@1")) = Err BadOptionalAccess.
Proof.
  apply (@populate_entry_root_dir true posix_path posix_path_laws demo_fs demo_split
    demo_root ∅ false (lit "/") (lit "n@1") (lit "n") (lit "1")); done.
Defined.
