(* ===== verification/IdPaths.v ===== *)
(** * File ids and stable file ids

    IdPathMappings.h/.cc and [StableFileId]/[FileMetadata] of FileMetadata.h:
    the two-way mapping between Clang's file ids and (path, hash) pairs, and the
    classification of files as in-project, external or synthetic.
    [clang::FileID] is a parameter, as are the file system and [wyhash]. *)
From S2P Require Import Prelude CppString Ordering Paths PackageMaps.

Class ClangFileID : Type := {
  FileID : Type;
  FileID_eq_dec :: EqDecision FileID;
  FileID_countable :: Countable FileID;
  FileID_isValid : FileID -> bool;
}.

(** [HashValue::forText]. *)
Class TextHash : Type := forText : str -> Z.
Class TextHashLaws `{TextHash} : Prop := forText_uint64 s : uint64 (forText s).

Abbreviation HashValue := Z (only parsing).

Record StableFileId : Type := mkStableFileId {
  sf_path : RootRelativePathRef;
  isInProject : bool;
  isSynthetic : bool;
}.

(** The defaulted [operator<=>]: member by member, in declaration order. *)
Definition StableFileId_cmp (lhs rhs : StableFileId) : comparison :=
  CMP_CHECK (RootRelativePathRef_cmp (sf_path lhs) (sf_path rhs))
    (CMP_CHECK (cmp_bool (isInProject lhs) (isInProject rhs))
      (CMP_CHECK (cmp_bool (isSynthetic lhs) (isSynthetic rhs)) Eq)).

Record FileMetadata : Type := mkFileMetadata {
  stableFileId : StableFileId;
  originalPath : AbsolutePathRef;
  packageInfo : option PackageMetadata;
}.

(** [FileMetadata::packageId]: a default [PackageId] has empty views. *)
Definition packageId (this : FileMetadata) : PackageId :=
  match packageInfo this with
  | Some info => package_id info
  | None => mkPackageId [] []
  end.

#[export] Instance StableFileId_eq_dec : EqDecision StableFileId.
Proof. solve_decision. Defined.
#[export] Instance FileMetadata_eq_dec : EqDecision FileMetadata.
Proof. solve_decision. Defined.
#[export] Instance StableFileId_countable : Countable StableFileId.
Proof.
  refine (inj_countable' (fun s => (sf_path s, isInProject s, isSynthetic s))
    (fun p => mkStableFileId p.1.1 p.1.2 p.2) _). by intros [].
Defined.

#[export] Instance StableFileId_cmp_exact : ExactOrdering StableFileId_cmp.
Proof.
  set (c := cmp_then (cmp_on sf_path RootRelativePathRef_cmp)
              (cmp_then (cmp_on isInProject cmp_bool) (cmp_on isSynthetic cmp_bool))).
  assert (forall x y, StableFileId_cmp x y = c x y) as E.
  { intros x y. unfold StableFileId_cmp, c, cmp_then, cmp_on. by autorewrite with cmp. }
  split; [eapply cmp_ext; [intros; symmetry; apply E|apply _]|].
  intros [p1 b1 c1] [p2 b2 c2]. rewrite E /c /cmp_then /cmp_on /=.
  intros [E1 [E2 E3]%CMP_CHECK_eq]%CMP_CHECK_eq.
  apply (cmp_eq_exact (cmp:=RootRelativePathRef_cmp)) in E1.
  apply (cmp_eq_exact (cmp:=cmp_bool)) in E2, E3. by subst.
Qed.

(** ** [ClangIdLookupMap] *)
Section ClangIdLookupMap.
Context `{BuildMode, ClangFileID, HashIteration}.

Definition ClangIdLookupMap : Type := gmap AbsolutePathRef (gmap HashValue FileID).

Definition lookupMap_insert (this : ClangIdLookupMap) (absPathRef : AbsolutePathRef)
    (hashValue : HashValue) (fileId : FileID) : ClangIdLookupMap :=
  match this !! absPathRef with
  | None => <[absPathRef := {[hashValue := fileId]}]> this
  | Some value => <[absPathRef := <[hashValue := fileId]> value]> this
  end.

Definition forEachPathAndHash {S} (this : ClangIdLookupMap)
    (callback : S -> AbsolutePathRef -> gmap HashValue FileID -> result S) (s : S) : result S :=
  foldM (fun s kv =>
      ENFORCE (negb (bool_decide (kv.2 = ∅))) "Shouldn't have stored empty maps" ;;
      callback s kv.1 kv.2) s (iterate this).

Definition lookupMap_lookup (this : ClangIdLookupMap) (absPathRef : AbsolutePathRef)
    (hashValue : HashValue) : option FileID :=
  match this !! absPathRef with
  | None => None
  | Some value => value !! hashValue
  end.

Definition lookupAnyFileId (this : ClangIdLookupMap) (absPathRef : AbsolutePathRef)
    : result (option FileID) :=
  match this !! absPathRef with
  | None => Ok None
  | Some value =>
      match iterate value with
      | (_, fileId) :: _ => Ok (Some fileId)
      | [] => ENFORCE false "Shouldn't have stored empty maps" ;; Ok None
      end
  end.

Definition lookupMap_wf (this : ClangIdLookupMap) : Prop :=
  forall k v, this !! k = Some v -> v <> ∅.

Lemma lookupMap_insert_wf this p h f :
  lookupMap_wf this -> lookupMap_wf (lookupMap_insert this p h f).
Proof.
  intros Hwf k v. unfold lookupMap_insert.
  destruct (this !! p) as [w|]; intros [[<- <-]|[_ ?]]%lookup_insert_Some.
  - apply insert_non_empty.
  - by eapply Hwf.
  - apply map_non_empty_singleton.
  - by eapply Hwf.
Qed.

Lemma lookupMap_lookup_insert this p h f p' h' :
  lookupMap_lookup (lookupMap_insert this p h f) p' h'
  = if bool_decide (p = p' /\ h = h') then Some f else lookupMap_lookup this p' h'.
Proof.
  unfold lookupMap_lookup, lookupMap_insert.
  destruct (decide (p = p')) as [<-|Hp].
  - destruct (decide (h = h')) as [<-|Hh].
    + rewrite bool_decide_true //. destruct (this !! p); by rewrite !lookup_insert_eq.
    + rewrite bool_decide_false; [intros [??]; congruence|].
      destruct (this !! p); rewrite lookup_insert_eq; by rewrite lookup_insert_ne.
  - rewrite bool_decide_false; [intros [??]; congruence|].
    destruct (this !! p); by rewrite lookup_insert_ne.
Qed.
End ClangIdLookupMap.

(** ** [FileMetadataMap] *)
Section FileMetadataMap.
Context `{BuildMode, LlvmPath, FileSystem, ClangFileID, HashIteration, TextHash}.

(** [packageMap] is a reference in the code; its cache is threaded through. *)
Record FileMetadataMap : Type := mkFileMetadataMap {
  storage : list RootRelativePath;
  fm_map : gmap FileID FileMetadata;
  fm_projectRootPath : RootPath;
  fm_buildRootPath : RootPath;
  fm_packageMap : PackageMap;
}.

Definition set_fm_packageMap (this : FileMetadataMap) (pm : PackageMap) : FileMetadataMap :=
  mkFileMetadataMap (storage this) (fm_map this) (fm_projectRootPath this)
    (fm_buildRootPath this) pm.

(** [this->map.insert({{fileId}, metadata}).second]. *)
Definition fm_map_insert (this : FileMetadataMap) (fileId : FileID) (metadata : FileMetadata)
    : bool * FileMetadataMap :=
  match fm_map this !! fileId with
  | Some _ => (false, this)
  | None =>
      (true, mkFileMetadataMap (storage this) (<[fileId := metadata]> (fm_map this))
               (fm_projectRootPath this) (fm_buildRootPath this) (fm_packageMap this))
  end.

(** The lambda [insertRelPath] of [insert]. *)
Definition insertRelPath (this : FileMetadataMap) (fileId : FileID)
    (absPathRef : AbsolutePathRef) (optPackageMetadata : option PackageMetadata)
    (relPathRef : RootRelativePathRef) (isInProject : bool)
    : result (bool * FileMetadataMap) :=
  ENFORCE (negb (bool_decide (rel_value relPathRef = [])))
    "file path is unexpectedly equal to project root" ;;
  Ok (fm_map_insert this fileId
        (mkFileMetadata (mkStableFileId relPathRef isInProject false) absPathRef
           optPackageMetadata)).

(** The end of [insert]: a made-up path outside the project. *)
Definition insertSynthetic (this : FileMetadataMap) (fileId : FileID)
    (absPathRef : AbsolutePathRef) (optPackageMetadata : option PackageMetadata)
    : result (bool * FileMetadataMap) :=
  let optFileName := fileName (asStringView absPathRef) in
  ENFORCE (bool_decide (is_Some optFileName)) "Clang returned file path without a file name" ;;
  name ← match optFileName with Some f => Ok f | None => Err OutOfRange end;
  path ← RootRelativePath_new
    (lit "<external>/" ++ fmt_uint (forText (asStringView absPathRef)) ++ lit "/" ++ name) Build;
  let this := mkFileMetadataMap (storage this ++ [path]) (fm_map this)
                (fm_projectRootPath this) (fm_buildRootPath this) (fm_packageMap this) in
  ref ← RootRelativePath_asRef path;
  Ok (fm_map_insert this fileId
        (mkFileMetadata (mkStableFileId ref false true) absPathRef optPackageMetadata)).

(** The final check of [insert]: is the path inside the project root? *)
Definition insertInProjectOrSynthetic (this : FileMetadataMap) (fileId : FileID)
    (absPathRef : AbsolutePathRef) (optPackageMetadata : option PackageMetadata)
    (checkInProjectPath : bool) : result (bool * FileMetadataMap) :=
  if checkInProjectPath then
    optProjectRootRelPath ← tryMakeRelative (fm_projectRootPath this) absPathRef;
    match optProjectRootRelPath with
    | Some rel => insertRelPath this fileId absPathRef optPackageMetadata rel true
    | None => insertSynthetic this fileId absPathRef optPackageMetadata
    end
  else insertSynthetic this fileId absPathRef optPackageMetadata.

Definition insert (this : FileMetadataMap) (fileId : FileID) (absPathRef : AbsolutePathRef)
    : result (bool * FileMetadataMap) :=
  ENFORCE (FileID_isValid fileId) "invalid FileIDs should be filtered out after preprocessing" ;;
  ENFORCE (negb (bool_decide (asStringView absPathRef = [])))
    "inserting file with empty absolute path" ;;
  found ← lookup (fm_packageMap this) absPathRef;
  let '(optPackageMetadata, pm) := found in
  let this := set_fm_packageMap this pm in
  match optPackageMetadata with
  | Some info =>
      match makeRelative (rootPath info) absPathRef with
      | Some optStrView =>
          rel ← RootRelativePathRef_new optStrView External;
          insertRelPath this fileId absPathRef optPackageMetadata rel (isMainPackage info)
      | None =>
          insertInProjectOrSynthetic this fileId absPathRef optPackageMetadata false
      end
  | None =>
      optBuildRootRelPath ← tryMakeRelative (fm_buildRootPath this) absPathRef;
      match optBuildRootRelPath with
      | Some buildRootRelPath =>
          originalFileSourcePath ←
            makeAbsoluteAllowKindMismatch (fm_projectRootPath this) buildRootRelPath;
          match real_path (asStringRef originalFileSourcePath) with
          | inl realPath =>
              if bool_decide (realPath = asStringRef originalFileSourcePath) then
                rel ← RootRelativePathRef_new (rel_value buildRootRelPath) Project;
                insertRelPath this fileId absPathRef optPackageMetadata rel true
              else insertInProjectOrSynthetic this fileId absPathRef optPackageMetadata false
          | inr _ => insertInProjectOrSynthetic this fileId absPathRef optPackageMetadata true
          end
      | None => insertInProjectOrSynthetic this fileId absPathRef optPackageMetadata true
      end
  end.

Definition populate_files (this : FileMetadataMap) (clangIdLookupMap : ClangIdLookupMap)
    : result FileMetadataMap :=
  forEachPathAndHash clangIdLookupMap
    (fun this absPathRef hashes =>
       foldM (fun this kv =>
           res ← insert this kv.2 absPathRef;
           ENFORCE res.1 "there is a 1-1 mapping from FileID -> (path, hash)" ;;
           Ok res.2) this (iterate hashes)) this.

Definition fm_contains (this : FileMetadataMap) (fileId : FileID) : bool :=
  bool_decide (is_Some (fm_map this !! fileId)).

Definition forEachFileId {S} (this : FileMetadataMap)
    (callback : S -> FileID -> StableFileId -> S) (s : S) : S :=
  foldl (fun s kv => callback s kv.1 (stableFileId kv.2)) s (iterate (fm_map this)).

Definition getStableFileId (this : FileMetadataMap) (fileId : FileID) : option StableFileId :=
  match fm_map this !! fileId with
  | None => None
  | Some entry => Some (stableFileId entry)
  end.

Definition getFileMetadata (this : FileMetadataMap) (fileId : FileID) : option FileMetadata :=
  fm_map this !! fileId.
End FileMetadataMap.

(** ** The cases of FileMetadata.h *)
Inductive file_case `{BM : BuildMode, LP : LlvmPath} (md : FileMetadata) : Prop :=
| CaseInProject :
    isInProject (stableFileId md) = true -> isSynthetic (stableFileId md) = false ->
    (debugMode = true -> doc_path_ok (rel_value (sf_path (stableFileId md)))) ->
    file_case md
| CaseExternalPackage info :
    isInProject (stableFileId md) = false -> isSynthetic (stableFileId md) = false ->
    packageInfo md = Some info -> isMainPackage info = false ->
    makeRelative (rootPath info) (originalPath md) = Some (rel_value (sf_path (stableFileId md))) ->
    rel_kind (sf_path (stableFileId md)) = External ->
    file_case md
| CaseSynthetic :
    isInProject (stableFileId md) = false -> isSynthetic (stableFileId md) = true ->
    starts_with (lit "<external>/") (rel_value (sf_path (stableFileId md))) = true ->
    (forall info, packageInfo md = Some info ->
       makeRelative (rootPath info) (originalPath md) = None) ->
    file_case md.

Section InsertFacts.
Context `{BM : BuildMode, LP : LlvmPath, FS : FileSystem}.
Context `{CF : ClangFileID, TH : TextHash}.

(** The outcome of inserting [md] for [fileId]: an existing entry is kept. *)
Definition inserted (this this' : FileMetadataMap) (fileId : FileID) (md : FileMetadata)
    (b : bool) : Prop :=
  match fm_map this !! fileId with
  | Some _ => b = false /\ fm_map this' = fm_map this
  | None => b = true /\ fm_map this' = <[fileId := md]> (fm_map this)
  end.

Lemma fm_map_insert_inserted this fileId md :
  inserted this (fm_map_insert this fileId md).2 fileId md (fm_map_insert this fileId md).1.
Proof. unfold inserted, fm_map_insert. by destruct (fm_map this !! fileId) eqn:E. Qed.

Lemma insertRelPath_inv this fileId p opt rel inProj b this' :
  insertRelPath this fileId p opt rel inProj = Ok (b, this') ->
  inserted this this' fileId (mkFileMetadata (mkStableFileId rel inProj false) p opt) b
  /\ fm_packageMap this' = fm_packageMap this.
Proof.
  unfold insertRelPath. intros (u & _ & [= Hres])%bind_Ok_inv.
  match goal with |- inserted _ _ _ ?m _ /\ _ =>
    pose proof (fm_map_insert_inserted this fileId m) as Hi end.
  unfold fm_map_insert in *. destruct (fm_map this !! fileId); simplify_eq/=; done.
Qed.

Lemma RootRelativePathRef_new_inv v k r :
  RootRelativePathRef_new v k = Ok r -> r = mkRootRelativePathRef v k.
Proof. unfold RootRelativePathRef_new. intros (? & _ & (? & _ & [= <-])%bind_Ok_inv)%bind_Ok_inv. done. Qed.

Lemma RootRelativePath_new_inv v k r :
  RootRelativePath_new v k = Ok r -> r = mkRootRelativePath v k.
Proof.
  unfold RootRelativePath_new. case_bool_decide; [by intros [= <-]|].
  by intros (? & _ & [= <-])%bind_Ok_inv.
Qed.

Lemma insertSynthetic_inv this fileId p opt b this' :
  insertSynthetic this fileId p opt = Ok (b, this') ->
  exists rel, inserted this this' fileId (mkFileMetadata (mkStableFileId rel false true) p opt) b
    /\ starts_with (lit "<external>/") (rel_value rel) = true
    /\ fm_packageMap this' = fm_packageMap this.
Proof.
  unfold insertSynthetic.
  intros (u & _ & (name & _ & (path & Hpath & (ref & Href & Hres)%bind_Ok_inv)%bind_Ok_inv)%bind_Ok_inv)%bind_Ok_inv.
  apply RootRelativePath_new_inv in Hpath as ->.
  apply RootRelativePathRef_new_inv in Href as ->. cbn [rrp_value rrp_kind] in Hres.
  apply Ok_inj in Hres.
  match type of Hres with fm_map_insert ?t ?f ?m = _ =>
    pose proof (fm_map_insert_inserted t f m) as Hi; rewrite Hres in Hi end.
  eexists. split; [exact Hi|]. split.
  - apply starts_with_app.
  - unfold fm_map_insert in Hres. cbn [fm_map] in Hres.
    destruct (fm_map this !! fileId); by simplify_eq/=.
Qed.

Lemma insertInProjectOrSynthetic_inv this fileId p opt check b this' :
  (forall info, opt = Some info -> makeRelative (rootPath info) p = None) ->
  insertInProjectOrSynthetic this fileId p opt check = Ok (b, this') ->
  exists md, inserted this this' fileId md b /\ originalPath md = p /\ packageInfo md = opt
    /\ file_case md /\ fm_packageMap this' = fm_packageMap this.
Proof.
  intros Hopt.
  assert (insertSynthetic this fileId p opt = Ok (b, this') ->
    exists md, inserted this this' fileId md b /\ originalPath md = p /\ packageInfo md = opt
      /\ file_case md /\ fm_packageMap this' = fm_packageMap this) as Hsyn.
  { intros (rel & Hi & Hs & Hp)%insertSynthetic_inv. eexists.
    split_and!; [done|done|done|by apply CaseSynthetic|done]. }
  unfold insertInProjectOrSynthetic. destruct check; [|done].
  intros (o & Ho & Hres)%bind_Ok_inv. destruct o as [rel|]; [|by apply Hsyn].
  apply insertRelPath_inv in Hres as [Hi Hp]. eexists.
  split_and!; [done|done|done|apply CaseInProject; [done..|intros; by eapply tryMakeRelative_checked]|done].
Qed.

(** Every successful insertion records metadata in one of the documented cases. *)
Lemma insert_inv this fileId p b this' :
  insert this fileId p = Ok (b, this') ->
  exists md opt pm, lookup (fm_packageMap this) p = Ok (opt, pm)
    /\ inserted this this' fileId md b /\ originalPath md = p /\ packageInfo md = opt
    /\ file_case md /\ fm_packageMap this' = pm.
Proof.
  unfold insert. intros (? & _ & (? & _ & ([opt pm] & Hl & Hres)%bind_Ok_inv)%bind_Ok_inv)%bind_Ok_inv.
  set (this1 := set_fm_packageMap this pm) in Hres.
  assert (forall md, inserted this1 this' fileId md b /\ originalPath md = p /\ packageInfo md = opt
    /\ file_case md /\ fm_packageMap this' = fm_packageMap this1 ->
    exists md opt pm, lookup (fm_packageMap this) p = Ok (opt, pm)
    /\ inserted this this' fileId md b /\ originalPath md = p /\ packageInfo md = opt
    /\ file_case md /\ fm_packageMap this' = pm) as Hdone.
  { intros md (Hi & Ho & Hp & Hc & Hpm). exists md, opt, pm. by split_and!. }
  destruct opt as [info|].
  - destruct (makeRelative (rootPath info) p) as [r|] eqn:Hr.
    + apply bind_Ok_inv in Hres as (rel & Hrel & Hres).
      pose proof (fun Hd => RootRelativePathRef_new_checked _ _ _ Hd Hrel) as Hok.
      apply RootRelativePathRef_new_inv in Hrel as ->.
      apply insertRelPath_inv in Hres as [Hi Hpm]. eapply Hdone.
      split_and!; [exact Hi|done|done| |done].
      destruct (isMainPackage info) eqn:Hm; [by apply CaseInProject|by eapply CaseExternalPackage].
    + apply insertInProjectOrSynthetic_inv in Hres as [md Hmd]; [by eapply Hdone|].
      by intros i [= <-].
  - apply bind_Ok_inv in Hres as (o & _ & Hres). destruct o as [rel|].
    + apply bind_Ok_inv in Hres as (src & _ & Hres).
      destruct (real_path _) as [rp|e].
      * destruct (bool_decide _).
        -- apply bind_Ok_inv in Hres as (rel' & Hrel & Hres).
           apply insertRelPath_inv in Hres as [Hi Hpm]. eapply Hdone.
           split_and!; [exact Hi|done|done|apply CaseInProject; [done..|intros; by eapply RootRelativePathRef_new_checked]|done].
        -- apply insertInProjectOrSynthetic_inv in Hres as [md Hmd]; [by eapply Hdone|done].
      * apply insertInProjectOrSynthetic_inv in Hres as [md Hmd]; [by eapply Hdone|done].
    + apply insertInProjectOrSynthetic_inv in Hres as [md Hmd]; [by eapply Hdone|done].
Qed.

(** All recorded metadata is in one of the documented cases. *)
Definition fm_inv (this : FileMetadataMap) : Prop :=
  forall f md, fm_map this !! f = Some md -> file_case md.

Lemma inserted_inv this this' f md b :
  inserted this this' f md b -> file_case md -> fm_inv this -> fm_inv this'.
Proof.
  unfold inserted, fm_inv. destruct (fm_map this !! f).
  - by intros [_ ->].
  - intros [_ ->] Hc Hinv f' md' [[<- <-]|[_ ?]]%lookup_insert_Some; [done|by eapply Hinv].
Qed.
End InsertFacts.

(** ** When insertion succeeds *)
Section InsertTotal.
Context `{BM : BuildMode, LP : LlvmPath, !LlvmPathLaws, FS : FileSystem}.
Context `{CF : ClangFileID, TH : TextHash}.

(** What the callers guarantee: well-formed roots, a sound package map (or none),
    a valid id, and the path of a file: it has a file name and is not the root
    directory of the project, of the build or of a package. *)
Record insert_pre (this : FileMetadataMap) (base : gmap AbsolutePathRef PackageMetadata)
    (fileId : FileID) (p : AbsolutePathRef) : Prop := {
  pre_valid : FileID_isValid fileId = true;
  pre_abs : AbsolutePathRef_wf p;
  pre_name : is_Some (fileName (asStringView p));
  pre_project : AbsolutePath_wf (root_value (fm_projectRootPath this))
    /\ asStringRef (root_value (fm_projectRootPath this)) <> asStringView p;
  pre_build : AbsolutePath_wf (root_value (fm_buildRootPath this))
    /\ asStringRef (root_value (fm_buildRootPath this)) <> asStringView p;
  pre_packages : pm_map (fm_packageMap this) = ∅ \/ pm_inv base (fm_packageMap this);
  pre_package_roots k v : base !! k = Some v -> asStringView (rootPath v) <> asStringView p;
}.

Lemma file_not_dir p q : is_Some (fileName p) -> p <> q ++ [sep].
Proof.
  intros [n (Hn & Hs & dir & Hd)%fileName_Some] E. rewrite Hd in E.
  destruct n as [|c n _] using rev_ind; [done|].
  rewrite app_comm_cons app_assoc in E. apply app_inj_tail in E as [_ ->].
  apply Hs, elem_of_app. right. by apply list_elem_of_singleton.
Qed.

Lemma makeRelative_file root p r :
  is_Some (fileName (asStringView p)) -> asStringView root <> asStringView p ->
  makeRelative root p = Some r -> r <> [] /\ is_relative r = true.
Proof.
  intros Hn Hne (seps & Hp & HF & Hr)%makeRelative_Some. split; [|done]. intros ->.
  rewrite app_nil_r in Hp. destruct seps as [|c seps _] using rev_ind.
  - rewrite app_nil_r in Hp. congruence.
  - apply Forall_app in HF as [_ HF]. apply Forall_singleton in HF as <-.
    rewrite app_assoc in Hp. by eapply file_not_dir in Hp.
Qed.

Lemma RootRelativePathRef_new_ok r k :
  r <> [] -> is_relative r = true ->
  RootRelativePathRef_new r k = Ok (mkRootRelativePathRef r k).
Proof.
  intros Hne Hr. unfold RootRelativePathRef_new. rewrite bool_decide_false // Hr.
  by autorewrite with result_rw.
Qed.

Lemma insertRelPath_ok this f p opt rel b :
  rel_value rel <> [] -> exists res, insertRelPath this f p opt rel b = Ok res.
Proof.
  intros Hne. unfold insertRelPath. rewrite bool_decide_false // ENFORCE_true. by eexists.
Qed.

Lemma external_relative s : is_relative (lit "<external>/" ++ s) = true.
Proof. by apply is_relative_head. Qed.

Lemma insertSynthetic_ok this f p opt :
  is_Some (fileName (asStringView p)) -> exists res, insertSynthetic this f p opt = Ok res.
Proof.
  intros [n Hn]. unfold insertSynthetic. rewrite Hn bool_decide_true // ENFORCE_true !bind_Ok.
  unfold RootRelativePath_new. rewrite bool_decide_false // external_relative ENFORCE_true !bind_Ok.
  unfold RootRelativePath_asRef. cbn [rrp_value rrp_kind].
  rewrite RootRelativePathRef_new_ok; [done|apply external_relative|]. by eexists.
Qed.

Lemma tryMakeRelative_file this p :
  AbsolutePath_wf (root_value this) -> asStringRef (root_value this) <> asStringView p ->
  is_Some (fileName (asStringView p)) ->
  exists o, tryMakeRelative this p = Ok o
    /\ (forall rel, o = Some rel -> rel_value rel <> [] /\ is_relative (rel_value rel) = true).
Proof.
  intros Hwf Hne Hn. unfold tryMakeRelative. rewrite asRef_wf // bind_Ok.
  destruct (makeRelative _ p) as [r|] eqn:E; [|by exists None].
  apply makeRelative_file in E as [Hr Hrel]; [|done..].
  rewrite RootRelativePathRef_new_ok //. eexists; split; [done|]. by intros rel [= <-].
Qed.

Lemma insertInProjectOrSynthetic_ok this f p opt check :
  AbsolutePath_wf (root_value (fm_projectRootPath this)) ->
  asStringRef (root_value (fm_projectRootPath this)) <> asStringView p ->
  is_Some (fileName (asStringView p)) ->
  exists res, insertInProjectOrSynthetic this f p opt check = Ok res.
Proof.
  intros Hwf Hne Hn. unfold insertInProjectOrSynthetic.
  destruct check; [|by apply insertSynthetic_ok].
  destruct (tryMakeRelative_file _ p Hwf Hne Hn) as ([rel|] & -> & Ho); rewrite bind_Ok.
  - apply insertRelPath_ok. by apply Ho.
  - by apply insertSynthetic_ok.
Qed.

Lemma insert_lookup_ok this base f p :
  insert_pre this base f p ->
  exists opt pm, lookup (fm_packageMap this) p = Ok (opt, pm)
    /\ (pm_map pm = ∅ \/ pm_inv base pm)
    /\ (forall info, opt = Some info -> asStringView (rootPath info) <> asStringView p).
Proof.
  intros [_ Habs Hn _ _ [He|Hpm] Hroots].
  - unfold lookup. rewrite bool_decide_true //. destruct (PackageMaps.isTesting _).
    + rewrite (tryFrom_abs (lit "/") (is_absolute_cons [])). simpl.
      eexists _, _. split_and!; [done|by left|]. intros info [= <-] E. cbn in E.
      by eapply (file_not_dir _ [] Hn).
    + eexists _, _. split_and!; [done|by left|done].
  - destruct (lookup_inv base _ p Hpm Habs) as (pm & -> & Hpm').
    eexists _, _. split_and!; [done|by right|]. intros info Hinfo.
    assert (exists k, base !! k = Some info) as [k Hk]; [|by eapply Hroots].
    destruct Hpm as [_ Hc].
    assert (exists q, nearest base q = Some info) as [q Hq].
    { destruct (pm_map (fm_packageMap this) !! p) as [i|] eqn:E; [|by eexists].
      injection Hinfo as ->. eexists. by eapply cache_answer. }
    apply nearest_Some in Hq as (_ & q' & _ & _ & Hq' & _). by eexists.
Qed.

Lemma insert_ok this base f p :
  insert_pre this base f p -> exists res, insert this f p = Ok res.
Proof.
  intros Hpre. destruct (insert_lookup_ok _ _ _ _ Hpre) as (opt & pm & Hl & _ & Hroot).
  destruct Hpre as [Hv Habs Hn [Hpw Hpn] [Hbw Hbn] _ _].
  unfold insert. rewrite Hv bool_decide_false; [by apply is_absolute_nonempty|].
  rewrite !ENFORCE_true !bind_Ok Hl bind_Ok. destruct opt as [info|].
  - destruct (makeRelative (rootPath info) p) as [r|] eqn:Hr.
    + apply makeRelative_file in Hr as [Hr Hrel]; [|done|by apply Hroot].
      rewrite RootRelativePathRef_new_ok // bind_Ok. by apply insertRelPath_ok.
    + by apply insertInProjectOrSynthetic_ok.
  - destruct (tryMakeRelative_file (fm_buildRootPath this) p Hbw Hbn Hn) as ([rel|] & Ht & Ho).
    + cbn [fm_buildRootPath set_fm_packageMap]. rewrite Ht bind_Ok.
      destruct (Ho rel eq_refl) as [Hr1 Hr2].
      unfold makeAbsoluteAllowKindMismatch. cbn [fm_projectRootPath set_fm_packageMap].
      rewrite (AbsolutePath_new_abs _ (joinPath_abs _ _ Hpw)) bind_Ok.
      destruct (real_path _) as [rp|e].
      * destruct (bool_decide _).
        -- rewrite RootRelativePathRef_new_ok // bind_Ok. by apply insertRelPath_ok.
        -- by apply insertInProjectOrSynthetic_ok.
      * by apply insertInProjectOrSynthetic_ok.
    + cbn [fm_buildRootPath set_fm_packageMap]. rewrite Ht bind_Ok.
      by apply insertInProjectOrSynthetic_ok.
Qed.
End InsertTotal.

(** ** Concrete inputs *)
Definition demo_files : ClangFileID := {|
  FileID := N; FileID_isValid f := negb (N.eqb f 0);
|}.
Definition demo_hash : TextHash := fun s => Z.of_nat (length s).

Definition demo_fm (base : gmap AbsolutePathRef PackageMetadata) : @FileMetadataMap demo_files :=
  @mkFileMetadataMap demo_files [] ∅
    (mkRootPath (mkAbsolutePath (lit "/p")) Project)
    (mkRootPath (mkAbsolutePath (lit "/p/build")) Build)
    (mkPackageMap base ∅ demo_root false).

(** ** Properties *)



(** The third documented case (synthetic path, package information absent) does
    not hold for a path that is not normalized: the package map is consulted with
    the normalized path, the prefix check is made on the original one, and the
    result is a synthetic path with package information. *)
Theorem synthetic_with_package :
  exists this' md info,
    @insert true posix_path demo_fs demo_files demo_hash (demo_fm demo_base) 1%N
      (mkAbsolutePathRef (lit "/./p/x")) = Ok (true, this')
    /\ fm_map this' !! 1%N = Some md
    /\ isSynthetic (stableFileId md) = true /\ packageInfo md = Some info.
Proof. eexists _, _, demo_metadata. split_and!; vm_compute; reflexivity. Qed.

(** [ClangIdLookupMap] is a map from (path, hash) pairs to file ids: a lookup
    after an insertion sees the new id for exactly that pair, no entry ever holds
    an empty inner map, and [lookupAnyFileId] on a path that was inserted returns
    one of the ids stored for it. *)
Theorem ClangIdLookupMap_correct
    `{BM : BuildMode, CF : ClangFileID, HI : HashIteration, !HashIterationLaws}
    (this : ClangIdLookupMap) (p : AbsolutePathRef) (h : Z) (f : FileID) :
  lookupMap_wf this ->
  let this' := lookupMap_insert this p h f in
  lookupMap_wf this'
  /\ (forall p' h', lookupMap_lookup this' p' h'
        = if bool_decide (p = p' /\ h = h') then Some f else lookupMap_lookup this p' h')
  /\ (exists f' h', lookupAnyFileId this' p = Ok (Some f') /\ lookupMap_lookup this' p h' = Some f').
Proof.
  intros Hwf this'. assert (lookupMap_wf this') as Hwf' by by apply lookupMap_insert_wf.
  split_and!; [done|intros; apply lookupMap_lookup_insert|].
  assert (exists v, this' !! p = Some v) as [v Hv].
  { unfold this', lookupMap_insert. destruct (this !! p); rewrite lookup_insert_eq; by eexists. }
  unfold lookupAnyFileId, lookupMap_lookup. rewrite Hv.
  destruct (iterate v) as [|[h' f'] l] eqn:E.
  - exfalso. apply (Hwf' p v Hv), map_empty. intros k. destruct (v !! k) as [x|] eqn:Ek; [|done].
    apply iterate_elem_of in Ek. rewrite E in Ek. by apply not_elem_of_nil in Ek.
  - exists f', h'. split; [done|]. apply iterate_elem_of. rewrite E. by left.
Qed.

Definition demo_lookup_map : @ClangIdLookupMap demo_files :=
  @lookupMap_insert demo_files ∅ (mkAbsolutePathRef (lit "/p/a")) 7 1%N.

Lemma ClangIdLookupMap_correct_witness :
  exists f' h', @lookupAnyFileId true demo_files tree_iteration demo_lookup_map
      (mkAbsolutePathRef (lit "/p/a")) = Ok (Some f')
    /\ @lookupMap_lookup demo_files demo_lookup_map (mkAbsolutePathRef (lit "/p/a")) h' = Some f'.
Proof.
  refine (proj2 (proj2 (@ClangIdLookupMap_correct true demo_files tree_iteration
    tree_iteration_laws ∅ (mkAbsolutePathRef (lit "/p/a")) 7 1%N _))).
  intros k v. by rewrite lookup_empty.
Defined.
