(* ===== verification/Symbols.v ===== *)
(** * Symbol strings

    SymbolName.h/.cc and the value-level part of SymbolFormatter.h/.cc: escaping,
    descriptors, symbol strings, and the package-agnostic suffix that links forward
    declarations across packages.  [absl]'s string replacement is the class
    [AbslReplace]. *)
From S2P Require Import Prelude CppString Ordering PackageMaps.

(** [absl::StrReplaceAll(s, {{"c", r}})]. *)
Class AbslReplace : Type := StrReplaceAll : str -> ascii -> str -> str.
Class AbslReplaceLaws `{AbslReplace} : Prop :=
  StrReplaceAll_spec s c r :
    StrReplaceAll s c r = concat (map (fun x => if Ascii.eqb x c then r else [x]) s).

Definition demo_replace : AbslReplace := fun s c r =>
  concat (map (fun x => if Ascii.eqb x c then r else [x]) s).
Lemma demo_replace_laws : @AbslReplaceLaws demo_replace.
Proof. by intros s c r. Qed.

Definition backtick : ascii := "`"%char.

(** ** Symbol names *)
Record SymbolName : Type := mkSymbolName { symbol_value : str }.
Record SymbolSuffix : Type := mkSymbolSuffix { suffix_value : str }.
Record SymbolNameRef : Type := mkSymbolNameRef { ref_value : str }.

#[export] Instance SymbolName_eq_dec : EqDecision SymbolName.
Proof. solve_decision. Defined.
#[export] Instance SymbolNameRef_eq_dec : EqDecision SymbolNameRef.
Proof. solve_decision. Defined.
#[export] Instance SymbolSuffix_eq_dec : EqDecision SymbolSuffix.
Proof. solve_decision. Defined.
#[export] Instance SymbolNameRef_countable : Countable SymbolNameRef.
Proof. refine (inj_countable' ref_value mkSymbolNameRef _). by intros []. Defined.
#[export] Instance SymbolSuffix_countable : Countable SymbolSuffix.
Proof. refine (inj_countable' suffix_value mkSymbolSuffix _). by intros []. Defined.

Definition SymbolNameRef_cmp (lhs rhs : SymbolNameRef) : comparison :=
  CMP_STR (ref_value lhs) (ref_value rhs) Eq.
Definition SymbolSuffix_cmp (lhs rhs : SymbolSuffix) : comparison :=
  CMP_STR (suffix_value lhs) (suffix_value rhs) Eq.

Lemma cmp_newtype_exact {T} (get : T -> str) :
  Inj (=) (=) get -> ExactOrdering (fun x y => CMP_STR (get x) (get y) Eq).
Proof.
  intros Hinj. assert (forall x y, cmp_on get CmpStr x y = CMP_STR (get x) (get y) Eq) as E.
  { intros x y. unfold CMP_STR, CMP_EXPR. by rewrite CMP_CHECK_Eq_r. }
  split; [by eapply cmp_ext; [apply E|apply _]|].
  intros x y. rewrite -E /cmp_on. intros Hc. by apply Hinj, (cmp_eq_exact (cmp:=CmpStr)).
Qed.
#[export] Instance SymbolNameRef_cmp_exact : ExactOrdering SymbolNameRef_cmp.
Proof. apply cmp_newtype_exact. by intros [] [] [= ->]. Qed.
#[export] Instance SymbolSuffix_cmp_exact : ExactOrdering SymbolSuffix_cmp.
Proof. apply cmp_newtype_exact. by intros [] [] [= ->]. Qed.

Definition SymbolName_new `{BuildMode} (value : str) : result SymbolName :=
  ENFORCE (negb (bool_decide (value = []))) "!this->value.empty()" ;;
  Ok (mkSymbolName value).

(** ** Escaping *)
Definition plain_char (c : ascii) : bool :=
  char_between "a" c "z" || char_between "A" c "Z" || char_between "0" c "9"
  || Ascii.eqb c "+" || Ascii.eqb c "-" || Ascii.eqb c "$" || Ascii.eqb c "_".

(** The loop of [operator<<] for [Escaped]: the two flags. *)
Definition escape_flags (text : str) : bool * bool :=
  foldl (fun '(needsEscape, needsBacktickEscape) c =>
      if plain_char c then (needsEscape, needsBacktickEscape)
      else (true, needsBacktickEscape || Ascii.eqb c backtick)) (false, false) text.

Section Format.
Context `{BuildMode, AbslReplace}.

Definition Escaped (text : str) : str :=
  let '(needsEscape, needsBacktickEscape) := escape_flags text in
  if needsEscape then
    if needsBacktickEscape then
      [backtick] ++ StrReplaceAll text backtick (lit "``") ++ [backtick]
    else [backtick] ++ text ++ [backtick]
  else text.

(** [absl::StrContains(in, ' ')] is a search for a byte. *)
Definition addSpaceEscaped (out i : str) : str :=
  match find_char i " "%char 0 with
  | Some _ => out ++ StrReplaceAll i " "%char (lit "  ")
  | None => out ++ i
  end.

(** ** Descriptors

    [scip::Descriptor::Suffix] is generated from scip.proto. *)
Inductive Suffix : Type :=
| UnspecifiedSuffix | Namespace | Type_ | Term | Method | TypeParameter | Parameter_
| Meta | Local_ | Macro.

Record DescriptorBuilder : Type := mkDescriptor {
  d_name : str;
  d_disambiguator : str;
  d_suffix : Suffix;
}.

Definition DescriptorBuilder_formatTo (this : DescriptorBuilder) (out : str) : result str :=
  match d_suffix this with
  | Namespace => Ok (out ++ Escaped (d_name this) ++ lit "/")
  | Type_ => Ok (out ++ Escaped (d_name this) ++ lit "#")
  | Term => Ok (out ++ Escaped (d_name this) ++ lit ".")
  | Meta => Ok (out ++ Escaped (d_name this) ++ lit ":")
  | Method =>
      Ok (out ++ Escaped (d_name this) ++ lit "(" ++ Escaped (d_disambiguator this) ++ lit ").")
  | TypeParameter => Ok (out ++ lit "[" ++ Escaped (d_name this) ++ lit "]")
  | Parameter_ => Ok (out ++ lit "(" ++ Escaped (d_name this) ++ lit ")")
  | Macro => Ok (out ++ Escaped (d_name this) ++ lit "!")
  | UnspecifiedSuffix | Local_ =>
      ENFORCE false "unknown descriptor suffix %s" ;; Ok out
  end.

Record SymbolBuilder : Type := mkSymbolBuilder {
  sb_packageId : PackageId;
  sb_descriptors : list DescriptorBuilder;
}.

Definition SymbolBuilder_formatTo (this : SymbolBuilder) (buf : str) : result str :=
  let out := buf ++ lit "cxx . " in
  let out :=
    if bool_decide (package_name (sb_packageId this) = []) then out ++ lit ". "
    else addSpaceEscaped out (package_name (sb_packageId this)) ++ lit " " in
  let out :=
    if bool_decide (package_version (sb_packageId this) = []) then out
    else addSpaceEscaped out (package_version (sb_packageId this)) in
  let out := out ++ lit "$ " in
  foldM (fun out descriptor => DescriptorBuilder_formatTo descriptor out) out
    (sb_descriptors this).

Definition SymbolBuilder_formatContextual (buffer : str) (contextSymbol : SymbolNameRef)
    (descriptor : DescriptorBuilder) : result str :=
  DescriptorBuilder_formatTo descriptor (buffer ++ ref_value contextSymbol).

(** The wrappers of [SymbolFormatter] clear the scratch buffer first. *)
Definition format (symbolBuilder : SymbolBuilder) : result SymbolNameRef :=
  mkSymbolNameRef <$> SymbolBuilder_formatTo symbolBuilder [].
Definition formatContextual (contextSymbol : SymbolNameRef) (descriptor : DescriptorBuilder)
    : result SymbolNameRef :=
  mkSymbolNameRef <$> SymbolBuilder_formatContextual [] contextSymbol descriptor.
Definition formatLocal (counter : Z) : SymbolNameRef :=
  mkSymbolNameRef (lit "local " ++ fmt_uint counter).

(** ** The package-agnostic suffix *)
Definition getPackageAgnosticSuffix (name : SymbolNameRef) : option SymbolSuffix :=
  match find_char (ref_value name) "$"%char 0 with
  | None => None
  | Some ix =>
      if (ix =? length (ref_value name) - 1)%nat
         || negb (bool_decide (ref_value name !! S ix = Some " "%char))
      then None
      else Some (mkSymbolSuffix (substr (ref_value name) (ix + 2)))
  end.

Definition addFakePrefix (suffix : SymbolSuffix) : result SymbolName :=
  let buf := lit "cxx . . $ " in
  SymbolName_new (buf ++ suffix_value suffix).
End Format.

#[export] Instance Suffix_eq_dec : EqDecision Suffix.
Proof. solve_decision. Defined.
#[export] Instance DescriptorBuilder_eq_dec : EqDecision DescriptorBuilder.
Proof. solve_decision. Defined.
#[export] Instance SymbolBuilder_eq_dec : EqDecision SymbolBuilder.
Proof. solve_decision. Defined.

(** ** A reader for the SCIP symbol grammar

    The format that [formatTo] implements is documented in scip.proto: names are
    plain identifiers, or quoted with backticks, a backtick inside being doubled;
    the character after the name tells the kind of descriptor. *)
Fixpoint read_plain (s : str) : str * str :=
  match s with
  | c :: s' => if plain_char c then let r := read_plain s' in (c :: r.1, r.2) else ([], s)
  | [] => ([], [])
  end.

Fixpoint read_quoted (s : str) : option (str * str) :=
  match s with
  | [] => None
  | c :: s' =>
      if Ascii.eqb c backtick then
        match s' with
        | c' :: s'' =>
            if Ascii.eqb c' backtick then
              '(n, r) ← read_quoted s''; Some (backtick :: n, r)
            else Some ([], s')
        | [] => Some ([], [])
        end
      else '(n, r) ← read_quoted s'; Some (c :: n, r)
  end.

Definition read_name (s : str) : option (str * str) :=
  match s with
  | c :: s' => if Ascii.eqb c backtick then read_quoted s' else Some (read_plain s)
  | [] => Some ([], [])
  end.

Definition read_char (c : ascii) (s : str) : option str :=
  match s with x :: s' => if Ascii.eqb x c then Some s' else None | [] => None end.

Definition suffix_of_char (c : ascii) : option Suffix :=
  if Ascii.eqb c "/" then Some Namespace
  else if Ascii.eqb c "#" then Some Type_
  else if Ascii.eqb c "." then Some Term
  else if Ascii.eqb c ":" then Some Meta
  else if Ascii.eqb c "!" then Some Macro
  else None.

Definition read_descriptor (s : str) : option (DescriptorBuilder * str) :=
  match s with
  | [] => None
  | c :: s' =>
      if Ascii.eqb c "[" then
        '(n, r) ← read_name s'; r' ← read_char "]" r; Some (mkDescriptor n [] TypeParameter, r')
      else if Ascii.eqb c "(" then
        '(n, r) ← read_name s'; r' ← read_char ")" r; Some (mkDescriptor n [] Parameter_, r')
      else
        '(n, r) ← read_name s;
        match r with
        | [] => None
        | x :: r' =>
            if Ascii.eqb x "(" then
              '(d, r2) ← read_name r';
              r3 ← read_char ")" r2;
              r4 ← read_char "." r3;
              Some (mkDescriptor n d Method, r4)
            else suf ← suffix_of_char x; Some (mkDescriptor n [] suf, r')
        end
  end.

Fixpoint read_descriptors (fuel : nat) (s : str) : option (list DescriptorBuilder) :=
  match s, fuel with
  | [], _ => Some []
  | _, O => None
  | _, S fuel' =>
      '(d, r) ← read_descriptor s; ds ← read_descriptors fuel' r; Some (d :: ds)
  end.

Definition read_until (c : ascii) (s : str) : option (str * str) :=
  match find_char s c 0 with
  | Some i => Some (take i s, drop (i + 1) s)
  | None => None
  end.

Definition read_symbol (s : str) : option SymbolBuilder :=
  if starts_with (lit "cxx . ") s then
    '(name, r) ← read_until " " (drop 6 s);
    '(version, r) ← read_until "$" r;
    r ← read_char " " r;
    ds ← read_descriptors (length r) r;
    Some (mkSymbolBuilder
            (if bool_decide (name = lit "." /\ version = []) then mkPackageId [] []
             else mkPackageId name version) ds)
  else None.

(** ** Escaping facts *)
Definition doubled (text : str) : str :=
  concat (map (fun x => if Ascii.eqb x backtick then lit "``" else [x]) text).

Lemma backtick_not_plain : plain_char backtick = false.
Proof. done. Qed.

Lemma escape_flags_from t a b :
  foldl (fun '(needsEscape, needsBacktickEscape) c =>
      if plain_char c then (needsEscape, needsBacktickEscape)
      else (true, needsBacktickEscape || Ascii.eqb c backtick)) (a, b) t
  = (a || existsb (fun c => negb (plain_char c)) t, b || existsb (fun c => Ascii.eqb c backtick) t).
Proof.
  revert a b; induction t as [|c t IH]; intros a b; simpl; [by rewrite !orb_false_r|].
  destruct (plain_char c) eqn:E; rewrite IH; simpl.
  - destruct (Ascii.eqb_spec c backtick) as [->|]; [by rewrite backtick_not_plain in E|done].
  - by rewrite orb_true_r orb_assoc.
Qed.

Lemma doubled_absent t : existsb (fun c => Ascii.eqb c backtick) t = false -> doubled t = t.
Proof.
  unfold doubled. induction t as [|c t IH]; simpl; [done|].
  intros [-> H]%orb_false_iff. simpl. by rewrite IH.
Qed.

Lemma doubled_cons c t :
  doubled (c :: t) = (if Ascii.eqb c backtick then lit "``" else [c]) ++ doubled t.
Proof. done. Qed.

Section FormatFacts.
Context `{BM : BuildMode, AR : AbslReplace, !AbslReplaceLaws}.

Lemma Escaped_spec t :
  Escaped t = if forallb plain_char t then t else [backtick] ++ doubled t ++ [backtick].
Proof.
  unfold Escaped, escape_flags. rewrite escape_flags_from. simpl.
  assert (existsb (fun c => negb (plain_char c)) t = negb (forallb plain_char t)) as ->.
  { induction t as [|c t IH]; simpl; [done|]. rewrite IH. by destruct (plain_char c). }
  destruct (forallb plain_char t); simpl; [done|].
  destruct (existsb _ t) eqn:E.
  - by rewrite StrReplaceAll_spec.
  - by rewrite doubled_absent.
Qed.

Lemma read_plain_app t c rest :
  forallb plain_char t = true -> plain_char c = false ->
  read_plain (t ++ (c :: rest)) = (t, c :: rest).
Proof.
  intros Ht Hc. induction t as [|x t IH]; simpl; [by rewrite Hc|].
  simpl in Ht. apply andb_true_iff in Ht as [-> Ht]. by rewrite IH.
Qed.

Lemma read_quoted_doubled t c rest :
  c <> backtick -> read_quoted (doubled t ++ (backtick :: c :: rest)) = Some (t, c :: rest).
Proof.
  intros Hc. induction t as [|x t IH].
  - simpl. by destruct (Ascii.eqb_spec c backtick).
  - rewrite doubled_cons. destruct (Ascii.eqb_spec x backtick) as [->|Hx]; simpl.
    + fold (read_quoted (doubled t ++ (backtick :: c :: rest))). by rewrite IH.
    + destruct (Ascii.eqb_spec x backtick); [done|]. by rewrite IH.
Qed.

(** The reader inverts escaping in front of any delimiter. *)
Lemma read_name_Escaped t c rest :
  plain_char c = false -> c <> backtick ->
  read_name (Escaped t ++ (c :: rest)) = Some (t, c :: rest).
Proof.
  intros Hc Hb. rewrite Escaped_spec. destruct (forallb plain_char t) eqn:Ht.
  - destruct t as [|x t].
    + simpl. destruct (Ascii.eqb_spec c backtick); [done|]. by rewrite Hc.
    + simpl. destruct (Ascii.eqb_spec x backtick) as [->|]; [done|].
      pose proof (read_plain_app (x :: t) c rest Ht Hc) as E. simpl in E. by rewrite E.
  - simpl. rewrite -app_assoc /=. by apply read_quoted_doubled.
Qed.

Lemma Escaped_head t c r : Escaped t = c :: r -> c = backtick \/ plain_char c = true.
Proof.
  rewrite Escaped_spec. destruct (forallb plain_char t) eqn:Ht; [|by intros [= <- _]; left].
  intros ->. simpl in Ht. apply andb_true_iff in Ht as [? _]. by right.
Qed.

Lemma Escaped_nonempty t : t <> [] -> Escaped t <> [].
Proof. rewrite Escaped_spec. by destruct (forallb plain_char t). Qed.
End FormatFacts.

(** ** Descriptors and symbols read back *)
Definition descriptor_wf (d : DescriptorBuilder) : Prop :=
  d_name d <> []
  /\ match d_suffix d with
     | UnspecifiedSuffix | Local_ => False
     | Method => True
     | _ => d_disambiguator d = []
     end.

(** The package ids that occur: none, or one that [PackageMap] accepted. *)
Definition package_wf (id : PackageId) : Prop := id = mkPackageId [] [] \/ PackageId_wf id.

Definition symbol_wf (sb : SymbolBuilder) : Prop :=
  package_wf (sb_packageId sb) /\ Forall descriptor_wf (sb_descriptors sb).

(** The text of a descriptor. *)
Definition descriptor_text `{AbslReplace} (d : DescriptorBuilder) : str :=
  match d_suffix d with
  | Namespace => Escaped (d_name d) ++ lit "/"
  | Type_ => Escaped (d_name d) ++ lit "#"
  | Term => Escaped (d_name d) ++ lit "."
  | Meta => Escaped (d_name d) ++ lit ":"
  | Method => Escaped (d_name d) ++ lit "(" ++ Escaped (d_disambiguator d) ++ lit ")."
  | TypeParameter => lit "[" ++ Escaped (d_name d) ++ lit "]"
  | Parameter_ => lit "(" ++ Escaped (d_name d) ++ lit ")"
  | Macro => Escaped (d_name d) ++ lit "!"
  | UnspecifiedSuffix | Local_ => []
  end.

Definition package_text (id : PackageId) : str :=
  lit "cxx . " ++ (if bool_decide (package_name id = []) then lit "." else package_name id)
  ++ lit " " ++ package_version id ++ lit "$ ".

Section ReadBack.
Context `{BM : BuildMode, AR : AbslReplace, !AbslReplaceLaws}.

Lemma formatTo_text d out :
  descriptor_wf d -> DescriptorBuilder_formatTo d out = Ok (out ++ descriptor_text d).
Proof.
  intros [_ Hs]. unfold DescriptorBuilder_formatTo, descriptor_text.
  by destruct (d_suffix d).
Qed.

Lemma descriptor_text_nonempty d : descriptor_wf d -> descriptor_text d <> [].
Proof.
  intros [_ Hs]. unfold descriptor_text. destruct (d_suffix d); try done;
    by intros [_ ?]%app_eq_nil.
Qed.

(** A descriptor that starts with its name is told apart by the next character. *)
Lemma read_descriptor_name n c rest :
  n <> [] -> plain_char c = false -> c <> backtick ->
  read_descriptor (Escaped n ++ (c :: rest)) =
    if Ascii.eqb c "(" then
      '(d, r2) ← read_name rest;
      r3 ← read_char ")" r2;
      r4 ← read_char "." r3;
      Some (mkDescriptor n d Method, r4)
    else suf ← suffix_of_char c; Some (mkDescriptor n [] suf, rest).
Proof.
  intros Hn Hc Hb. pose proof (read_name_Escaped n c rest Hc Hb) as Hr.
  destruct (Escaped n) as [|x xs] eqn:E; [by apply Escaped_nonempty in E|].
  assert (Ascii.eqb x "[" = false /\ Ascii.eqb x "(" = false) as [H1 H2].
  { destruct (Escaped_head _ _ _ E) as [->|Hp]; [done|].
    split; apply not_true_iff_false; intros ->%Ascii.eqb_eq; done. }
  cbn [app] in Hr |- *. unfold read_descriptor. by rewrite H1 H2 Hr.
Qed.

Lemma read_descriptor_text d rest :
  descriptor_wf d -> read_descriptor (descriptor_text d ++ rest) = Some (d, rest).
Proof.
  intros [Hn Hs]. destruct d as [n dis suf]. cbn [d_name d_suffix d_disambiguator] in *.
  unfold descriptor_text; destruct suf; cbn [d_name d_suffix d_disambiguator]; try done;
    try subst dis; rewrite -?app_assoc; unfold lit; cbn [list_ascii_of_string app].
  all: try (rewrite read_descriptor_name //; fail).
  - rewrite read_descriptor_name //= read_name_Escaped //=.
  - cbn [read_descriptor Ascii.eqb Bool.eqb]. by rewrite read_name_Escaped.
  - cbn [read_descriptor Ascii.eqb Bool.eqb]. by rewrite read_name_Escaped.
Qed.

Lemma read_descriptors_text ds fuel :
  Forall descriptor_wf ds -> (length (concat (map descriptor_text ds)) <= fuel)%nat ->
  read_descriptors fuel (concat (map descriptor_text ds)) = Some ds.
Proof.
  intros Hds. revert fuel. induction Hds as [|d ds Hd _ IH]; intros fuel Hf; [by destruct fuel|].
  simpl in *. pose proof (descriptor_text_nonempty d Hd) as Hne.
  rewrite length_app in Hf.
  destruct (descriptor_text d ++ concat (map descriptor_text ds)) as [|c s] eqn:E.
  { by apply app_eq_nil in E as [? _]. }
  destruct fuel as [|fuel]; [destruct (descriptor_text d); [done|simpl in Hf; lia]|].
  cbn [read_descriptors]. rewrite -E read_descriptor_text //=.
  rewrite IH //. destruct (descriptor_text d); [done|]. simpl in Hf. lia.
Qed.

Lemma foldM_formatTo ds out :
  Forall descriptor_wf ds ->
  foldM (fun out descriptor => DescriptorBuilder_formatTo descriptor out) out ds
  = Ok (out ++ concat (map descriptor_text ds)).
Proof.
  intros Hds. revert out. induction Hds as [|d ds Hd _ IH]; intros out; simpl.
  - by rewrite app_nil_r.
  - rewrite formatTo_text // bind_Ok IH. by rewrite app_assoc.
Qed.

Lemma checkValid_absent s c : checkValid s = true -> valid_char c = false -> c ∉ s.
Proof.
  intros Hs%checkValid_Forall Hc Hin. rewrite Forall_forall in Hs. apply Hs in Hin. congruence.
Qed.

Lemma package_wf_absent id c :
  package_wf id -> valid_char c = false -> c ∉ package_name id /\ c ∉ package_version id.
Proof.
  intros [->|(_ & _ & Hn & Hv)] Hc; [split; apply not_elem_of_nil|].
  split; by apply checkValid_absent.
Qed.

Lemma addSpaceEscaped_no_space out s : " "%char ∉ s -> addSpaceEscaped out s = out ++ s.
Proof.
  intros Hs. unfold addSpaceEscaped, find_char.
  by rewrite (proj2 (find_char_aux_None " "%char (drop 0 s) 0) Hs).
Qed.

(** A well-formed symbol formats without failing, to its package text followed by
    the texts of its descriptors. *)
Lemma formatTo_symbol sb buf :
  symbol_wf sb ->
  SymbolBuilder_formatTo sb buf
  = Ok (buf ++ package_text (sb_packageId sb) ++ concat (map descriptor_text (sb_descriptors sb))).
Proof.
  intros [Hp Hd]. destruct (package_wf_absent _ " "%char Hp eq_refl) as [Hn Hv].
  unfold SymbolBuilder_formatTo, package_text. rewrite foldM_formatTo //. f_equal.
  rewrite !addSpaceEscaped_no_space //.
  by case_bool_decide as E1; case_bool_decide as E2; rewrite ?E1 -?app_assoc.
Qed.

Lemma read_until_app c s rest : c ∉ s -> read_until c (s ++ (c :: rest)) = Some (s, rest).
Proof.
  intros Hs. unfold read_until, find_char. rewrite drop_0.
  assert (find_char_aux c (s ++ (c :: rest)) 0 = Some (length s)) as ->.
  { apply find_char_aux_Some. by exists s, rest. }
  by rewrite take_app_length drop_past.
Qed.

Lemma read_symbol_text sb :
  symbol_wf sb ->
  read_symbol (package_text (sb_packageId sb) ++ concat (map descriptor_text (sb_descriptors sb)))
  = Some sb.
Proof.
  intros [Hp Hd]. destruct (package_wf_absent _ "$"%char Hp eq_refl) as [_ Hv].
  destruct (package_wf_absent _ " "%char Hp eq_refl) as [Hs _].
  set (name := if bool_decide (package_name (sb_packageId sb) = []) then lit "."
               else package_name (sb_packageId sb)).
  assert (" "%char ∉ name) as Hname.
  { unfold name. case_bool_decide; [|done]. by intros ?%list_elem_of_singleton. }
  set (ds := concat (map descriptor_text (sb_descriptors sb))).
  assert (package_text (sb_packageId sb) ++ ds
    = lit "cxx . " ++ (name ++ (" "%char :: package_version (sb_packageId sb)
        ++ ("$"%char :: " "%char :: ds)))) as ->.
  { unfold package_text. fold name. by rewrite -!app_assoc. }
  unfold read_symbol. rewrite starts_with_app.
  change (drop 6 (lit "cxx . " ++ ?x)) with x.
  rewrite (read_until_app " " name) //=. rewrite (read_until_app "$") //=.
  rewrite read_descriptors_text //=. f_equal. destruct sb as [[n v] descs]. simpl in *. f_equal.
  unfold name. destruct Hp as [[= -> ->]|(Hne & Hve & _)]; [done|]. simpl in *.
  rewrite (bool_decide_false (n = [])) // bool_decide_false //. by intros [_ ?].
Qed.

(** ** The package-agnostic suffix of a formatted symbol *)
Lemma package_text_dollar id :
  package_wf id -> exists pre, package_text id = pre ++ lit "$ " /\ "$"%char ∉ pre.
Proof.
  intros Hp. destruct (package_wf_absent _ "$"%char Hp eq_refl) as [Hn Hv].
  unfold package_text. eexists. rewrite !app_assoc. split; [done|].
  rewrite !not_elem_of_app. split_and!; [|case_bool_decide; [|done]| |done].
  all: by apply (bool_decide_unpack _); vm_compute.
Qed.

Lemma getPackageAgnosticSuffix_app pre rest :
  "$"%char ∉ pre ->
  getPackageAgnosticSuffix (mkSymbolNameRef (pre ++ lit "$ " ++ rest)) = Some (mkSymbolSuffix rest).
Proof.
  intros Hpre. unfold getPackageAgnosticSuffix. cbn [ref_value].
  assert (find_char (pre ++ lit "$ " ++ rest) "$"%char 0 = Some (length pre)) as ->.
  { unfold find_char. apply find_char_aux_Some. by exists pre, (" "%char :: rest). }
  assert ((pre ++ lit "$ " ++ rest) !! S (length pre) = Some " "%char) as ->.
  { rewrite lookup_app_r; [lia|]. by replace (S (length pre) - length pre)%nat with 1%nat by lia. }
  rewrite bool_decide_true //.
  destruct (Nat.eqb_spec (length pre) (length (pre ++ lit "$ " ++ rest) - 1)) as [E|_].
  { rewrite !length_app in E. change (length (lit "$ ")) with 2%nat in E. lia. }
  cbn [orb negb]. do 2 f_equal. unfold substr.
  replace (length pre + 2)%nat with (length (pre ++ lit "$ ")) by (rewrite length_app; done).
  by rewrite app_assoc drop_app_length.
Qed.
End ReadBack.

(** ** Properties *)

(** C24. Symbol strings are unambiguous: formatting a well-formed symbol never fails,
    in debug and release builds, and a reader that follows the documented SCIP
    grammar gets back exactly the package id and the descriptors, whatever bytes
    the names contain (so two different symbols never format to the same string). *)
Theorem symbol_format_read `{BM : BuildMode, AR : AbslReplace, !AbslReplaceLaws}
    (sb : SymbolBuilder) :
  symbol_wf sb -> exists s, format sb = Ok s /\ read_symbol (ref_value s) = Some sb.
Proof.
  intros Hwf. unfold format. rewrite (formatTo_symbol sb [] Hwf).
  eexists; split; [done|]. by apply read_symbol_text.
Qed.

Definition demo_symbol : SymbolBuilder :=
  mkSymbolBuilder (mkPackageId (lit "pkg") (lit "v1"))
    [mkDescriptor (lit "std") [] Namespace; mkDescriptor (lit "operator`b ") (lit "9a") Method].

Lemma demo_symbol_wf : symbol_wf demo_symbol.
Proof.
  split.
  - right. by split_and!.
  - repeat constructor; done.
Qed.

Lemma symbol_format_read_witness :
  exists s, @format true demo_replace demo_symbol = Ok s /\ read_symbol (ref_value s) = Some demo_symbol.
Proof. apply (@symbol_format_read true demo_replace demo_replace_laws). apply demo_symbol_wf. Defined.

(** The package-agnostic suffix links a symbol across packages.  For a well-formed
    symbol the suffix exists and is the same as that of the symbol with the same
    descriptors and no package, which is what [addFakePrefix] rebuilds from it; and
    two well-formed symbols have the same suffix only if they have the same
    descriptors. *)
Theorem package_agnostic_suffix `{BM : BuildMode, AR : AbslReplace, !AbslReplaceLaws}
    (sb sb' : SymbolBuilder) (s s' : SymbolNameRef) :
  symbol_wf sb -> symbol_wf sb' -> format sb = Ok s -> format sb' = Ok s' ->
  exists suffix name,
    getPackageAgnosticSuffix s = Some suffix
    /\ addFakePrefix suffix = Ok name
    /\ format (mkSymbolBuilder (mkPackageId [] []) (sb_descriptors sb))
       = Ok (mkSymbolNameRef (symbol_value name))
    /\ (getPackageAgnosticSuffix s' = Some suffix <-> sb_descriptors sb' = sb_descriptors sb).
Proof.
  intros Hwf Hwf'. unfold format at 1 2. rewrite !formatTo_symbol //.
  intros <-%Ok_inj <-%Ok_inj.
  assert (forall b, symbol_wf b -> getPackageAgnosticSuffix (mkSymbolNameRef
    ([] ++ package_text (sb_packageId b) ++ concat (map descriptor_text (sb_descriptors b))))
    = Some (mkSymbolSuffix (concat (map descriptor_text (sb_descriptors b))))) as Hsuf.
  { intros b [Hb _]. destruct (package_text_dollar _ Hb) as (pre & -> & Hpre).
    rewrite -app_assoc. by apply getPackageAgnosticSuffix_app. }
  rewrite !Hsuf //. eexists _, _. split_and!; [done| | |].
  - unfold addFakePrefix, SymbolName_new. rewrite bool_decide_false // ENFORCE_true. done.
  - unfold format. rewrite formatTo_symbol; [|done]. split; [by left|apply Hwf].
  - split; [|by intros ->]. intros E%(inj Some). injection E as E.
    destruct Hwf as [_ Hd], Hwf' as [_ Hd'].
    pose proof (read_descriptors_text _ _ Hd (le_n _)) as R.
    pose proof (read_descriptors_text _ _ Hd' (le_n _)) as R'.
    rewrite E in R'. congruence.
Qed.

Lemma package_agnostic_suffix_witness :
  exists suffix name,
    getPackageAgnosticSuffix (mkSymbolNameRef (lit "cxx . pkg v1$ std/`operator``b `(9a).")) = Some suffix
    /\ @addFakePrefix true suffix = Ok name
    /\ symbol_value name = lit "cxx . . $ std/`operator``b `(9a).".
Proof.
  destruct (@package_agnostic_suffix true demo_replace demo_replace_laws demo_symbol demo_symbol
    (mkSymbolNameRef (lit "cxx . pkg v1$ std/`operator``b `(9a)."))
    (mkSymbolNameRef (lit "cxx . pkg v1$ std/`operator``b `(9a).")) demo_symbol_wf demo_symbol_wf)
    as (suffix & name & H1 & H2 & H3 & _).
  - vm_compute. reflexivity.
  - vm_compute. reflexivity.
  - exists suffix, name. split; [exact H1|]. split; [exact H2|].
    assert (@format true demo_replace (mkSymbolBuilder (mkPackageId [] []) (sb_descriptors demo_symbol))
      = Ok (mkSymbolNameRef (lit "cxx . . $ std/`operator``b `(9a)."))) as E
      by (vm_compute; reflexivity).
    rewrite E in H3. apply Ok_inj in H3. by apply (f_equal ref_value) in H3.
Defined.

Lemma format_snoc `{BM : BuildMode, AR : AbslReplace} id ds d :
  format (mkSymbolBuilder id (ds ++ [d]))
  = format (mkSymbolBuilder id ds) ≫= fun context => formatContextual context d.
Proof.
  unfold format, formatContextual, SymbolBuilder_formatContextual, SymbolBuilder_formatTo.
  cbn [sb_packageId sb_descriptors]. rewrite foldM_app.
  destruct (foldM _ _ ds) as [out|e]; [|done]. cbn. by destruct (DescriptorBuilder_formatTo d out).
Qed.

(** Contextual formatting agrees with formatting from scratch: appending one
    descriptor to the symbol of the declaration context gives the symbol of the
    whole chain of descriptors, failures included. *)
Theorem formatContextual_format `{BM : BuildMode, AR : AbslReplace}
    (id : PackageId) (ds : list DescriptorBuilder) (d : DescriptorBuilder) :
  format (mkSymbolBuilder id (ds ++ [d]))
  = format (mkSymbolBuilder id ds) ≫= fun context => formatContextual context d.
Proof. apply format_snoc. Qed.
