(* ===== verification/ScipMessages.v ===== *)
(** * SCIP messages and their orderings

    The fields of the protobuf messages (scip.proto, fwd_decls.proto) that
    ScipExtras.h/.cc reads or writes, and the comparisons defined there. *)
From S2P Require Import Prelude CppString Ordering Symbols.

Record Relationship : Type := mkRelationship {
  rel_symbol : str;
  is_reference : bool;
  is_implementation : bool;
  is_type_definition : bool;
  is_definition : bool;
}.

Record Diagnostic : Type := mkDiagnostic {
  severity : Z;
  code : str;
  message : str;
  source : str;
  tags : list Z;
}.

Record Occurrence : Type := mkOccurrence {
  range : list Z;
  occ_symbol : str;
  symbol_roles : Z;
  override_documentation : list str;
  syntax_kind : Z;
  diagnostics : list Diagnostic;
}.

Record SymbolInformation : Type := mkSymbolInformation {
  si_symbol : str;
  si_documentation : list str;
  si_relationships : list Relationship;
}.

Record Document : Type := mkDocument {
  language : str;
  relative_path : str;
  occurrences : list Occurrence;
  symbols : list SymbolInformation;
}.

Record Index : Type := mkIndex {
  documents : list Document;
  external_symbols : list SymbolInformation;
}.

Record ForwardDeclReference : Type := mkForwardDeclReference {
  ref_relative_path : str;
  ref_range : list Z;
}.

Record ForwardDecl : Type := mkForwardDecl {
  fd_suffix : str;
  fd_documentation : str;
  fd_references : list ForwardDeclReference;
}.

#[export] Instance Relationship_eq_dec : EqDecision Relationship.
Proof. solve_decision. Defined.
#[export] Instance Diagnostic_eq_dec : EqDecision Diagnostic.
Proof. solve_decision. Defined.
#[export] Instance Occurrence_eq_dec : EqDecision Occurrence.
Proof. solve_decision. Defined.
#[export] Instance SymbolInformation_eq_dec : EqDecision SymbolInformation.
Proof. solve_decision. Defined.
#[export] Instance Document_eq_dec : EqDecision Document.
Proof. solve_decision. Defined.

(** A default-constructed occurrence. *)
Definition empty_occurrence : Occurrence := mkOccurrence [] [] 0 [] 0 [].

(** ** Relationships *)
Definition compareRelationships (lhs rhs : Relationship) : comparison :=
  CMP_EXPR cmp_bool (is_definition lhs) (is_definition rhs) (
  CMP_EXPR cmp_bool (is_reference lhs) (is_reference rhs) (
  CMP_EXPR cmp_bool (is_type_definition lhs) (is_type_definition rhs) (
  CMP_EXPR cmp_bool (is_implementation lhs) (is_implementation rhs) (
  CMP_STR (rel_symbol lhs) (rel_symbol rhs) Eq)))).

#[export] Instance compareRelationships_exact : ExactOrdering compareRelationships.
Proof.
  set (c := cmp_then (cmp_on is_definition cmp_bool)
           (cmp_then (cmp_on is_reference cmp_bool)
           (cmp_then (cmp_on is_type_definition cmp_bool)
           (cmp_then (cmp_on is_implementation cmp_bool) (cmp_on rel_symbol CmpStr))))).
  assert (forall x y, compareRelationships x y = c x y) as E.
  { intros x y. unfold compareRelationships, c, CMP_STR, CMP_EXPR, cmp_then, cmp_on.
    by autorewrite with cmp. }
  split; [eapply cmp_ext; [intros; symmetry; apply E|apply _]|].
  intros [s1 r1 i1 t1 d1] [s2 r2 i2 t2 d2]. rewrite E /c /cmp_then /cmp_on /=.
  rewrite !CMP_CHECK_eq. intros (E1 & E2 & E3 & E4 & E5).
  apply (cmp_eq_exact (cmp:=cmp_bool)) in E1, E2, E3, E4.
  apply (cmp_eq_exact (cmp:=CmpStr)) in E5. by subst.
Qed.

(** ** Ranges

    A range has three elements (start line, start column, end column) or four
    (start line, start column, end line, end column); a repeated field is read
    with [operator\[\]]. *)
Definition range_wf (r : list Z) : Prop := length r = 3%nat \/ length r = 4%nat.

Section Ranges.
Context {BM : BuildMode}.

(** [CMP_EXPR(a\[i\], b\[i\])]. *)
Definition CMP_AT (a b : list Z) (i : nat) (k : result comparison) : result comparison :=
  x ← vector_at a i;
  y ← vector_at b i;
  match Z.compare x y with Eq => k | c => Ok c end.

Definition compareScipRange (a b : list Z) : result comparison :=
  CMP_AT a b 0 (
  CMP_AT a b 1 (
  match Nat.compare (length a) (length b) with
  | Eq =>
      CMP_AT a b 2 (
        if (length a =? 3)%nat then Ok Eq
        else
          ENFORCE (length a =? 4)%nat "a.size() == 4" ;;
          CMP_AT a b 3 (Ok Eq))
  | c => Ok c
  end)).

Definition compareDiagnostics (d1 d2 : Diagnostic) : comparison :=
  CMP_EXPR Z.compare (severity d1) (severity d2) (
  CMP_STR (code d1) (code d2) (
  CMP_STR (message d1) (message d2) (
  CMP_STR (source d1) (source d2) (
  compareRange Z.compare (tags d1) (tags d2))))).

Definition compareOccurrences (lhs rhs : Occurrence) : result comparison :=
  c ← compareScipRange (range lhs) (range rhs);
  Ok (CMP_CHECK c (
      CMP_STR (occ_symbol lhs) (occ_symbol rhs) (
      CMP_EXPR Z.compare (symbol_roles lhs) (symbol_roles rhs) (
      CMP_EXPR Z.compare (syntax_kind lhs) (syntax_kind rhs) (
      CMP_CHECK (compareRange_by (fun d1s d2s => CMP_STR d1s d2s Eq)
                   (override_documentation lhs) (override_documentation rhs)) (
      CMP_CHECK (compareRange_by compareDiagnostics (diagnostics lhs) (diagnostics rhs)) Eq)))))).
End Ranges.

(** The orderings without the checks on the shape of ranges, defined for all
    values; [operator<=>] of [OccurrenceExt] agrees with it on well-formed ranges. *)
Definition range_order : list Z -> list Z -> comparison :=
  cmp_then (cmp_on (fun r => nth 0 r 0) Z.compare)
  (cmp_then (cmp_on (fun r => nth 1 r 0) Z.compare) (compareRange_by Z.compare)).

Definition OccurrenceExt_cmp : Occurrence -> Occurrence -> comparison :=
  cmp_then (cmp_on range range_order)
  (cmp_then (cmp_on occ_symbol CmpStr)
  (cmp_then (cmp_on symbol_roles Z.compare)
  (cmp_then (cmp_on syntax_kind Z.compare)
  (cmp_then (cmp_on override_documentation (compareRange_by CmpStr))
    (cmp_on diagnostics (compareRange_by compareDiagnostics)))))).

#[export] Instance compareDiagnostics_exact : ExactOrdering compareDiagnostics.
Proof.
  set (c := cmp_then (cmp_on severity Z.compare)
           (cmp_then (cmp_on code CmpStr)
           (cmp_then (cmp_on message CmpStr)
           (cmp_then (cmp_on source CmpStr) (cmp_on tags (compareRange_by Z.compare)))))).
  assert (forall x y, compareDiagnostics x y = c x y) as E.
  { intros x y. unfold compareDiagnostics, c, CMP_STR, CMP_EXPR, cmp_then, cmp_on.
    by autorewrite with cmp. }
  split; [eapply cmp_ext; [intros; symmetry; apply E|apply _]|].
  intros [s1 c1 m1 r1 t1] [s2 c2 m2 r2 t2]. rewrite E /c /cmp_then /cmp_on /=.
  intros [E1 [E2 [E3 [E4 E5]%CMP_CHECK_eq]%CMP_CHECK_eq]%CMP_CHECK_eq]%CMP_CHECK_eq.
  apply (cmp_eq_exact (cmp:=Z.compare)) in E1.
  apply (cmp_eq_exact (cmp:=CmpStr)) in E2, E3, E4.
  apply (cmp_eq_exact (cmp:=compareRange_by Z.compare)) in E5. by subst.
Qed.

#[export] Instance OccurrenceExt_cmp_exact : ExactOrdering OccurrenceExt_cmp.
Proof.
  split; [apply _|].
  intros [r1 s1 ro1 o1 k1 d1] [r2 s2 ro2 o2 k2 d2].
  unfold OccurrenceExt_cmp, range_order, cmp_then, cmp_on; simpl.
  intros [[_ [_ E1]%CMP_CHECK_eq]%CMP_CHECK_eq [E2 [E3 [E4 [E5 E6]%CMP_CHECK_eq]%CMP_CHECK_eq]%CMP_CHECK_eq]%CMP_CHECK_eq]%CMP_CHECK_eq.
  apply (cmp_eq_exact (cmp:=compareRange_by Z.compare)) in E1.
  apply (cmp_eq_exact (cmp:=CmpStr)) in E2.
  apply (cmp_eq_exact (cmp:=Z.compare)) in E3, E4.
  apply (cmp_eq_exact (cmp:=compareRange_by CmpStr)) in E5.
  apply (cmp_eq_exact (cmp:=compareRange_by compareDiagnostics)) in E6. by subst.
Qed.

(** On well-formed ranges the comparison neither fails nor differs from
    [range_order]. *)
Lemma compareScipRange_wf `{BM : BuildMode} a b :
  range_wf a -> range_wf b -> compareScipRange a b = Ok (range_order a b).
Proof.
  intros Ha Hb.
  destruct a as [|a0 [|a1 [|a2 [|a3 [|]]]]]; try (destruct Ha; done);
  destruct b as [|b0 [|b1 [|b2 [|b3 [|]]]]]; try (destruct Hb; done).
  all: unfold compareScipRange, CMP_AT, range_order, cmp_then, cmp_on, compareRange_by;
    cbn -[Z.compare ENFORCE]; rewrite ?ENFORCE_true; cbn -[Z.compare].
  all: destruct (Z.compare a0 b0); cbn -[Z.compare]; try done.
  all: destruct (Z.compare a1 b1); cbn -[Z.compare]; try done.
  all: try (destruct (Z.compare a2 b2); cbn -[Z.compare]; try done).
  all: by destruct (Z.compare a3 b3).
Qed.

Lemma compareOccurrences_wf `{BM : BuildMode} lhs rhs :
  range_wf (range lhs) -> range_wf (range rhs) ->
  compareOccurrences lhs rhs = Ok (OccurrenceExt_cmp lhs rhs).
Proof.
  intros Hl Hr. unfold compareOccurrences. rewrite compareScipRange_wf // bind_Ok.
  unfold OccurrenceExt_cmp, CMP_STR, CMP_EXPR, cmp_then, cmp_on.
  rewrite (compareRange_ext _ CmpStr); [|by autorewrite with cmp].
  intros d1s d2s. unfold CMP_STR, CMP_EXPR. apply CMP_CHECK_Eq_r.
Qed.

(** ** Properties *)

(** The comparison of occurrences used for hash-set equality and for sorting is a
    strong ordering: on occurrences with well-formed ranges it never fails, it is
    equal exactly on identical occurrences, it is antisymmetric, and "less" is
    transitive. *)
Theorem compareOccurrences_strong_ordering `{BM : BuildMode} (a b c : Occurrence) :
  range_wf (range a) -> range_wf (range b) -> range_wf (range c) ->
  (compareOccurrences a b = Ok Eq <-> a = b)
  /\ (compareOccurrences a b = Ok Lt <-> compareOccurrences b a = Ok Gt)
  /\ (compareOccurrences a b = Ok Lt -> compareOccurrences b c = Ok Lt ->
      compareOccurrences a c = Ok Lt)
  /\ is_ok (compareOccurrences a b) = true.
Proof.
  intros Ha Hb Hc. rewrite !compareOccurrences_wf //.
  assert (forall x y : comparison, Ok x = Ok y <-> x = y) as Hok by (intros; split; congruence).
  rewrite !Hok. split_and!; [apply cmp_exact_iff, _| |apply cmp_lt_trans|done].
  symmetry. apply cmp_gt_lt, _.
Qed.

Lemma compareOccurrences_strong_ordering_witness :
  let o r := mkOccurrence r (lit "s") 0 [] 0 [] in
  @compareOccurrences true (o [1; 2; 3]) (o [1; 2; 4; 0]) = Ok Lt
  <-> @compareOccurrences true (o [1; 2; 4; 0]) (o [1; 2; 3]) = Ok Gt.
Proof.
  intros o.
  refine (proj1 (proj2 (@compareOccurrences_strong_ordering true (o [1; 2; 3]) (o [1; 2; 4; 0])
    (o [1; 2; 3]) _ _ _))); vm_compute; auto.
Defined.
