(* ===== verification/IndexBuilder.v ===== *)
(** * Index merging

    ScipExtras.h/.cc: the driver's index builder.  Shards hand in documents and
    external symbols, then forward declarations; documents indexed with several
    hashes are merged; forward declarations are resolved against documents and
    external symbols; the result is written in chunks.

    Interning is the identity on contents.  The pointers of
    [ForwardDeclResolver::docInternalMap] are addresses into the [IndexBuilder].
    The [Bomb] of a builder, which only checks that it is used once, is left out; the class
    itself is in [Exceptions]. *)
From S2P Require Import Prelude CppString Ordering Paths Symbols ScipMessages.

Definition missingDocumentationPlaceholder : str := lit "No documentation available.".

(** ** [SymbolInformationBuilder] *)
Record SymbolInformationBuilder : Type := mkSIB {
  documentation : list str;
  relationships : list Relationship;
  sib_name : SymbolNameRef;
}.

(** [documentation\[0\] != placeholder], for both overloads of [hasDocumentation]. *)
Definition docs_present (docs : list str) : bool :=
  match docs with
  | [] => false
  | d :: _ => negb (bool_decide (d = missingDocumentationPlaceholder))
  end.
Definition sib_hasDocumentation (this : SymbolInformationBuilder) : bool :=
  docs_present (documentation this).
Definition si_hasDocumentation (symbolInfo : SymbolInformation) : bool :=
  docs_present (si_documentation symbolInfo).

Section Builders.
Context `{BM : BuildMode, LP : LlvmPath, HI : HashIteration}.

Definition setDocumentation (this : SymbolInformationBuilder) (newDocumentation : list str)
    : result SymbolInformationBuilder :=
  ENFORCE (negb (sib_hasDocumentation this)) "!this->hasDocumentation()" ;;
  Ok (mkSIB newDocumentation (relationships this) (sib_name this)).

Definition mergeRelationships (this : SymbolInformationBuilder) (newRelationships : list Relationship)
    : SymbolInformationBuilder :=
  mkSIB (documentation this)
    (set_insert_all compareRelationships newRelationships (relationships this)) (sib_name this).

Definition SymbolInformationBuilder_new (name : SymbolNameRef) (docs : list str)
    (rels : list Relationship) : result SymbolInformationBuilder :=
  this ← setDocumentation (mkSIB [] [] name) docs;
  Ok (mergeRelationships this rels).

Definition sib_finish (this : SymbolInformationBuilder) (deterministic : bool)
    (out : SymbolInformation) : SymbolInformation :=
  let out := foldl (fun out doc =>
      mkSymbolInformation (si_symbol out) (si_documentation out ++ [doc]) (si_relationships out))
    out (documentation this) in
  extractTransform_set compareRelationships (iterate_set (relationships this)) deterministic
    (fun out rel =>
       mkSymbolInformation (si_symbol out) (si_documentation out) (si_relationships out ++ [rel]))
    out.

(** ** [ForwardDeclResolver]

    [SymbolInfoOrBuilderPtr]: the [n]-th symbol of the [d]-th document, or the
    builder for a symbol name inside the [DocumentBuilder] of a path. *)
Inductive SymbolInfoOrBuilderPtr : Type :=
| SymbolInfoPtr (d n : nat)
| BuilderPtr (path : str) (name : SymbolNameRef).

Record ForwardDeclResolver : Type := mkFDR {
  docInternalMap : gmap SymbolSuffix SymbolInfoOrBuilderPtr;
  externalsMap : gmap SymbolSuffix (gset SymbolNameRef);
}.

(** [emplace]: the first pointer for a suffix is kept. *)
Definition fdr_insert (this : ForwardDeclResolver) (suffix : SymbolSuffix)
    (ptr : SymbolInfoOrBuilderPtr) : ForwardDeclResolver :=
  match docInternalMap this !! suffix with
  | Some _ => this
  | None => mkFDR (<[suffix := ptr]> (docInternalMap this)) (externalsMap this)
  end.

Definition insertExternal (this : ForwardDeclResolver) (symbol : SymbolNameRef)
    : ForwardDeclResolver :=
  match getPackageAgnosticSuffix symbol with
  | Some suffix =>
      mkFDR (docInternalMap this)
        (<[suffix := {[symbol]} ∪ default ∅ (externalsMap this !! suffix)]> (externalsMap this))
  | None => this
  end.

Definition lookupInDocuments (this : ForwardDeclResolver) (suffix : SymbolSuffix)
    : option SymbolInfoOrBuilderPtr := docInternalMap this !! suffix.
Definition lookupExternals (this : ForwardDeclResolver) (suffix : SymbolSuffix)
    : option (gset SymbolNameRef) := externalsMap this !! suffix.
Definition deleteExternals (this : ForwardDeclResolver) (suffix : SymbolSuffix)
    : ForwardDeclResolver := mkFDR (docInternalMap this) (delete suffix (externalsMap this)).

(** ** [DocumentBuilder] *)
Record DocumentBuilder : Type := mkDocumentBuilder {
  db_language : str;
  db_relative_path : str;
  db_occurrences : list Occurrence;
  symbolInfos : gmap SymbolNameRef SymbolInformationBuilder;
}.

Definition merge_symbol (infos : gmap SymbolNameRef SymbolInformationBuilder)
    (symbolInfo : SymbolInformation) : result (gmap SymbolNameRef SymbolInformationBuilder) :=
  let name := mkSymbolNameRef (si_symbol symbolInfo) in
  match infos !! name with
  | None =>
      builder ← SymbolInformationBuilder_new name (si_documentation symbolInfo)
                  (si_relationships symbolInfo);
      Ok (<[name := builder]> infos)
  | Some builder =>
      builder ← if negb (sib_hasDocumentation builder)
                then setDocumentation builder (si_documentation symbolInfo)
                else Ok builder;
      Ok (<[name := mergeRelationships builder (si_relationships symbolInfo)]> infos)
  end.

Definition db_merge (this : DocumentBuilder) (doc : Document) : result DocumentBuilder :=
  let occs := set_insert_all OccurrenceExt_cmp (ScipMessages.occurrences doc) (db_occurrences this) in
  infos ← foldM merge_symbol (symbolInfos this) (symbols doc);
  Ok (mkDocumentBuilder (db_language this) (db_relative_path this) occs infos).

Definition DocumentBuilder_new (first : Document) : result DocumentBuilder :=
  db_merge (mkDocumentBuilder (language first) (relative_path first) [] ∅) first.

Definition db_populateForwardDeclResolver (this : DocumentBuilder) (path : str)
    (resolver : ForwardDeclResolver) : ForwardDeclResolver :=
  foldl (fun resolver kv =>
      match getPackageAgnosticSuffix kv.1 with
      | Some suffix => fdr_insert resolver suffix (BuilderPtr path kv.1)
      | None => resolver
      end) resolver (iterate (symbolInfos this)).

Definition db_finish (this : DocumentBuilder) (deterministic : bool) : Document :=
  let soFar := mkDocument (db_language this) (db_relative_path this) [] [] in
  let soFar := extractTransform_set OccurrenceExt_cmp (iterate_set (db_occurrences this))
    deterministic
    (fun d occ => mkDocument (language d) (relative_path d)
                    (ScipMessages.occurrences d ++ [occ]) (symbols d)) soFar in
  extractTransform_map SymbolNameRef_cmp (iterate (symbolInfos this)) deterministic
    (fun d name builder =>
       let symbolInfo := mkSymbolInformation (ref_value name) [] [] in
       mkDocument (language d) (relative_path d) (ScipMessages.occurrences d)
         (symbols d ++ [sib_finish builder deterministic symbolInfo])) soFar.

(** ** [ForwardDeclOccurrence] *)
Record ForwardDeclOccurrence : Type := mkFDO { fdo_symbol : SymbolNameRef; fdo_range : list Z }.

(** Writing [this->range\[i\]] of a [std::array] of four elements. *)
Definition array_set (a : list Z) (i : nat) (v : Z) : result (list Z) :=
  if (i <? length a)%nat then Ok (<[i := v]> a) else Err OutOfRange.

Definition ForwardDeclOccurrence_new (symbol : SymbolNameRef) (ref : ForwardDeclReference)
    : result ForwardDeclOccurrence :=
  ENFORCE ((length (ref_range ref) =? 3)%nat || (length (ref_range ref) =? 4)%nat)
    "ref.range_size() == 3 || ref.range_size() == 4" ;;
  range ← foldM (fun a iv => array_set a iv.1 iv.2) [-1; -1; -1; -1]
            (zip (seq 0 (length (ref_range ref))) (ref_range ref));
  Ok (mkFDO symbol range).

Fixpoint add_range (range : list Z) (out : list Z) : list Z :=
  match range with
  | [] => out
  | v :: rest => if v =? -1 then out else add_range rest (out ++ [v])
  end.

Definition fdo_addTo (this : ForwardDeclOccurrence) (occ : Occurrence) : Occurrence :=
  mkOccurrence (add_range (fdo_range this) (range occ)) (ref_value (fdo_symbol this))
    (symbol_roles occ) (override_documentation occ) (syntax_kind occ) (diagnostics occ).

(** ** [IndexBuilder] *)
Record IndexBuilder : Type := mkIndexBuilder {
  ib_documents : list Document;
  multiplyIndexed : gmap str DocumentBuilder;
  externalSymbols : gmap SymbolNameRef SymbolInformationBuilder;
  forwardDeclOccurenceMap : gmap str (list ForwardDeclOccurrence);
}.

Definition IndexBuilder_new : IndexBuilder := mkIndexBuilder [] ∅ ∅ ∅.

Definition set_ib_documents (this : IndexBuilder) ds :=
  mkIndexBuilder ds (multiplyIndexed this) (externalSymbols this) (forwardDeclOccurenceMap this).
Definition set_multiplyIndexed (this : IndexBuilder) m :=
  mkIndexBuilder (ib_documents this) m (externalSymbols this) (forwardDeclOccurenceMap this).
Definition set_externalSymbols (this : IndexBuilder) e :=
  mkIndexBuilder (ib_documents this) (multiplyIndexed this) e (forwardDeclOccurenceMap this).
Definition set_forwardDeclOccurenceMap (this : IndexBuilder) f :=
  mkIndexBuilder (ib_documents this) (multiplyIndexed this) (externalSymbols this) f.

(** The constructor of [scip::RootRelativePath]. *)
Definition scip_RootRelativePath_new (value : str) : result str :=
  ENFORCE (negb (bool_decide (value = []))) "!this->value.empty()" ;;
  ENFORCE (is_relative value) "llvm::sys::path::is_relative(this->value)" ;;
  Ok value.

Definition addDocument (this : IndexBuilder) (doc : Document) (isMultiplyIndexed : bool)
    : result IndexBuilder :=
  ENFORCE (negb (bool_decide (relative_path doc = []))) "!doc.relative_path().empty()" ;;
  if isMultiplyIndexed then
    docPath ← scip_RootRelativePath_new (relative_path doc);
    docBuilder ← match multiplyIndexed this !! docPath with
                 | None => DocumentBuilder_new doc
                 | Some docBuilder => db_merge docBuilder doc
                 end;
    Ok (set_multiplyIndexed this (<[docPath := docBuilder]> (multiplyIndexed this)))
  else
    docPath ← scip_RootRelativePath_new (relative_path doc);
    ENFORCE (negb (bool_decide (is_Some (multiplyIndexed this !! docPath))))
      "Document found in multiplyIndexed map despite !isMultiplyIndexed" ;;
    Ok (set_ib_documents this (ib_documents this ++ [doc])).

(** [emplace]: an existing builder is kept (the callers have checked). *)
Definition addExternalSymbolUnchecked (this : IndexBuilder) (name : SymbolNameRef)
    (extSym : SymbolInformation) : result IndexBuilder :=
  let docs := si_documentation extSym in
  let rels := set_insert_all compareRelationships (si_relationships extSym) [] in
  builder ← SymbolInformationBuilder_new name docs (iterate_set rels);
  Ok match externalSymbols this !! name with
     | Some _ => this
     | None => set_externalSymbols this (<[name := builder]> (externalSymbols this))
     end.

Definition addExternalSymbol (this : IndexBuilder) (extSym : SymbolInformation)
    : result IndexBuilder :=
  let name := mkSymbolNameRef (si_symbol extSym) in
  match externalSymbols this !! name with
  | None => addExternalSymbolUnchecked this name extSym
  | Some builder =>
      builder ← if negb (sib_hasDocumentation builder)
                   && (0 <? length (si_documentation extSym))%nat
                then setDocumentation builder (si_documentation extSym)
                else Ok builder;
      Ok (set_externalSymbols this
            (<[name := mergeRelationships builder (si_relationships extSym)]> (externalSymbols this)))
  end.

Definition resolver_add_symbols (resolver : ForwardDeclResolver) (d : nat)
    (syms : list SymbolInformation) : ForwardDeclResolver :=
  foldl (fun resolver ns =>
      match getPackageAgnosticSuffix (mkSymbolNameRef (si_symbol ns.2)) with
      | Some suffix => fdr_insert resolver suffix (SymbolInfoPtr d ns.1)
      | None => resolver
      end) resolver (zip (seq 0 (length syms)) syms).

Definition populateForwardDeclResolver (this : IndexBuilder) : ForwardDeclResolver :=
  let resolver := mkFDR ∅ ∅ in
  let resolver := foldl (fun resolver dd => resolver_add_symbols resolver dd.1 (symbols dd.2))
    resolver (zip (seq 0 (length (ib_documents this))) (ib_documents this)) in
  let resolver := foldl (fun resolver kv => db_populateForwardDeclResolver kv.2 kv.1 resolver)
    resolver (iterate (multiplyIndexed this)) in
  foldl (fun resolver kv => insertExternal resolver kv.1) resolver (iterate (externalSymbols this)).

Definition addForwardDeclOccurrences (this : IndexBuilder) (name : SymbolNameRef)
    (forwardDecl : ForwardDecl) : result IndexBuilder :=
  foldM (fun this ref =>
      let path := ref_relative_path ref in
      occ ← ForwardDeclOccurrence_new name ref;
      Ok (set_forwardDeclOccurenceMap this
            (<[path := default [] (forwardDeclOccurenceMap this !! path) ++ [occ]]>
               (forwardDeclOccurenceMap this)))) this (fd_references forwardDecl).
End Builders.

(** ** Forward declarations *)
Section ForwardDeclarations.
Context `{BM : BuildMode, LP : LlvmPath, HI : HashIteration}.

(** The branch for a symbol that is known only as external: one iteration of the
    loop over the external symbols with this suffix. *)
Definition resolve_external (forwardDeclSym : ForwardDecl) (this : IndexBuilder)
    (symbolName : SymbolNameRef) : result IndexBuilder :=
  let it := externalSymbols this !! symbolName in
  ENFORCE (bool_decide (is_Some it)) "lookupExternals succeeded earlier" ;;
  match it with
  | None => Err OutOfRange
  | Some builder =>
      builder ← if negb (sib_hasDocumentation builder)
                then setDocumentation builder [fd_documentation forwardDeclSym]
                else Ok builder;
      addForwardDeclOccurrences
        (set_externalSymbols this (<[symbolName := builder]> (externalSymbols this)))
        symbolName forwardDeclSym
  end.

(** The branch for a symbol seen nowhere else. *)
Definition add_unknown_external (this : IndexBuilder) (resolver : ForwardDeclResolver)
    (suffix : SymbolSuffix) (forwardDeclSym : ForwardDecl)
    : result (IndexBuilder * ForwardDeclResolver) :=
  fake ← addFakePrefix suffix;
  let name := mkSymbolNameRef (symbol_value fake) in
  let extSym := mkSymbolInformation [] [fd_documentation forwardDeclSym] [] in
  this ← addExternalSymbolUnchecked this name extSym;
  let resolver := insertExternal resolver name in
  this ← addForwardDeclOccurrences this name forwardDeclSym;
  Ok (this, resolver).

(** Reading and writing through a [SymbolInfoOrBuilderPtr]. *)
Definition ptr_name (this : IndexBuilder) (ptr : SymbolInfoOrBuilderPtr) : result SymbolNameRef :=
  match ptr with
  | SymbolInfoPtr d n =>
      doc ← vector_at (ib_documents this) d;
      symbolInfo ← vector_at (symbols doc) n;
      Ok (mkSymbolNameRef (si_symbol symbolInfo))
  | BuilderPtr path name =>
      match multiplyIndexed this !! path with
      | Some db => match symbolInfos db !! name with
                   | Some builder => Ok (sib_name builder)
                   | None => Err OutOfRange
                   end
      | None => Err OutOfRange
      end
  end.

Definition document_set_docs (doc : Document) (n : nat) (docs : list str) : Document :=
  mkDocument (language doc) (relative_path doc) (ScipMessages.occurrences doc)
    (alter (fun si => mkSymbolInformation (si_symbol si) docs (si_relationships si)) n (symbols doc)).

Definition ptr_add_documentation (this : IndexBuilder) (ptr : SymbolInfoOrBuilderPtr)
    (documentation : str) : result IndexBuilder :=
  match ptr with
  | SymbolInfoPtr d n =>
      doc ← vector_at (ib_documents this) d;
      symbolInfo ← vector_at (symbols doc) n;
      Ok (if negb (si_hasDocumentation symbolInfo)
          then set_ib_documents this (<[d := document_set_docs doc n [documentation]]> (ib_documents this))
          else this)
  | BuilderPtr path name =>
      match multiplyIndexed this !! path with
      | None => Err OutOfRange
      | Some db =>
          match symbolInfos db !! name with
          | None => Err OutOfRange
          | Some builder =>
              if negb (sib_hasDocumentation builder) then
                builder ← setDocumentation builder [documentation];
                Ok (set_multiplyIndexed this
                      (<[path := mkDocumentBuilder (db_language db) (db_relative_path db)
                                   (db_occurrences db) (<[name := builder]> (symbolInfos db))]>
                         (multiplyIndexed this)))
              else Ok this
          end
      end
  end.

Definition addForwardDeclaration (this : IndexBuilder) (resolver : ForwardDeclResolver)
    (forwardDeclSym : ForwardDecl) : result (IndexBuilder * ForwardDeclResolver) :=
  let suffix := mkSymbolSuffix (fd_suffix forwardDeclSym) in
  match lookupInDocuments resolver suffix with
  | None =>
      match lookupExternals resolver suffix with
      | Some externals =>
          ENFORCE (negb (bool_decide (externals = ∅))) "externals list for a suffix should be non-empty" ;;
          this ← foldM (resolve_external forwardDeclSym) this (iterate_set (elements externals));
          Ok (this, resolver)
      | None => add_unknown_external this resolver suffix forwardDeclSym
      end
  | Some ptr =>
      let '(this, resolver) :=
        match lookupExternals resolver suffix with
        | Some externals =>
            (set_externalSymbols this
               (foldl (fun ext name => delete name ext) (externalSymbols this)
                  (iterate_set (elements externals))),
             deleteExternals resolver suffix)
        | None => (this, resolver)
        end in
      name ← ptr_name this ptr;
      this ← if negb (bool_decide (fd_documentation forwardDeclSym = []))
             then ptr_add_documentation this ptr (fd_documentation forwardDeclSym)
             else Ok this;
      this ← addForwardDeclOccurrences this name forwardDeclSym;
      Ok (this, resolver)
  end.

(** ** [IndexWriter] and [finish]

    The output stream is the list of indexes serialized to it; protobuf messages
    written one after the other parse as their concatenation. *)
Record IndexWriter : Type := mkIndexWriter {
  w_index : Index;
  w_forwardDecls : gmap str (list ForwardDeclOccurrence);
  w_output : list Index;
}.

Definition write (this : IndexWriter) : IndexWriter :=
  mkIndexWriter (mkIndex [] []) (w_forwardDecls this) (w_output this ++ [w_index this]).

Definition writeDocument (deterministic : bool) (this : IndexWriter) (doc : Document)
    : IndexWriter :=
  let doc :=
    match w_forwardDecls this !! relative_path doc with
    | Some fdos =>
        let occs := ScipMessages.occurrences doc
                    ++ map (fun fwdDeclOcc => fdo_addTo fwdDeclOcc empty_occurrence) fdos in
        let occs := if deterministic then c_sort OccurrenceExt_cmp occs else occs in
        mkDocument (language doc) (relative_path doc) occs (symbols doc)
    | None => doc
    end in
  let index := mkIndex (documents (w_index this) ++ [doc]) (external_symbols (w_index this)) in
  write (mkIndexWriter index (w_forwardDecls this) (w_output this)).

Definition writeExternalSymbol (this : IndexWriter) (symbolInfo : SymbolInformation)
    : IndexWriter :=
  let index := mkIndex (documents (w_index this)) (external_symbols (w_index this) ++ [symbolInfo]) in
  let this := mkIndexWriter index (w_forwardDecls this) (w_output this) in
  if (length (external_symbols index) mod 1024 =? 0)%nat then write this else this.

(** The destructor writes what is left. *)
Definition finish (this : IndexBuilder) (deterministic : bool) : list Index :=
  let writer := mkIndexWriter (mkIndex [] []) (forwardDeclOccurenceMap this) [] in
  let writer := foldl (writeDocument deterministic) writer (ib_documents this) in
  let writer := extractTransform_map CmpStr (iterate (multiplyIndexed this)) deterministic
    (fun writer _ builder => writeDocument deterministic writer (db_finish builder deterministic))
    writer in
  let writer := extractTransform_map SymbolNameRef_cmp (iterate (externalSymbols this)) deterministic
    (fun writer name builder =>
       writeExternalSymbol writer
         (sib_finish builder deterministic (mkSymbolInformation (ref_value name) [] [])))
    writer in
  w_output (write writer).
End ForwardDeclarations.

(** ** Occurrences of forward declarations *)
Section Occurrences.
Context `{BM : BuildMode}.

Definition fdo_of (name : SymbolNameRef) (ref : ForwardDeclReference) : ForwardDeclOccurrence :=
  mkFDO name (take 4 (ref_range ref ++ [-1])).

Lemma ForwardDeclOccurrence_new_wf name ref :
  range_wf (ref_range ref) -> ForwardDeclOccurrence_new name ref = Ok (fdo_of name ref).
Proof.
  unfold ForwardDeclOccurrence_new, fdo_of.
  destruct (ref_range ref) as [|r0 [|r1 [|r2 [|r3 [|]]]]]; intros [Hl|Hl]; try done;
    cbn -[ENFORCE]; by rewrite ENFORCE_true.
Qed.

Lemma add_range_app r rest out :
  Forall (fun v => v <> -1) r -> add_range (r ++ rest) out = add_range rest (out ++ r).
Proof.
  intros Hr. revert out. induction Hr as [|v r Hv _ IH]; intros out; simpl; [by rewrite app_nil_r|].
  destruct (Z.eqb_spec v (-1)); [done|]. by rewrite IH -app_assoc.
Qed.

Lemma addTo_range name ref :
  range_wf (ref_range ref) -> Forall (fun v => v <> -1) (ref_range ref) ->
  range (fdo_addTo (fdo_of name ref) empty_occurrence) = ref_range ref.
Proof.
  intros Hwf Hne. unfold fdo_addTo, fdo_of. cbn [range fdo_range empty_occurrence].
  destruct Hwf as [Hl|Hl].
  - rewrite take_ge; [rewrite length_app Hl; simpl; lia|].
    by rewrite add_range_app.
  - rewrite take_app_length' //. rewrite -(app_nil_r (ref_range ref)) in Hne |- *.
    apply Forall_app in Hne as [Hne _]. by rewrite add_range_app ?app_nil_r.
Qed.

Definition refs_at (path : str) (fd : ForwardDecl) : list ForwardDeclReference :=
  List.filter (fun ref => bool_decide (ref_relative_path ref = path)) (fd_references fd).

Definition ForwardDecl_wf (fd : ForwardDecl) : Prop :=
  Forall (fun ref => range_wf (ref_range ref)) (fd_references fd).

(** Each reference adds one occurrence to the list of its path. *)
Lemma addForwardDeclOccurrences_ok this name fd :
  ForwardDecl_wf fd ->
  exists fmap, addForwardDeclOccurrences this name fd = Ok (set_forwardDeclOccurenceMap this fmap)
    /\ forall path, default [] (fmap !! path)
         = default [] (forwardDeclOccurenceMap this !! path) ++ map (fdo_of name) (refs_at path fd).
Proof.
  unfold ForwardDecl_wf, addForwardDeclOccurrences, refs_at. intros Hwf. revert this.
  induction Hwf as [|ref refs Href _ IH]; intros this; cbn [foldM].
  - exists (forwardDeclOccurenceMap this). split; [by destruct this|].
    intros path. by rewrite app_nil_r.
  - rewrite ForwardDeclOccurrence_new_wf // !bind_Ok.
    edestruct IH as (fmap & -> & Hf). exists fmap. split; [done|].
    intros path. rewrite Hf. cbn [forwardDeclOccurenceMap set_forwardDeclOccurenceMap List.filter].
    case_bool_decide as E.
    + rewrite E lookup_insert_eq. cbn [default map]. by rewrite -app_assoc.
    + by rewrite lookup_insert_ne.
Qed.
End Occurrences.

(** ** The invariant between the builder and the resolver *)
Section Resolver.
Context `{BM : BuildMode, LP : LlvmPath, HI : HashIteration, !HashIterationLaws}.

(** Builders are stored under their own name. *)
Definition ib_wf (this : IndexBuilder) : Prop :=
  forall path db name b,
    multiplyIndexed this !! path = Some db -> symbolInfos db !! name = Some b -> sib_name b = name.

Record resolver_inv (this : IndexBuilder) (r : ForwardDeclResolver) : Prop := {
  inv_wf : ib_wf this;
  inv_nonempty suffix S : externalsMap r !! suffix = Some S -> S <> ∅;
  inv_external suffix S n : externalsMap r !! suffix = Some S -> n ∈ S ->
    getPackageAgnosticSuffix n = Some suffix /\ is_Some (externalSymbols this !! n);
  inv_complete suffix n : is_Some (externalSymbols this !! n) ->
    getPackageAgnosticSuffix n = Some suffix ->
    exists S, externalsMap r !! suffix = Some S /\ n ∈ S;
  inv_ptr suffix ptr : docInternalMap r !! suffix = Some ptr ->
    exists name, ptr_name this ptr = Ok name /\ getPackageAgnosticSuffix name = Some suffix;
}.

Lemma insertExternal_spec r n suffix S' :
  externalsMap (insertExternal r n) !! suffix = Some S' <->
  (getPackageAgnosticSuffix n = Some suffix /\ S' = {[n]} ∪ default ∅ (externalsMap r !! suffix))
  \/ (getPackageAgnosticSuffix n <> Some suffix /\ externalsMap r !! suffix = Some S').
Proof.
  unfold insertExternal. destruct (getPackageAgnosticSuffix n) as [suf|]; simpl.
  - rewrite lookup_insert_Some. split.
    + intros [[-> <-]|[Hne Hl]]; [by left|right]. split; [congruence|done].
    + intros [[[= ->] ->]|[Hne Hl]]; [by left|right]. split; [congruence|done].
  - split; [by right|intros [[? _]|[_ ?]]; done].
Qed.

(** The externals indexed so far, while the resolver is being populated. *)
Definition externals_of (r : ForwardDeclResolver) (names : list SymbolNameRef) : Prop :=
  (forall suffix S, externalsMap r !! suffix = Some S -> S <> ∅)
  /\ forall suffix n, getPackageAgnosticSuffix n = Some suffix ->
       ((exists S, externalsMap r !! suffix = Some S /\ n ∈ S) <-> n ∈ names).

Definition externals_suffix (r : ForwardDeclResolver) : Prop :=
  forall suffix S n, externalsMap r !! suffix = Some S -> n ∈ S ->
    getPackageAgnosticSuffix n = Some suffix.

Lemma insertExternal_externals_of r names n :
  externals_of r names -> externals_suffix r ->
  externals_of (insertExternal r n) (n :: names) /\ externals_suffix (insertExternal r n).
Proof.
  intros [Hne Hof] Hsuf. split; [split|].
  - intros suffix S' [[_ ->]|[_ Hl]]%insertExternal_spec; [|by eapply Hne].
    by intros E%empty_union_L; destruct E as [E%non_empty_singleton_L _].
  - intros suffix m Hm. rewrite elem_of_cons -(Hof suffix m Hm). split.
    + intros (S' & [[Hn ->]|[_ Hl]]%insertExternal_spec & Hin); [|right; by eexists].
      apply elem_of_union in Hin as [->%elem_of_singleton|Hin]; [by left|right].
      destruct (externalsMap r !! suffix) as [S''|]; [by eexists|by apply elem_of_empty in Hin].
    + intros [->|(S' & Hl & Hin)].
      * eexists. split; [apply insertExternal_spec; by left|].
        by apply elem_of_union_l, elem_of_singleton.
      * destruct (decide (getPackageAgnosticSuffix n = Some suffix)) as [E|E].
        -- eexists. split; [apply insertExternal_spec; by left|].
           rewrite Hl. by apply elem_of_union_r.
        -- exists S'. split; [apply insertExternal_spec; by right|done].
  - intros suffix S' m [[Hn ->]|[_ Hl]]%insertExternal_spec Hin; [|by eapply Hsuf].
    apply elem_of_union in Hin as [->%elem_of_singleton|Hin]; [done|].
    destruct (externalsMap r !! suffix) as [S''|] eqn:E; [by eapply Hsuf|by apply elem_of_empty in Hin].
Qed.

(** Pointers put into the map name a symbol with the right suffix. *)
Definition ptrs_ok (this : IndexBuilder) (r : ForwardDeclResolver) : Prop :=
  forall suffix ptr, docInternalMap r !! suffix = Some ptr ->
    exists name, ptr_name this ptr = Ok name /\ getPackageAgnosticSuffix name = Some suffix.

Lemma fdr_insert_ptrs_ok this r suffix ptr name :
  ptrs_ok this r -> ptr_name this ptr = Ok name -> getPackageAgnosticSuffix name = Some suffix ->
  ptrs_ok this (fdr_insert r suffix ptr).
Proof.
  intros Hr Hp Hn. unfold fdr_insert. destruct (docInternalMap r !! suffix); [done|].
  intros s p; cbn [docInternalMap]. intros [[<- <-]|[_ Hl]]%lookup_insert_Some; [by eexists|by apply Hr].
Qed.

Lemma insertExternal_docInternal r n : docInternalMap (insertExternal r n) = docInternalMap r.
Proof. unfold insertExternal. by destruct (getPackageAgnosticSuffix n). Qed.
Lemma fdr_insert_externals r s p : externalsMap (fdr_insert r s p) = externalsMap r.
Proof. unfold fdr_insert. by destruct (docInternalMap r !! s). Qed.

Lemma resolver_add_symbols_ok this r d doc :
  ptrs_ok this r -> ib_documents this !! d = Some doc ->
  ptrs_ok this (resolver_add_symbols r d (symbols doc))
  /\ externalsMap (resolver_add_symbols r d (symbols doc)) = externalsMap r.
Proof.
  intros Hr Hd. unfold resolver_add_symbols.
  apply (foldl_invariant (fun t => ptrs_ok this t /\ externalsMap t = externalsMap r)); [|done].
  intros t [n si] Hin%elem_of_enumerate [Ht He]. simpl.
  destruct (getPackageAgnosticSuffix _) as [suf|] eqn:E; [|done].
  rewrite fdr_insert_externals. split; [|done].
  apply (fdr_insert_ptrs_ok _ _ _ _ (mkSymbolNameRef (si_symbol si))); [done| |done].
  simpl. rewrite (proj2 (vector_at_Ok _ _ _) Hd) bind_Ok.
  by rewrite (proj2 (vector_at_Ok _ _ _) Hin).
Qed.

Lemma db_populate_ok this r path db :
  ib_wf this -> ptrs_ok this r -> multiplyIndexed this !! path = Some db ->
  ptrs_ok this (db_populateForwardDeclResolver db path r)
  /\ externalsMap (db_populateForwardDeclResolver db path r) = externalsMap r.
Proof.
  intros Hwf Hr Hd. unfold db_populateForwardDeclResolver.
  apply (foldl_invariant (fun t => ptrs_ok this t /\ externalsMap t = externalsMap r)); [|done].
  intros t [name b] Hin%iterate_elem_of [Ht He]. simpl.
  destruct (getPackageAgnosticSuffix name) as [suf|] eqn:E; [|done].
  rewrite fdr_insert_externals. split; [|done].
  apply (fdr_insert_ptrs_ok _ _ _ _ name); [done| |done].
  simpl. rewrite Hd Hin. f_equal. by eapply Hwf.
Qed.

(** Populating the resolver establishes the invariant. *)
Lemma populate_resolver_inv this : ib_wf this -> resolver_inv this (populateForwardDeclResolver this).
Proof.
  intros Hwf. unfold populateForwardDeclResolver.
  set (r1 := foldl (fun resolver dd => _) (mkFDR ∅ ∅) _).
  assert (ptrs_ok this r1 /\ externalsMap r1 = ∅) as [H1 E1].
  { unfold r1. apply (foldl_invariant (fun t => ptrs_ok this t /\ externalsMap t = ∅)).
    - intros t [d doc] Hin%elem_of_enumerate [Ht He]. simpl.
      destruct (resolver_add_symbols_ok this t d doc Ht Hin) as [? ->]. done.
    - split; [|done]. intros ? ?; cbn. by rewrite lookup_empty. }
  set (r2 := foldl _ r1 _).
  assert (ptrs_ok this r2 /\ externalsMap r2 = ∅) as [H2 E2].
  { unfold r2. apply (foldl_invariant (fun t => ptrs_ok this t /\ externalsMap t = ∅)); [|done].
    intros t [path db] Hin%iterate_elem_of [Ht He]. simpl.
    destruct (db_populate_ok this t path db Hwf Ht Hin) as [? ->]. done. }
  clearbody r2. clear r1 H1 E1.
  assert (forall (l : list (SymbolNameRef * SymbolInformationBuilder)) r names, ptrs_ok this r -> externals_of r names -> externals_suffix r ->
    let r' := foldl (fun resolver kv => insertExternal resolver kv.1) r l in
    ptrs_ok this r' /\ externals_of r' (rev l.*1 ++ names) /\ externals_suffix r') as Hloop.
  { intros l. induction l as [|[n b] l IH]; intros r names Hp He Hs; [done|]. simpl.
    destruct (insertExternal_externals_of r names n He Hs) as [He' Hs'].
    destruct (IH (insertExternal r n) (n :: names)) as (Hp' & Ho & Hs''); [|done..|].
    - intros suf ptr. rewrite insertExternal_docInternal. apply Hp.
    - by rewrite -app_assoc. }
  destruct (Hloop (iterate (externalSymbols this)) r2 []) as (Hp & [Hne Hof] & Hs); [done|split| |].
  - intros suf S. by rewrite E2 lookup_empty.
  - intros suf n Hn. rewrite E2. split; [|by intros ?%not_elem_of_nil].
    intros (S & Hl & _). by rewrite lookup_empty in Hl.
  - intros suf S n. by rewrite E2 lookup_empty.
  - assert (forall n, n ∈ rev (iterate (externalSymbols this)).*1 ++ [] <->
        is_Some (externalSymbols this !! n)) as Hnames.
    { intros n. rewrite app_nil_r list_elem_of_In -in_rev -list_elem_of_In list_elem_of_fmap. split.
      - intros ([n' b] & -> & Hin%iterate_elem_of). by eexists.
      - intros [b Hb]. exists (n, b). by rewrite iterate_elem_of. }
    split; [done|done| | |done].
    + intros suf S n Hl Hin. assert (getPackageAgnosticSuffix n = Some suf) as Hsuf by by eapply Hs.
      split; [done|]. apply Hnames, (Hof suf n Hsuf). by eexists.
    + intros suf n Hn Hsuf. by apply (Hof suf n Hsuf), Hnames.
Qed.
End Resolver.

(** ** One forward declaration *)
Section AddForwardDeclaration.
Context `{BM : BuildMode, LP : LlvmPath, HI : HashIteration, !HashIterationLaws}.

(** The occurrences recorded for each path grow by those of [names]. *)
Definition attached (this this' : IndexBuilder) (fd : ForwardDecl) (names : SymbolNameRef -> Prop)
    : Prop :=
  forall path fdo, fdo ∈ default [] (forwardDeclOccurenceMap this' !! path) <->
    fdo ∈ default [] (forwardDeclOccurenceMap this !! path)
    \/ exists n ref, names n /\ ref ∈ refs_at path fd /\ fdo = fdo_of n ref.

Lemma addForwardDeclOccurrences_attached this name fd :
  ForwardDecl_wf fd ->
  exists this', addForwardDeclOccurrences this name fd = Ok this'
    /\ attached this this' fd (fun n => n = name)
    /\ ib_documents this' = ib_documents this /\ multiplyIndexed this' = multiplyIndexed this
    /\ externalSymbols this' = externalSymbols this.
Proof.
  intros Hwf. destruct (addForwardDeclOccurrences_ok this name fd Hwf) as (fmap & -> & Hf).
  eexists. split_and!; [done| |done|done|done]. intros path fdo. cbn.
  rewrite Hf elem_of_app list_elem_of_fmap. split.
  - intros [?|(ref & -> & Hin)]; [by left|right; by exists name, ref].
  - intros [?|(n & ref & -> & Hin & ->)]; [by left|right; by exists ref].
Qed.

(** The invariant only looks at the keys of the external symbols. *)
Lemma resolver_inv_keys this this' r :
  resolver_inv this r ->
  ib_documents this' = ib_documents this -> multiplyIndexed this' = multiplyIndexed this ->
  (forall n, is_Some (externalSymbols this' !! n) <-> is_Some (externalSymbols this !! n)) ->
  resolver_inv this' r.
Proof.
  intros [Hwf Hne Hex Hco Hptr] Hd Hm Hk. split.
  - intros path db name b. rewrite Hm. apply Hwf.
  - done.
  - intros suf S n Hl Hin. rewrite Hk. by eapply Hex.
  - intros suf n. rewrite Hk. apply Hco.
  - intros suf ptr Hl. destruct (Hptr suf ptr Hl) as (name & Hn & Hs).
    exists name. split; [|done]. rewrite -Hn. unfold ptr_name. by rewrite Hd Hm.
Qed.

Lemma setDocumentation_ok b docs :
  sib_hasDocumentation b = false ->
  setDocumentation b docs = Ok (mkSIB docs (relationships b) (sib_name b)).
Proof. intros Hb. unfold setDocumentation. by rewrite Hb ENFORCE_true. Qed.

Lemma resolve_external_ok this r fd n :
  resolver_inv this r -> ForwardDecl_wf fd -> is_Some (externalSymbols this !! n) ->
  exists this', resolve_external fd this n = Ok this'
    /\ attached this this' fd (fun m => m = n)
    /\ ib_documents this' = ib_documents this /\ multiplyIndexed this' = multiplyIndexed this
    /\ (forall m, is_Some (externalSymbols this' !! m) <-> is_Some (externalSymbols this !! m)).
Proof.
  intros Hinv Hwf [b Hb]. unfold resolve_external. rewrite Hb bool_decide_true // ENFORCE_true bind_Ok.
  assert (exists b', (if negb (sib_hasDocumentation b)
                      then setDocumentation b [fd_documentation fd] else Ok b) = Ok b') as [b' ->].
  { destruct (sib_hasDocumentation b) eqn:E; simpl; [by eexists|].
    rewrite setDocumentation_ok //. by eexists. }
  rewrite bind_Ok.
  destruct (addForwardDeclOccurrences_attached
    (set_externalSymbols this (<[n := b']> (externalSymbols this))) n fd Hwf)
    as (this' & -> & Ha & Hd & Hm & He).
  exists this'. split_and!; [done|exact Ha|by rewrite Hd|by rewrite Hm|].
  intros m. rewrite He. cbn. rewrite lookup_insert_is_Some'. split; [|by right].
  intros [<-|?]; [by eexists|done].
Qed.

Lemma attached_trans this this1 this2 fd P Q :
  attached this this1 fd P -> attached this1 this2 fd Q ->
  attached this this2 fd (fun n => P n \/ Q n).
Proof.
  intros H1 H2 path fdo. rewrite H2 H1. split.
  - intros [[?|(n & ref & ? & ? & ?)]|(n & ref & ? & ? & ?)];
      [by left|right; exists n, ref; by eauto..].
  - intros [?|(n & ref & [?|?] & ? & ?)];
      [by left; left|left; right; exists n, ref; by eauto|right; exists n, ref; by eauto].
Qed.

Lemma attached_ext this this' fd (P Q : SymbolNameRef -> Prop) :
  (forall n, P n <-> Q n) -> attached this this' fd P -> attached this this' fd Q.
Proof.
  intros HPQ Ha path fdo. rewrite Ha. split.
  - intros [?|(n & ref & Hn & ? & ?)]; [by left|right; exists n, ref; by rewrite -HPQ].
  - intros [?|(n & ref & Hn & ? & ?)]; [by left|right; exists n, ref; by rewrite HPQ].
Qed.

Lemma resolve_externals_ok l this r fd :
  resolver_inv this r -> ForwardDecl_wf fd ->
  (forall n, n ∈ l -> is_Some (externalSymbols this !! n)) ->
  exists this', foldM (resolve_external fd) this l = Ok this'
    /\ resolver_inv this' r /\ attached this this' fd (fun n => n ∈ l).
Proof.
  intros Hinv Hwf. revert this Hinv. induction l as [|n l IH]; intros this Hinv Hl; cbn [foldM].
  - exists this. split_and!; [done|done|]. intros path fdo. split; [by left|].
    intros [?|(n & ref & ?%not_elem_of_nil & _)]; done.
  - destruct (resolve_external_ok this r fd n Hinv Hwf) as (this1 & -> & Ha & Hd & Hm & Hk).
    { apply Hl. by left. }
    rewrite bind_Ok. destruct (IH this1) as (this2 & -> & Hinv2 & Ha2).
    + by eapply resolver_inv_keys.
    + intros m Hm'. rewrite Hk. apply Hl. by right.
    + exists this2. split_and!; [done|done|].
      eapply attached_ext; [|by eapply attached_trans].
      intros m. cbn. by rewrite elem_of_cons.
Qed.

Lemma SymbolInformationBuilder_new_ok name docs rels :
  exists b, SymbolInformationBuilder_new name docs rels = Ok b /\ sib_name b = name.
Proof.
  unfold SymbolInformationBuilder_new. rewrite setDocumentation_ok // bind_Ok. by eexists.
Qed.

Lemma addExternalSymbolUnchecked_ok this name si :
  externalSymbols this !! name = None ->
  exists b, addExternalSymbolUnchecked this name si
    = Ok (set_externalSymbols this (<[name := b]> (externalSymbols this))).
Proof.
  intros Hn. unfold addExternalSymbolUnchecked.
  destruct (SymbolInformationBuilder_new_ok name (si_documentation si)
    (iterate_set (set_insert_all compareRelationships (si_relationships si) []))) as (b & -> & _).
  exists b. by rewrite bind_Ok Hn.
Qed.

Lemma fake_suffix suffix :
  exists fake, addFakePrefix suffix = Ok fake
    /\ getPackageAgnosticSuffix (mkSymbolNameRef (symbol_value fake)) = Some suffix.
Proof.
  eexists. split; [unfold addFakePrefix, SymbolName_new; by rewrite bool_decide_false // ENFORCE_true|].
  cbn [symbol_value].
  change (lit "cxx . . $ " ++ suffix_value suffix)
    with (lit "cxx . . " ++ lit "$ " ++ suffix_value suffix).
  rewrite getPackageAgnosticSuffix_app; [|by destruct suffix].
  apply (bool_decide_unpack _). by vm_compute.
Qed.
End AddForwardDeclaration.

Section AddForwardDeclarationInv.
Context `{BM : BuildMode, LP : LlvmPath, HI : HashIteration, !HashIterationLaws}.

Lemma add_unknown_external_ok this r suffix fd :
  resolver_inv this r -> ForwardDecl_wf fd -> lookupExternals r suffix = None ->
  exists this' r' fake, add_unknown_external this r suffix fd = Ok (this', r')
    /\ resolver_inv this' r' /\ getPackageAgnosticSuffix fake = Some suffix
    /\ (forall n, is_Some (externalSymbols this' !! n) <->
          fake = n \/ is_Some (externalSymbols this !! n))
    /\ docInternalMap r' = docInternalMap r
    /\ attached this this' fd (fun n => n = fake).
Proof.
  intros Hinv Hwf Hnone. unfold lookupExternals in Hnone.
  destruct (fake_suffix suffix) as (fk & Hfk & Hsuf).
  unfold add_unknown_external. rewrite Hfk bind_Ok.
  set (fake := mkSymbolNameRef (symbol_value fk)) in *.
  assert (externalSymbols this !! fake = None) as Hfresh.
  { destruct (externalSymbols this !! fake) eqn:E; [|done].
    destruct (inv_complete _ _ Hinv suffix fake) as (S & HS & _); [by rewrite E|done|congruence]. }
  edestruct (addExternalSymbolUnchecked_ok this fake) as (b & ->); [done|]. rewrite bind_Ok.
  edestruct (addForwardDeclOccurrences_attached) as (this' & -> & Ha & Hd & Hm & He); [done|].
  rewrite bind_Ok. cbn in Ha, Hd, Hm, He.
  exists this', (insertExternal r fake), fake. split_and!; [done| |done| |apply insertExternal_docInternal|exact Ha].
  2: { intros n. by rewrite He lookup_insert_is_Some'. }
  destruct Hinv as [Hibwf Hne Hex Hco Hptr]. split.
  - intros path db name b'. rewrite Hm. apply Hibwf.
  - intros suf S [[_ ->]|[_ Hl]]%insertExternal_spec; [|by eapply Hne].
    by intros E%empty_union_L; destruct E as [E%non_empty_singleton_L _].
  - intros suf S n [[Hf ->]|[_ Hl]]%insertExternal_spec Hin.
    + rewrite He lookup_insert_is_Some'. apply elem_of_union in Hin as [->%elem_of_singleton|Hin].
      * split; [done|by left].
      * destruct (externalsMap r !! suf) as [S'|] eqn:E; [|by apply elem_of_empty in Hin].
        destruct (Hex suf S' n E Hin) as [? ?]. split; [done|by right].
    + rewrite He lookup_insert_is_Some'. destruct (Hex suf S n Hl Hin) as [? ?].
      split; [done|by right].
  - intros suf n. rewrite He lookup_insert_is_Some'. intros [<-|Hn] Hs.
    + eexists. split; [apply insertExternal_spec; by left|].
      by apply elem_of_union_l, elem_of_singleton.
    + destruct (Hco suf n Hn Hs) as (S & HS & Hin).
      destruct (decide (getPackageAgnosticSuffix fake = Some suf)) as [E|E].
      * eexists. split; [apply insertExternal_spec; by left|]. rewrite HS. by apply elem_of_union_r.
      * exists S. split; [apply insertExternal_spec; by right|done].
  - intros suf ptr. rewrite insertExternal_docInternal. intros Hl.
    destruct (Hptr suf ptr Hl) as (name & Hn & Hs). exists name. split; [|done].
    rewrite -Hn. unfold ptr_name. by rewrite Hd Hm.
Qed.

(** Dropping the external symbols of a suffix that a document defines. *)
Definition drop_externals (this : IndexBuilder) (r : ForwardDeclResolver) (suffix : SymbolSuffix)
    : IndexBuilder * ForwardDeclResolver :=
  match lookupExternals r suffix with
  | Some externals =>
      (set_externalSymbols this
         (foldl (fun ext name => delete name ext) (externalSymbols this)
            (iterate_set (elements externals))),
       deleteExternals r suffix)
  | None => (this, r)
  end.

Lemma lookup_delete_all {V} (l : list SymbolNameRef) (m : gmap SymbolNameRef V) n :
  is_Some (foldl (fun ext name => delete name ext) m l !! n) <-> is_Some (m !! n) /\ n ∉ l.
Proof.
  revert m; induction l as [|x l IH]; intros m; simpl.
  - split; [|by intros [? _]]. intros ?. split; [done|apply not_elem_of_nil].
  - rewrite IH not_elem_of_cons. destruct (decide (x = n)) as [<-|Hx].
    + rewrite lookup_delete_eq. split; [intros [[? ?] _]; done|by intros (_ & ? & _)].
    + rewrite lookup_delete_ne //. intuition congruence.
Qed.

Lemma drop_externals_inv this r suffix :
  resolver_inv this r ->
  let res := drop_externals this r suffix in
  resolver_inv res.1 res.2
  /\ (forall n, getPackageAgnosticSuffix n = Some suffix -> externalSymbols res.1 !! n = None)
  /\ (forall n, getPackageAgnosticSuffix n <> Some suffix ->
        is_Some (externalSymbols res.1 !! n) <-> is_Some (externalSymbols this !! n)).
Proof.
  intros Hinv. unfold drop_externals, lookupExternals.
  destruct (externalsMap r !! suffix) as [ext|] eqn:E; cbn [fst snd].
  2: { split_and!; [done| |done]. intros n Hn. destruct (externalSymbols this !! n) eqn:En; [|done].
       destruct (inv_complete _ _ Hinv suffix n) as (S & HS & _); [by rewrite En|done|congruence]. }
  assert (forall n, is_Some (externalSymbols (set_externalSymbols this
      (foldl (fun ext name => delete name ext) (externalSymbols this)
         (iterate_set (elements ext)))) !! n)
    <-> is_Some (externalSymbols this !! n) /\ n ∉ ext) as Hk.
  { intros n. cbn. rewrite lookup_delete_all iterate_set_entries. by rewrite elem_of_elements. }
  destruct Hinv as [Hibwf Hne Hex Hco Hptr]. split_and!.
  - split.
    + done.
    + intros suf S. cbn. intros [_ Hl]%lookup_delete_Some. by eapply Hne.
    + intros suf S n. cbn -[foldl]. intros [Hsne Hl]%lookup_delete_Some Hin.
      destruct (Hex suf S n Hl Hin) as [Hs Hn]. split; [done|]. apply Hk. split; [done|].
      intros Hext. destruct (Hex suffix ext n E Hext) as [Hs' _]. congruence.
    + intros suf n [Hn Hnin]%Hk Hs. destruct (Hco suf n Hn Hs) as (S & HS & Hin).
      exists S. split; [|done]. cbn. apply lookup_delete_Some. split; [|done].
      intros <-. congruence.
    + done.
  - intros n Hn. apply eq_None_not_Some. intros [Hsome Hnin]%Hk.
    destruct (Hco suffix n Hsome Hn) as (S & HS & Hin). congruence.
  - intros n Hn. rewrite Hk. split; [by intros [? _]|]. intros Hs. split; [done|].
    intros Hext. destruct (Hex suffix ext n E Hext) as [Hs' _]. congruence.
Qed.
End AddForwardDeclarationInv.

Section PointerWrites.
Context `{BM : BuildMode, LP : LlvmPath, HI : HashIteration, !HashIterationLaws}.

(** Same symbols at every address. *)
Definition same_names (this this' : IndexBuilder) : Prop :=
  forall ptr name, ptr_name this ptr = Ok name -> ptr_name this' ptr = Ok name.

Lemma document_set_docs_name doc n docs i :
  symbols (document_set_docs doc n docs) !! i =
  (fun si => if bool_decide (n = i)
             then mkSymbolInformation (si_symbol si) docs (si_relationships si) else si)
    <$> (symbols doc !! i).
Proof.
  unfold document_set_docs; cbn [symbols]. case_bool_decide as E.
  - rewrite E list_lookup_alter_eq. by destruct (symbols doc !! i).
  - rewrite list_lookup_alter_ne //. by destruct (symbols doc !! i).
Qed.

Lemma ptr_add_documentation_ok this ptr name text :
  ib_wf this -> ptr_name this ptr = Ok name ->
  exists this', ptr_add_documentation this ptr text = Ok this'
    /\ ib_wf this' /\ same_names this this'
    /\ externalSymbols this' = externalSymbols this
    /\ forwardDeclOccurenceMap this' = forwardDeclOccurenceMap this.
Proof.
  intros Hwf Hp. destruct ptr as [d n|path nm]; simpl in Hp |- *.
  - apply bind_Ok_inv in Hp as (doc & Hd & Hp). apply bind_Ok_inv in Hp as (si & Hn & _).
    rewrite Hd bind_Ok Hn bind_Ok. eexists; split; [done|].
    apply vector_at_Ok in Hd. destruct (negb (si_hasDocumentation si)); [|by split_and!; [|intros ??| |]].
    split_and!; [done| |done|done]. intros ptr name' Hptr.
    destruct ptr as [d' n'|path' nm']; [|done]. simpl in Hptr |- *.
    apply bind_Ok_inv in Hptr as (doc' & Hd'%vector_at_Ok & Hptr).
    apply bind_Ok_inv in Hptr as (si' & Hsi%vector_at_Ok & [= <-]).
    destruct (decide (d = d')) as [<-|Hne].
    + rewrite Hd in Hd'. injection Hd' as <-. cbn [ib_documents set_ib_documents].
      assert (<[d:=document_set_docs doc n [text]]> (ib_documents this) !! d
        = Some (document_set_docs doc n [text])) as Hins
        by (apply list_lookup_insert_eq; by eapply lookup_lt_Some).
      rewrite (proj2 (vector_at_Ok _ _ _) Hins) bind_Ok.
      unfold vector_at. rewrite document_set_docs_name Hsi /=. by case_bool_decide.
    + cbn [ib_documents set_ib_documents].
      assert (<[d:=document_set_docs doc n [text]]> (ib_documents this) !! d' = Some doc') as Hins
        by by rewrite list_lookup_insert_ne.
      rewrite (proj2 (vector_at_Ok _ _ _) Hins) bind_Ok.
      by rewrite (proj2 (vector_at_Ok _ _ _) Hsi).
  - destruct (multiplyIndexed this !! path) as [db|] eqn:Edb; [|done].
    destruct (symbolInfos db !! nm) as [b|] eqn:Eb; [|done]. injection Hp as Hp.
    destruct (sib_hasDocumentation b) eqn:Eh; simpl.
    { eexists; split; [done|]. by split_and!; [|intros ??| |]. }
    rewrite setDocumentation_ok // bind_Ok. eexists; split; [done|].
    split_and!; [| |done|done].
    + intros path' db' nm' b'. cbn [multiplyIndexed set_multiplyIndexed].
      intros [[<- <-]|[_ Hl]]%lookup_insert_Some; [|by eapply Hwf].
      cbn [symbolInfos]. intros [[<- <-]|[_ Hl]]%lookup_insert_Some; [|by eapply Hwf].
      cbn. by eapply Hwf.
    + intros ptr name' Hptr. destruct ptr as [d' n'|path' nm']; [done|]. simpl in Hptr |- *.
      destruct (decide (path = path')) as [<-|Hne]; [|by rewrite lookup_insert_ne].
      rewrite lookup_insert_eq. cbn [symbolInfos]. rewrite Edb in Hptr.
      destruct (decide (nm = nm')) as [<-|Hne]; [|by rewrite lookup_insert_ne].
      rewrite lookup_insert_eq. cbn [sib_name]. by rewrite Eb in Hptr.
Qed.

(** The symbols a forward declaration is linked to. *)
Definition linked (this : IndexBuilder) (r : ForwardDeclResolver) (suffix : SymbolSuffix)
    (n : SymbolNameRef) : Prop :=
  match lookupInDocuments r suffix with
  | Some ptr => ptr_name this ptr = Ok n
  | None => is_Some (externalSymbols this !! n) /\ getPackageAgnosticSuffix n = Some suffix
  end.

Lemma resolver_inv_same_names this this' r :
  resolver_inv this r -> ib_wf this' -> same_names this this' ->
  externalSymbols this' = externalSymbols this -> resolver_inv this' r.
Proof.
  intros [Hibwf Hne Hex Hco Hptr] Hwf' Hsn He. split; [done|done| | |].
  - intros suf S n. rewrite He. apply Hex.
  - intros suf n. rewrite He. apply Hco.
  - intros suf ptr Hl. destruct (Hptr suf ptr Hl) as (name & Hn & Hs).
    exists name. split; [by apply Hsn|done].
Qed.

Lemma addForwardDeclaration_in_document this r fd ptr :
  resolver_inv this r -> ForwardDecl_wf fd ->
  lookupInDocuments r (mkSymbolSuffix (fd_suffix fd)) = Some ptr ->
  exists this' r' name, addForwardDeclaration this r fd = Ok (this', r')
    /\ resolver_inv this' r' /\ lookupInDocuments r' = lookupInDocuments r
    /\ ptr_name this' ptr = Ok name
    /\ attached this this' fd (fun n => n = name)
    /\ (forall n, getPackageAgnosticSuffix n = Some (mkSymbolSuffix (fd_suffix fd)) ->
          externalSymbols this' !! n = None)
    /\ (forall n, getPackageAgnosticSuffix n <> Some (mkSymbolSuffix (fd_suffix fd)) ->
          is_Some (externalSymbols this' !! n) <-> is_Some (externalSymbols this !! n)).
Proof.
  intros Hinv Hwf Hptr. set (suffix := mkSymbolSuffix (fd_suffix fd)) in *.
  destruct (inv_ptr _ _ Hinv suffix ptr Hptr) as (name & Hname & _).
  pose proof (drop_externals_inv this r suffix Hinv) as Hdrop.
  unfold addForwardDeclaration. fold suffix. rewrite Hptr.
  change (match lookupExternals r suffix with
          | Some externals => _ | None => (this, r) end) with (drop_externals this r suffix).
  assert (forwardDeclOccurenceMap (drop_externals this r suffix).1 = forwardDeclOccurenceMap this
    /\ ptr_name (drop_externals this r suffix).1 ptr = ptr_name this ptr
    /\ lookupInDocuments (drop_externals this r suffix).2 = lookupInDocuments r) as (Hf & Hpn & Hlk).
  { unfold drop_externals. by destruct (lookupExternals r suffix). }
  destruct (drop_externals this r suffix) as [this1 r1]; cbn [fst snd] in *.
  destruct Hdrop as (Hinv1 & Hgone & Hkept).
  rewrite Hpn Hname bind_Ok. rewrite Hname in Hpn.
  assert (exists this2, (if negb (bool_decide (fd_documentation fd = []))
      then ptr_add_documentation this1 ptr (fd_documentation fd) else Ok this1) = Ok this2
    /\ resolver_inv this2 r1 /\ externalSymbols this2 = externalSymbols this1
    /\ forwardDeclOccurenceMap this2 = forwardDeclOccurenceMap this1
    /\ ptr_name this2 ptr = Ok name)
    as (this2 & -> & Hinv2 & He2 & Hf2 & Hp2).
  { destruct (negb _); [|by exists this1].
    destruct (ptr_add_documentation_ok this1 ptr name (fd_documentation fd))
      as (this2 & -> & Hwf2 & Hsn & He & Hf'); [apply Hinv1|done|].
    exists this2. split_and!; [done|by eapply resolver_inv_same_names|done|done|by apply Hsn]. }
  rewrite bind_Ok.
  destruct (addForwardDeclOccurrences_attached this2 name fd Hwf)
    as (this3 & -> & Ha & Hd & Hm & He).
  exists this3, r1, name. split_and!; [done| |done| | | |].
  - eapply resolver_inv_keys; [done..|]. intros n. by rewrite He.
  - rewrite -Hp2. unfold ptr_name. by rewrite Hd Hm.
  - intros path fdo. by rewrite Ha Hf2 Hf.
  - intros n Hn. rewrite He He2. by apply Hgone.
  - intros n Hn. rewrite He He2. by apply Hkept.
Qed.

Lemma addForwardDeclaration_external this r fd :
  resolver_inv this r -> ForwardDecl_wf fd ->
  lookupInDocuments r (mkSymbolSuffix (fd_suffix fd)) = None ->
  exists this' r', addForwardDeclaration this r fd = Ok (this', r')
    /\ resolver_inv this' r'
    /\ attached this this' fd (linked this' r' (mkSymbolSuffix (fd_suffix fd)))
    /\ (exists n, linked this' r' (mkSymbolSuffix (fd_suffix fd)) n).
Proof.
  intros Hinv Hwf Hnone. set (suffix := mkSymbolSuffix (fd_suffix fd)) in *.
  unfold addForwardDeclaration. fold suffix. rewrite Hnone. unfold lookupExternals.
  destruct (externalsMap r !! suffix) as [ext|] eqn:E.
  - pose proof (inv_nonempty _ _ Hinv suffix ext E) as Hne.
    rewrite bool_decide_false // ENFORCE_true bind_Ok.
    destruct (resolve_externals_ok (iterate_set (elements ext)) this r fd Hinv Hwf)
      as (this' & -> & Hinv' & Ha).
    { intros n. rewrite iterate_set_entries elem_of_elements. intros Hn.
      by eapply (inv_external _ _ Hinv). }
    assert (forall n, n ∈ ext <-> linked this' r suffix n) as Hlinked.
    { intros n. unfold linked. rewrite Hnone. split.
      - intros Hn. destruct (inv_external _ _ Hinv' suffix ext n E Hn). done.
      - intros [Hs Hn]. destruct (inv_complete _ _ Hinv' suffix n Hs Hn) as (S & HS & Hin).
        congruence. }
    exists this', r. split_and!; [done|done| |].
    + eapply attached_ext; [|done]. intros n. cbn.
      by rewrite iterate_set_entries elem_of_elements Hlinked.
    + apply set_choose_L in Hne as [n Hn]. exists n. by apply Hlinked.
  - destruct (add_unknown_external_ok this r suffix fd Hinv Hwf E)
      as (this' & r' & fake & Hadd & Hinv' & Hfs & Hk & Hdoc & Ha).
    assert (forall n, n = fake <-> linked this' r' suffix n) as Hlinked.
    { intros n. unfold linked, lookupInDocuments in *. rewrite Hdoc Hnone Hk. split.
      - intros ->. by split; [left|].
      - intros [[->|Hs] Hn]; [done|].
        destruct (inv_complete _ _ Hinv suffix n Hs Hn) as (S & HS & _). congruence. }
    exists this', r'. split_and!; [done|done| |].
    + exact (attached_ext _ _ _ _ _ Hlinked Ha).
    + exists fake. by apply Hlinked.
Qed.
End PointerWrites.

(** ** What is written *)
Section Writer.
Context {HI : HashIteration}.

(** Serialized indexes parse as the concatenation of their fields. *)
Definition concat_index (chunks : list Index) : Index :=
  mkIndex (concat (map documents chunks)) (concat (map external_symbols chunks)).
Definition written (w : IndexWriter) : Index := concat_index (w_output w ++ [w_index w]).

(** A document with the occurrences of its forward declarations. *)
Definition render (deterministic : bool) (fdos : gmap str (list ForwardDeclOccurrence))
    (doc : Document) : Document :=
  match fdos !! relative_path doc with
  | Some fs =>
      let occs := ScipMessages.occurrences doc ++ map (fun f => fdo_addTo f empty_occurrence) fs in
      mkDocument (language doc) (relative_path doc)
        (if deterministic then c_sort OccurrenceExt_cmp occs else occs) (symbols doc)
  | None => doc
  end.

Definition index_add (i : Index) (docs : list Document) (exts : list SymbolInformation) : Index :=
  mkIndex (documents i ++ docs) (external_symbols i ++ exts).

Lemma concat_index_app l1 l2 :
  concat_index (l1 ++ l2) = index_add (concat_index l1) (documents (concat_index l2))
                              (external_symbols (concat_index l2)).
Proof. unfold concat_index, index_add; simpl. by rewrite !map_app !concat_app. Qed.

Lemma index_add_nil i : index_add i [] [] = i.
Proof. unfold index_add. rewrite !app_nil_r. by destruct i. Qed.

Lemma written_write w : written (write w) = written w.
Proof. unfold written at 1. cbn. by rewrite concat_index_app /= index_add_nil. Qed.

Lemma written_writeDocument det w doc :
  written (writeDocument det w doc)
  = index_add (written w) [render det (w_forwardDecls w) doc] []
  /\ w_forwardDecls (writeDocument det w doc) = w_forwardDecls w.
Proof.
  split; [|done]. unfold writeDocument. rewrite written_write. unfold written. cbn.
  rewrite !concat_index_app /index_add /=. rewrite !app_nil_r app_assoc.
  unfold render. by destruct (w_forwardDecls w !! relative_path doc).
Qed.

Lemma written_writeExternalSymbol w si :
  written (writeExternalSymbol w si) = index_add (written w) [] [si]
  /\ w_forwardDecls (writeExternalSymbol w si) = w_forwardDecls w.
Proof.
  assert (forall i, written (mkIndexWriter (mkIndex (documents (w_index w)) (external_symbols (w_index w) ++ [si])) i (w_output w))
    = index_add (written w) [] [si]) as E.
  { intros i. unfold written. rewrite !concat_index_app /index_add /=.
    by rewrite !app_nil_r app_assoc. }
  unfold writeExternalSymbol. cbv zeta. destruct (_ mod _ =? 0)%nat; split; try done.
  by rewrite written_write.
Qed.

(** Chunks are small: at most one document and 1024 external symbols. *)
Definition chunk_ok (i : Index) : Prop :=
  (length (documents i) <= 1)%nat /\ (length (external_symbols i) <= 1024)%nat.
Definition writer_ok (w : IndexWriter) : Prop :=
  Forall chunk_ok (w_output w) /\ documents (w_index w) = []
  /\ (length (external_symbols (w_index w)) < 1024)%nat.

Lemma writeDocument_chunk_ok det w doc : writer_ok w -> writer_ok (writeDocument det w doc).
Proof.
  intros (Hf & Hd & He). unfold writer_ok, writeDocument, write. cbn. split_and!; [|done|lia].
  apply Forall_app. split; [done|]. apply Forall_singleton. unfold chunk_ok. cbn.
  rewrite Hd /=. split; lia.
Qed.

Lemma writeExternalSymbol_chunk_ok w si : writer_ok w -> writer_ok (writeExternalSymbol w si).
Proof.
  intros (Hf & Hd & He). unfold writeExternalSymbol. cbv zeta. cbn [external_symbols].
  destruct (Nat.eqb_spec (length (external_symbols (w_index w) ++ [si]) mod 1024) 0) as [E|E];
    rewrite length_app /= in E.
  - unfold writer_ok, write. cbn. split_and!; [|done|lia]. apply Forall_app. split; [done|].
    apply Forall_singleton. unfold chunk_ok. cbn. rewrite Hd length_app /=. split; lia.
  - unfold writer_ok. cbn. split_and!; [done|done|]. rewrite length_app /=.
    destruct (decide (length (external_symbols (w_index w)) + 1 = 1024)%nat) as [H1|H1]; [|lia].
    by rewrite H1 in E.
Qed.

Lemma foldl_writeDocument det docs w :
  written (foldl (writeDocument det) w docs)
    = index_add (written w) (map (render det (w_forwardDecls w)) docs) []
  /\ w_forwardDecls (foldl (writeDocument det) w docs) = w_forwardDecls w.
Proof.
  revert w; induction docs as [|doc docs IH]; intros w; simpl; [by rewrite index_add_nil|].
  destruct (IH (writeDocument det w doc)) as [-> ->].
  destruct (written_writeDocument det w doc) as [-> ->]. split; [|done].
  unfold index_add; cbn. by rewrite !app_nil_r -app_assoc.
Qed.

Lemma foldl_writeExternal exts w :
  written (foldl writeExternalSymbol w exts) = index_add (written w) [] exts.
Proof.
  revert w; induction exts as [|e exts IH]; intros w; simpl; [by rewrite index_add_nil|].
  rewrite IH. destruct (written_writeExternalSymbol w e) as [-> _].
  unfold index_add; cbn. by rewrite !app_nil_r -app_assoc.
Qed.

(** The entries of a container in the order [extractTransform] visits them. *)
Definition extract_order {K V} (cmp : K -> K -> comparison) (m : list (K * V)) (det : bool)
    : list (K * V) := if det then c_sort (cmp_on fst cmp) m else m.

Lemma extractTransform_map_foldl {K V S} (cmp : K -> K -> comparison) (m : list (K * V)) det
    (f : S -> K -> V -> S) s :
  extractTransform_map cmp m det f s = foldl (fun s kv => f s kv.1 kv.2) s (extract_order cmp m det).
Proof. unfold extractTransform_map, extract_order. by destruct det. Qed.

Lemma foldl_map {A B S} (f : S -> B -> S) (g : A -> B) s l :
  foldl (fun s x => f s (g x)) s l = foldl f s (map g l).
Proof. revert s; induction l as [|x l IH]; intros s; simpl; [done|apply IH]. Qed.

(** The documents and external symbols that [finish] writes. *)
Definition finish_documents (this : IndexBuilder) (det : bool) : list Document :=
  ib_documents this
  ++ map (fun kv => db_finish kv.2 det) (extract_order CmpStr (iterate (multiplyIndexed this)) det).
Definition finish_externals (this : IndexBuilder) (det : bool) : list SymbolInformation :=
  map (fun kv => sib_finish kv.2 det (mkSymbolInformation (ref_value kv.1) [] []))
    (extract_order SymbolNameRef_cmp (iterate (externalSymbols this)) det).

Lemma finish_written this det :
  concat_index (finish this det)
    = mkIndex (map (render det (forwardDeclOccurenceMap this)) (finish_documents this det))
        (finish_externals this det)
  /\ Forall chunk_ok (finish this det).
Proof.
  unfold finish. rewrite !extractTransform_map_foldl.
  rewrite (foldl_map (writeDocument det) (fun kv => db_finish kv.2 det)).
  rewrite (foldl_map writeExternalSymbol
    (fun kv => sib_finish kv.2 det (mkSymbolInformation (ref_value kv.1) [] []))).
  rewrite -foldl_app. fold (finish_documents this det). fold (finish_externals this det).
  set (w0 := mkIndexWriter _ _ _). set (w1 := foldl (writeDocument det) w0 _).
  assert (writer_ok w0) as Hw0 by (split_and!; [constructor|done|simpl; lia]).
  assert (writer_ok (foldl writeExternalSymbol w1 (finish_externals this det))) as (Hf & Hd & He).
  { apply foldl_invariant; [intros; by apply writeExternalSymbol_chunk_ok|].
    apply foldl_invariant; [intros; by apply writeDocument_chunk_ok|done]. }
  split.
  - pose proof (written_write (foldl writeExternalSymbol w1 (finish_externals this det))) as Hw.
    rewrite foldl_writeExternal in Hw.
    destruct (foldl_writeDocument det (finish_documents this det) w0) as [E _].
    fold w1 in E. rewrite E in Hw. unfold written at 1 in Hw.
    cbn in Hw. rewrite concat_index_app /= index_add_nil in Hw.
    etransitivity; [exact Hw|]. unfold index_add; cbn. by rewrite !app_nil_r.
  - cbn. apply Forall_app. split; [done|]. apply Forall_singleton.
    split; [by rewrite Hd /=; lia|lia].
Qed.
End Writer.

Lemma elem_of_extract_order {HI : HashIteration} `{!HashIterationLaws} `{Countable K} {V}
    (cmp : K -> K -> comparison) (m : gmap K V) det k v :
  (k, v) ∈ extract_order cmp (iterate m) det <-> m !! k = Some v.
Proof.
  unfold extract_order. destruct det; rewrite ?c_sort_Permutation; apply iterate_elem_of.
Qed.
Lemma extract_order_NoDup {HI : HashIteration} `{!HashIterationLaws} `{Countable K} {V}
    (cmp : K -> K -> comparison) (m : gmap K V) det : NoDup (extract_order cmp (iterate m) det).*1.
Proof.
  unfold extract_order. destruct det; [rewrite c_sort_Permutation|]; apply iterate_NoDup.
Qed.

(** ** Merging documents *)
Section Merge.
Context `{BM : BuildMode}.

Definition named (name : SymbolNameRef) (sis : list SymbolInformation) : list SymbolInformation :=
  List.filter (fun si => bool_decide (mkSymbolNameRef (si_symbol si) = name)) sis.

(** What a builder holds after the symbols [sis] for its name were merged into it. *)
Record builder_of (name : SymbolNameRef) (sis : list SymbolInformation)
    (b : SymbolInformationBuilder) : Prop := {
  bo_name : sib_name b = name;
  bo_nodup : NoDup (relationships b);
  bo_rels r : r ∈ relationships b <-> exists si, si ∈ sis /\ r ∈ si_relationships si;
  bo_docs : exists si, si ∈ sis /\ documentation b = si_documentation si;
  bo_has : sib_hasDocumentation b = existsb si_hasDocumentation sis;
}.

Definition infos_of (sis : list SymbolInformation)
    (infos : gmap SymbolNameRef SymbolInformationBuilder) : Prop :=
  forall name, match infos !! name with
               | None => named name sis = []
               | Some b => named name sis <> [] /\ builder_of name (named name sis) b
               end.

Lemma named_app name l1 l2 : named name (l1 ++ l2) = named name l1 ++ named name l2.
Proof. apply List.filter_app. Qed.

Lemma named_one name si :
  named name [si] = if bool_decide (mkSymbolNameRef (si_symbol si) = name) then [si] else [].
Proof. done. Qed.

Lemma builder_of_new si b :
  SymbolInformationBuilder_new (mkSymbolNameRef (si_symbol si)) (si_documentation si)
    (si_relationships si) = Ok b ->
  builder_of (mkSymbolNameRef (si_symbol si)) [si] b.
Proof.
  unfold SymbolInformationBuilder_new. rewrite setDocumentation_ok // bind_Ok. intros <-%Ok_inj.
  split; cbn.
  - done.
  - apply set_insert_all_NoDup; [apply _|constructor].
  - intros r. rewrite elem_of_set_insert_all. split.
    + intros [?|?%not_elem_of_nil]; [|done]. exists si. by split; [left|].
    + intros (si' & ->%list_elem_of_singleton & ?). by left.
  - exists si. by split; [left|].
  - by rewrite orb_false_r.
Qed.

(** Merging one more symbol: the relationships are united, and documentation is
    taken over only while there is none. *)
Lemma builder_of_merge name sis si b :
  builder_of name sis b ->
  exists b', (b1 ← (if negb (sib_hasDocumentation b) then setDocumentation b (si_documentation si) else Ok b);
              Ok (mergeRelationships b1 (si_relationships si))) = Ok b'
    /\ builder_of name (sis ++ [si]) b'.
Proof.
  intros [Hn Hnd Hr (si0 & Hin0 & Hd0) Hh].
  assert (exists b1, (if negb (sib_hasDocumentation b) then setDocumentation b (si_documentation si) else Ok b) = Ok b1
    /\ sib_name b1 = name /\ relationships b1 = relationships b
    /\ (exists si', si' ∈ sis ++ [si] /\ documentation b1 = si_documentation si')
    /\ sib_hasDocumentation b1 = existsb si_hasDocumentation (sis ++ [si])) as (b1 & -> & Hn1 & Hr1 & Hd1 & Hh1).
  { rewrite existsb_app. destruct (sib_hasDocumentation b) eqn:E; simpl.
    - exists b. rewrite -Hh E. split_and!; [done..|exists si0; rewrite elem_of_app; auto|done].
    - rewrite setDocumentation_ok //. eexists. rewrite -Hh orb_false_r /=.
      split_and!; [done..| |done]. exists si. rewrite elem_of_app list_elem_of_singleton. auto. }
  rewrite bind_Ok. eexists; split; [done|]. split; cbn.
  - done.
  - rewrite Hr1. apply set_insert_all_NoDup; [apply _|done].
  - intros r. rewrite elem_of_set_insert_all Hr1 Hr. setoid_rewrite elem_of_app.
    setoid_rewrite list_elem_of_singleton. split.
    + intros [?|(si' & ? & ?)]; [exists si|exists si']; auto.
    + intros (si' & [?| ->] & ?); [right; by exists si'|by left].
  - done.
  - done.
Qed.

Lemma merge_symbol_infos sis infos si :
  infos_of sis infos ->
  exists infos', merge_symbol infos si = Ok infos' /\ infos_of (sis ++ [si]) infos'.
Proof.
  intros Hi. unfold merge_symbol. set (name := mkSymbolNameRef (si_symbol si)).
  pose proof (Hi name) as Hname.
  assert (exists b, (match infos !! name with
      | None => builder ← SymbolInformationBuilder_new name (si_documentation si) (si_relationships si);
                Ok (<[name := builder]> infos)
      | Some builder =>
          builder ← if negb (sib_hasDocumentation builder)
                    then setDocumentation builder (si_documentation si) else Ok builder;
          Ok (<[name := mergeRelationships builder (si_relationships si)]> infos)
      end) = Ok (<[name := b]> infos) /\ builder_of name (named name (sis ++ [si])) b) as (b & -> & Hb).
  { rewrite named_app named_one bool_decide_true //. destruct (infos !! name) as [b|].
    - destruct Hname as [_ Hb]. destruct (builder_of_merge name _ si b Hb) as (b' & Hm & Hb').
      apply bind_Ok_inv in Hm as (b1 & -> & <-%Ok_inj). rewrite bind_Ok. by eexists.
    - rewrite Hname. destruct (SymbolInformationBuilder_new_ok name (si_documentation si)
        (si_relationships si)) as (b & Hb & _).
      rewrite Hb bind_Ok. exists b. split; [done|]. by apply builder_of_new. }
  eexists; split; [done|]. intros name'. destruct (decide (name = name')) as [<-|Hne].
  - rewrite lookup_insert_eq. split; [|done].
    rewrite named_app named_one bool_decide_true //. by intros [_ ?]%app_eq_nil.
  - rewrite lookup_insert_ne // named_app named_one bool_decide_false // app_nil_r. apply Hi.
Qed.

Lemma merge_symbols_infos l sis infos :
  infos_of sis infos ->
  exists infos', foldM merge_symbol infos l = Ok infos' /\ infos_of (sis ++ l) infos'.
Proof.
  revert sis infos; induction l as [|si l IH]; intros sis infos Hi; cbn [foldM].
  - exists infos. by rewrite app_nil_r.
  - destruct (merge_symbol_infos sis infos si Hi) as (infos1 & -> & Hi1). rewrite bind_Ok.
    destruct (IH _ _ Hi1) as (infos' & Hf & Hi'). exists infos'. split; [done|].
    by rewrite -app_assoc in Hi'.
Qed.

(** A document builder that merged the documents [docs]. *)
Record merged (docs : list Document) (db : DocumentBuilder) : Prop := {
  merged_nodup : NoDup (db_occurrences db);
  merged_occurrences occ : occ ∈ db_occurrences db <->
    exists d, d ∈ docs /\ occ ∈ ScipMessages.occurrences d;
  merged_symbols : infos_of (concat (map symbols docs)) (symbolInfos db);
}.

Lemma db_merge_merged docs db doc :
  merged docs db -> exists db', db_merge db doc = Ok db' /\ merged (docs ++ [doc]) db'
    /\ db_language db' = db_language db /\ db_relative_path db' = db_relative_path db.
Proof.
  intros [Hnd Hocc Hsym]. unfold db_merge.
  destruct (merge_symbols_infos (symbols doc) _ _ Hsym) as (infos & -> & Hi). rewrite bind_Ok.
  eexists; split; [done|]. split; [|done]. split; cbn.
  - apply set_insert_all_NoDup; [apply _|done].
  - intros occ. rewrite elem_of_set_insert_all Hocc. setoid_rewrite elem_of_app.
    setoid_rewrite list_elem_of_singleton. split.
    + intros [?|(d & ? & ?)]; [exists doc|exists d]; auto.
    + intros (d & [?| ->] & ?); [right; by exists d|by left].
  - by rewrite map_app concat_app /= app_nil_r.
Qed.

(** Building from a first document and merging the others never fails. *)
Lemma merge_all_merged first docs :
  exists db, (db ← DocumentBuilder_new first; foldM db_merge db docs) = Ok db
    /\ merged (first :: docs) db
    /\ db_language db = language first /\ db_relative_path db = relative_path first.
Proof.
  assert (merged [] (mkDocumentBuilder (language first) (relative_path first) [] ∅)) as H0.
  { split; cbn; [constructor| |].
    - intros occ. split; [by intros ?%not_elem_of_nil|by intros (d & ?%not_elem_of_nil & _)].
    - intros name. by rewrite lookup_empty. }
  unfold DocumentBuilder_new.
  destruct (db_merge_merged [] _ first H0) as (db0 & -> & Hm & Hl & Hp). rewrite bind_Ok.
  cbn in Hm, Hl, Hp. rewrite -Hl -Hp. clear H0 Hl Hp.
  change (first :: docs) with ([first] ++ docs). revert db0 Hm. generalize [first] as done_.
  induction docs as [|d docs IH]; intros done_ db0 Hm; cbn [foldM].
  - exists db0. by rewrite app_nil_r.
  - destruct (db_merge_merged _ _ d Hm) as (db1 & -> & Hm1 & Hl1 & Hp1). rewrite bind_Ok.
    destruct (IH _ _ Hm1) as (db & Hf & Hm' & Hl & Hp). exists db.
    rewrite -app_assoc in Hm'. split_and!; [done|done|congruence|congruence].
Qed.
End Merge.

(** ** Builders stay under their own name *)
Section Wf.
Context `{BM : BuildMode, LP : LlvmPath, HI : HashIteration}.

Definition names_ok (infos : gmap SymbolNameRef SymbolInformationBuilder) : Prop :=
  forall name b, infos !! name = Some b -> sib_name b = name.

Lemma merge_symbol_names infos si infos' :
  names_ok infos -> merge_symbol infos si = Ok infos' -> names_ok infos'.
Proof.
  intros Hok. unfold merge_symbol. set (name := mkSymbolNameRef (si_symbol si)).
  destruct (infos !! name) as [b|] eqn:E; intros (b1 & Hb1 & <-%Ok_inj)%bind_Ok_inv n' b'
    [[<- <-]|[_ Hl]]%lookup_insert_Some; try (by eapply Hok).
  - cbn. destruct (negb (sib_hasDocumentation b)).
    + unfold setDocumentation in Hb1. apply bind_Ok_inv in Hb1 as (? & _ & <-%Ok_inj).
      cbn. by eapply Hok.
    + apply Ok_inj in Hb1 as <-. by eapply Hok.
  - destruct (SymbolInformationBuilder_new_ok name (si_documentation si) (si_relationships si))
      as (b2 & Hb2 & Hn). rewrite Hb2 in Hb1. apply Ok_inj in Hb1 as <-. done.
Qed.

Lemma db_merge_names db doc db' :
  names_ok (symbolInfos db) -> db_merge db doc = Ok db' -> names_ok (symbolInfos db').
Proof.
  intros Hok. unfold db_merge. intros (infos & Hf & <-%Ok_inj)%bind_Ok_inv. cbn.
  eapply (foldM_invariant names_ok); [|exact Hok|exact Hf].
  intros; by eapply merge_symbol_names.
Qed.

Lemma addDocument_wf this doc multi this' :
  ib_wf this -> addDocument this doc multi = Ok this' -> ib_wf this'.
Proof.
  intros Hwf. unfold addDocument. intros (_ & _ & Hres)%bind_Ok_inv. destruct multi.
  - apply bind_Ok_inv in Hres as (path & _ & Hres). apply bind_Ok_inv in Hres as (db & Hdb & <-%Ok_inj).
    intros p db' name b. cbn. intros [[<- <-]|[_ Hl]]%lookup_insert_Some; [|by eapply Hwf].
    assert (names_ok (symbolInfos db)) as Hok; [|apply Hok].
    destruct (multiplyIndexed this !! path) as [db0|] eqn:E.
    + eapply db_merge_names; [|exact Hdb]. intros n b'. by eapply Hwf.
    + eapply db_merge_names; [|exact Hdb]. intros n b'. cbn. by rewrite lookup_empty.
  - apply bind_Ok_inv in Hres as (path & _ & Hres). apply bind_Ok_inv in Hres as (_ & _ & <-%Ok_inj).
    exact Hwf.
Qed.

Lemma addExternalSymbol_wf this si this' :
  ib_wf this -> addExternalSymbol this si = Ok this' -> ib_wf this'.
Proof.
  intros Hwf. unfold addExternalSymbol, addExternalSymbolUnchecked.
  destruct (externalSymbols this !! _) eqn:E; intros (b & _ & <-%Ok_inj)%bind_Ok_inv;
    exact Hwf.
Qed.
End Wf.

(** ** The order of the output *)
Section Deterministic.

Lemma sib_finish_spec {HI : HashIteration} b det out :
  sib_finish b det out
  = mkSymbolInformation (si_symbol out) (si_documentation out ++ documentation b)
      (si_relationships out
       ++ if det then c_sort compareRelationships (iterate_set (relationships b))
          else iterate_set (relationships b)).
Proof.
  unfold sib_finish, extractTransform_set.
  assert (forall ds o, foldl (fun out doc => mkSymbolInformation (si_symbol out)
      (si_documentation out ++ [doc]) (si_relationships out)) o ds
    = mkSymbolInformation (si_symbol o) (si_documentation o ++ ds) (si_relationships o)) as E1.
  { intros ds. induction ds as [|d ds IH]; intros o; simpl; [rewrite app_nil_r; by destruct o|].
    rewrite IH /=. by rewrite -app_assoc. }
  assert (forall rs o, foldl (fun out rel => mkSymbolInformation (si_symbol out)
      (si_documentation out) (si_relationships out ++ [rel])) o rs
    = mkSymbolInformation (si_symbol o) (si_documentation o) (si_relationships o ++ rs)) as E2.
  { intros rs. induction rs as [|r rs IH]; intros o; simpl; [rewrite app_nil_r; by destruct o|].
    rewrite IH /=. by rewrite -app_assoc. }
  rewrite E1. by destruct det; simpl; rewrite E2.
Qed.

Lemma db_finish_spec {HI : HashIteration} db det :
  db_finish db det
  = mkDocument (db_language db) (db_relative_path db)
      (if det then c_sort OccurrenceExt_cmp (iterate_set (db_occurrences db))
       else iterate_set (db_occurrences db))
      (map (fun kv => sib_finish kv.2 det (mkSymbolInformation (ref_value kv.1) [] []))
         (extract_order SymbolNameRef_cmp (iterate (symbolInfos db)) det)).
Proof.
  unfold db_finish. rewrite extractTransform_map_foldl. unfold extractTransform_set.
  assert (forall os d, foldl (fun d occ => mkDocument (language d) (relative_path d)
      (ScipMessages.occurrences d ++ [occ]) (symbols d)) d os
    = mkDocument (language d) (relative_path d) (ScipMessages.occurrences d ++ os) (symbols d)) as E1.
  { intros os. induction os as [|o os IH]; intros d; simpl; [rewrite app_nil_r; by destruct d|].
    rewrite IH /=. by rewrite -app_assoc. }
  assert (forall (l : list (SymbolNameRef * SymbolInformationBuilder)) d,
    foldl (fun d kv => mkDocument (language d) (relative_path d) (ScipMessages.occurrences d)
      (symbols d ++ [sib_finish kv.2 det (mkSymbolInformation (ref_value kv.1) [] [])])) d l
    = mkDocument (language d) (relative_path d) (ScipMessages.occurrences d)
        (symbols d ++ map (fun kv => sib_finish kv.2 det (mkSymbolInformation (ref_value kv.1) [] [])) l))
    as E2.
  { intros l. induction l as [|kv l IH]; intros d; simpl; [rewrite app_nil_r; by destruct d|].
    rewrite IH /=. by rewrite -app_assoc. }
  by destruct det; simpl; rewrite E1 E2.
Qed.

Context (HI1 HI2 : HashIteration) {L1 : @HashIterationLaws HI1} {L2 : @HashIterationLaws HI2}.

Lemma extract_order_deterministic {K V} `{Countable K} (cmp : K -> K -> comparison)
    `{!ExactOrdering cmp} (m : gmap K V) :
  extract_order cmp (@iterate HI1 K V _ _ m) true = extract_order cmp (@iterate HI2 K V _ _ m) true.
Proof.
  unfold extract_order. apply c_sort_order_irrelevant; [apply _| |by rewrite !iterate_entries].
  intros x y Hx Hy He. apply (NoDup_fst_inj (@iterate HI1 K V _ _ m)); [|done|done|].
  - apply iterate_NoDup.
  - by apply (cmp_eq_exact (cmp:=cmp)).
Qed.

Lemma c_sort_iterate_set {A} (cmp : A -> A -> comparison) `{!ExactOrdering cmp} (l : list A) :
  c_sort cmp (@iterate_set HI1 A l) = c_sort cmp (@iterate_set HI2 A l).
Proof.
  apply c_sort_order_irrelevant; [apply _| |by rewrite !iterate_set_entries].
  intros x y _ _. apply cmp_eq_exact.
Qed.

Lemma sib_finish_deterministic b out : @sib_finish HI1 b true out = @sib_finish HI2 b true out.
Proof. by rewrite !sib_finish_spec (c_sort_iterate_set compareRelationships). Qed.

Lemma db_finish_deterministic db : @db_finish HI1 db true = @db_finish HI2 db true.
Proof.
  rewrite !db_finish_spec (c_sort_iterate_set OccurrenceExt_cmp) extract_order_deterministic.
  f_equal. apply map_ext. intros kv. apply sib_finish_deterministic.
Qed.
End Deterministic.

(** ** Concrete inputs *)
Definition demo_ext_symbol : SymbolInformation :=
  mkSymbolInformation (lit "cxx . pkg v1$ f.") [] [].
Definition demo_def_symbol : SymbolInformation :=
  mkSymbolInformation (lit "cxx . . $ g.") [] [].
Definition demo_document : Document :=
  mkDocument (lit "C++") (lit "a.cc") [] [demo_def_symbol].
Definition demo_builder : IndexBuilder :=
  mkIndexBuilder [demo_document] ∅
    {[ mkSymbolNameRef (lit "cxx . pkg v1$ f.") :=
         mkSIB [] [] (mkSymbolNameRef (lit "cxx . pkg v1$ f.")) ]} ∅.
Definition demo_fwd (suffix : string) : ForwardDecl :=
  mkForwardDecl (lit suffix) (lit "doc") [mkForwardDeclReference (lit "b.cc") [1; 2; 3]].

Lemma demo_builder_wf : ib_wf demo_builder.
Proof. intros path db name b. cbn. by rewrite lookup_empty. Qed.
Lemma demo_fwd_wf s : ForwardDecl_wf (demo_fwd s).
Proof. apply Forall_singleton. by left. Qed.

(** ** Properties *)

(** C17. Resolving one forward declaration keeps the builder and the resolver
    consistent, in debug and release builds.  From a consistent state, and for a
    declaration whose references have three or four range elements, the operation
    never fails (no [ENFORCE] fires, no dangling iterator is read); afterwards
    every reference of the declaration is recorded, for its path, under exactly the
    symbols linked to the suffix (the document's symbol if there is one, otherwise
    all external symbols with the suffix, of which there is now at least one); and
    a suffix that a document defines has no external symbol left. *)
Theorem forward_declaration_resolved
    `{BM : BuildMode, LP : LlvmPath, HI : HashIteration, !HashIterationLaws}
    (this : IndexBuilder) (r : ForwardDeclResolver) (fd : ForwardDecl) :
  resolver_inv this r -> ForwardDecl_wf fd ->
  exists this' r', addForwardDeclaration this r fd = Ok (this', r')
    /\ resolver_inv this' r'
    /\ attached this this' fd (linked this' r' (mkSymbolSuffix (fd_suffix fd)))
    /\ (exists n, linked this' r' (mkSymbolSuffix (fd_suffix fd)) n)
    /\ (is_Some (lookupInDocuments r (mkSymbolSuffix (fd_suffix fd))) ->
        forall n, getPackageAgnosticSuffix n = Some (mkSymbolSuffix (fd_suffix fd)) ->
          externalSymbols this' !! n = None).
Proof.
  intros Hinv Hwf. destruct (lookupInDocuments r (mkSymbolSuffix (fd_suffix fd))) as [ptr|] eqn:E.
  - destruct (addForwardDeclaration_in_document this r fd ptr Hinv Hwf E)
      as (this' & r' & name & Hadd & Hinv' & Hlk & Hp & Ha & Hgone & _).
    assert (forall n, n = name <-> linked this' r' (mkSymbolSuffix (fd_suffix fd)) n) as Hlinked.
    { intros n. unfold linked. rewrite Hlk E Hp. split; [by intros ->|by intros <-%Ok_inj]. }
    exists this', r'. split_and!; [done|done|exact (attached_ext _ _ _ _ _ Hlinked Ha)| |done].
    exists name. by apply Hlinked.
  - destruct (addForwardDeclaration_external this r fd Hinv Hwf E)
      as (this' & r' & Hadd & Hinv' & Ha & Hn).
    exists this', r'. split_and!; [done|done|done|done|by intros []].
Qed.

Lemma forward_declaration_resolved_witness :
  exists this' r',
    @addForwardDeclaration true tree_iteration demo_builder
      (@populateForwardDeclResolver tree_iteration demo_builder) (demo_fwd "g.") = Ok (this', r')
    /\ exists n, linked this' r' (mkSymbolSuffix (lit "g.")) n.
Proof.
  destruct (@forward_declaration_resolved true posix_path tree_iteration tree_iteration_laws
    demo_builder (@populateForwardDeclResolver tree_iteration demo_builder) (demo_fwd "g."))
    as (this' & r' & H1 & _ & _ & H2 & _).
  - apply (@populate_resolver_inv tree_iteration tree_iteration_laws). apply demo_builder_wf.
  - apply demo_fwd_wf.
  - exists this', r'. split; [exact H1|exact H2].
Defined.

(** The whole forward-declaration phase of merging succeeds: once the documents
    and external symbols are in, the resolver that [populateForwardDeclResolver]
    builds is consistent, and adding any sequence of well-formed forward
    declarations runs to the end and leaves a consistent state. *)
Theorem forward_declarations_phase
    `{BM : BuildMode, LP : LlvmPath, HI : HashIteration, !HashIterationLaws}
    (this : IndexBuilder) (fds : list ForwardDecl) :
  ib_wf this -> Forall ForwardDecl_wf fds ->
  exists this' r',
    foldM (fun st fd => addForwardDeclaration st.1 st.2 fd)
      (this, populateForwardDeclResolver this) fds = Ok (this', r')
    /\ resolver_inv this' r'.
Proof.
  intros Hwf Hfds.
  destruct (foldM_total (fun st => resolver_inv st.1 st.2)
    (fun st fd => addForwardDeclaration st.1 st.2 fd) fds (this, populateForwardDeclResolver this))
    as ([this' r'] & Hf & Hinv); [|by apply populate_resolver_inv|by exists this', r'].
  intros [t r] fd Hin Hinv. rewrite Forall_forall in Hfds. simpl in *.
  destruct (lookupInDocuments r (mkSymbolSuffix (fd_suffix fd))) as [ptr|] eqn:E.
  - destruct (addForwardDeclaration_in_document t r fd ptr Hinv (Hfds _ Hin) E)
      as (t' & r' & ? & ? & ? & _). by exists (t', r').
  - destruct (addForwardDeclaration_external t r fd Hinv (Hfds _ Hin) E)
      as (t' & r' & ? & ? & _). by exists (t', r').
Qed.

Lemma forward_declarations_phase_witness :
  exists this' r',
    foldM (fun st fd => @addForwardDeclaration true tree_iteration st.1 st.2 fd)
      (demo_builder, @populateForwardDeclResolver tree_iteration demo_builder)
      [demo_fwd "f."; demo_fwd "g."; demo_fwd "h."] = Ok (this', r')
    /\ resolver_inv this' r'.
Proof.
  apply (@forward_declarations_phase true posix_path tree_iteration tree_iteration_laws demo_builder
    [demo_fwd "f."; demo_fwd "g."; demo_fwd "h."]).
  - apply demo_builder_wf.
  - repeat (apply Forall_cons; split; [apply demo_fwd_wf|]). apply Forall_nil. exact I.
Defined.

(** C26. What [finish] writes, in both modes: the indexes written to the stream
    concatenate to all documents (each with the occurrences of the forward
    declarations for its path), followed by all external symbols, nothing lost and
    nothing repeated; and each chunk has at most one document and at most 1024
    external symbols. *)
Theorem finish_writes_everything `{HI : HashIteration} (this : IndexBuilder) (det : bool) :
  concat_index (finish this det)
    = mkIndex
        (map (render det (forwardDeclOccurenceMap this))
           (ib_documents this
            ++ map (fun kv => db_finish kv.2 det)
                 (extract_order CmpStr (iterate (multiplyIndexed this)) det)))
        (map (fun kv => sib_finish kv.2 det (mkSymbolInformation (ref_value kv.1) [] []))
           (extract_order SymbolNameRef_cmp (iterate (externalSymbols this)) det))
  /\ Forall chunk_ok (finish this det).
Proof. apply finish_written. Qed.


Definition reverse_iteration : HashIteration := {|
  iterate K V _ _ m := rev (map_to_list m);
  iterate_set A l := rev l;
|}.
Lemma reverse_iteration_laws : @HashIterationLaws reverse_iteration.
Proof. split; intros; simpl; by rewrite -Permutation_rev. Qed.



(** A forward declaration's reference keeps its range: the fixed-size array with
    padding that stores it gives back the three or four elements it was made from. *)
Theorem ForwardDeclOccurrence_range `{BM : BuildMode} (name : SymbolNameRef)
    (ref : ForwardDeclReference) :
  range_wf (ref_range ref) -> Forall (fun v => v <> -1) (ref_range ref) ->
  exists fdo, ForwardDeclOccurrence_new name ref = Ok fdo
    /\ range (fdo_addTo fdo empty_occurrence) = ref_range ref
    /\ occ_symbol (fdo_addTo fdo empty_occurrence) = ref_value name.
Proof.
  intros Hwf Hne. exists (fdo_of name ref). split; [by apply ForwardDeclOccurrence_new_wf|].
  split; [by apply addTo_range|done].
Qed.

Lemma ForwardDeclOccurrence_range_witness :
  exists fdo, @ForwardDeclOccurrence_new true (mkSymbolNameRef (lit "s"))
      (mkForwardDeclReference (lit "b.cc") [1; 2; 3]) = Ok fdo
    /\ range (fdo_addTo fdo empty_occurrence) = [1; 2; 3]
    /\ occ_symbol (fdo_addTo fdo empty_occurrence) = lit "s".
Proof.
  apply (@ForwardDeclOccurrence_range true (mkSymbolNameRef (lit "s"))
    (mkForwardDeclReference (lit "b.cc") [1; 2; 3])).
  - by left.
  - by repeat constructor.
Defined.

(** An external symbol without documentation that is named by a forward
    declaration without documentation ends up with one empty documentation entry,
    and from then on counts as documented, so that the documentation of a later
    forward declaration for it is dropped (the branch for symbols found in
    documents guards against empty documentation). *)
Theorem empty_documentation_sticks `{BM : BuildMode} (this : IndexBuilder) (n : SymbolNameRef)
    (b : SymbolInformationBuilder) (fd fd' : ForwardDecl) :
  externalSymbols this !! n = Some b -> sib_hasDocumentation b = false ->
  ForwardDecl_wf fd -> ForwardDecl_wf fd' -> fd_documentation fd = [] ->
  exists this1 this2 b2,
    resolve_external fd this n = Ok this1 /\ resolve_external fd' this1 n = Ok this2
    /\ externalSymbols this2 !! n = Some b2 /\ documentation b2 = [[]]
    /\ sib_hasDocumentation b2 = true.
Proof.
  intros Hb Hh Hwf Hwf' Hdoc. unfold resolve_external at 1.
  rewrite Hb bool_decide_true // ENFORCE_true bind_Ok Hh /= setDocumentation_ok // bind_Ok Hdoc.
  set (b1 := mkSIB [[]] _ _).
  edestruct (addForwardDeclOccurrences_attached (set_externalSymbols this
    (<[n:=b1]> (externalSymbols this))) n fd Hwf) as (this1 & -> & _ & _ & _ & He1).
  assert (externalSymbols this1 !! n = Some b1) as Hb1 by by rewrite He1 /= lookup_insert_eq.
  exists this1. unfold resolve_external. rewrite Hb1 bool_decide_true // ENFORCE_true bind_Ok.
  change (sib_hasDocumentation b1) with true. cbn [negb]. rewrite bind_Ok.
  edestruct (addForwardDeclOccurrences_attached (set_externalSymbols this1
    (<[n:=b1]> (externalSymbols this1))) n fd' Hwf') as (this2 & -> & _ & _ & _ & He2).
  exists this2, b1. split_and!; [done|done| |done|done]. by rewrite He2 /= lookup_insert_eq.
Qed.

Lemma empty_documentation_sticks_witness :
  exists this1 this2 b2,
    @resolve_external true (mkForwardDecl (lit "f.") [] []) demo_builder
      (mkSymbolNameRef (lit "cxx . pkg v1$ f.")) = Ok this1
    /\ @resolve_external true (mkForwardDecl (lit "f.") (lit "Real docs") []) this1
      (mkSymbolNameRef (lit "cxx . pkg v1$ f.")) = Ok this2
    /\ externalSymbols this2 !! mkSymbolNameRef (lit "cxx . pkg v1$ f.") = Some b2
    /\ documentation b2 = [[]] /\ sib_hasDocumentation b2 = true.
Proof.
  apply (@empty_documentation_sticks true demo_builder (mkSymbolNameRef (lit "cxx . pkg v1$ f."))
    (mkSIB [] [] (mkSymbolNameRef (lit "cxx . pkg v1$ f."))) (mkForwardDecl (lit "f.") [] [])
    (mkForwardDecl (lit "f.") (lit "Real docs") [])).
  - vm_compute. reflexivity.
  - vm_compute. reflexivity.
  - apply Forall_nil. exact I.
  - apply Forall_nil. exact I.
  - reflexivity.
Defined.
