(* ===== verification/Clang.v ===== *)
(** * What the indexer asks Clang

    [clang::SourceManager], source locations and tokens are third-party code: they
    are the classes [ClangSourceManager] and [ClangMacros].  On top of them this
    file has [FileLocalSourceRange] (Indexer.h/.cc) and [debug::tryGetPath]
    (DebugHelpers.cc). *)
From S2P Require Import Prelude CppString Ordering Paths PackageMaps IdPaths ScipMessages.

(** A [clang::PresumedLoc] is what its accessors return. *)
Record PresumedLoc : Type := mkPresumedLoc {
  pl_isValid : bool;
  pl_getFilename : str;
  pl_getLine : Z;
  pl_getColumn : Z;
}.

Class ClangSourceManager `{ClangFileID} : Type := {
  SourceLocation : Type;
  SourceLocation_eq_dec :: EqDecision SourceLocation;
  SourceLocation_countable :: Countable SourceLocation;
  loc_isValid : SourceLocation -> bool;
  loc_isFileID : SourceLocation -> bool;
  (** [operator<=] *)
  loc_le : SourceLocation -> SourceLocation -> bool;
  getRawEncoding : SourceLocation -> Z;
  getLocWithOffset : SourceLocation -> Z -> SourceLocation;
  (** members of [SourceManager] *)
  getFileID : SourceLocation -> FileID;
  getMainFileID : FileID;
  getSpellingLoc : SourceLocation -> SourceLocation;
  getExpansionLoc : SourceLocation -> SourceLocation;
  getLocForStartOfFile : FileID -> SourceLocation;
  (** the flag is [UseLineDirectives] *)
  getPresumedLoc : SourceLocation -> bool -> PresumedLoc;
  presumedFileID : SourceLocation -> bool -> FileID;
  FileEntry : Type;
  getFileEntryForID : FileID -> option FileEntry;
  tryGetRealPathName : FileEntry -> str;
  (** [getSLocEntry]: nothing if invalid; the name if it is a file. *)
  getSLocEntry : FileID -> option (option str);
  (** [clang::Lexer::MeasureTokenLength] *)
  MeasureTokenLength : SourceLocation -> Z;
}.

Record SourceRange `{ClangSourceManager} : Type := mkSourceRange {
  getBegin : SourceLocation;
  getEnd : SourceLocation;
}.

Definition tryGetPath `{ClangSourceManager} (fileId : FileID) : str :=
  if FileID_isValid fileId then
    match getFileEntryForID fileId with
    | Some entry =>
        let p := tryGetRealPathName entry in
        if negb (bool_decide (p = [])) then p else lit "<empty-path>"
    | None =>
        match getSLocEntry fileId with
        | None => lit "<null-FileEntry>"
        | Some (Some name) => name
        | Some None => lit "<non-file-SlocEntry-for-FileId>"
        end
    end
  else lit "<invalid-FileID>".

(** ** [FileLocalSourceRange] *)
Record FileLocalSourceRange : Type := mkFileLocalSourceRange {
  startLine : Z;
  startColumn : Z;
  endLine : Z;
  endColumn : Z;
}.
#[export] Instance FileLocalSourceRange_eq_dec : EqDecision FileLocalSourceRange.
Proof. solve_decision. Defined.
#[export] Instance FileLocalSourceRange_countable : Countable FileLocalSourceRange.
Proof.
  refine (inj_countable' (fun r => (startLine r, startColumn r, endLine r, endColumn r))
    (fun p => mkFileLocalSourceRange p.1.1.1 p.1.1.2 p.1.2 p.2) _). by intros [].
Defined.

(** [DERIVE_CMP_ALL]: member by member, in declaration order. *)
Definition FileLocalSourceRange_cmp (lhs rhs : FileLocalSourceRange) : comparison :=
  CMP_CHECK (Z.compare (startLine lhs) (startLine rhs))
    (CMP_CHECK (Z.compare (startColumn lhs) (startColumn rhs))
      (CMP_CHECK (Z.compare (endLine lhs) (endLine rhs))
        (CMP_CHECK (Z.compare (endColumn lhs) (endColumn rhs)) Eq))).

Section Ranges.
Context `{BuildMode, ClangSourceManager}.

Definition fromNonEmpty (inclusiveRange : SourceRange)
    : result (FileLocalSourceRange * FileID) :=
  let start := getBegin inclusiveRange in
  let end_ := getEnd inclusiveRange in
  ENFORCE (loc_isValid start) "start.isValid()" ;;
  ENFORCE (loc_isValid end_) "end.isValid()" ;;
  ENFORCE (loc_le start end_) "called fromNonEmpty with empty range" ;;
  let fileId := getFileID start in
  ENFORCE (bool_decide (getFileID end_ = fileId)) "range should not be split across files" ;;
  let startPLoc := getPresumedLoc start true in
  let endPLoc := getPresumedLoc end_ true in
  Ok (mkFileLocalSourceRange (pl_getLine startPLoc) (pl_getColumn startPLoc)
        (pl_getLine endPLoc) (pl_getColumn endPLoc), fileId).

Definition makeEmpty (loc : SourceLocation) : FileLocalSourceRange :=
  let presumedLoc := getPresumedLoc loc true in
  mkFileLocalSourceRange (pl_getLine presumedLoc) (pl_getColumn presumedLoc)
    (pl_getLine presumedLoc) (pl_getColumn presumedLoc).
End Ranges.

(** What [addTo] appends to the repeated field: [uint32_t] subtraction, stored as
    [int32]. *)
Definition FileLocalSourceRange_addTo (this : FileLocalSourceRange) (range : list Z) : list Z :=
  let range := range ++ [to_int32 (startLine this - 1)] in
  let range := range ++ [to_int32 (startColumn this - 1)] in
  let range :=
    if negb (startLine this =? endLine this) then range ++ [to_int32 (endLine this - 1)]
    else range in
  range ++ [to_int32 (endColumn this - 1)].

#[export] Instance FileLocalSourceRange_cmp_exact : ExactOrdering FileLocalSourceRange_cmp.
Proof.
  set (c := cmp_then (cmp_on startLine Z.compare) (cmp_then (cmp_on startColumn Z.compare)
              (cmp_then (cmp_on endLine Z.compare) (cmp_on endColumn Z.compare)))).
  assert (forall x y, FileLocalSourceRange_cmp x y = c x y) as E.
  { intros x y. unfold FileLocalSourceRange_cmp, c, cmp_then, cmp_on. by autorewrite with cmp. }
  split; [eapply cmp_ext; [intros; symmetry; apply E|apply _]|].
  intros [a1 b1 c1 d1] [a2 b2 c2 d2]. rewrite E /c /cmp_then /cmp_on /=.
  rewrite !CMP_CHECK_eq !Z.compare_eq_iff. naive_solver.
Qed.

(** A range that [getPresumedLoc] can give: 1-based, [int]-sized, not reversed. *)
Definition FileLocalSourceRange_wf (r : FileLocalSourceRange) : Prop :=
  1 <= startLine r < 2 ^ 31 /\ 1 <= startColumn r < 2 ^ 31
  /\ startLine r <= endLine r < 2 ^ 31 /\ 1 <= endColumn r < 2 ^ 31.

Lemma to_int32_small z : 0 <= z < 2 ^ 31 -> to_int32 z = z.
Proof.
  intros Hz. unfold to_int32. rewrite wrap32_small; [split; lia|].
  destruct (Z.ltb_spec z (2 ^ 31)); lia.
Qed.

(** The SCIP form of a well-formed range: 0-based, with three elements when it lies
    in one line. *)
Lemma addTo_wf r :
  FileLocalSourceRange_wf r ->
  FileLocalSourceRange_addTo r []
  = if startLine r =? endLine r then [startLine r - 1; startColumn r - 1; endColumn r - 1]
    else [startLine r - 1; startColumn r - 1; endLine r - 1; endColumn r - 1].
Proof.
  intros (H1 & H2 & H3 & H4). unfold FileLocalSourceRange_addTo.
  rewrite !to_int32_small; [lia..|]. by destruct (startLine r =? endLine r).
Qed.

Lemma addTo_range_wf r : range_wf (FileLocalSourceRange_addTo r []).
Proof.
  unfold range_wf, FileLocalSourceRange_addTo.
  destruct (startLine r =? endLine r); simpl; auto.
Qed.

(** ** A concrete source manager

    A location is file * 10000 + line * 100 + column; there are no macros, and
    every token is three bytes long. *)
Definition demo_entry (f : N) : option str :=
  if N.eqb f 1 then Some (lit "/p/a.cc") else if N.eqb f 2 || N.eqb f 3 then Some (lit "/p/b.h")
  else if N.eqb f 4 then Some (lit "/p/c.h") else None.
Definition demo_sm : @ClangSourceManager demo_files := {|
  SourceLocation := Z;
  loc_isValid l := 0 <? l; loc_isFileID _ := true; loc_le := Z.leb;
  getRawEncoding l := l; getLocWithOffset l o := l + o;
  getFileID l := (Z.to_N (l / 10000) : @FileID demo_files); getMainFileID := 1%N;
  getSpellingLoc l := l; getExpansionLoc l := l;
  getLocForStartOfFile f := Z.of_N f * 10000 + 101;
  getPresumedLoc l _ := mkPresumedLoc (0 <? l) (default [] (demo_entry (Z.to_N (l / 10000))))
                          ((l mod 10000) / 100) (l mod 100);
  presumedFileID l _ := (Z.to_N (l / 10000) : @FileID demo_files);
  FileEntry := str; getFileEntryForID f := demo_entry f; tryGetRealPathName p := p;
  getSLocEntry _ := None; MeasureTokenLength _ := 3;
|}.

Lemma Z_compare_pred x y : (x - 1 ?= y - 1) = (x ?= y).
Proof. destruct (Z.compare_spec x y), (Z.compare_spec (x - 1) (y - 1)); lia || done. Qed.

(** C36. Ranges keep their meaning in SCIP: for well-formed ranges the order that
    [compareScipRange] gives to the emitted ranges is the order of the ranges
    themselves, so that sorting occurrences in the driver agrees with sorting them
    in the worker, and two ranges are emitted alike only if they are equal. *)
Theorem addTo_order_embedding `{BM : BuildMode} (r1 r2 : FileLocalSourceRange) :
  FileLocalSourceRange_wf r1 -> FileLocalSourceRange_wf r2 ->
  compareScipRange (FileLocalSourceRange_addTo r1 []) (FileLocalSourceRange_addTo r2 [])
  = Ok (FileLocalSourceRange_cmp r1 r2)
  /\ (FileLocalSourceRange_addTo r1 [] = FileLocalSourceRange_addTo r2 [] <-> r1 = r2).
Proof.
  intros Hw1 Hw2. pose proof Hw1 as (H1 & H2 & H3 & H4). pose proof Hw2 as (K1 & K2 & K3 & K4).
  rewrite (addTo_wf r1 Hw1) (addTo_wf r2 Hw2).
  destruct r1 as [a1 b1 c1 d1], r2 as [a2 b2 c2 d2]; unfold FileLocalSourceRange_wf in *;
    simpl in *. split.
  - unfold FileLocalSourceRange_cmp; simpl.
    rewrite -(Z_compare_pred a1 a2) -(Z_compare_pred b1 b2) -(Z_compare_pred d1 d2).
    destruct (Z.eqb_spec a1 c1), (Z.eqb_spec a2 c2); unfold compareScipRange, CMP_AT; simpl;
      rewrite ?ENFORCE_true ?bind_Ok;
      destruct (Z.compare_spec (a1 - 1) (a2 - 1)), (Z.compare_spec (b1 - 1) (b2 - 1)); simpl; try done.
    all: rewrite -?(Z_compare_pred c1 c2); destruct (Z.compare_spec (c1 - 1) (c2 - 1));
      try lia; simpl; try done; by destruct (d1 - 1 ?= d2 - 1).
  - destruct (Z.eqb_spec a1 c1), (Z.eqb_spec a2 c2); split; intros; simplify_eq; try done; f_equal; lia.
Qed.

Lemma addTo_order_embedding_witness :
  @compareScipRange true (FileLocalSourceRange_addTo (mkFileLocalSourceRange 1 2 1 5) [])
    (FileLocalSourceRange_addTo (mkFileLocalSourceRange 1 2 3 1) []) = Ok Lt.
Proof.
  apply (@addTo_order_embedding true (mkFileLocalSourceRange 1 2 1 5) (mkFileLocalSourceRange 1 2 3 1));
    unfold FileLocalSourceRange_wf; simpl; lia.
Defined.
