(* ===== verification/Formatter.v ===== *)
(** * Symbols of declarations

    SymbolFormatter.h/.cc, the part that names macros, files and Clang
    declarations: the symbol of a declaration is the symbol of its declaration
    context with one more descriptor; the results are cached.  The AST is the class
    [ClangAst] (third-party code); [llvm::dyn_cast] is [isa].  The scratch buffers
    are not part of the state: every name is formatted into one, used, and gone. *)
From S2P Require Import Prelude CppString Ordering Paths PackageMaps IdPaths Symbols Clang.

(** The classes that the code casts to. *)
Inductive DeclClass : Type :=
| BindingDecl | ClassTemplateDecl | EnumConstantDecl | EnumDecl | FieldDecl | FunctionDecl
| FunctionTemplateDecl | NamespaceDecl | NonTypeTemplateParmDecl | RecordDecl
| TemplateTemplateParmDecl | TemplateTypeParmDecl | TypeAliasTemplateDecl | TypedefNameDecl
| UsingShadowDecl | UsingDecl | VarDecl | VarTemplateDecl
| TagDecl | TypeDecl | TranslationUnitDecl | ExternCContextDecl
| NamedDecl | CXXRecordDecl | CXXMethodDecl | DecompositionDecl | ClassTemplateSpecializationDecl
| ClassTemplatePartialSpecializationDecl | UnresolvedUsingValueDecl.
#[export] Instance DeclClass_eq_dec : EqDecision DeclClass.
Proof. solve_decision. Defined.

(** The kinds of [VarDecl] that [getVarSymbol] tells apart. *)
Inductive VarDeclKind : Type :=
| Decomposition | ParmVar | VarTemplatePartialSpecialization | VarTemplateSpecialization
| Var | OMPCapturedExpr | OtherVarKind.

Class ClangAst `{ClangSourceManager} : Type := {
  (** a pointer to a declaration; a [DeclContext] is a declaration too *)
  Decl : Type;
  Decl_eq_dec :: EqDecision Decl;
  Decl_countable :: Countable Decl;
  isa : DeclClass -> Decl -> bool;
  getCanonicalDecl : Decl -> Decl;
  getDeclContext : Decl -> Decl;
  getLocation : Decl -> SourceLocation;
  (** [getDeclName().isEmpty()] *)
  declNameIsEmpty : Decl -> bool;
  getName : Decl -> str;
  printName : Decl -> str;
  isAnonymousNamespace : Decl -> bool;
  (** [TagDecl::getDefinition] *)
  getDefinition : Decl -> option Decl;
  isScoped : Decl -> bool;
  getTemplatedDecl : Decl -> Decl;
  isLocalVarDeclOrParm : Decl -> bool;
  isLocalExternDecl : Decl -> bool;
  getVarKind : Decl -> VarDeclKind;
  getUnderlyingDecl : Decl -> Decl;
  (** the members of [FunctionDecl] that [getFunctionDisambiguator] uses *)
  isTemplateInstantiation : Decl -> bool;
  getInstantiatedFromMemberFunction : Decl -> option Decl;
  (** [getTemplateSpecializationInfo()], followed by [getTemplate()] *)
  getTemplateSpecializationInfo : Decl -> option Decl;
  getInstantiatedFromMemberTemplate : Decl -> option Decl;
  (** [getType().getCanonicalType().getAsString()] *)
  typeString : Decl -> str;
  (** how deep a declaration is nested in contexts *)
  nesting : Decl -> nat;
}.

(** [{:x}] of an unsigned integer. *)
Definition hex_digit (n : N) : ascii := if (n <? 10)%N then digit n else ascii_of_N (87 + n).
Fixpoint hex_fuel (fuel : nat) (n : N) : str :=
  match fuel with
  | O => []
  | S fuel' =>
      if (n <? 16)%N then [hex_digit n] else hex_fuel fuel' (n / 16) ++ [hex_digit (n mod 16)]
  end.
Definition fmt_hex (z : Z) : str := hex_fuel (S (N.to_nat (N.log2 (Z.to_N z)))) (Z.to_N z).

Section SymbolFormatter.
Context `{BuildMode, AbslReplace, ClangFileID, !ClangSourceManager, !ClangAst}.
Context `{HashIteration, TextHash}.

Record SymbolFormatter : Type := mkSymbolFormatter {
  sfm_fileMetadataMap : FileMetadataMap;
  locationBasedCache : gmap SourceLocation SymbolNameRef;
  namespacePrefixCache : gmap (option Decl * FileID) SymbolNameRef;
  declBasedCache : gmap Decl SymbolNameRef;
  fileSymbolCache : gmap StableFileId SymbolNameRef;
  anonymousTypeCounters : gmap FileID Z;
  localVariableCounters : gmap FileID Z;
}.

Definition SymbolFormatter_new (fileMetadataMap : FileMetadataMap) : SymbolFormatter :=
  mkSymbolFormatter fileMetadataMap ∅ ∅ ∅ ∅ ∅ ∅.

Definition set_locationBasedCache m this := mkSymbolFormatter (sfm_fileMetadataMap this) m
  (namespacePrefixCache this) (declBasedCache this) (fileSymbolCache this)
  (anonymousTypeCounters this) (localVariableCounters this).
Definition set_namespacePrefixCache m this := mkSymbolFormatter (sfm_fileMetadataMap this)
  (locationBasedCache this) m (declBasedCache this) (fileSymbolCache this)
  (anonymousTypeCounters this) (localVariableCounters this).
Definition set_declBasedCache m this := mkSymbolFormatter (sfm_fileMetadataMap this)
  (locationBasedCache this) (namespacePrefixCache this) m (fileSymbolCache this)
  (anonymousTypeCounters this) (localVariableCounters this).
Definition set_fileSymbolCache m this := mkSymbolFormatter (sfm_fileMetadataMap this)
  (locationBasedCache this) (namespacePrefixCache this) (declBasedCache this) m
  (anonymousTypeCounters this) (localVariableCounters this).
Definition set_anonymousTypeCounters m this := mkSymbolFormatter (sfm_fileMetadataMap this)
  (locationBasedCache this) (namespacePrefixCache this) (declBasedCache this)
  (fileSymbolCache this) m (localVariableCounters this).
Definition set_localVariableCounters m this := mkSymbolFormatter (sfm_fileMetadataMap this)
  (locationBasedCache this) (namespacePrefixCache this) (declBasedCache this)
  (fileSymbolCache this) (anonymousTypeCounters this) m.

Abbreviation FM A := (ST SymbolFormatter A) (only parsing).

(** [cache.insert({key, symbol})]: what is already there stays.  The result is the
    value at the returned iterator. *)
Definition cache_insert `{Countable K} (get : SymbolFormatter -> gmap K SymbolNameRef)
    (set : gmap K SymbolNameRef -> SymbolFormatter -> SymbolFormatter)
    (key : K) (symbol : SymbolNameRef) (what : string) : FM SymbolNameRef :=
  cache ← st_gets get;
  match cache !! key with
  | Some old => st_lift (ENFORCE false what) ;; mret old
  | None => st_modify (fun this => set (<[key := symbol]> (get this)) this) ;; mret symbol
  end.

(** [counters\[{fileId}\]++] on a [uint32_t]. *)
Definition next_counter (get : SymbolFormatter -> gmap FileID Z)
    (set : gmap FileID Z -> SymbolFormatter -> SymbolFormatter) (fileId : FileID) : FM Z :=
  counters ← st_gets get;
  let counter := default 0 (counters !! fileId) in
  st_modify (fun this => set (<[fileId := wrap32 (counter + 1)]> (get this)) this) ;;
  mret counter.

(** ** Macros and files *)
Definition getMacroSymbol (defLoc : SourceLocation) : FM SymbolNameRef :=
  cache ← st_gets locationBasedCache;
  match cache !! defLoc with
  | Some symbol => mret symbol
  | None =>
      let defPLoc := getPresumedLoc defLoc false in
      st_lift (ENFORCE (pl_isValid defPLoc) "defPLoc.isValid()") ;;
      fileMetadataMap ← st_gets sfm_fileMetadataMap;
      let '(filepath, packageId) :=
        match getFileMetadata fileMetadataMap (presumedFileID defLoc false) with
        | Some fileMetadata =>
            (rel_value (sf_path (stableFileId fileMetadata)), packageId fileMetadata)
        | None => (pl_getFilename defPLoc, mkPackageId [] [])
        end in
      let name := filepath ++ lit ":" ++ fmt_uint (pl_getLine defPLoc) ++ lit ":"
                    ++ fmt_uint (pl_getColumn defPLoc) in
      symbol ← st_lift (format (mkSymbolBuilder packageId [mkDescriptor name [] Macro]));
      cache_insert locationBasedCache set_locationBasedCache defLoc symbol
        "key was missing earlier, so insert should've succeeded"
  end.

Definition getFileSymbol (fileMetadata : FileMetadata) : FM SymbolNameRef :=
  let stableFileId := stableFileId fileMetadata in
  cache ← st_gets fileSymbolCache;
  match cache !! stableFileId with
  | Some symbol => mret symbol
  | None =>
      let name := lit "<file>/" ++ rel_value (sf_path stableFileId) in
      symbol ← st_lift (format (mkSymbolBuilder (packageId fileMetadata)
                                  [mkDescriptor name [] Namespace]));
      cache_insert fileSymbolCache set_fileSymbolCache stableFileId symbol
        "StableFileId key was missing earlier, so insert should've succeeded"
  end.

(** ** Caching

    The two overloads of [getSymbolCached] differ in the cache and its key only. *)
Definition cached `{Countable K} (get : SymbolFormatter -> gmap K SymbolNameRef)
    (set : gmap K SymbolNameRef -> SymbolFormatter -> SymbolFormatter) (key : K)
    (getSymbol : FM (option SymbolNameRef)) : FM (option SymbolNameRef) :=
  cache ← st_gets get;
  match cache !! key with
  | Some symbol => mret (Some symbol)
  | None =>
      optSymbol ← getSymbol;
      st_optional optSymbol (fun symbol =>
        st_lift (ENFORCE (negb (bool_decide (ref_value symbol = [])))
                   "forgot to use nullopt to signal failure in computing symbol name") ;;
        symbol ← cache_insert get set key symbol "inserted";
        mret (Some symbol))
  end.

Definition getSymbolCached (decl : Decl) (getSymbol : FM (option SymbolNameRef))
    : FM (option SymbolNameRef) :=
  let canonicalDecl := getCanonicalDecl decl in
  cached declBasedCache set_declBasedCache canonicalDecl getSymbol.

Definition getSymbolCached_loc (decl : option Decl) (loc : SourceLocation)
    (getSymbol : FM (option SymbolNameRef)) : FM (option SymbolNameRef) :=
  let fileId := getFileID loc in
  let decl := getCanonicalDecl <$> decl in
  cached namespacePrefixCache set_namespacePrefixCache (decl, fileId) getSymbol.

(** [this->formatContextual(contextSymbol, descriptor)] as the result of a getter. *)
Definition formatIn (contextSymbol : SymbolNameRef) (descriptor : DescriptorBuilder)
    : FM (option SymbolNameRef) :=
  symbol ← st_lift (formatContextual contextSymbol descriptor); mret (Some symbol).

Definition getLocationBasedSymbolPrefix (loc : SourceLocation) : FM (option SymbolNameRef) :=
  if negb (loc_isValid loc) then mret None
  else
    getSymbolCached_loc None loc (
      let fileId := getFileID loc in
      fileMetadataMap ← st_gets sfm_fileMetadataMap;
      match getFileMetadata fileMetadataMap fileId with
      | None => mret None
      | Some fileMetadata =>
          symbol ← st_lift (format (mkSymbolBuilder (packageId fileMetadata) []));
          mret (Some symbol)
      end).

Definition getFunctionDisambiguator (functionDecl : Decl) : str :=
  let definingDecl :=
    if isTemplateInstantiation functionDecl then
      match getInstantiatedFromMemberFunction functionDecl with
      | Some memberFnDecl => memberFnDecl
      | None =>
          match getTemplateSpecializationInfo functionDecl with
          | Some instantiatedTemplateDecl =>
              match getInstantiatedFromMemberTemplate instantiatedTemplateDecl with
              | Some uninstantiatedTemplateDecl => getTemplatedDecl uninstantiatedTemplateDecl
              | None => getTemplatedDecl instantiatedTemplateDecl
              end
          | None => functionDecl
          end
      end
    else functionDecl in
  fmt_hex (forText (typeString definingDecl)).

(** ** Contexts

    The getters for the declarations that can be contexts call
    [getContextSymbol] for their own context: an argument here. *)
Section Contexts.
Variable getContextSymbol : Decl -> SourceLocation -> FM (option SymbolNameRef).

Definition getNamespaceSymbolPrefix_ (namespaceDecl : Decl) (loc : SourceLocation)
    : FM (option SymbolNameRef) :=
  getSymbolCached_loc (Some namespaceDecl) loc (
    optContextSymbol ← getContextSymbol (getDeclContext namespaceDecl) loc;
    st_optional optContextSymbol (fun contextSymbol =>
      name ←
        (if isAnonymousNamespace namespaceDecl then
           st_lift (ENFORCE (FileID_isValid getMainFileID) "mainFileId.isValid()") ;;
           fileMetadataMap ← st_gets sfm_fileMetadataMap;
           let optStableFileId := getStableFileId fileMetadataMap getMainFileID in
           st_lift (ENFORCE (bool_decide (is_Some optStableFileId))
                      "main file always has a valid StableFileId") ;;
           stableFileId ← st_lift (optional_value optStableFileId);
           mret (lit "$anonymous_namespace_" ++ rel_value (sf_path stableFileId))
         else mret (printName namespaceDecl) : FM str);
      formatIn contextSymbol (mkDescriptor name [] Namespace))).

Definition getTagSymbol_ (tagDecl : Decl) : FM (option SymbolNameRef) :=
  getSymbolCached tagDecl (
    optContextSymbol ← getContextSymbol (getDeclContext tagDecl) (getLocation tagDecl);
    st_optional optContextSymbol (fun contextSymbol =>
      if negb (declNameIsEmpty tagDecl) then
        formatIn contextSymbol (mkDescriptor (printName tagDecl) [] Type_)
      else
        st_optional (getDefinition tagDecl) (fun definitionTagDecl =>
          let defLoc := getExpansionLoc (getLocation definitionTagDecl) in
          let defFileId := getFileID defLoc in
          st_lift (ENFORCE (FileID_isValid defFileId) "defFileId.isValid()") ;;
          counter ← next_counter anonymousTypeCounters set_anonymousTypeCounters defFileId;
          let declContext := getDeclContext definitionTagDecl in
          fileMetadataMap ← st_gets sfm_fileMetadataMap;
          let name :=
            if isa NamespaceDecl declContext || isa TranslationUnitDecl declContext then
              match getStableFileId fileMetadataMap defFileId with
              | Some stableFileId =>
                  lit "$anonymous_type_" ++ fmt_hex (forText (rel_value (sf_path stableFileId)))
                    ++ lit "_" ++ fmt_uint counter
              | None => []
              end
            else [] in
          let name := if bool_decide (name = []) then lit "$anonymous_type_" ++ fmt_uint counter
                      else name in
          formatIn contextSymbol (mkDescriptor name [] Type_)))).

Definition getFunctionSymbol_ (functionDecl : Decl) : FM (option SymbolNameRef) :=
  getSymbolCached functionDecl (
    optContextSymbol ← getContextSymbol (getDeclContext functionDecl) (getLocation functionDecl);
    st_optional optContextSymbol (fun contextSymbol =>
      formatIn contextSymbol
        (mkDescriptor (printName functionDecl) (getFunctionDisambiguator functionDecl) Method))).

Definition getContextSymbol_ (declContext : Decl) (loc : SourceLocation)
    : FM (option SymbolNameRef) :=
  let loc := getExpansionLoc loc in
  if isa NamespaceDecl declContext then getNamespaceSymbolPrefix_ declContext loc
  else if isa TagDecl declContext then getTagSymbol_ declContext
  else if isa TranslationUnitDecl declContext || isa ExternCContextDecl declContext then
    getLocationBasedSymbolPrefix loc
  else if isa FunctionDecl declContext then getFunctionSymbol_ declContext
  else mret None.
End Contexts.

(** The recursion follows the chain of contexts. *)
Fixpoint getContextSymbol_fuel (fuel : nat) (declContext : Decl) (loc : SourceLocation)
    : FM (option SymbolNameRef) :=
  match fuel with
  | O => st_lift (Err OutOfFuel)
  | S fuel' => getContextSymbol_ (getContextSymbol_fuel fuel') declContext loc
  end.
Definition getContextSymbol (declContext : Decl) : SourceLocation -> FM (option SymbolNameRef) :=
  getContextSymbol_fuel (S (nesting declContext)) declContext.

Definition getNamespaceSymbolPrefix := getNamespaceSymbolPrefix_ getContextSymbol.
Definition getTagSymbol := getTagSymbol_ getContextSymbol.
Definition getFunctionSymbol := getFunctionSymbol_ getContextSymbol.

(** ** The other getters *)
Definition getNextLocalSymbol (decl : Decl) : FM (option SymbolNameRef) :=
  if declNameIsEmpty decl then mret None
  else
    getSymbolCached decl (
      let loc := getExpansionLoc (getLocation decl) in
      let defFileId := getFileID loc in
      counter ← next_counter localVariableCounters set_localVariableCounters defFileId;
      mret (Some (formatLocal counter))).

Definition getBindingSymbol := getNextLocalSymbol.
Definition getNonTypeTemplateParmSymbol := getNextLocalSymbol.
Definition getTemplateTemplateParmSymbol := getNextLocalSymbol.
Definition getTemplateTypeParmSymbol := getNextLocalSymbol.
Definition getEnumSymbol := getTagSymbol.
Definition getRecordSymbol := getTagSymbol.
Definition getClassTemplateSymbol (d : Decl) := getRecordSymbol (getTemplatedDecl d).
Definition getFunctionTemplateSymbol (d : Decl) := getFunctionSymbol (getTemplatedDecl d).
Definition getNamespaceSymbol (d : Decl) := getNamespaceSymbolPrefix d (getLocation d).

(** A descriptor inside the context of the declaration. *)
Definition inContext (decl : Decl) (descriptor : DescriptorBuilder) : FM (option SymbolNameRef) :=
  optContextSymbol ← getContextSymbol (getDeclContext decl) (getLocation decl);
  st_optional optContextSymbol (fun contextSymbol => formatIn contextSymbol descriptor).

Definition getEnumConstantSymbol (enumConstantDecl : Decl) : FM (option SymbolNameRef) :=
  getSymbolCached enumConstantDecl (
    let parentEnumDecl := getDeclContext enumConstantDecl in
    st_lift (ENFORCE (isa EnumDecl parentEnumDecl)
               "decl context for EnumConstantDecl should be EnumDecl") ;;
    if negb (isa EnumDecl parentEnumDecl) then mret None
    else
      optContextSymbol ←
        (if isScoped parentEnumDecl then getEnumSymbol parentEnumDecl
         else getContextSymbol (getDeclContext parentEnumDecl) (getLocation enumConstantDecl));
      st_optional optContextSymbol (fun contextSymbol =>
        formatIn contextSymbol (mkDescriptor (getName enumConstantDecl) [] Term))).

Definition getFieldSymbol (fieldDecl : Decl) : FM (option SymbolNameRef) :=
  if declNameIsEmpty fieldDecl then mret None
  else getSymbolCached fieldDecl (inContext fieldDecl (mkDescriptor (getName fieldDecl) [] Term)).

Definition getTypedefNameSymbol (typedefNameDecl : Decl) : FM (option SymbolNameRef) :=
  getSymbolCached typedefNameDecl
    (inContext typedefNameDecl (mkDescriptor (getName typedefNameDecl) [] Type_)).
Definition getTypeAliasTemplateSymbol (d : Decl) := getTypedefNameSymbol (getTemplatedDecl d).

(** The [do ... while (true)] of [getUsingShadowSymbol]: the suffix and the
    disambiguator; a type alias template is looked at again as a type alias, so
    two rounds are enough. *)
Fixpoint usingShadowSuffix (fuel : nat) (canonicalDecl : Decl) : result (option (Suffix * str)) :=
  match fuel with
  | O => Err OutOfFuel
  | S fuel' =>
      if isa TemplateTypeParmDecl canonicalDecl then Ok (Some (TypeParameter, []))
      else if isa TypeDecl canonicalDecl || isa ClassTemplateDecl canonicalDecl then
        Ok (Some (Type_, []))
      else if isa NamespaceDecl canonicalDecl then Ok (Some (Namespace, []))
      else if isa EnumConstantDecl canonicalDecl || isa VarDecl canonicalDecl
              || isa VarTemplateDecl canonicalDecl then Ok (Some (Term, []))
      else if isa FunctionDecl canonicalDecl then
        Ok (Some (Method, getFunctionDisambiguator canonicalDecl))
      else if isa FunctionTemplateDecl canonicalDecl then
        Ok (Some (Method, getFunctionDisambiguator (getTemplatedDecl canonicalDecl)))
      else if isa TypeAliasTemplateDecl canonicalDecl then
        usingShadowSuffix fuel' (getTemplatedDecl canonicalDecl)
      else Ok None
  end.

Definition getUsingShadowSymbol (usingShadowDecl : Decl) : FM (option SymbolNameRef) :=
  if declNameIsEmpty usingShadowDecl then mret None
  else
    let canonicalDecl := getCanonicalDecl (getUnderlyingDecl usingShadowDecl) in
    getSymbolCached usingShadowDecl (
      optContextSymbol ←
        getContextSymbol (getDeclContext usingShadowDecl) (getLocation usingShadowDecl);
      st_optional optContextSymbol (fun contextSymbol =>
        suffix ← st_lift (usingShadowSuffix 2 canonicalDecl);
        st_optional suffix (fun '(suffix, disambiguator) =>
          formatIn contextSymbol
            (mkDescriptor (printName usingShadowDecl) disambiguator suffix)))).

Definition getUsingSymbol (_ : Decl) : FM (option SymbolNameRef) :=
  st_lift (ENFORCE false "call getUsingShadowSymbol instead") ;; mret None.

Definition getLocalVarOrParmSymbol (varDecl : Decl) : FM (option SymbolNameRef) :=
  st_lift (ENFORCE (isLocalVarDeclOrParm varDecl) "varDecl.isLocalVarDeclOrParm()") ;;
  getNextLocalSymbol varDecl.

Definition getVarSymbol (varDecl : Decl) : FM (option SymbolNameRef) :=
  if isLocalVarDeclOrParm varDecl && negb (isLocalExternDecl varDecl) then
    getLocalVarOrParmSymbol varDecl
  else if declNameIsEmpty varDecl then mret None
  else
    getSymbolCached varDecl
      match getVarKind varDecl with
      | Decomposition =>
          st_lift (ENFORCE false "DecompositionDecls require recursive traversal") ;; mret None
      | ParmVar => st_lift (ENFORCE false "already handled parameter case earlier") ;; mret None
      | VarTemplatePartialSpecialization | VarTemplateSpecialization | Var =>
          inContext varDecl (mkDescriptor (getName varDecl) [] Term)
      | OMPCapturedExpr => mret None
      | OtherVarKind => mret None
      end.
Definition getVarTemplateSymbol (d : Decl) := getVarSymbol (getTemplatedDecl d).

(** [FOR_EACH_DECL_TO_BE_INDEXED(HANDLE)]. *)
Definition FOR_EACH_DECL_TO_BE_INDEXED : list (DeclClass * (Decl -> FM (option SymbolNameRef))) :=
  [(BindingDecl, getBindingSymbol); (ClassTemplateDecl, getClassTemplateSymbol);
   (EnumConstantDecl, getEnumConstantSymbol); (EnumDecl, getEnumSymbol);
   (FieldDecl, getFieldSymbol); (FunctionDecl, getFunctionSymbol);
   (FunctionTemplateDecl, getFunctionTemplateSymbol); (NamespaceDecl, getNamespaceSymbol);
   (NonTypeTemplateParmDecl, getNonTypeTemplateParmSymbol); (RecordDecl, getRecordSymbol);
   (TemplateTemplateParmDecl, getTemplateTemplateParmSymbol);
   (TemplateTypeParmDecl, getTemplateTypeParmSymbol);
   (TypeAliasTemplateDecl, getTypeAliasTemplateSymbol); (TypedefNameDecl, getTypedefNameSymbol);
   (UsingShadowDecl, getUsingShadowSymbol); (UsingDecl, getUsingSymbol); (VarDecl, getVarSymbol);
   (VarTemplateDecl, getVarTemplateSymbol)].

Fixpoint dispatch (handlers : list (DeclClass * (Decl -> FM (option SymbolNameRef))))
    (namedDecl : Decl) : FM (option SymbolNameRef) :=
  match handlers with
  | [] => mret None
  | (kind, handler) :: handlers =>
      if isa kind namedDecl then handler namedDecl else dispatch handlers namedDecl
  end.
Definition getNamedDeclSymbol : Decl -> FM (option SymbolNameRef) :=
  dispatch FOR_EACH_DECL_TO_BE_INDEXED.
End SymbolFormatter.

(** ** A concrete AST

    [namespace ns { class B { int m; }; class C : B { using T::m; void f(); struct { } x; }; }],
    with a forward declaration of [C]; [DLocal] is a local variable of [f]. *)
Inductive demo_decl : Type := DTU | DNs | DC | DCfwd | DF | DAnon | DLocal | DBase | DField | DUsing.
#[export] Instance demo_decl_eq_dec : EqDecision demo_decl.
Proof. solve_decision. Defined.
Definition demo_decl_code (d : demo_decl) : nat :=
  match d with DTU => 0 | DNs => 1 | DC => 2 | DCfwd => 3 | DF => 4 | DAnon => 5 | DLocal => 6
  | DBase => 7 | DField => 8 | DUsing => 9 end.
Definition demo_decl_decode (n : nat) : demo_decl :=
  match n with 0%nat => DTU | 1%nat => DNs | 2%nat => DC | 3%nat => DCfwd | 4%nat => DF
  | 5%nat => DAnon | 6%nat => DLocal | 7%nat => DBase | 8%nat => DField | _ => DUsing end.
#[export] Instance demo_decl_countable : Countable demo_decl.
Proof. refine (inj_countable' demo_decl_code demo_decl_decode _). by intros []. Defined.

Definition demo_name (d : demo_decl) : str :=
  match d with DNs => lit "ns" | DC | DCfwd => lit "C" | DF => lit "f" | DLocal => lit "x"
  | DBase => lit "B" | DField | DUsing => lit "m" | _ => [] end.

Definition demo_ast : @ClangAst demo_files demo_sm := {|
  Decl := demo_decl;
  isa c d := match c, d with
    | TranslationUnitDecl, DTU | NamespaceDecl, DNs | FunctionDecl, DF | VarDecl, DLocal => true
    | (RecordDecl | TagDecl | TypeDecl | CXXRecordDecl), (DC | DCfwd | DAnon | DBase) => true
    | FieldDecl, DField | UnresolvedUsingValueDecl, DUsing | CXXMethodDecl, DF | NamedDecl, _ => true
    | _, _ => false end;
  getCanonicalDecl d := match d with DCfwd => DC | _ => d end;
  getDeclContext d := match d with DTU | DNs => DTU | DC | DCfwd | DBase => DNs
    | DF | DAnon | DUsing => DC | DField => DBase | DLocal => DF end;
  getLocation d := match d with DTU => 0 : @SourceLocation _ demo_sm | DCfwd => 10103
    | DC => 10110 | DF => 10205 | DBase => 10120 | DField => 10130 | DUsing => 10140 | _ => 10305 end;
  declNameIsEmpty d := match d with DTU | DAnon => true | _ => false end;
  getName := demo_name; printName := demo_name; isAnonymousNamespace _ := false;
  getDefinition d := match d with DC | DCfwd => Some DC | DAnon => Some DAnon | DBase => Some DBase
    | _ => None end;
  isScoped _ := false; getTemplatedDecl d := d;
  isLocalVarDeclOrParm d := match d with DLocal => true | _ => false end;
  isLocalExternDecl _ := false; getVarKind _ := Var; getUnderlyingDecl d := d;
  isTemplateInstantiation _ := false; getInstantiatedFromMemberFunction _ := None;
  getTemplateSpecializationInfo _ := None; getInstantiatedFromMemberTemplate _ := None;
  typeString _ := lit "void ()";
  nesting d := match d with DTU => 0 | DNs => 1 | DC | DCfwd | DBase => 2
    | DF | DAnon | DField | DUsing => 3 | DLocal => 4 end%nat;
|}.
