(* ===== verification/QualifiedNames.v ===== *)
(** * What the caching formatter computes

    A reference definition of the symbol of a declaration, without caches: the
    package of the file of its location, and one descriptor for each declaration on
    the chain of contexts.  The formatter of Formatter.v computes exactly that for
    every declaration that has a name, whatever it was asked before. *)
From S2P Require Import Prelude CppString Ordering Paths PackageMaps IdPaths Symbols Clang.
From S2P Require Import Formatter.

(** Documented facts about Clang's AST and source locations. *)
Definition leaf_class (c : DeclClass) : bool :=
  match c with
  | TagDecl | TypeDecl | NamedDecl | CXXRecordDecl | CXXMethodDecl | DecompositionDecl
  | ClassTemplateSpecializationDecl | ClassTemplatePartialSpecializationDecl => false
  | _ => true
  end.

Class ClangAstLaws `{ClangAst} : Prop := {
  isa_leaf c1 c2 d : leaf_class c1 = true -> leaf_class c2 = true ->
    isa c1 d = true -> isa c2 d = true -> c1 = c2;
  isa_tag d : isa TagDecl d = isa EnumDecl d || isa RecordDecl d;
  isa_templated d :
    (isa ClassTemplateDecl d = true -> isa RecordDecl (getTemplatedDecl d) = true)
    /\ (isa FunctionTemplateDecl d = true -> isa FunctionDecl (getTemplatedDecl d) = true)
    /\ (isa TypeAliasTemplateDecl d = true -> isa TypedefNameDecl (getTemplatedDecl d) = true)
    /\ (isa VarTemplateDecl d = true -> isa VarDecl (getTemplatedDecl d) = true);
  nesting_context d : isa TranslationUnitDecl d = false ->
    (nesting (getDeclContext d) < nesting d)%nat;
  expansion_idempotent l : getExpansionLoc (getExpansionLoc l) = getExpansionLoc l;
  (** a file id names a file or one macro expansion *)
  expansion_file_of l1 l2 : getFileID l1 = getFileID l2 ->
    getFileID (getExpansionLoc l1) = getFileID (getExpansionLoc l2);
  invalid_loc_file l : loc_isValid l = false -> FileID_isValid (getFileID l) = false;
}.

Section Denote.
Context `{BM : BuildMode, AR : AbslReplace, CF : ClangFileID}.
Context {SM : ClangSourceManager} {CA : ClangAst}.
Context `{HI : HashIteration, TH : TextHash}.
Variable fm : FileMetadataMap.

(** No result: the name is not determined by the chain of contexts (anonymous types,
    locals).  [Some None]: there is no symbol. *)
Abbreviation D := (option (option SymbolBuilder)) (only parsing).

Definition extend (sb : SymbolBuilder) (d : DescriptorBuilder) : SymbolBuilder :=
  mkSymbolBuilder (sb_packageId sb) (sb_descriptors sb ++ [d]).

(** A descriptor (if there is one) in a context. *)
Definition in_ctx (ctx : D) (desc : option (option DescriptorBuilder)) : D :=
  match ctx with
  | Some (Some sb) =>
      match desc with
      | Some (Some d) => Some (Some (extend sb d))
      | Some None => Some None
      | None => None
      end
  | o => o
  end.

Definition expansion_file (loc : SourceLocation) : FileID := getFileID (getExpansionLoc loc).

Definition d_prefix (f : FileID) : option SymbolBuilder :=
  match getFileMetadata fm f with
  | Some md => Some (mkSymbolBuilder (packageId md) [])
  | None => None
  end.

Definition namespace_descriptor (d : Decl) : option (option DescriptorBuilder) :=
  if isAnonymousNamespace d then
    if FileID_isValid getMainFileID then
      match getStableFileId fm getMainFileID with
      | Some sf =>
          Some (Some (mkDescriptor (lit "$anonymous_namespace_" ++ rel_value (sf_path sf)) []
                        Namespace))
      | None => None
      end
    else None
  else Some (Some (mkDescriptor (printName d) [] Namespace)).

Definition tag_descriptor (d : Decl) : option (option DescriptorBuilder) :=
  if negb (declNameIsEmpty d) then Some (Some (mkDescriptor (printName d) [] Type_))
  else match getDefinition d with Some _ => None | None => Some None end.

Definition function_descriptor (d : Decl) : option (option DescriptorBuilder) :=
  Some (Some (mkDescriptor (printName d) (getFunctionDisambiguator d) Method)).

(** The symbol of a context, for an entity in file [f]. *)
Fixpoint denote_ctx_fuel (fuel : nat) (d : Decl) (f : FileID) : D :=
  match fuel with
  | O => None
  | S n =>
      if isa NamespaceDecl d then
        in_ctx (denote_ctx_fuel n (getDeclContext d) f) (namespace_descriptor d)
      else if isa TagDecl d then
        in_ctx (denote_ctx_fuel n (getDeclContext d) (expansion_file (getLocation d)))
          (tag_descriptor d)
      else if isa TranslationUnitDecl d || isa ExternCContextDecl d then Some (d_prefix f)
      else if isa FunctionDecl d then
        in_ctx (denote_ctx_fuel n (getDeclContext d) (expansion_file (getLocation d)))
          (function_descriptor d)
      else Some None
  end.
Definition denote_ctx (d : Decl) : FileID -> D := denote_ctx_fuel (S (nesting d)) d.
Definition denote_in (d : Decl) (desc : option (option DescriptorBuilder)) : D :=
  in_ctx (denote_ctx (getDeclContext d) (expansion_file (getLocation d))) desc.

Definition denote_namespace (d : Decl) (f : FileID) : D :=
  in_ctx (denote_ctx (getDeclContext d) f) (namespace_descriptor d).

Definition using_descriptor (d : Decl) : option (option DescriptorBuilder) :=
  match usingShadowSuffix 2 (getCanonicalDecl (getUnderlyingDecl d)) with
  | Ok (Some (suffix, disambiguator)) =>
      Some (Some (mkDescriptor (printName d) disambiguator suffix))
  | Ok None => Some None
  | Err _ => None
  end.

(** The declarations whose symbols are cached by declaration. *)
Definition denote_own (d : Decl) : D :=
  if isa TagDecl d then denote_in d (tag_descriptor d)
  else if isa FunctionDecl d then denote_in d (function_descriptor d)
  else if isa EnumConstantDecl d then
    let parent := getDeclContext d in
    if isa EnumDecl parent then
      in_ctx (if isScoped parent then denote_in parent (tag_descriptor parent)
              else denote_ctx (getDeclContext parent) (expansion_file (getLocation d)))
        (Some (Some (mkDescriptor (getName d) [] Term)))
    else None
  else if isa FieldDecl d then
    if declNameIsEmpty d then Some None
    else denote_in d (Some (Some (mkDescriptor (getName d) [] Term)))
  else if isa TypedefNameDecl d then denote_in d (Some (Some (mkDescriptor (getName d) [] Type_)))
  else if isa UsingShadowDecl d then
    if declNameIsEmpty d then Some None else denote_in d (using_descriptor d)
  else if isa VarDecl d then
    if isLocalVarDeclOrParm d && negb (isLocalExternDecl d) then None
    else if declNameIsEmpty d then Some None
    else match getVarKind d with
         | VarTemplatePartialSpecialization | VarTemplateSpecialization | Var =>
             denote_in d (Some (Some (mkDescriptor (getName d) [] Term)))
         | OMPCapturedExpr | OtherVarKind => Some None
         | Decomposition | ParmVar => None
         end
  else None.

(** The qualified name of a declaration, as a SCIP symbol. *)
Definition qualified_name (d : Decl) : D :=
  if isa NamespaceDecl d then denote_namespace d (expansion_file (getLocation d))
  else if isa ClassTemplateDecl d || isa FunctionTemplateDecl d || isa TypeAliasTemplateDecl d
          || isa VarTemplateDecl d then denote_own (getTemplatedDecl d)
  else denote_own d.

(** ** Redeclarations

    What [NOTE(canonical-decl)] needs: the declarations of one entity agree on what
    its name is made of.  In particular they are in files of the same package. *)
Record redeclaration (d d' : Decl) : Prop := {
  redecl_isa c : isa c d = isa c d';
  redecl_nesting : nesting d = nesting d';
  redecl_context : getCanonicalDecl (getDeclContext d) = getCanonicalDecl (getDeclContext d');
  redecl_package :
    d_prefix (expansion_file (getLocation d)) = d_prefix (expansion_file (getLocation d'));
  redecl_name : declNameIsEmpty d = declNameIsEmpty d' /\ getName d = getName d'
    /\ printName d = printName d' /\ isAnonymousNamespace d = isAnonymousNamespace d';
  redecl_tag : getDefinition d = getDefinition d' /\ isScoped d = isScoped d';
  redecl_function : getFunctionDisambiguator d = getFunctionDisambiguator d';
  redecl_var : isLocalVarDeclOrParm d = isLocalVarDeclOrParm d'
    /\ isLocalExternDecl d = isLocalExternDecl d' /\ getVarKind d = getVarKind d';
  redecl_using : getCanonicalDecl (getUnderlyingDecl d) = getCanonicalDecl (getUnderlyingDecl d');
}.
Definition redeclarations_agree : Prop :=
  forall d d', getCanonicalDecl d = getCanonicalDecl d' -> redeclaration d d'.

(** ** Facts about the reference definition *)
Section DenoteFacts.
Context {CL : ClangAstLaws}.

Lemma isa_not c1 c2 d :
  isa c1 d = true -> leaf_class c1 = true -> leaf_class c2 = true -> c1 <> c2 -> isa c2 d = false.
Proof.
  intros H1 L1 L2 Hne. destruct (isa c2 d) eqn:H2; [|done].
  by destruct Hne; apply (isa_leaf c1 c2 d).
Qed.

Lemma isa_not_tag c d :
  isa c d = true -> leaf_class c = true -> c <> EnumDecl -> c <> RecordDecl -> isa TagDecl d = false.
Proof.
  intros Hi L H1 H2. rewrite isa_tag.
  by rewrite (isa_not c EnumDecl) // (isa_not c RecordDecl).
Qed.

Lemma isa_tag_not c d :
  isa TagDecl d = true -> leaf_class c = true -> c <> EnumDecl -> c <> RecordDecl -> isa c d = false.
Proof.
  intros Hi L H1 H2. destruct (isa c d) eqn:E; [|done]. by rewrite (isa_not_tag c) in Hi.
Qed.

(** More fuel than contexts changes nothing. *)
Lemma denote_ctx_fuel_enough n d f :
  (nesting d < n)%nat -> denote_ctx_fuel n d f = denote_ctx d f.
Proof.
  unfold denote_ctx. revert d f. induction n as [n IH] using lt_wf_ind. intros d f Hn.
  destruct n as [|n]; [lia|]. simpl.
  assert (forall c g, isa TranslationUnitDecl d = false ->
    c = getDeclContext d -> denote_ctx_fuel n c g = denote_ctx_fuel (nesting d) c g) as E.
  { intros c g Ht ->. pose proof (nesting_context d Ht). rewrite (IH n); [lia..|].
    rewrite (IH (nesting d)); [lia..|done]. }
  destruct (isa NamespaceDecl d) eqn:EN.
  { rewrite E //. by apply (isa_not NamespaceDecl). }
  destruct (isa TagDecl d) eqn:ET.
  { rewrite E //. by apply isa_tag_not. }
  destruct (isa TranslationUnitDecl d) eqn:EU; [done|]. simpl.
  destruct (isa ExternCContextDecl d); [done|].
  destruct (isa FunctionDecl d) eqn:EF; [|done]. by rewrite E.
Qed.

Lemma denote_ctx_unfold d f :
  denote_ctx d f =
    if isa NamespaceDecl d then denote_namespace d f
    else if isa TagDecl d then denote_in d (tag_descriptor d)
    else if isa TranslationUnitDecl d || isa ExternCContextDecl d then Some (d_prefix f)
    else if isa FunctionDecl d then denote_in d (function_descriptor d)
    else Some None.
Proof.
  unfold denote_namespace, denote_in. unfold denote_ctx at 1. simpl.
  destruct (isa NamespaceDecl d) eqn:EN.
  { rewrite denote_ctx_fuel_enough //. apply nesting_context. by apply (isa_not NamespaceDecl). }
  destruct (isa TagDecl d) eqn:ET.
  { rewrite denote_ctx_fuel_enough //. apply nesting_context. by apply isa_tag_not. }
  destruct (isa TranslationUnitDecl d) eqn:EU; [done|]. simpl.
  destruct (isa ExternCContextDecl d); [done|].
  destruct (isa FunctionDecl d) eqn:EF; [|done].
  rewrite denote_ctx_fuel_enough //. by apply nesting_context.
Qed.

Context (Hredecl : redeclarations_agree).

Lemma namespace_descriptor_agree d d' :
  redeclaration d d' -> namespace_descriptor d = namespace_descriptor d'.
Proof.
  intros R. destruct (redecl_name _ _ R) as (_ & _ & E1 & E2).
  unfold namespace_descriptor. by rewrite E1 E2.
Qed.

Lemma tag_descriptor_agree d d' : redeclaration d d' -> tag_descriptor d = tag_descriptor d'.
Proof.
  intros R. destruct (redecl_name _ _ R) as (E0 & _ & E1 & _).
  destruct (redecl_tag _ _ R) as [E2 _]. unfold tag_descriptor. by rewrite E0 E1 E2.
Qed.

Lemma function_descriptor_agree d d' :
  redeclaration d d' -> function_descriptor d = function_descriptor d'.
Proof.
  intros R. destruct (redecl_name _ _ R) as (_ & _ & E1 & _).
  unfold function_descriptor. by rewrite E1 (redecl_function _ _ R).
Qed.

(** Contexts that are declarations of one entity denote the same. *)
Lemma denote_ctx_agree d d' f f' :
  getCanonicalDecl d = getCanonicalDecl d' -> d_prefix f = d_prefix f' ->
  denote_ctx d f = denote_ctx d' f'.
Proof.
  remember (nesting d) as n eqn:En. revert d d' f f' En.
  induction n as [n IH] using lt_wf_ind. intros d d' f f' -> Hc Hf.
  pose proof (Hredecl d d' Hc) as R. pose proof (redecl_isa _ _ R) as Ri.
  pose proof (redecl_context _ _ R) as Rc. pose proof (redecl_package _ _ R) as Rp.
  rewrite !denote_ctx_unfold -!Ri.
  destruct (isa NamespaceDecl d) eqn:EN.
  { unfold denote_namespace. rewrite (namespace_descriptor_agree d d') //. f_equal.
    eapply IH; [|reflexivity|done|done]. apply nesting_context. by apply (isa_not NamespaceDecl). }
  destruct (isa TagDecl d) eqn:ET.
  { unfold denote_in. rewrite (tag_descriptor_agree d d') //. f_equal.
    eapply IH; [|reflexivity|done|done]. apply nesting_context. by apply isa_tag_not. }
  destruct (isa TranslationUnitDecl d) eqn:EU; simpl; [by rewrite Hf|].
  destruct (isa ExternCContextDecl d); [by rewrite Hf|].
  destruct (isa FunctionDecl d) eqn:EF; [|done].
  unfold denote_in. rewrite (function_descriptor_agree d d') //. f_equal.
  eapply IH; [|reflexivity|done|done]. by apply nesting_context.
Qed.

Lemma denote_in_agree d d' desc :
  redeclaration d d' -> denote_in d desc = denote_in d' desc.
Proof.
  intros R. unfold denote_in. f_equal.
  apply denote_ctx_agree; [apply (redecl_context _ _ R)|apply (redecl_package _ _ R)].
Qed.

Lemma denote_own_agree d d' :
  getCanonicalDecl d = getCanonicalDecl d' -> denote_own d = denote_own d'.
Proof.
  intros Hc. pose proof (Hredecl d d' Hc) as R. pose proof (redecl_context _ _ R) as Rc.
  pose proof (Hredecl _ _ Rc) as RC.
  destruct (redecl_name _ _ R) as (E0 & E1 & E2 & _). destruct (redecl_var _ _ R) as (V1 & V2 & V3).
  unfold denote_own, using_descriptor.
  rewrite (tag_descriptor_agree d d') // (function_descriptor_agree d d') //.
  rewrite !(denote_in_agree d d') // !(redecl_isa _ _ R) !(redecl_isa _ _ RC).
  rewrite E0 E1 E2 V1 V2 V3 (redecl_using _ _ R) (proj2 (redecl_tag _ _ RC)).
  rewrite (tag_descriptor_agree _ _ RC) (denote_in_agree _ _ _ RC).
  by rewrite (denote_ctx_agree _ _ _ _ (redecl_context _ _ RC) (redecl_package _ _ R)).
Qed.
End DenoteFacts.
End Denote.
