(* ===== verification/FormatterRefinement.v ===== *)
(** * The caching formatter refines the reference names

    [caches_ok]: whatever is in the caches is what the reference definition of
    QualifiedNames.v says.  Every getter of Formatter.v keeps it, and returns the
    qualified name of the declaration it is asked for. *)
From S2P Require Import Prelude CppString Ordering Paths PackageMaps IdPaths Symbols Clang.
From S2P Require Import Formatter QualifiedNames.

Section Refinement.
Context `{BM : BuildMode, AR : AbslReplace, CF : ClangFileID}.
Context {SM : ClangSourceManager} {CA : ClangAst} {CL : ClangAstLaws}.
Context `{HI : HashIteration, TH : TextHash}.
Variable fm : FileMetadataMap.
Hypothesis Hredecl : redeclarations_agree fm.
Hypothesis Hfm : forall f md, fm_map fm !! f = Some md -> FileID_isValid f = true.

Definition symbol_of (v : option SymbolBuilder) (r : option SymbolNameRef) : Prop :=
  match v with
  | Some sb => exists s, r = Some s /\ format sb = Ok s /\ ref_value s <> []
  | None => r = None
  end.

Record caches_ok (st : SymbolFormatter) : Prop := {
  ok_metadata : sfm_fileMetadataMap st = fm;
  ok_decl d s v : declBasedCache st !! getCanonicalDecl d = Some s ->
    denote_own fm d = Some v -> symbol_of v (Some s);
  ok_namespace d l s v :
    namespacePrefixCache st !! (Some (getCanonicalDecl d), getFileID l) = Some s ->
    denote_namespace fm d (expansion_file l) = Some v -> symbol_of v (Some s);
  ok_prefix f s : namespacePrefixCache st !! (None, f) = Some s ->
    symbol_of (d_prefix fm f) (Some s);
}.

(** Keys that an operation adds belong to declarations nested less than [n] deep. *)
Record frame (n : nat) (st st' : SymbolFormatter) : Prop := {
  frame_decl d : declBasedCache st !! getCanonicalDecl d = None ->
    declBasedCache st' !! getCanonicalDecl d <> None -> (nesting d < n)%nat;
  frame_namespace d f : namespacePrefixCache st !! (Some (getCanonicalDecl d), f) = None ->
    namespacePrefixCache st' !! (Some (getCanonicalDecl d), f) <> None -> (nesting d < n)%nat;
}.

Lemma frame_refl n st : frame n st st.
Proof. by split; intros; congruence. Qed.

Lemma frame_trans n st1 st2 st3 : frame n st1 st2 -> frame n st2 st3 -> frame n st1 st3.
Proof.
  intros [D1 N1] [D2 N2]. split.
  - intros d H1 H3. destruct (declBasedCache st2 !! getCanonicalDecl d) eqn:E.
    + apply D1; [done|by rewrite E].
    + by apply D2.
  - intros d f H1 H3. destruct (namespacePrefixCache st2 !! (Some (getCanonicalDecl d), f)) eqn:E.
    + apply (N1 d f); [done|by rewrite E].
    + by apply (N2 d f).
Qed.

Lemma frame_mono n m st st' : (n <= m)%nat -> frame n st st' -> frame m st st'.
Proof.
  intros Hn [D N]. split; [intros d H1 H2; pose proof (D d H1 H2); lia|].
  intros d f H1 H2. pose proof (N d f H1 H2). lia.
Qed.

(** An operation that leaves the caches consistent. *)
Definition keeps {A} (n : nat) (m : ST SymbolFormatter A) : Prop :=
  forall st r st', caches_ok st -> m st = Ok (r, st') -> caches_ok st' /\ frame n st st'.

(** An operation that computes the symbol that [o] denotes. *)
Definition refines (n : nat) (m : ST SymbolFormatter (option SymbolNameRef))
    (o : option (option SymbolBuilder)) : Prop :=
  keeps n m /\
  (forall st v, caches_ok st -> o = Some v -> exists r st', m st = Ok (r, st') /\ symbol_of v r).

Lemma refines_result n m o st r st' v :
  refines n m o -> caches_ok st -> m st = Ok (r, st') -> o = Some v -> symbol_of v r.
Proof.
  intros [_ Hm] Hst Hr Hv. destruct (Hm st v Hst Hv) as (r' & st'' & E & Hs).
  by rewrite Hr in E; simplify_eq.
Qed.

Lemma keeps_mono {A} n m (f : ST SymbolFormatter A) : (n <= m)%nat -> keeps n f -> keeps m f.
Proof.
  intros Hn Hf st r st' Hst Hr. destruct (Hf st r st' Hst Hr) as [? ?].
  split; [done|by apply (frame_mono n)].
Qed.
Lemma refines_mono n m f o : (n <= m)%nat -> refines n f o -> refines m f o.
Proof. intros Hn [Hk Hr]. split; [by apply (keeps_mono n)|done]. Qed.

Lemma keeps_id {A} n (m : ST SymbolFormatter A) :
  (forall st r st', m st = Ok (r, st') -> st' = st) -> keeps n m.
Proof. intros Hm st r st' Hst Hr. rewrite (Hm _ _ _ Hr). split; [done|apply frame_refl]. Qed.

Lemma keeps_ret {A} n (a : A) : keeps n (mret a).
Proof. apply keeps_id. by intros ??? [= _ <-]. Qed.
Lemma keeps_gets {A} n (f : SymbolFormatter -> A) : keeps n (st_gets f).
Proof. apply keeps_id. by intros ??? [= _ <-]. Qed.
Lemma keeps_lift {A} n (m : result A) : keeps n (st_lift m).
Proof. apply keeps_id. by intros ??? [_ ->]%st_lift_inv. Qed.
Lemma keeps_bind {A B} n (m : ST SymbolFormatter A) (k : A -> ST SymbolFormatter B) :
  keeps n m -> (forall a, keeps n (k a)) -> keeps n (m ≫= k).
Proof.
  intros Hm Hk st r st' Hst (a & st1 & H1 & H2)%ST_bind_inv.
  destruct (Hm _ _ _ Hst H1) as [Hst1 F1]. destruct (Hk a _ _ _ Hst1 H2) as [Hst2 F2].
  split; [done|by eapply frame_trans].
Qed.
Lemma keeps_optional {A B} n (o : option A) (k : A -> ST SymbolFormatter (option B)) :
  (forall a, keeps n (k a)) -> keeps n (st_optional o k).
Proof. destruct o as [a|]; [intros Hk; exact (Hk a)|intros; apply keeps_ret]. Qed.

Lemma refines_none n : refines n (mret None) (Some None).
Proof. split; [apply keeps_ret|]. intros st v _ [= <-]. by exists None, st. Qed.

Lemma refines_unnamed n m : keeps n m -> refines n m None.
Proof. done. Qed.

(** An operation that only fills the counters or the caches of macros and files. *)
Lemma keeps_modify n f :
  (forall st, sfm_fileMetadataMap (f st) = sfm_fileMetadataMap st
    /\ declBasedCache (f st) = declBasedCache st
    /\ namespacePrefixCache (f st) = namespacePrefixCache st) ->
  keeps n (st_modify f).
Proof.
  intros Hf st r st' [H1 H2 H3 H4] [= _ <-]. destruct (Hf st) as (E1 & E2 & E3).
  split; split; rewrite ?E1 ?E2 ?E3; try done; intros; congruence.
Qed.

(** ** Formatting in a context *)
Definition printable (d : DescriptorBuilder) : Prop :=
  match d_suffix d with UnspecifiedSuffix | Local_ => False | _ => True end.

Lemma formatContextual_printable c d :
  printable d -> exists s, formatContextual c d = Ok (mkSymbolNameRef (ref_value c ++ s)).
Proof.
  unfold printable, formatContextual, SymbolBuilder_formatContextual, DescriptorBuilder_formatTo.
  destruct (d_suffix d); try done; intros _; by eexists.
Qed.

Lemma formatIn_symbol_of c sb d st :
  symbol_of (Some sb) (Some c) -> printable d ->
  exists s, formatIn c d st = Ok (Some s, st) /\ symbol_of (Some (extend sb d)) (Some s).
Proof.
  intros (? & [= <-] & Hf & Hne) Hd. destruct (formatContextual_printable c d Hd) as [t Ht].
  exists (mkSymbolNameRef (ref_value c ++ t)). unfold formatIn.
  rewrite ST_bind_unfold /st_lift Ht /=. split; [done|].
  eexists. split_and!; [done| |by destruct (ref_value c)].
  unfold extend. destruct sb as [id ds]; simpl. by rewrite format_snoc Hf /= Ht.
Qed.

Lemma keeps_formatIn n c d : keeps n (formatIn c d).
Proof. apply keeps_bind; [apply keeps_lift|intros; apply keeps_ret]. Qed.

(** The common form of the getters: a symbol in the context's symbol. *)
Lemma refines_in n mctx octx k desc :
  refines n mctx octx -> (forall s, keeps n (k s)) ->
  (forall s sb v st, symbol_of (Some sb) (Some s) -> caches_ok st ->
     in_ctx (Some (Some sb)) desc = Some v ->
     exists r st', k s st = Ok (r, st') /\ symbol_of v r) ->
  refines n (o ← mctx; st_optional o k) (in_ctx octx desc).
Proof.
  intros Hctx Hk Hs. split.
  { apply keeps_bind; [apply Hctx|]. intros o. by apply keeps_optional. }
  intros st v Hst Hv. destruct octx as [octx|]; [|done].
  destruct (proj2 Hctx st octx Hst eq_refl) as (o & st1 & H1 & Ho).
  rewrite (ST_bind_Ok _ _ _ _ _ H1). destruct octx as [sb|].
  - destruct Ho as (s & -> & Hsb). apply (Hs s sb); [by exists s| |done].
    by destruct (proj1 Hctx st _ _ Hst H1).
  - simpl in Ho. subst o. simpl in Hv. simplify_eq. by exists None, st1.
Qed.

Lemma refines_formatIn n mctx octx d :
  refines n mctx octx -> printable d ->
  refines n (o ← mctx; st_optional o (fun c => formatIn c d)) (in_ctx octx (Some (Some d))).
Proof.
  intros Hctx Hd. apply refines_in; [done|intros; apply keeps_formatIn|].
  intros s sb v st Hs _ [= <-]. destruct (formatIn_symbol_of s sb d st Hs Hd) as (s' & H1 & H2).
  by exists (Some s'), st.
Qed.

(** ** Caching *)
Section Cached.
Context {K : Type} `{Countable K}.
Variables (get : SymbolFormatter -> gmap K SymbolNameRef)
  (set : gmap K SymbolNameRef -> SymbolFormatter -> SymbolFormatter) (key : K).
Variables (n n' : nat) (o : option (option SymbolBuilder)).
Variable m : ST SymbolFormatter (option SymbolNameRef).
Hypothesis Hhit : forall st s v, caches_ok st -> get st !! key = Some s -> o = Some v ->
  symbol_of v (Some s).
Hypothesis Hins : forall st s, caches_ok st -> (forall v, o = Some v -> symbol_of v (Some s)) ->
  caches_ok (set (<[key := s]> (get st)) st) /\ frame n' st (set (<[key := s]> (get st)) st).
Hypothesis Habsent : forall st r st1, frame n st st1 -> m st = Ok (r, st1) ->
  get st !! key = None -> get st1 !! key = None.
Hypothesis Hn : (n <= n')%nat.

Lemma cached_refines : refines n m o -> refines n' (cached get set key m) o.
Proof.
  intros Hm. split.
  - intros st r st' Hst. unfold cached. rewrite ST_bind_unfold /=.
    destruct (get st !! key) as [s|] eqn:Ek; [intros [= _ <-]; split; [done|apply frame_refl]|].
    intros (opt & st1 & H1 & H2)%ST_bind_inv.
    destruct (proj1 Hm _ _ _ Hst H1) as [Hst1 F1]. apply (frame_mono n n') in F1; [|done].
    destruct opt as [s|]; simpl in H2; [|by injection H2 as _ <-].
    apply ST_bind_inv in H2 as ([] & st2 & [_ ->]%st_lift_inv & H2).
    apply ST_bind_inv in H2 as (s' & st3 & H2 & [= _ ->]).
    unfold cache_insert in H2. rewrite ST_bind_unfold /= in H2.
    destruct (get st1 !! key) as [old|] eqn:Ek1.
    + apply ST_bind_inv in H2 as ([] & ? & [_ ->]%st_lift_inv & [= _ <-]). done.
    + apply Ok_inj in H2 as [= _ <-].
      destruct (Hins st1 s Hst1) as [Hst3 F3]; [|split; [done|by eapply frame_trans]].
      intros v Hv. by apply (refines_result n m o st (Some s) st1).
  - intros st v Hst Hv. unfold cached. rewrite ST_bind_unfold /=.
    destruct (get st !! key) as [s|] eqn:Ek; [exists (Some s), st; split; [done|by eapply Hhit]|].
    destruct (proj2 Hm st v Hst Hv) as (r & st1 & H1 & Hr). rewrite (ST_bind_Ok _ _ _ _ _ H1).
    destruct r as [s|]; [|by exists None, st1]. simpl.
    destruct v as [sb|]; [|done]. destruct Hr as (? & [= <-] & Hf & Hne).
    rewrite ST_bind_unfold /st_lift bool_decide_false //= ENFORCE_true /=.
    unfold cache_insert. rewrite !ST_bind_unfold /=.
    destruct (proj1 Hm _ _ _ Hst H1) as [_ F1]. rewrite (Habsent st (Some s) st1) //=.
    eexists _, _. split; [done|]. by exists s.
Qed.
End Cached.

Lemma getSymbolCached_refines n d m :
  (n <= nesting d)%nat -> refines n m (denote_own fm d) ->
  refines (S (nesting d)) (getSymbolCached d m) (denote_own fm d).
Proof.
  intros Hn Hm. unfold getSymbolCached. eapply cached_refines; [| | | |exact Hm]; [| | |lia].
  - intros st s v Hst Hk Hv. by apply (ok_decl _ Hst d).
  - intros st s [H1 H2 H3 H4] Hs. split.
    + split; [done| |done..]. intros d' s' v. simpl.
      rewrite lookup_insert_Some. intros [[Hc <-]|[_ Hl]]; [|by apply H2].
      rewrite -(denote_own_agree fm Hredecl d d') //. apply Hs.
    + split; simpl; [|congruence]. intros d' Hnone Hsome. rewrite lookup_insert in Hsome.
      case_decide as Hc; [|congruence]. pose proof (redecl_nesting _ _ _ (Hredecl _ _ Hc)). lia.
  - intros st r st1 F _ Hk. destruct (declBasedCache st1 !! getCanonicalDecl d) eqn:E; [|done].
    pose proof (frame_decl _ _ _ F d Hk ltac:(by rewrite E)). lia.
Qed.

Lemma getSymbolCached_loc_refines n d l m :
  (n <= nesting d)%nat -> refines n m (denote_namespace fm d (expansion_file l)) ->
  refines (S (nesting d)) (getSymbolCached_loc (Some d) l m)
    (denote_namespace fm d (expansion_file l)).
Proof.
  intros Hn Hm. unfold getSymbolCached_loc. eapply cached_refines; [| | | |exact Hm]; [| | |lia].
  - intros st s v Hst Hk Hv. by apply (ok_namespace _ Hst d l).
  - intros st s [H1 H2 H3 H4] Hs. split.
    + split; [done..| |].
      * intros d' l' s' v. simpl. rewrite lookup_insert_Some.
        intros [[[= Hc Hl] <-]|[_ Hk]]; [|by apply H3].
        assert (denote_namespace fm d' (expansion_file l')
                = denote_namespace fm d (expansion_file l)) as ->; [|apply Hs].
        pose proof (Hredecl _ _ Hc) as R. unfold denote_namespace, expansion_file.
        rewrite (expansion_file_of _ _ Hl) (namespace_descriptor_agree fm d d') //. f_equal.
        by apply (denote_ctx_agree fm Hredecl); [symmetry; apply (redecl_context _ _ _ R)|].
      * intros f s'. simpl. rewrite lookup_insert_ne //. apply H4.
    + split; simpl; [congruence|]. intros d' f Hnone Hsome. rewrite lookup_insert in Hsome.
      case_decide as Hc; [|congruence]. injection Hc as Hc _.
      pose proof (redecl_nesting _ _ _ (Hredecl _ _ Hc)). lia.
  - intros st r st1 F _ Hk. simpl.
    destruct (namespacePrefixCache st1 !! (Some (getCanonicalDecl d), getFileID l)) eqn:E; [|done].
    pose proof (frame_namespace _ _ _ F d _ Hk ltac:(by rewrite E)). lia.
Qed.

(** ** Contexts *)
Lemma d_prefix_format f sb :
  d_prefix fm f = Some sb -> exists s, format sb = Ok s /\ ref_value s <> [].
Proof.
  unfold d_prefix. destruct (getFileMetadata fm f) as [md|]; [|done]. intros [= <-].
  unfold format, SymbolBuilder_formatTo. simpl. eexists. split; [reflexivity|].
  simpl. intros [_ Hd]%app_eq_nil. done.
Qed.

Lemma getLocationBasedSymbolPrefix_refines l :
  refines 0 (getLocationBasedSymbolPrefix l) (Some (d_prefix fm (getFileID l))).
Proof.
  unfold getLocationBasedSymbolPrefix. destruct (loc_isValid l) eqn:Hl; simpl.
  - eapply (cached_refines _ _ _ 0); [| | |done|].
    + intros st s v Hst Hk [= <-]. by apply (ok_prefix _ Hst).
    + intros st s [H1 H2 H3 H4] Hs. split.
      * split; [done..| |].
        -- intros d' l' s' v. simpl. rewrite lookup_insert_ne //. apply H3.
        -- intros f s'. simpl. rewrite lookup_insert_Some.
           intros [[[= <-] <-]|[_ Hk]]; [by apply Hs|by apply H4].
      * split; simpl; [congruence|]. intros d' f Hnone. by rewrite lookup_insert_ne.
    + intros st r st1 F (md & ? & [= <- <-] & Hr)%ST_bind_inv Hk.
      destruct (getFileMetadata (sfm_fileMetadataMap st) (getFileID l)); [|by injection Hr as _ <-].
      by apply ST_bind_inv in Hr as (? & ? & [_ ->]%st_lift_inv & [= _ ->]).
    + split.
      * apply keeps_bind; [apply keeps_gets|]. intros m.
        destruct (getFileMetadata m (getFileID l)); [|apply keeps_ret].
        apply keeps_bind; [apply keeps_lift|intros; apply keeps_ret].
      * intros st v Hst [= <-]. rewrite ST_bind_unfold /= (ok_metadata _ Hst).
        pose proof (d_prefix_format (getFileID l)) as Hf. unfold d_prefix in *.
        destruct (getFileMetadata fm (getFileID l)) as [md|]; [|by exists None, st].
        destruct (Hf _ eq_refl) as (s & Hs & Hne). rewrite ST_bind_unfold /st_lift Hs /=.
        exists (Some s), st. split; [done|]. by exists s.
  - unfold d_prefix, getFileMetadata. destruct (fm_map fm !! getFileID l) eqn:E; [|apply refines_none].
    apply Hfm in E. by rewrite (invalid_loc_file l Hl) in E.
Qed.

Lemma not_TU d c :
  isa c d = true -> c = NamespaceDecl \/ c = TagDecl \/ c = FunctionDecl ->
  isa TranslationUnitDecl d = false.
Proof.
  intros Hi [->|[->| ->]]; [by apply (isa_not NamespaceDecl)|by apply isa_tag_not|
    by apply (isa_not FunctionDecl)].
Qed.

Section Contexts.
Variables (rec : Decl -> SourceLocation -> ST SymbolFormatter (option SymbolNameRef)) (n : nat).
Hypothesis Hrec : forall c l, (nesting c < n)%nat ->
  refines (S (nesting c)) (rec c l) (denote_ctx fm c (expansion_file l)).

Lemma rec_context d l :
  isa TranslationUnitDecl d = false -> (nesting d <= n)%nat ->
  refines (nesting d) (rec (getDeclContext d) l)
    (denote_ctx fm (getDeclContext d) (expansion_file l)).
Proof.
  intros Ht Hn. pose proof (nesting_context d Ht).
  apply (refines_mono (S (nesting (getDeclContext d)))); [lia|]. apply Hrec. lia.
Qed.

Lemma getNamespaceSymbolPrefix_refines d l :
  isa NamespaceDecl d = true -> (nesting d <= n)%nat ->
  refines (S (nesting d)) (getNamespaceSymbolPrefix_ rec d l)
    (denote_namespace fm d (expansion_file l)).
Proof.
  intros Hd Hn. apply (getSymbolCached_loc_refines (nesting d)); [done|].
  unfold denote_namespace. apply refines_in.
  - apply rec_context; [|done]. apply (not_TU d NamespaceDecl); auto.
  - intros c. apply keeps_bind; [|intros; apply keeps_formatIn].
    destruct (isAnonymousNamespace d); [|apply keeps_ret].
    repeat (apply keeps_bind; [apply keeps_lift || apply keeps_gets|intros]). apply keeps_ret.
  - intros c sb v st Hc Hst. simpl. unfold namespace_descriptor.
    assert (forall name, exists s,
      formatIn c (mkDescriptor name [] Namespace) st = Ok (Some s, st)
      /\ symbol_of (Some (extend sb (mkDescriptor name [] Namespace))) (Some s)) as Hname.
    { intros name. by apply formatIn_symbol_of. }
    destruct (isAnonymousNamespace d).
    + destruct (FileID_isValid getMainFileID); [|done].
      destruct (getStableFileId fm getMainFileID) as [sf|] eqn:Esf; [|done].
      intros [= <-]. set (nm := lit "$anonymous_namespace_" ++ rel_value (sf_path sf)).
      destruct (Hname nm) as (s & H1 & H2). exists (Some s), st. split; [|exact H2].
      rewrite -H1.
      apply (ST_bind_Ok _ (fun name => formatIn c (mkDescriptor name [] Namespace)) st nm st).
      rewrite ST_bind_unfold /st_lift ENFORCE_true bind_Ok.
      rewrite ST_bind_unfold {1}/st_gets (ok_metadata _ Hst) Esf.
      by rewrite ST_bind_unfold /= ENFORCE_true.
    + intros [= <-]. rewrite ST_bind_unfold /=. destruct (Hname (printName d)) as (s & H1 & H2).
      by exists (Some s), st.
Qed.

Lemma getTagSymbol_refines d :
  isa TagDecl d = true -> (nesting d <= n)%nat ->
  refines (S (nesting d)) (getTagSymbol_ rec d) (denote_own fm d).
Proof.
  intros Hd Hn. apply (getSymbolCached_refines (nesting d)); [done|].
  unfold denote_own, denote_in. rewrite Hd. apply refines_in.
  - apply rec_context; [|done]. apply (not_TU d TagDecl); auto.
  - intros c. destruct (negb (declNameIsEmpty d)); [apply keeps_formatIn|].
    apply keeps_optional. intros def. apply keeps_bind; [apply keeps_lift|intros _].
    apply keeps_bind; [|intros counter].
    { apply keeps_bind; [apply keeps_gets|intros]. apply keeps_bind; [by apply keeps_modify|].
      intros; apply keeps_ret. }
    apply keeps_bind; [apply keeps_gets|intros]. apply keeps_formatIn.
  - intros c sb v st Hc Hst. simpl. unfold tag_descriptor.
    destruct (negb (declNameIsEmpty d)).
    + intros [= <-]. destruct (formatIn_symbol_of c sb (mkDescriptor (printName d) [] Type_) st Hc I)
        as (s & H1 & H2). by exists (Some s), st.
    + destruct (getDefinition d); [done|]. intros [= <-]. by exists None, st.
Qed.

Lemma getFunctionSymbol_refines d :
  isa FunctionDecl d = true -> (nesting d <= n)%nat ->
  refines (S (nesting d)) (getFunctionSymbol_ rec d) (denote_own fm d).
Proof.
  intros Hd Hn. apply (getSymbolCached_refines (nesting d)); [done|].
  unfold denote_own, denote_in. rewrite (isa_not_tag FunctionDecl) // Hd.
  apply refines_formatIn; [|done]. apply rec_context; [|done].
  apply (not_TU d FunctionDecl); auto.
Qed.

Lemma getContextSymbol_refines_ d l :
  (nesting d <= n)%nat ->
  refines (S (nesting d)) (getContextSymbol_ rec d l) (denote_ctx fm d (expansion_file l)).
Proof.
  intros Hn. rewrite denote_ctx_unfold. unfold getContextSymbol_.
  destruct (isa NamespaceDecl d) eqn:EN.
  { pose proof (getNamespaceSymbolPrefix_refines d (getExpansionLoc l) EN Hn) as Hns.
    unfold expansion_file in Hns at 1. by rewrite expansion_idempotent in Hns. }
  destruct (isa TagDecl d) eqn:ET.
  { pose proof (getTagSymbol_refines d ET Hn) as Ht. unfold denote_own in Ht. by rewrite ET in Ht. }
  destruct (isa TranslationUnitDecl d || isa ExternCContextDecl d).
  { apply (refines_mono 0); [lia|]. apply getLocationBasedSymbolPrefix_refines. }
  destruct (isa FunctionDecl d) eqn:EF; [|apply refines_none].
  pose proof (getFunctionSymbol_refines d EF Hn) as Hf. unfold denote_own in Hf.
  by rewrite ET EF in Hf.
Qed.
End Contexts.

Lemma getContextSymbol_fuel_refines n d l :
  (nesting d < n)%nat ->
  refines (S (nesting d)) (getContextSymbol_fuel n d l) (denote_ctx fm d (expansion_file l)).
Proof.
  revert d l. induction n as [|n IH]; intros d l Hn; [lia|]. simpl.
  apply (getContextSymbol_refines_ _ n); [|lia]. intros c l' Hc. by apply IH.
Qed.

Lemma getContextSymbol_refines d l :
  refines (S (nesting d)) (getContextSymbol d l) (denote_ctx fm d (expansion_file l)).
Proof. apply getContextSymbol_fuel_refines. lia. Qed.

(** The context of a declaration that is nested in one. *)
Lemma context_of_refines d l :
  isa TranslationUnitDecl d = false ->
  refines (nesting d) (getContextSymbol (getDeclContext d) l)
    (denote_ctx fm (getDeclContext d) (expansion_file l)).
Proof.
  intros Ht. pose proof (nesting_context d Ht).
  apply (refines_mono (S (nesting (getDeclContext d)))); [lia|]. apply getContextSymbol_refines.
Qed.

Lemma getTag_refines d :
  isa TagDecl d = true -> refines (S (nesting d)) (getTagSymbol d) (denote_own fm d).
Proof.
  intros Hd. apply (getTagSymbol_refines _ (nesting d)); [|done|lia].
  intros c l _. apply getContextSymbol_refines.
Qed.

Lemma getFunction_refines d :
  isa FunctionDecl d = true -> refines (S (nesting d)) (getFunctionSymbol d) (denote_own fm d).
Proof.
  intros Hd. apply (getFunctionSymbol_refines _ (nesting d)); [|done|lia].
  intros c l _. apply getContextSymbol_refines.
Qed.

Lemma getNamespace_refines d l :
  isa NamespaceDecl d = true ->
  refines (S (nesting d)) (getNamespaceSymbolPrefix d l) (denote_namespace fm d (expansion_file l)).
Proof.
  intros Hd. apply (getNamespaceSymbolPrefix_refines _ (nesting d)); [|done|lia].
  intros c l' _. apply getContextSymbol_refines.
Qed.

(** ** The other getters

    [other_classes X]: a declaration of class [X] is of no other class. *)
Ltac other_classes X :=
  repeat match goal with
  | Hd : isa X ?d = true |- context [isa TagDecl ?d] => rewrite (isa_not_tag X d Hd); [done..|]
  | Hd : isa X ?d = true |- context [isa ?c ?d] =>
      lazymatch c with
      | X => rewrite Hd
      | _ => rewrite (isa_not X c d Hd); [done..|]
      end
  end; simpl.

Lemma inContext_refines d desc :
  isa TranslationUnitDecl d = false -> printable desc ->
  refines (nesting d) (inContext d desc) (denote_in fm d (Some (Some desc))).
Proof.
  intros Ht Hd. unfold inContext, denote_in. apply refines_formatIn; [|done].
  by apply context_of_refines.
Qed.

Lemma getField_refines d :
  isa FieldDecl d = true -> refines (S (nesting d)) (getFieldSymbol d) (denote_own fm d).
Proof.
  intros Hd. unfold getFieldSymbol. destruct (declNameIsEmpty d) eqn:En.
  { unfold denote_own. other_classes FieldDecl. rewrite En. apply refines_none. }
  apply (getSymbolCached_refines (nesting d)); [done|].
  unfold denote_own. other_classes FieldDecl. rewrite En.
  apply inContext_refines; [by other_classes FieldDecl|done].
Qed.

Lemma getTypedefName_refines d :
  isa TypedefNameDecl d = true -> refines (S (nesting d)) (getTypedefNameSymbol d) (denote_own fm d).
Proof.
  intros Hd. apply (getSymbolCached_refines (nesting d)); [done|].
  unfold denote_own. other_classes TypedefNameDecl.
  apply inContext_refines; [by other_classes TypedefNameDecl|done].
Qed.

Lemma getEnumConstant_refines d :
  isa EnumConstantDecl d = true ->
  refines (S (nesting d)) (getEnumConstantSymbol d) (denote_own fm d).
Proof.
  intros Hd. apply (getSymbolCached_refines (nesting d)); [done|].
  unfold denote_own. other_classes EnumConstantDecl.
  assert (isa TranslationUnitDecl d = false) as Ht by by other_classes EnumConstantDecl.
  pose proof (nesting_context d Ht) as Hlt.
  destruct (isa EnumDecl (getDeclContext d)) eqn:Ep.
  - assert (isa TagDecl (getDeclContext d) = true) as Etag by by rewrite isa_tag Ep.
    assert (isa TranslationUnitDecl (getDeclContext d) = false) as Htp
      by (apply (not_TU _ TagDecl); auto).
    pose proof (nesting_context _ Htp) as Hlt'.
    assert (refines (nesting d)
      (optContextSymbol ← (if isScoped (getDeclContext d) then getEnumSymbol (getDeclContext d)
         else getContextSymbol (getDeclContext (getDeclContext d)) (getLocation d));
       st_optional optContextSymbol (fun contextSymbol =>
         formatIn contextSymbol (mkDescriptor (getName d) [] Term)))
      (in_ctx (if isScoped (getDeclContext d)
               then denote_in fm (getDeclContext d) (tag_descriptor (getDeclContext d))
               else denote_ctx fm (getDeclContext (getDeclContext d)) (expansion_file (getLocation d)))
        (Some (Some (mkDescriptor (getName d) [] Term))))) as Hin.
    { apply refines_formatIn; [|done]. destruct (isScoped (getDeclContext d)).
      - pose proof (getTag_refines (getDeclContext d) Etag) as Hr.
        unfold denote_own in Hr. rewrite Etag in Hr. by apply (refines_mono (S (nesting (getDeclContext d)))).
      - apply (refines_mono (nesting (getDeclContext d))); [lia|]. by apply context_of_refines. }
    destruct Hin as [K R]. split.
    + apply keeps_bind; [apply keeps_lift|done].
    + intros st v Hst Hv. rewrite ST_bind_unfold /st_lift ENFORCE_true /=. by apply R.
  - apply refines_unnamed. apply keeps_bind; [apply keeps_lift|intros; apply keeps_ret].
Qed.

Lemma usingShadowSuffix_printable fuel d s dis name :
  usingShadowSuffix fuel d = Ok (Some (s, dis)) -> printable (mkDescriptor name dis s).
Proof.
  revert d. induction fuel as [|fuel IH]; intros d; simpl; [done|].
  repeat case_match; intros; simplify_eq; try done. by eapply IH.
Qed.
#[local] Arguments usingShadowSuffix : simpl never.

Lemma getUsingShadow_refines d :
  isa UsingShadowDecl d = true -> refines (S (nesting d)) (getUsingShadowSymbol d) (denote_own fm d).
Proof.
  intros Hd. unfold getUsingShadowSymbol. destruct (declNameIsEmpty d) eqn:En.
  { unfold denote_own. other_classes UsingShadowDecl. rewrite En. apply refines_none. }
  apply (getSymbolCached_refines (nesting d)); [done|].
  unfold denote_own. other_classes UsingShadowDecl. rewrite En. unfold denote_in.
  apply refines_in.
  - apply context_of_refines. by other_classes UsingShadowDecl.
  - intros c. apply keeps_bind; [apply keeps_lift|]. intros o. apply keeps_optional.
    intros []. apply keeps_formatIn.
  - intros c sb v st Hc Hst. cbn [in_ctx]. unfold using_descriptor.
    set (suffix := usingShadowSuffix 2 _).
    pose proof (fun s dis => usingShadowSuffix_printable 2 (getCanonicalDecl (getUnderlyingDecl d))
      s dis (printName d)) as Hp.
    change (usingShadowSuffix 2 (getCanonicalDecl (getUnderlyingDecl d))) with suffix in Hp.
    clearbody suffix.
    destruct suffix as [[[suf dis]|]|e]; [|intros [= <-]; by exists None, st|done].
    intros [= <-]. destruct (formatIn_symbol_of c sb (mkDescriptor (printName d) dis suf) st Hc
      (Hp _ _ eq_refl)) as (s & H1 & H2). by exists (Some s), st.
Qed.

Lemma keeps_local d : denote_own fm d = None -> keeps (S (nesting d)) (getNextLocalSymbol d).
Proof.
  intros Hd. unfold getNextLocalSymbol. destruct (declNameIsEmpty d); [apply keeps_ret|].
  apply (getSymbolCached_refines (nesting d)); [done|]. rewrite Hd. apply refines_unnamed.
  apply keeps_bind; [|intros; apply keeps_ret].
  apply keeps_bind; [apply keeps_gets|intros]. apply keeps_bind; [by apply keeps_modify|].
  intros; apply keeps_ret.
Qed.

Lemma getVar_refines d :
  isa VarDecl d = true -> refines (S (nesting d)) (getVarSymbol d) (denote_own fm d).
Proof.
  intros Hd. assert (isa TranslationUnitDecl d = false) as Ht by by other_classes VarDecl.
  assert (denote_own fm d =
    if isLocalVarDeclOrParm d && negb (isLocalExternDecl d) then None
    else if declNameIsEmpty d then Some None
    else match getVarKind d with
         | VarTemplatePartialSpecialization | VarTemplateSpecialization | Var =>
             denote_in fm d (Some (Some (mkDescriptor (getName d) [] Term)))
         | OMPCapturedExpr | OtherVarKind => Some None
         | Decomposition | ParmVar => None
         end) as E by (unfold denote_own; by other_classes VarDecl).
  unfold getVarSymbol. destruct (isLocalVarDeclOrParm d && negb (isLocalExternDecl d)).
  { rewrite E. apply refines_unnamed. apply keeps_bind; [apply keeps_lift|intros _].
    by apply keeps_local. }
  destruct (declNameIsEmpty d); [rewrite E; apply refines_none|].
  apply (getSymbolCached_refines (nesting d)); [done|]. rewrite E.
  destruct (getVarKind d); try apply refines_none;
    try (apply inContext_refines; done);
    apply refines_unnamed; apply keeps_bind; (apply keeps_lift || intros; apply keeps_ret).
Qed.

(** A declaration that is not of the classes named in [qualified_name]. *)
Lemma qualified_name_own d :
  isa NamespaceDecl d = false -> isa ClassTemplateDecl d = false ->
  isa FunctionTemplateDecl d = false -> isa TypeAliasTemplateDecl d = false ->
  isa VarTemplateDecl d = false -> qualified_name fm d = denote_own fm d.
Proof. intros E1 E2 E3 E4 E5. unfold qualified_name. by rewrite E1 E2 E3 E4 E5. Qed.

Lemma qualified_name_templated d :
  isa NamespaceDecl d = false ->
  isa ClassTemplateDecl d || isa FunctionTemplateDecl d || isa TypeAliasTemplateDecl d
    || isa VarTemplateDecl d = true ->
  qualified_name fm d = denote_own fm (getTemplatedDecl d).
Proof. intros E1 E2. unfold qualified_name. by rewrite E1 E2. Qed.

Lemma local_class_refines c d :
  isa c d = true -> c = BindingDecl \/ c = NonTypeTemplateParmDecl \/ c = TemplateTemplateParmDecl
    \/ c = TemplateTypeParmDecl ->
  refines (S (nesting d)) (getNextLocalSymbol d) (qualified_name fm d).
Proof.
  intros Hd Hc. assert (denote_own fm d = None /\ qualified_name fm d = None) as [E1 E2].
  { unfold qualified_name, denote_own. destruct Hc as [->|[->|[->| ->]]].
    - by other_classes BindingDecl.
    - by other_classes NonTypeTemplateParmDecl.
    - by other_classes TemplateTemplateParmDecl.
    - by other_classes TemplateTypeParmDecl. }
  rewrite E2. apply refines_unnamed. by apply keeps_local.
Qed.

Lemma getNamedDecl_refines d : exists n, refines n (getNamedDeclSymbol d) (qualified_name fm d).
Proof.
  destruct (isa_templated d) as (T1 & T2 & T3 & T4).
  unfold getNamedDeclSymbol, FOR_EACH_DECL_TO_BE_INDEXED. cbn [dispatch].
  destruct (isa BindingDecl d) eqn:E1; [eexists; by eapply local_class_refines; eauto|].
  destruct (isa ClassTemplateDecl d) eqn:E2.
  { eexists. rewrite qualified_name_templated; [by other_classes ClassTemplateDecl|by rewrite E2|].
    apply getTag_refines. rewrite isa_tag (T1 eq_refl). apply orb_true_r. }
  destruct (isa EnumConstantDecl d) eqn:E3.
  { eexists. rewrite qualified_name_own; [by other_classes EnumConstantDecl..|].
    by apply getEnumConstant_refines. }
  destruct (isa EnumDecl d) eqn:E4.
  { eexists. rewrite qualified_name_own; [by other_classes EnumDecl..|].
    apply getTag_refines. by rewrite isa_tag E4. }
  destruct (isa FieldDecl d) eqn:E5.
  { eexists. rewrite qualified_name_own; [by other_classes FieldDecl..|]. by apply getField_refines. }
  destruct (isa FunctionDecl d) eqn:E6.
  { eexists. rewrite qualified_name_own; [by other_classes FunctionDecl..|].
    by apply getFunction_refines. }
  destruct (isa FunctionTemplateDecl d) eqn:E7.
  { eexists. rewrite qualified_name_templated; [by other_classes FunctionTemplateDecl| |].
    - by rewrite E7 !orb_true_r.
    - apply getFunction_refines. auto. }
  destruct (isa NamespaceDecl d) eqn:E8.
  { eexists. unfold qualified_name. rewrite E8. by apply getNamespace_refines. }
  destruct (isa NonTypeTemplateParmDecl d) eqn:E9; [eexists; by eapply local_class_refines; eauto|].
  destruct (isa RecordDecl d) eqn:E10.
  { eexists. rewrite qualified_name_own; [by other_classes RecordDecl..|].
    apply getTag_refines. by rewrite isa_tag E10 orb_true_r. }
  destruct (isa TemplateTemplateParmDecl d) eqn:E11; [eexists; by eapply local_class_refines; eauto|].
  destruct (isa TemplateTypeParmDecl d) eqn:E12; [eexists; by eapply local_class_refines; eauto 6|].
  destruct (isa TypeAliasTemplateDecl d) eqn:E13.
  { eexists. rewrite qualified_name_templated; [done| |].
    - by rewrite E13 !orb_true_r.
    - apply getTypedefName_refines. auto. }
  destruct (isa TypedefNameDecl d) eqn:E14.
  { eexists. rewrite qualified_name_own; [by other_classes TypedefNameDecl..|].
    by apply getTypedefName_refines. }
  destruct (isa UsingShadowDecl d) eqn:E15.
  { eexists. rewrite qualified_name_own; [by other_classes UsingShadowDecl..|].
    by apply getUsingShadow_refines. }
  destruct (isa UsingDecl d) eqn:E16.
  { exists 0%nat. rewrite qualified_name_own; [by other_classes UsingDecl..|].
    unfold denote_own. other_classes UsingDecl. apply refines_unnamed.
    apply keeps_bind; [apply keeps_lift|intros; apply keeps_ret]. }
  destruct (isa VarDecl d) eqn:E17.
  { eexists. rewrite qualified_name_own; [by other_classes VarDecl..|]. by apply getVar_refines. }
  destruct (isa VarTemplateDecl d) eqn:E18.
  { eexists. rewrite qualified_name_templated; [done| |].
    - by rewrite E18 !orb_true_r.
    - apply getVar_refines. auto. }
  exists 0%nat. rewrite qualified_name_own //. unfold denote_own.
  rewrite isa_tag E4 E10 E6 E3 E5 E14 E15 E17 /=. apply refines_unnamed, keeps_ret.
Qed.

(** ** Queries in any order

    Everything that the rest of the indexer asks the formatter. *)
Inductive Query : Type :=
| AskDecl (d : Decl)
| AskMacro (defLoc : SourceLocation)
| AskFile (fileMetadata : FileMetadata).

Definition ask (q : Query) : ST SymbolFormatter (option SymbolNameRef) :=
  match q with
  | AskDecl d => getNamedDeclSymbol d
  | AskMacro defLoc => symbol ← getMacroSymbol defLoc; mret (Some symbol)
  | AskFile fileMetadata => symbol ← getFileSymbol fileMetadata; mret (Some symbol)
  end.

Fixpoint ask_all (qs : list Query) : ST SymbolFormatter (list (option SymbolNameRef)) :=
  match qs with
  | [] => mret []
  | q :: qs => answer ← ask q; answers ← ask_all qs; mret (answer :: answers)
  end.

Lemma keeps_macro_or_file `{Countable K} n (get : SymbolFormatter -> gmap K SymbolNameRef) set
    (key : K) (mk : ST SymbolFormatter SymbolNameRef) what :
  (forall m st, sfm_fileMetadataMap (set m st) = sfm_fileMetadataMap st
    /\ declBasedCache (set m st) = declBasedCache st
    /\ namespacePrefixCache (set m st) = namespacePrefixCache st) ->
  keeps n mk -> keeps n (symbol ← mk; cache_insert get set key symbol what).
Proof.
  intros Hset Hmk. apply keeps_bind; [done|]. intros symbol. unfold cache_insert.
  apply keeps_bind; [apply keeps_gets|]. intros cache. destruct (cache !! key).
  - apply keeps_bind; [apply keeps_lift|intros; apply keeps_ret].
  - apply keeps_bind; [|intros; apply keeps_ret]. apply keeps_modify. intros st. apply Hset.
Qed.

Lemma keeps_getMacroSymbol n l : keeps n (getMacroSymbol l).
Proof.
  unfold getMacroSymbol. apply keeps_bind; [apply keeps_gets|]. intros cache.
  destruct (cache !! l); [apply keeps_ret|]. cbv zeta.
  apply keeps_bind; [apply keeps_lift|intros _]. apply keeps_bind; [apply keeps_gets|intros md].
  destruct (match getFileMetadata md _ with Some _ => _ | None => _ end) as [path id].
  by apply keeps_macro_or_file; [|apply keeps_lift].
Qed.

Lemma keeps_getFileSymbol n md : keeps n (getFileSymbol md).
Proof.
  unfold getFileSymbol. apply keeps_bind; [apply keeps_gets|]. intros cache.
  destruct (cache !! stableFileId md); [apply keeps_ret|]. cbv zeta.
  by apply keeps_macro_or_file; [|apply keeps_lift].
Qed.

Definition consistent {A} (m : ST SymbolFormatter A) : Prop :=
  forall st r st', caches_ok st -> m st = Ok (r, st') -> caches_ok st'.

Lemma ask_consistent q : consistent (ask q).
Proof.
  intros st r st' Hst. destruct q as [d|l|md]; simpl.
  - intros Hr. destruct (getNamedDecl_refines d) as (n & K & _). by destruct (K _ _ _ Hst Hr).
  - intros (s & st1 & Hr & [= _ <-])%ST_bind_inv. by apply (keeps_getMacroSymbol 0 l st s).
  - intros (s & st1 & Hr & [= _ <-])%ST_bind_inv. by apply (keeps_getFileSymbol 0 md st s).
Qed.

Lemma ask_all_consistent qs : consistent (ask_all qs).
Proof.
  induction qs as [|q qs IH]; intros st r st' Hst; simpl; [by intros [= _ <-]|].
  intros (a & st1 & H1 & (b & st2 & H2 & [= _ <-])%ST_bind_inv)%ST_bind_inv.
  apply (IH st1 b); [|done]. by apply (ask_consistent q st a).
Qed.

Lemma new_caches_ok : caches_ok (SymbolFormatter_new fm).
Proof. by split. Qed.

Lemma ask_all_names earlier answers st d v :
  ask_all earlier (SymbolFormatter_new fm) = Ok (answers, st) -> qualified_name fm d = Some v ->
  exists r st', getNamedDeclSymbol d st = Ok (r, st') /\ symbol_of v r.
Proof.
  intros He Hv. pose proof (ask_all_consistent _ _ _ _ new_caches_ok He) as Hst.
  destruct (getNamedDecl_refines d) as (n & _ & R). by apply R.
Qed.
End Refinement.

(** ** Concrete inputs *)
Lemma demo_ast_laws : @ClangAstLaws demo_files demo_sm demo_ast.
Proof.
  split.
  - by intros [] [] [].
  - by intros [].
  - by intros [].
  - intros []; cbn; intros; (done || lia).
  - done.
  - done.
  - intros l Hl. cbn in *. apply Z.ltb_ge in Hl. unfold negb.
    assert (l / 10000 <= 0) by (apply Z.div_le_upper_bound; lia).
    destruct (l / 10000) eqn:E; [done|lia|done].
Qed.

(** File 1 is [/p/a.cc], in project [n@1]. *)
Definition demo_metadata_map : @FileMetadataMap demo_files :=
  match @insert true posix_path demo_fs demo_files demo_hash (demo_fm demo_base) 1%N
          (mkAbsolutePathRef (lit "/p/a.cc")) with
  | Ok (_, fm) => fm
  | Err _ => demo_fm demo_base
  end.

Definition demo_queries : list (@Query demo_files demo_sm demo_ast) :=
  [@AskDecl demo_files demo_sm demo_ast DCfwd; @AskDecl demo_files demo_sm demo_ast DAnon;
   @AskDecl demo_files demo_sm demo_ast DLocal; @AskMacro demo_files demo_sm demo_ast 10101].

Lemma demo_metadata_valid f md :
  @fm_map demo_files demo_metadata_map !! f = Some md -> @FileID_isValid demo_files f = true.
Proof.
  assert (exists md, @fm_map demo_files demo_metadata_map = {[1%N := md]}) as [md' ->]
    by (eexists; vm_compute; reflexivity).
  by intros [<- _]%lookup_singleton_Some.
Qed.

Lemma demo_redeclarations : @redeclarations_agree demo_files demo_sm demo_ast demo_hash demo_metadata_map.
Proof.
  intros [] []; cbn; intros; try discriminate; split; try done; vm_compute;
    (reflexivity || by split_and!).
Qed.

Definition demo_run := @ask_all true demo_replace demo_files demo_sm demo_ast demo_hash demo_queries
  (SymbolFormatter_new demo_metadata_map).
Definition demo_answers : list (option SymbolNameRef) :=
  match demo_run with Ok (answers, _) => answers | Err _ => [] end.
Definition demo_state : @SymbolFormatter demo_files demo_sm demo_ast :=
  match demo_run with Ok (_, st) => st | Err _ => SymbolFormatter_new demo_metadata_map end.
Lemma demo_asked : demo_run = Ok (demo_answers, demo_state).
Proof.
  assert (is_ok demo_run = true) as Hok by (vm_compute; reflexivity).
  unfold demo_answers, demo_state. by destruct demo_run as [[]|].
Qed.
Definition demo_qualified : SymbolBuilder :=
  mkSymbolBuilder (mkPackageId (lit "n") (lit "1"))
    [mkDescriptor (lit "ns") [] Namespace; mkDescriptor (lit "C") [] Type_;
     mkDescriptor (lit "f") (lit "7") Method].

(** C8. Whatever the formatter was asked before, in whatever order (declarations,
    macros, files), the symbol that [getNamedDeclSymbol] returns for a declaration
    is its qualified name: the package of the file it is in and one descriptor per
    enclosing namespace, type or function.  The caches are invisible, as long as
    redeclarations agree with each other; the recursion over contexts returns. *)
Theorem formatter_computes_qualified_names
    `{BM : BuildMode, AR : AbslReplace, CF : ClangFileID}
    {SM : ClangSourceManager} {CA : ClangAst} {CL : ClangAstLaws}
    `{TH : TextHash} (fm : FileMetadataMap) :
  redeclarations_agree fm ->
  (forall f md, fm_map fm !! f = Some md -> FileID_isValid f = true) ->
  forall earlier answers st d v,
    ask_all earlier (SymbolFormatter_new fm) = Ok (answers, st) ->
    qualified_name fm d = Some v ->
    exists r st', getNamedDeclSymbol d st = Ok (r, st')
      /\ match v with
         | Some sb => exists s, r = Some s /\ format sb = Ok s
         | None => r = None
         end.
Proof.
  intros Hr Hfm earlier answers st d v He Hv.
  destruct (ask_all_names fm Hr Hfm _ _ _ _ _ He Hv) as (r & st' & H1 & H2).
  exists r, st'. split; [done|]. destruct v as [sb|]; [|done].
  destruct H2 as (s & -> & Hf & _). by exists s.
Qed.

Lemma formatter_computes_qualified_names_witness :
  exists r st',
    @getNamedDeclSymbol true demo_replace demo_files demo_sm demo_ast demo_hash DF demo_state
      = Ok (r, st')
    /\ exists s, r = Some s /\ @format true demo_replace demo_qualified = Ok s.
Proof.
  apply (@formatter_computes_qualified_names true demo_replace demo_files demo_sm demo_ast
    demo_ast_laws demo_hash demo_metadata_map demo_redeclarations demo_metadata_valid
    demo_queries demo_answers demo_state DF (Some demo_qualified)).
  - exact demo_asked.
  - vm_compute. reflexivity.
Defined.
