(* ===== verification/CommandLine.v ===== *)
(** * Command lines: splitting and cleaning

    LlvmCommandLineParsing.cc ([CommandLineArgumentParser]) splits the
    ["command"] string of a compilation database entry, and
    CommandLineCleaner.cc ([CommandLineCleaner]) removes options that Clang
    does not know.  The parser is an imperative scanner over an iterator: its
    state is the input from [Position] on and the accumulated string, a read
    through the end iterator is [Err OutOfRange], and loops carry fuel.  The
    theorems relate it to a character automaton. *)
From S2P Require Import Prelude Ordering CppString.

(** The double quote. *)
Definition dquote : ascii := "034".

(** ** LlvmCommandLineParsing.cc *)
Module Parser.

(** The iterator [Position] is the suffix of [Input] that starts at it;
    [Input.begin() - 1] is the input with one byte in front that is never read. *)
Record CommandLineArgumentParser : Type := mkParser { Position : str }.

Definition CommandLineArgumentParser_new (CommandLine : str) : CommandLineArgumentParser :=
  mkParser (zero :: CommandLine).

(** [*Position]. *)
Definition deref (this : CommandLineArgumentParser) : result ascii :=
  match Position this with c :: _ => Ok c | [] => Err OutOfRange end.

Definition next (this : CommandLineArgumentParser) : bool * CommandLineArgumentParser :=
  let rest := tail (Position this) in
  (negb (bool_decide (rest = [])), mkParser rest).

Definition skipEscapeCharacter (this : CommandLineArgumentParser)
    : result (bool * CommandLineArgumentParser) :=
  c ← deref this;
  if Ascii.eqb c "\" then Ok (next this) else Ok (true, this).

Fixpoint nextNonWhitespace (fuel : nat) (this : CommandLineArgumentParser)
    : result (bool * CommandLineArgumentParser) :=
  match fuel with
  | O => Err OutOfFuel
  | S fuel' =>
      let '(more, this) := next this in
      if negb more then Ok (false, this)
      else
        c ← deref this;
        if Ascii.eqb c " " then nextNonWhitespace fuel' this else Ok (true, this)
  end.

(** The [while] loop of [parseDoubleQuotedStringInto], and the final [next]. *)
Fixpoint doubleQuotedLoop (fuel : nat) (this : CommandLineArgumentParser) (String : str)
    : result (bool * CommandLineArgumentParser * str) :=
  match fuel with
  | O => Err OutOfFuel
  | S fuel' =>
      c ← deref this;
      if Ascii.eqb c dquote then Ok (next this, String)
      else
        '(more, this) ← skipEscapeCharacter this;
        if negb more then Ok (false, this, String)
        else
          d ← deref this;
          let '(more, this) := next this in
          if negb more then Ok (false, this, String ++ [d])
          else doubleQuotedLoop fuel' this (String ++ [d])
  end.

Definition parseDoubleQuotedStringInto (fuel : nat) (this : CommandLineArgumentParser)
    (String : str) : result (bool * CommandLineArgumentParser * str) :=
  let '(more, this) := next this in
  if negb more then Ok (false, this, String) else doubleQuotedLoop fuel this String.

Fixpoint singleQuotedLoop (fuel : nat) (this : CommandLineArgumentParser) (String : str)
    : result (bool * CommandLineArgumentParser * str) :=
  match fuel with
  | O => Err OutOfFuel
  | S fuel' =>
      c ← deref this;
      if Ascii.eqb c "'" then Ok (next this, String)
      else
        let '(more, this) := next this in
        if negb more then Ok (false, this, String ++ [c])
        else singleQuotedLoop fuel' this (String ++ [c])
  end.

Definition parseSingleQuotedStringInto (fuel : nat) (this : CommandLineArgumentParser)
    (String : str) : result (bool * CommandLineArgumentParser * str) :=
  let '(more, this) := next this in
  if negb more then Ok (false, this, String) else singleQuotedLoop fuel this String.

Fixpoint parseFreeStringInto (fuel : nat) (this : CommandLineArgumentParser) (String : str)
    : result (bool * CommandLineArgumentParser * str) :=
  match fuel with
  | O => Err OutOfFuel
  | S fuel' =>
      '(more, this) ← skipEscapeCharacter this;
      if negb more then Ok (false, this, String)
      else
        d ← deref this;
        let '(more, this) := next this in
        if negb more then Ok (false, this, String ++ [d])
        else
          c ← deref this;
          if negb (Ascii.eqb c " ") && negb (Ascii.eqb c dquote) && negb (Ascii.eqb c "'")
          then parseFreeStringInto fuel' this (String ++ [d])
          else Ok (true, this, String ++ [d])
  end.

Fixpoint parseStringInto (fuel : nat) (this : CommandLineArgumentParser) (String : str)
    : result (bool * CommandLineArgumentParser * str) :=
  match fuel with
  | O => Err OutOfFuel
  | S fuel' =>
      c ← deref this;
      '(more, this, String) ←
        (if Ascii.eqb c dquote then parseDoubleQuotedStringInto fuel' this String
         else if Ascii.eqb c "'" then parseSingleQuotedStringInto fuel' this String
         else parseFreeStringInto fuel' this String);
      if negb more then Ok (false, this, String)
      else
        c ← deref this;
        if negb (Ascii.eqb c " ") then parseStringInto fuel' this String
        else Ok (true, this, String)
  end.

(** The [while] loop of [parse]; the argument is the accumulated result. *)
Fixpoint parse_loop (fuel : nat) (this : CommandLineArgumentParser) (CommandLine : list str)
    : result (list str) :=
  match fuel with
  | O => Err OutOfFuel
  | S fuel' =>
      '(more, this) ← nextNonWhitespace fuel' this;
      if negb more then Ok CommandLine
      else
        '(HasMoreInput, this, Argument) ← parseStringInto fuel' this [];
        if (HasMoreInput : bool) then parse_loop fuel' this (CommandLine ++ [Argument])
        else Ok (CommandLine ++ [Argument])
  end.

Definition parse (this : CommandLineArgumentParser) : result (list str) :=
  parse_loop (S (S (length (Position this)))) this [].

Inductive JSONCommandLineSyntax : Type := Windows | Gnu | AutoDetect.
#[export] Instance JSONCommandLineSyntax_eq_dec : EqDecision JSONCommandLineSyntax.
Proof. solve_decision. Defined.

(** [llvm::cl::TokenizeWindowsCommandLine], a parameter. *)
Class WindowsTokenizer : Type := TokenizeWindowsCommandLine : str -> list str.

(** On a platform other than Windows. *)
Definition unescapeCommandLine {B : BuildMode} {W : WindowsTokenizer}
    (Syntax : JSONCommandLineSyntax) (EscapedCommandLine : str) : result (list str) :=
  let Syntax := if bool_decide (Syntax = AutoDetect) then Gnu else Syntax in
  if bool_decide (Syntax = Windows) then Ok (TokenizeWindowsCommandLine EscapedCommandLine)
  else
    ENFORCE (bool_decide (Syntax = Gnu)) "Already handled other cases earlier" ;;
    parse (CommandLineArgumentParser_new EscapedCommandLine).

(** ** The splitting as a character automaton

    Between arguments, inside an argument outside quotes, after a backslash
    there, inside double quotes, after a backslash there, inside single
    quotes. *)
Inductive mode : Type := Gap | Word | WordEsc | Double | DoubleEsc | Single.

Definition in_word (c : ascii) (cur : str) : mode * str * list str :=
  if Ascii.eqb c " " then (Gap, [], [cur])
  else if Ascii.eqb c dquote then (Double, cur, [])
  else if Ascii.eqb c "'" then (Single, cur, [])
  else if Ascii.eqb c "\" then (WordEsc, cur, [])
  else (Word, cur ++ [c], []).

(** The next mode, the argument so far, and the argument that ended. *)
Definition automaton_step (m : mode) (cur : str) (c : ascii) : mode * str * list str :=
  match m with
  | Gap => if Ascii.eqb c " " then (Gap, [], []) else in_word c []
  | Word => in_word c cur
  | WordEsc => (Word, cur ++ [c], [])
  | Double =>
      if Ascii.eqb c dquote then (Word, cur, [])
      else if Ascii.eqb c "\" then (DoubleEsc, cur, [])
      else (Double, cur ++ [c], [])
  | DoubleEsc => (Double, cur ++ [c], [])
  | Single => if Ascii.eqb c "'" then (Word, cur, []) else (Single, cur ++ [c], [])
  end.

Fixpoint automaton (m : mode) (cur : str) (s : str) : list str :=
  match s with
  | [] => match m with Gap => [] | _ => [cur] end
  | c :: s' => let '(m', cur', out) := automaton_step m cur c in out ++ automaton m' cur' s'
  end.

(** ** Quoting, the inverse *)
Definition quote_char (c : ascii) : str :=
  if Ascii.eqb c dquote || Ascii.eqb c "\" then ["\"%char; c] else [c].
Definition quote (s : str) : str := dquote :: concat (map quote_char s) ++ [dquote].

Fixpoint quote_all (args : list str) : str :=
  match args with
  | [] => []
  | [a] => quote a
  | a :: args' => quote a ++ " "%char :: quote_all args'
  end.

(** ** The scanner agrees with the automaton

    Each scanner routine, started at a non-empty suffix with enough fuel,
    returns, consumes input, and leaves the automaton with the same output. *)

(** [out] is what is left to do after a routine returned: nothing more than the
    argument when the input is exhausted, the automaton in [Word] at the
    current byte otherwise. *)
Definition continues (m : mode) (cur : str) (rest : str)
    (r : result (bool * CommandLineArgumentParser * str)) : Prop :=
  exists more p cur',
    r = Ok (more, p, cur')
    /\ (if (more : bool) then
          Position p <> [] /\ (length (Position p) < length rest)%nat
          /\ automaton m cur rest = automaton Word cur' (Position p)
        else automaton m cur rest = [cur']).

Lemma next_cons c rest : next (mkParser (c :: rest)) =
  (negb (bool_decide (rest = [])), mkParser rest).
Proof. done. Qed.

Lemma continues_step m cur m' cur' c rest r :
  automaton_step m cur c = (m', cur', []) -> continues m' cur' rest r ->
  continues m cur (c :: rest) r.
Proof.
  intros E (more & p & cur2 & -> & H). exists more, p, cur2. split; [done|].
  cbn [automaton]. rewrite E. destruct more; simpl; [|done].
  destruct H as (? & ? & ?). split_and!; [done|lia|done].
Qed.

Lemma continues_end m cur p : m <> Gap -> continues m cur [] (Ok (false, p, cur)).
Proof. intros H. exists false, p, cur. split; [done|]. by destruct m. Qed.

(** The result of a final [next] after the closing quote. *)
Lemma continues_close m cur c rest :
  automaton_step m cur c = (Word, cur, []) ->
  continues m cur (c :: rest) (Ok (next (mkParser (c :: rest)), cur)).
Proof.
  intros E. rewrite next_cons. destruct rest as [|d rest].
  - eapply continues_step; [done|]. by apply continues_end.
  - exists true, (mkParser (d :: rest)), cur. split; [done|]. cbn [automaton].
    rewrite E. simpl. split_and!; [done|lia|done].
Qed.

Ltac routine := repeat match goal with
  | |- context [Ascii.eqb ?a ?b] => destruct (Ascii.eqb_spec a b); subst; cbn
  end.

Lemma doubleQuotedLoop_continues fuel rest cur :
  rest <> [] -> (length rest <= fuel)%nat ->
  continues Double cur rest (doubleQuotedLoop fuel (mkParser rest) cur).
Proof.
  revert rest cur; induction fuel as [|fuel IH]; intros [|c rest] cur Hne Hf;
    simpl in Hf; try done; [lia|].
  cbn [doubleQuotedLoop]. unfold deref, skipEscapeCharacter; simpl.
  destruct (Ascii.eqb_spec c dquote) as [->|Hq]; [by apply continues_close|].
  unfold deref; simpl. destruct (Ascii.eqb_spec c "\") as [->|Hb]; simpl.
  - eapply continues_step; [done|].
    destruct rest as [|d [|e rest]]; simpl; [by apply continues_end| |].
    + eapply continues_step; [done|]. by apply continues_end.
    + eapply continues_step; [done|]. apply IH; [done|simpl in *; lia].
  - eapply continues_step.
    { simpl. by rewrite (proj2 (Ascii.eqb_neq c dquote) Hq) (proj2 (Ascii.eqb_neq c "\") Hb). }
    destruct rest as [|d rest]; simpl; [by apply continues_end|]. apply IH; [done|simpl in *; lia].
Qed.

Lemma singleQuotedLoop_continues fuel rest cur :
  rest <> [] -> (length rest <= fuel)%nat ->
  continues Single cur rest (singleQuotedLoop fuel (mkParser rest) cur).
Proof.
  revert rest cur; induction fuel as [|fuel IH]; intros [|c rest] cur Hne Hf;
    simpl in Hf; try done; [lia|].
  cbn [singleQuotedLoop]. unfold deref; simpl.
  destruct (Ascii.eqb_spec c "'") as [->|Hq]; [by apply continues_close|].
  eapply continues_step; [simpl; by rewrite (proj2 (Ascii.eqb_neq c "'") Hq)|].
  destruct rest as [|d rest]; simpl; [by apply continues_end|]. apply IH; [done|simpl in *; lia].
Qed.

(** A byte that starts or continues a free string. *)
Definition free_byte (c : ascii) : Prop := c <> " "%char /\ c <> dquote /\ c <> "'"%char.

Lemma in_word_free c cur : free_byte c ->
  in_word c cur = if Ascii.eqb c "\" then (WordEsc, cur, []) else (Word, cur ++ [c], []).
Proof.
  intros (H1 & H2 & H3). unfold in_word.
  by rewrite (proj2 (Ascii.eqb_neq c " ") H1) (proj2 (Ascii.eqb_neq c dquote) H2) (proj2 (Ascii.eqb_neq c "'") H3).
Qed.


Lemma parseFreeStringInto_continues fuel c rest cur :
  (c = "\"%char \/ free_byte c) -> (length (c :: rest) <= fuel)%nat ->
  continues Word cur (c :: rest) (parseFreeStringInto fuel (mkParser (c :: rest)) cur).
Proof.
  revert c rest cur; induction fuel as [|fuel IH]; intros c rest cur Hc Hf; simpl in Hf; [lia|].
  assert (free_byte c) as Hfree by by destruct Hc as [->|?].
  cbn [parseFreeStringInto]. unfold deref, skipEscapeCharacter; simpl.
  (* after the byte [d] was pushed, with [rest'] left *)
  assert (forall d rest' cur', (length rest' <= fuel)%nat ->
    let r := (let '(more, this) := next (mkParser (d :: rest')) in
      if negb more then Ok (false, this, cur')
      else c ← deref this;
        if negb (Ascii.eqb c " ") && negb (Ascii.eqb c dquote) && negb (Ascii.eqb c "'")
        then parseFreeStringInto fuel this cur' else Ok (true, this, cur')) in
    (exists p, r = Ok (true, p, cur') /\ Position p = rest' /\ rest' <> [])
    \/ continues Word cur' rest' r) as Hpushed.
  { intros d [|e rest'] cur' Hl; [right; by apply continues_end|]. simpl.
    unfold deref; simpl.
    destruct (Ascii.eqb_spec e " "); [left; by exists (mkParser (e :: rest'))|].
    destruct (Ascii.eqb_spec e dquote); [left; by exists (mkParser (e :: rest'))|].
    destruct (Ascii.eqb_spec e "'"); [left; by exists (mkParser (e :: rest'))|].
    right. simpl. apply IH; [by right|done]. }
  assert (forall m d rest' cur', automaton_step m cur' d = (Word, cur' ++ [d], []) ->
    (length rest' <= fuel)%nat ->
    continues m cur' (d :: rest') (let '(more, this) := next (mkParser (d :: rest')) in
      if negb more then Ok (false, this, cur' ++ [d])
      else c ← deref this;
        if negb (Ascii.eqb c " ") && negb (Ascii.eqb c dquote) && negb (Ascii.eqb c "'")
        then parseFreeStringInto fuel this (cur' ++ [d]) else Ok (true, this, cur' ++ [d]))) as Hpush.
  { intros m d rest' cur' E Hl. destruct (Hpushed d rest' (cur' ++ [d]) Hl) as [(p & -> & Hp & Hne)|H].
    - exists true, p, (cur' ++ [d]). split; [done|]. rewrite Hp. cbn [automaton]. rewrite E. simpl.
      split_and!; [done|lia|done].
    - by eapply continues_step. }
  destruct (Ascii.eqb_spec c "\") as [->|Hb].
  - eapply continues_step; [done|]. destruct rest as [|d rest]; simpl; [by apply continues_end|].
    apply (Hpush WordEsc d rest cur); [done|simpl in *; lia].
  - apply (Hpush Word c rest cur); [|lia]. simpl.
    by rewrite in_word_free // (proj2 (Ascii.eqb_neq c "\") Hb).
Qed.

Lemma automaton_quote (cur rest : str) (q : ascii) m :
  automaton_step Word cur q = (m, cur, []) ->
  automaton Word cur (q :: rest) = automaton m cur rest.
Proof. cbn [automaton]. by move=> ->. Qed.

Lemma parseStringInto_spec fuel c rest cur :
  c <> " "%char -> (length (c :: rest) < fuel)%nat ->
  exists more p cur',
    parseStringInto fuel (mkParser (c :: rest)) cur = Ok (more, p, cur')
    /\ (if (more : bool) then
          (exists rest', Position p = " "%char :: rest')
          /\ (length (Position p) <= length rest)%nat
          /\ automaton Word cur (c :: rest) = automaton Word cur' (Position p)
        else automaton Word cur (c :: rest) = [cur']).
Proof.
  revert c rest cur; induction fuel as [|fuel IH]; intros c rest cur Hc Hf; simpl in Hf; [lia|].
  cbn [parseStringInto]. unfold deref at 1; simpl.
  match goal with |- context [?r ≫= _] =>
    assert (continues Word cur (c :: rest) r) as Hr end.
  { destruct (Ascii.eqb_spec c dquote) as [->|H1].
    { eapply continues_step; [done|]. unfold parseDoubleQuotedStringInto. rewrite next_cons.
      destruct rest; simpl; [by apply continues_end|].
      apply doubleQuotedLoop_continues; [done|simpl in *; lia]. }
    destruct (Ascii.eqb_spec c "'") as [->|H2].
    { eapply continues_step; [done|]. unfold parseSingleQuotedStringInto. rewrite next_cons.
      destruct rest; simpl; [by apply continues_end|].
      apply singleQuotedLoop_continues; [done|simpl in *; lia]. }
    apply parseFreeStringInto_continues; [by right|simpl; lia]. }
  destruct Hr as (more & p & cur' & -> & Hr). simpl.
  destruct more; simpl; [|by eexists _, _, _].
  destruct Hr as (Hne & Hlt & Ha). destruct p as [[|d rest']]; simpl in *; [done|].
  unfold deref; simpl. destruct (Ascii.eqb_spec d " ") as [->|Hd]; simpl.
  - eexists _, _, _. split; [done|]. simpl. split_and!; [by eexists|lia|done].
  - destruct (IH d rest' cur' Hd ltac:(simpl; lia)) as (more & p & cur2 & -> & H2).
    exists more, p, cur2. split; [done|]. rewrite Ha. destruct more; [|done].
    destruct H2 as (? & ? & ?). split_and!; [done|lia|done].
Qed.

Lemma nextNonWhitespace_spec fuel b rest :
  (length rest < fuel)%nat ->
  exists more p, nextNonWhitespace fuel (mkParser (b :: rest)) = Ok (more, p)
    /\ (if (more : bool) then
          exists c rest', Position p = c :: rest' /\ c <> " "%char
            /\ (length (c :: rest') <= length rest)%nat
            /\ automaton Gap [] rest = automaton Word [] (c :: rest')
        else automaton Gap [] rest = []).
Proof.
  revert b rest; induction fuel as [|fuel IH]; intros b rest Hf; [lia|].
  cbn [nextNonWhitespace]. rewrite next_cons.
  destruct rest as [|c rest]; simpl in *; [by eexists _, _|]. unfold deref; simpl.
  destruct (Ascii.eqb_spec c " ") as [->|Hc].
  - destruct (IH " "%char rest ltac:(lia)) as (more & p & -> & H).
    exists more, p. split; [done|]. simpl. destruct more; [|done].
    destruct H as (d & rest' & ? & ? & ? & ?). exists d, rest'. split_and!; [done..|lia|done].
  - exists true, (mkParser (c :: rest)). split; [done|]. exists c, rest.
    split_and!; [done|done|simpl; lia|done].
Qed.

Lemma parse_loop_spec fuel b rest acc :
  (S (length rest) < fuel)%nat ->
  parse_loop fuel (mkParser (b :: rest)) acc = Ok (acc ++ automaton Gap [] rest).
Proof.
  revert b rest acc; induction fuel as [|fuel IH]; intros b rest acc Hf; [lia|].
  cbn [parse_loop].
  destruct (nextNonWhitespace_spec fuel b rest ltac:(lia)) as (more & p & -> & H). simpl.
  destruct more; simpl; [|by rewrite H app_nil_r].
  destruct H as (c & rest' & Hp & Hc & Hl & ->). cbn [length] in Hl. destruct p as [pos]; cbn [Position] in *; subst pos.
  destruct (parseStringInto_spec fuel c rest' [] Hc ltac:(simpl; lia))
    as (more & p & cur & -> & H). rewrite bind_Ok.
  destruct more; [|by rewrite H].
  destruct H as ((rest2 & Hp) & Hl2 & ->). destruct p as [pos]; cbn [Position] in *; subst pos.
  cbn [length] in Hl2. rewrite IH; [lia|]. by rewrite -app_assoc.
Qed.

Lemma parse_spec s : parse (CommandLineArgumentParser_new s) = Ok (automaton Gap [] s).
Proof. apply parse_loop_spec. simpl; lia. Qed.

Lemma unescapeCommandLine_gnu {B : BuildMode} {W : WindowsTokenizer} s :
  unescapeCommandLine AutoDetect s = Ok (automaton Gap [] s).
Proof. unfold unescapeCommandLine. by rewrite parse_spec /= ENFORCE_true. Qed.

(** C30. Splitting a command line returns for every input, without reading past
    the end of the string, and gives the arguments that the character
    automaton gives: arguments end at unquoted spaces, a backslash takes the
    next byte literally except inside single quotes, and quoted and free
    pieces without a space between them join. *)
Theorem unescapeCommandLine_automaton {B : BuildMode} {W : WindowsTokenizer} Syntax s :
  unescapeCommandLine Syntax s =
  match Syntax with
  | Windows => Ok (TokenizeWindowsCommandLine s)
  | _ => Ok (automaton Gap [] s)
  end.
Proof.
  unfold unescapeCommandLine. rewrite parse_spec. by destruct Syntax; rewrite /= ?ENFORCE_true.
Qed.

(** ** Quoting *)
Lemma automaton_double s cur rest :
  automaton Double cur (concat (map quote_char s) ++ rest) = automaton Double (cur ++ s) rest.
Proof.
  revert cur; induction s as [|c s IH]; intros cur; simpl; [by rewrite app_nil_r|].
  replace (cur ++ c :: s) with ((cur ++ [c]) ++ s) by by rewrite -app_assoc.
  rewrite -app_assoc -IH. unfold quote_char.
  destruct (Ascii.eqb_spec c dquote) as [->|H1]; [done|].
  destruct (Ascii.eqb_spec c "\") as [->|H2]; [done|]. simpl.
  by rewrite (proj2 (Ascii.eqb_neq c dquote) H1) (proj2 (Ascii.eqb_neq c "\") H2).
Qed.

Lemma automaton_quoted a rest : automaton Gap [] (quote a ++ rest) = automaton Word a rest.
Proof. unfold quote. rewrite -app_comm_cons -app_assoc /=. by rewrite automaton_double. Qed.

Lemma automaton_quote_all args : automaton Gap [] (quote_all args) = args.
Proof.
  induction args as [|a args IH]; [done|]. destruct args as [|b args].
  - cbn [quote_all]. by rewrite -(app_nil_r (quote a)) automaton_quoted.
  - change (quote_all (a :: b :: args)) with (quote a ++ " "%char :: quote_all (b :: args)).
    rewrite automaton_quoted.
    change (automaton Word a (" "%char :: quote_all (b :: args)))
      with (a :: automaton Gap [] (quote_all (b :: args))).
    by rewrite IH.
Qed.

(** Quoting is inverted by splitting: the command line made of double-quoted
    arguments, with backslashes before quotes and backslashes, splits into the
    arguments, whatever bytes they have (the empty argument included). *)
Theorem unescapeCommandLine_quote_all {B : BuildMode} {W : WindowsTokenizer} args :
  unescapeCommandLine AutoDetect (quote_all args) = Ok args.
Proof. by rewrite unescapeCommandLine_gnu automaton_quote_all. Qed.

Example splits : automaton Gap [] (lit "cc -DX='a b'\ c   -I./inc ") =
  [lit "cc"; lit "-DX=a b c"; lit "-I./inc"].
Proof. reflexivity. Qed.

End Parser.

(** ** CommandLineCleaner.cc *)
Module Cleaner.

Inductive Action : Type := Keep | ZapOne | ZapTwo.
#[export] Instance Action_eq_dec : EqDecision Action.
Proof. solve_decision. Defined.

(** [std::stable_partition] followed by [resize]: the elements for which the
    lambda returns true, in order; [dropFromBefore] is the lambda's capture. *)
Fixpoint zap_loop {T} (check : T -> Action) (dropFromBefore : bool) (vs : list T) : list T :=
  match vs with
  | [] => []
  | v :: vs' =>
      if dropFromBefore then zap_loop check false vs'
      else
        match check v with
        | Keep => v :: zap_loop check false vs'
        | ZapOne => zap_loop check false vs'
        | ZapTwo => zap_loop check true vs'
        end
  end.

Definition zap {T} (vs : list T) (check : T -> Action) : list T := zap_loop check false vs.

Inductive CliOptionKind : Type := NoArgument | OneArgument.

(** [llvm::Regex::match] of a compiled pattern, a parameter: [regex_match p s]. *)
Class LlvmRegex : Type := regex_match : str -> str -> bool.

Record CommandLineCleaner : Type := mkCleaner {
  toZap : gmap str CliOptionKind;
  noArgumentMatcher : option str
}.

Definition check {R : LlvmRegex} (this : CommandLineCleaner) (arg : str) : Action :=
  if negb (starts_with (lit "-") arg) then Keep
  else
    let eqIndex := find_char arg "=" 0 in
    let zapNow := match eqIndex with
      | Some _ => false
      | None => match noArgumentMatcher this with
                | Some re => regex_match re arg
                | None => false end
      end in
    let flag := match eqIndex with Some i => substr_len arg 0 i | None => arg end in
    if zapNow then ZapOne
    else
      match toZap this !! flag with
      | None => Keep
      | Some NoArgument => ZapOne
      | Some OneArgument =>
          if Nat.eqb (length flag) (length arg) then ZapTwo else ZapOne
      end.

Definition clean {R : LlvmRegex} (this : CommandLineCleaner) (commandLine : list str)
    : list str :=
  zap commandLine (check this).

Definition clangGccSkipOptionsWithArgs : list str :=
  [lit "-march"; lit "-mcpu"; lit "-mtune"].
Definition clangGccSkipOptionsNoArgsPattern : str := lit "-m(no-)?fix-.*".

(** [emplace]: keeps an existing entry. *)
Definition forClangOrGcc : CommandLineCleaner :=
  let toZap := foldl (fun m s => match m !! s with Some _ => m | None => <[s := NoArgument]> m end)
                 ∅ clangGccSkipOptionsWithArgs in
  mkCleaner toZap (Some clangGccSkipOptionsNoArgsPattern).

(** ** What cleaning promises *)
Section Spec.
Context {R : LlvmRegex}.

(** The option name of an argument: the text before the first equals sign. *)
Definition option_name (arg : str) : str :=
  match find_char arg "=" 0 with Some i => take i arg | None => arg end.

(** The verdict on one argument, as a table. *)
Inductive verdict (c : CommandLineCleaner) (arg : str) : Action -> Prop :=
| v_input : starts_with (lit "-") arg = false -> verdict c arg Keep
| v_pattern re : starts_with (lit "-") arg = true -> "="%char ∉ arg ->
    noArgumentMatcher c = Some re -> regex_match re arg = true -> verdict c arg ZapOne
| v_unknown : starts_with (lit "-") arg = true ->
    ("="%char ∈ arg \/ forall re, noArgumentMatcher c = Some re -> regex_match re arg = false) ->
    toZap c !! option_name arg = None -> verdict c arg Keep
| v_flag : starts_with (lit "-") arg = true ->
    ("="%char ∈ arg \/ forall re, noArgumentMatcher c = Some re -> regex_match re arg = false) ->
    toZap c !! option_name arg = Some NoArgument -> verdict c arg ZapOne
| v_joined : "="%char ∈ arg -> starts_with (lit "-") arg = true ->
    toZap c !! option_name arg = Some OneArgument -> verdict c arg ZapOne
| v_separate : "="%char ∉ arg -> starts_with (lit "-") arg = true ->
    (forall re, noArgumentMatcher c = Some re -> regex_match re arg = false) ->
    toZap c !! arg = Some OneArgument -> verdict c arg ZapTwo.

(** The arguments that stay: a zapped option disappears, one with a separate
    argument takes the next argument along. *)
Inductive cleaned (c : CommandLineCleaner) : list str -> list str -> Prop :=
| cleaned_nil : cleaned c [] []
| cleaned_keep a l l' : verdict c a Keep -> cleaned c l l' -> cleaned c (a :: l) (a :: l')
| cleaned_one a l l' : verdict c a ZapOne -> cleaned c l l' -> cleaned c (a :: l) l'
| cleaned_two a b l l' : verdict c a ZapTwo -> cleaned c l l' -> cleaned c (a :: b :: l) l'
| cleaned_last a : verdict c a ZapTwo -> cleaned c [a] [].

Lemma find_eq_None arg : find_char arg "=" 0 = None <-> "="%char ∉ arg.
Proof. unfold find_char. rewrite drop_0. apply find_char_aux_None. Qed.

Lemma check_verdict c arg : verdict c arg (check c arg).
Proof.
  unfold check. destruct (starts_with (lit "-") arg) eqn:Hd; simpl; [|by apply v_input].
  pose proof (find_eq_None arg) as Hn. unfold substr_len.
  destruct (find_char arg "=" 0) as [i|] eqn:E.
  - assert ("="%char ∈ arg) as Hin.
    { destruct (decide ("="%char ∈ arg)); [done|]. by apply Hn in n. }
    assert (option_name arg = take i arg) as Hname by by unfold option_name; rewrite E.
    rewrite drop_0. destruct (toZap c !! take i arg) as [[|]|] eqn:Ez; rewrite -Hname in Ez.
    + apply v_flag; auto.
    + assert (length (take i arg) <> length arg) as Hl.
      { unfold find_char in E. rewrite drop_0 in E. apply find_char_aux_Some in E as (x & y & -> & _ & ->).
        rewrite length_take length_app /=. lia. }
      rewrite (proj2 (Nat.eqb_neq _ _) Hl). by apply v_joined.
    + apply v_unknown; auto.
  - assert ("="%char ∉ arg) as Hni by by apply Hn.
    assert (option_name arg = arg) as Hname by by unfold option_name; rewrite E.
    destruct (match noArgumentMatcher c with Some re => regex_match re arg | None => false end) eqn:Em.
    { destruct (noArgumentMatcher c) as [re|] eqn:Ere; [|done].
      by eapply v_pattern. }
    assert (forall re, noArgumentMatcher c = Some re -> regex_match re arg = false) as Hre
      by by intros re Hre; rewrite Hre in Em.
    destruct (toZap c !! arg) as [[|]|] eqn:Ez.
    + apply v_flag; rewrite ?Hname; auto.
    + rewrite Nat.eqb_refl. by apply v_separate.
    + apply v_unknown; rewrite ?Hname; auto.
Qed.

Lemma option_name_no_eq arg : "="%char ∉ arg -> option_name arg = arg.
Proof. intros H%find_eq_None. unfold option_name. by rewrite H. Qed.

Lemma verdict_det c arg a b : verdict c arg a -> verdict c arg b -> a = b.
Proof.
  intros H1 H2. destruct H1; inversion H2; subst; try congruence; exfalso;
    repeat match goal with
    | H : _ \/ _ |- _ => destruct H
    | H : "="%char ∉ ?s, H' : context [option_name ?s] |- _ => rewrite (option_name_no_eq s H) in H'
    end; try done; try congruence;
    match goal with H : forall re, _ -> regex_match re arg = false, E : noArgumentMatcher c = Some _ |- _ =>
      specialize (H _ E); congruence end.
Qed.

Lemma zap_loop_cleaned c l :
  cleaned c l (zap_loop (check c) false l)
  /\ forall a, verdict c a ZapTwo -> cleaned c (a :: l) (zap_loop (check c) true l).
Proof.
  induction l as [|x l [IH1 IH2]]; [split; [constructor|by constructor]|].
  split; [|intros a Ha; by apply cleaned_two]. cbn [zap_loop].
  pose proof (check_verdict c x) as Hv. destruct (check c x); [by constructor..|by apply IH2].
Qed.

Lemma cleaned_det c l l1 l2 : cleaned c l l1 -> cleaned c l l2 -> l1 = l2.
Proof.
  intros H1. revert l2. induction H1; intros l2 H2; inversion H2; subst;
    try match goal with
    | Ha : verdict c ?x ?a, Hb : verdict c ?x ?b |- _ =>
        pose proof (verdict_det _ _ _ _ Ha Hb); try discriminate
    end; try done; f_equal; auto.
Qed.

Lemma cleaned_kept c l l' : cleaned c l l' ->
  l' `sublist_of` l /\ Forall (fun a => verdict c a Keep) l'.
Proof.
  induction 1 as [|? ? ? ? ? []|? ? ? ? ? []|? ? ? ? ? ? []|]; split;
    try done; try (by constructor); by repeat constructor.
Qed.

Lemma cleaned_all_kept c l : Forall (fun a => verdict c a Keep) l -> cleaned c l l.
Proof. induction 1; by constructor. Qed.


(** *** The cleaner for Clang and GCC

    What the code relies on of [llvm::Regex]: [match] searches for the POSIX
    extended regular expression anywhere in the string (it is anchored only by
    ^ and $), here for the one pattern in use. *)
Class LlvmRegexLaws : Prop := regex_match_fix : forall s,
  regex_match clangGccSkipOptionsNoArgsPattern s =
  str_contains s (lit "-mfix-") || str_contains s (lit "-mno-fix-").

Definition dropped_for_clang_or_gcc (arg : str) : bool :=
  starts_with (lit "-") arg &&
  (bool_decide (option_name arg ∈ clangGccSkipOptionsWithArgs)
   || bool_decide ("="%char ∉ arg)
      && (str_contains arg (lit "-mfix-") || str_contains arg (lit "-mno-fix-"))).

Lemma forClangOrGcc_toZap name :
  toZap forClangOrGcc !! name =
  if bool_decide (name ∈ clangGccSkipOptionsWithArgs) then Some NoArgument else None.
Proof.
  destruct (decide (name = lit "-mtune")) as [->|H1]; [by vm_compute|].
  destruct (decide (name = lit "-mcpu")) as [->|H2]; [by vm_compute|].
  destruct (decide (name = lit "-march")) as [->|H3]; [by vm_compute|].
  rewrite bool_decide_false.
  { unfold clangGccSkipOptionsWithArgs. rewrite !elem_of_cons elem_of_nil. tauto. }
  change (toZap forClangOrGcc) with
    (<[lit "-mtune" := NoArgument]> (<[lit "-mcpu" := NoArgument]>
      (<[lit "-march" := NoArgument]> (∅ : gmap str CliOptionKind)))).
  by rewrite !lookup_insert_ne.
Qed.

Lemma check_forClangOrGcc `{!LlvmRegexLaws} arg :
  check forClangOrGcc arg = if dropped_for_clang_or_gcc arg then ZapOne else Keep.
Proof.
  unfold check, dropped_for_clang_or_gcc. destruct (starts_with (lit "-") arg); [|done].
  cbn [negb andb]. rewrite !forClangOrGcc_toZap. unfold option_name.
  change (noArgumentMatcher forClangOrGcc) with (Some clangGccSkipOptionsNoArgsPattern).
  pose proof (find_eq_None arg) as Hn. unfold substr_len. rewrite drop_0 regex_match_fix.
  destruct (find_char arg "=" 0) as [i|].
  - rewrite (bool_decide_false ("="%char ∉ arg)); [by intros ?%Hn|].
    rewrite andb_false_l orb_false_r. by case_bool_decide.
  - rewrite (bool_decide_true ("="%char ∉ arg)); [by apply Hn|]. rewrite andb_true_l.
    destruct (str_contains arg _ || str_contains arg _); [by rewrite orb_true_r|].
    rewrite orb_false_r. by case_bool_decide.
Qed.
End Spec.

(** For Clang and GCC, cleaning is a filter: no option takes its
    successor along, and an argument goes exactly when it is a dash option that
    is [-march], [-mcpu] or [-mtune] (alone or joined with an equals sign), or
    has no equals sign and contains [-mfix-] or [-mno-fix-] anywhere. *)
Theorem clean_forClangOrGcc `{LlvmRegexLaws} l :
  clean forClangOrGcc l = filter (fun arg => dropped_for_clang_or_gcc arg = false) l.
Proof.
  unfold clean, zap. induction l as [|a l IH]; [done|]. cbn [zap_loop].
  rewrite check_forClangOrGcc filter_cons. destruct (dropped_for_clang_or_gcc a);
    case_decide; try done. by rewrite IH.
Qed.

#[export] Instance demo_regex : LlvmRegex := fun p s =>
  str_contains s (lit "-mfix-") || str_contains s (lit "-mno-fix-").
#[export] Instance demo_regex_laws : LlvmRegexLaws.
Proof. done. Qed.

Lemma clean_forClangOrGcc_witness :
  clean forClangOrGcc [lit "cc"; lit "-march=armv8"; lit "-mno-fix-x"; lit "a.c"]
  = [lit "cc"; lit "a.c"].
Proof. rewrite (@clean_forClangOrGcc demo_regex demo_regex_laws). vm_compute. reflexivity. Defined.

(** The pattern for options is not anchored, so cleaning for Clang and GCC
    drops an include option whose directory has [-mfix-] in its name. *)
Theorem clean_drops_include_directory `{LlvmRegexLaws} dir rest :
  "="%char ∉ dir -> "="%char ∉ rest ->
  clean forClangOrGcc [lit "-I" ++ dir ++ lit "-mfix-" ++ rest] = [].
Proof.
  intros Hd Hr. rewrite clean_forClangOrGcc filter_cons decide_False; [|done].
  unfold dropped_for_clang_or_gcc.
  rewrite (bool_decide_true ("="%char ∉ _)).
  { rewrite !elem_of_app. intros [Hi|[?|[Hi|?]]]; [|done| |done];
      repeat (apply elem_of_cons in Hi as [Hi|Hi]; [discriminate Hi|]); by apply elem_of_nil in Hi. }
  assert (str_contains (lit "-I" ++ dir ++ lit "-mfix-" ++ rest) (lit "-mfix-") = true) as ->.
  { apply str_contains_spec. exists (lit "-I" ++ dir), rest. by rewrite -app_assoc. }
  change (lit "-I") with (lit "-" ++ lit "I"). rewrite -!app_assoc starts_with_app. simpl.
  by rewrite orb_true_r.
Qed.

Lemma clean_drops_include_directory_witness :
  clean forClangOrGcc [lit "-I" ++ lit "/opt/gcc" ++ lit "-mfix-" ++ lit "a53/include"] = [].
Proof.
  apply (@clean_drops_include_directory demo_regex demo_regex_laws);
    apply (bool_decide_unpack _); by vm_compute.
Defined.
End Cleaner.
