(* ===== verification/Compdb.v ===== *)
(** * Validating and reading a compilation database

    CompilationDatabase.h/.cc up to [CommandObjectHandler].  rapidjson is not
    part of the repository: its reader is a stream of SAX events that stops
    when a handler returns false.  [ValidateHandler] is the validator of the
    first pass, generic in an inner handler; [CommandObjectHandler] builds the
    command objects in the second pass.  The theorems relate both to JSON
    documents. *)
From S2P Require Import Prelude Ordering CppString Paths Json CommandLine.
Import CommandLine.Parser.

(** ** SAX events and handlers (rapidjson) *)
Inductive Number : Type :=
| Int (i : Z) | Uint (i : Z) | Int64 (i : Z) | Uint64 (i : Z)
| Double_ (repr : str) (** a double, as fmt prints it *)
| RawNumber (text : str).

Inductive Event : Type :=
| ENull | EBool (b : bool) | ENumber (n : Number)
| EString (s : str)
| EStartObject | EKey (k : str) | EEndObject (memberCount : Z)
| EStartArray | EEndArray (elementCount : Z).

(** A handler: the state after the event, and false to stop the reader. *)
Class Handler (S : Type) : Type := handle : S -> Event -> result (bool * S).

(** [rapidjson::Reader::Parse]: feeds events until the handler returns false. *)
Fixpoint run {S} `{!Handler S} (s : S) (es : list Event) : result (bool * S) :=
  match es with
  | [] => Ok (true, s)
  | e :: es' =>
      '(continue, s') ← handle s e;
      if (continue : bool) then run s' es' else Ok (false, s')
  end.

Lemma run_app {S} `{!Handler S} (s : S) es1 es2 :
  run s (es1 ++ es2) =
  ('(c, s') ← run s es1; if (c : bool) then run s' es2 else Ok (false, s')).
Proof.
  revert s; induction es1 as [|e es1 IH]; intros s; [done|]. simpl.
  destruct (handle s e) as [[[] s']|]; simpl; [apply IH|done..].
Qed.

(** The text of a file as rapidjson reads it: the events up to the end or the
    first syntax error, and whether there is no syntax error. *)
Class RapidJson : Type := json_tokens : str -> list Event * bool.

(** ** JSON documents and their events *)
Inductive doc : Type :=
| DNull | DBool (b : bool) | DNumber (n : Number) | DString (s : str)
| DArray (l : list doc)
| DObject (ms : list (str * doc)).

Fixpoint events (d : doc) : list Event :=
  match d with
  | DNull => [ENull]
  | DBool b => [EBool b]
  | DNumber n => [ENumber n]
  | DString s => [EString s]
  | DArray l => EStartArray :: concat (map events l) ++ [EEndArray (Z.of_nat (length l))]
  | DObject ms =>
      EStartObject ::
      concat (map (fun m => EKey m.1 :: events m.2) ms) ++ [EEndObject (Z.of_nat (length ms))]
  end.

Definition member_events (ms : list (str * doc)) : list Event :=
  concat (map (fun m => EKey m.1 :: events m.2) ms).

(** ** Keys *)
Inductive Key : Type := Unset | Directory | File_ | Arguments_ | Command | Output.
#[export] Instance Key_eq_dec : EqDecision Key.
Proof. solve_decision. Defined.

Definition Key_bits (k : Key) : Z :=
  match k with
  | Unset => 0
  | Directory => Z.shiftl 1 1
  | File_ => Z.shiftl 1 2
  | Arguments_ => Z.shiftl 1 3
  | Command => Z.shiftl 1 4
  | Output => Z.shiftl 1 5
  end.

Record ValidationOptions : Type := mkValidationOptions {
  checkDirectoryPathsAreAbsolute : bool;
  tryDetectOutOfProjectRoot : bool
}.

(** [fmt::format("{}", b)] and [fmt::format("{}", i)]. *)
Definition fmt_bool (b : bool) : str := if b then lit "true" else lit "false".
Definition fmt_int (z : Z) : str := if z <? 0 then "-"%char :: fmt_uint (- z) else fmt_uint z.

(** ** [ValidateHandler] *)
Inductive Context_ : Type :=
| Outermost | InTopLevelArray | InObject | InArgumentsValue | InArgumentsValueArray.
#[export] Instance Context_eq_dec : EqDecision Context_.
Proof. solve_decision. Defined.

Record ValidateHandler (H : Type) : Type := mkValidateHandler {
  inner : H;
  context : Context_;
  presentKeys : Z;
  lastKey : Key;
  options : ValidationOptions;
  errorMessage : str;
  warnings : gset str
}.
Arguments mkValidateHandler {H}.
Arguments inner {H}. Arguments context {H}. Arguments presentKeys {H}.
Arguments lastKey {H}. Arguments options {H}. Arguments errorMessage {H}.
Arguments warnings {H}.

(** The constructor does not initialise [presentKeys]: its first value is
    whatever the memory holds, an argument here. *)
Definition ValidateHandler_new {H} (uninitialised : Z) (i : H) (o : ValidationOptions)
    : ValidateHandler H :=
  mkValidateHandler i Outermost uninitialised Unset o [] ∅.

Section Validate.
Context {H : Type} `{!Handler H}.
Context `{BM : BuildMode, LP : LlvmPath}.
Implicit Types this : ValidateHandler H.

Definition set_inner this (i : H) : ValidateHandler H := mkValidateHandler i (context this) (presentKeys this)
  (lastKey this) (options this) (errorMessage this) (warnings this).
Definition set_context this c : ValidateHandler H := mkValidateHandler (inner this) c (presentKeys this)
  (lastKey this) (options this) (errorMessage this) (warnings this).
Definition set_presentKeys this k : ValidateHandler H := mkValidateHandler (inner this) (context this) k
  (lastKey this) (options this) (errorMessage this) (warnings this).
Definition set_lastKey this k : ValidateHandler H := mkValidateHandler (inner this) (context this) (presentKeys this)
  k (options this) (errorMessage this) (warnings this).
Definition set_errorMessage this e : ValidateHandler H := mkValidateHandler (inner this) (context this)
  (presentKeys this) (lastKey this) (options this) e (warnings this).
Definition add_warning this w : ValidateHandler H := mkValidateHandler (inner this) (context this)
  (presentKeys this) (lastKey this) (options this) (errorMessage this) ({[w]} ∪ warnings this).

Definition markContextIllegal this (forItem : str) : ValidateHandler H :=
  let ctx := match context this with
    | Outermost => lit "outermost context"
    | InTopLevelArray => lit "top-level array context"
    | InObject => lit "command object context"
    | InArgumentsValue => lit "value for the key 'arguments'"
    | InArgumentsValueArray => lit "array for the key 'arguments'"
    end in
  set_errorMessage this (lit "unexpected " ++ forItem ++ lit " in " ++ ctx).

(** The loop that joins the names of the missing keys. *)
Definition join_missing (missingKeys : list str) : str :=
  concat (map (fun k => k ++ lit ", ") (removelast missingKeys))
  ++ lit " and " ++ List.last missingKeys [].

Definition checkNecessaryKeysPresent this : option str :=
  let absent k := Z.eqb (Z.land (presentKeys this) (Key_bits k)) 0 in
  let missingKeys :=
    (if absent Directory then [lit "directory"] else [])
    ++ (if absent File_ then [lit "file"] else [])
    ++ (if absent Command && absent Arguments_
        then [lit "either command or arguments"] else []) in
  match missingKeys with [] => None | _ => Some (join_missing missingKeys) end.

(** Forwarding to the inner handler. *)
Definition forward this (e : Event) : result (bool * ValidateHandler H) :=
  '(c, i) ← handle (inner this) e;
  Ok (c, set_inner this i).

Definition reject this (message : str) : result (bool * ValidateHandler H) :=
  Ok (false, set_errorMessage this message).

Definition vh_Null this := reject this (lit "unexpected null").
Definition vh_Bool this b := reject this (lit "unexpected bool " ++ fmt_bool b).
Definition vh_Number this (n : Number) := reject this
  match n with
  | Int i => lit "unexpected int " ++ fmt_int i
  | Uint i => lit "unexpected unsigned int " ++ fmt_int i
  | Int64 i => lit "unexpected int64_t " ++ fmt_int i
  | Uint64 i => lit "unexpected uint64_t " ++ fmt_int i
  | Double_ repr => lit "unexpected double " ++ repr
  | RawNumber text => lit "unexpected number " ++ text
  end.

Definition vh_String this (s : str) : result (bool * ValidateHandler H) :=
  match context this with
  | Outermost | InTopLevelArray | InArgumentsValue =>
      Ok (false, markContextIllegal this (lit "string"))
  | InObject =>
      if checkDirectoryPathsAreAbsolute (options this)
         && bool_decide (lastKey this = Directory)
      then
        dirPath ← tryFrom s;
        match dirPath with
        | None => reject this (lit "expected absolute path for " ++ [dquote]
            ++ lit "directory" ++ [dquote] ++ lit " key but found '" ++ s ++ lit "'")
        | Some _ => forward this (EString s)
        end
      else forward this (EString s)
  | InArgumentsValueArray => forward this (EString s)
  end.

Definition vh_StartObject this : result (bool * ValidateHandler H) :=
  match context this with
  | InTopLevelArray => forward (set_context this InObject) EStartObject
  | _ => Ok (false, markContextIllegal this (lit "object start ('{')"))
  end.

Definition key_of_name (key : str) : Key :=
  if bool_decide (key = lit "directory") then Directory
  else if bool_decide (key = lit "file") then File_
  else if bool_decide (key = lit "command") then Command
  else if bool_decide (key = lit "arguments") then Arguments_
  else if bool_decide (key = lit "output") then Output
  else Unset.

Definition vh_Key this (key : str) : result (bool * ValidateHandler H) :=
  match context this with
  | InObject =>
      let sawKey := key_of_name key in
      let this :=
        if bool_decide (sawKey = Arguments_) then set_context this InArgumentsValue
        else if bool_decide (sawKey = Unset) then add_warning this (lit "unknown key " ++ key)
        else this in
      let this :=
        if bool_decide (sawKey = Unset) then this
        else
          let this := set_lastKey this sawKey in
          set_presentKeys this (Z.lor (presentKeys this) (Key_bits (lastKey this))) in
      forward this (EKey key)
  | _ => Ok (false, markContextIllegal this (lit "object key " ++ key))
  end.

(** [checkNecessaryKeysPresent] only feeds a log message. *)
Definition vh_EndObject this (memberCount : Z) : result (bool * ValidateHandler H) :=
  match context this with
  | InObject =>
      let this := set_context this InTopLevelArray in
      let missing := checkNecessaryKeysPresent this in
      forward (set_presentKeys this 0) (EEndObject memberCount)
  | _ => Ok (false, markContextIllegal this (lit "object end ('}')"))
  end.

(** The inner handler sees the start of an array as the start of an object. *)
Definition vh_StartArray this : result (bool * ValidateHandler H) :=
  match context this with
  | Outermost => forward (set_context this InTopLevelArray) EStartObject
  | InArgumentsValue => forward (set_context this InArgumentsValueArray) EStartObject
  | _ => Ok (false, markContextIllegal this (lit "array start ('[')"))
  end.

Definition vh_EndArray this (elementCount : Z) : result (bool * ValidateHandler H) :=
  match context this with
  | InTopLevelArray => forward (set_context this Outermost) (EEndArray elementCount)
  | InArgumentsValueArray => forward (set_context this InObject) (EEndArray elementCount)
  | _ => Ok (false, markContextIllegal this (lit "array end (']')"))
  end.

#[export] Instance validate_handler : Handler (ValidateHandler H) := fun this e =>
  match e with
  | ENull => vh_Null this
  | EBool b => vh_Bool this b
  | ENumber n => vh_Number this n
  | EString s => vh_String this s
  | EStartObject => vh_StartObject this
  | EKey k => vh_Key this k
  | EEndObject n => vh_EndObject this n
  | EStartArray => vh_StartArray this
  | EEndArray n => vh_EndArray this n
  end.
End Validate.

(** ** Counting the jobs *)
Record ArrayCountHandler : Type := mkArrayCountHandler { count : Z }.
#[export] Instance array_count_handler : Handler ArrayCountHandler := fun this e =>
  match e with EEndArray n => Ok (true, mkArrayCountHandler n) | _ => Ok (true, this) end.

(** [Parse] reports an error when a handler stopped it or the text is malformed;
    the warnings go to the log. *)
Definition validateAndCountJobs `{BuildMode, LlvmPath, RapidJson} (uninitialised : Z)
    (compDbFile : str) (validationOptions : ValidationOptions) : result Z :=
  let validator := ValidateHandler_new uninitialised (mkArrayCountHandler 0) validationOptions in
  let '(tokens, wellFormed) := json_tokens compDbFile in
  '(continued, validator) ← run validator tokens;
  if negb (continued && wellFormed) then Err (Exit 1)
  else Ok (count (inner validator)).

(** ** [CommandObject] and [CommandObjectHandler] *)
Definition POISON_INDEX : Z := 8080808080.

Record CommandObject : Type := mkCommandObject {
  index : Z;
  workingDirectory : str;
  filePath : str;
  arguments : list str
}.
Definition CommandObject_default : CommandObject := mkCommandObject POISON_INDEX [] [] [].

Definition set_workingDirectory c d := mkCommandObject (index c) d (filePath c) (arguments c).
Definition set_filePath c f := mkCommandObject (index c) (workingDirectory c) f (arguments c).
Definition set_arguments c a := mkCommandObject (index c) (workingDirectory c) (filePath c) a.
Definition set_index c i := mkCommandObject i (workingDirectory c) (filePath c) (arguments c).

Record CommandObjectHandler : Type := mkCommandObjectHandler {
  previousKey : Key;
  wipCommand : CommandObject;
  parseLimit : Z;
  commands : list CommandObject
}.
Definition CommandObjectHandler_new (parseLimit : Z) : CommandObjectHandler :=
  mkCommandObjectHandler Unset CommandObject_default parseLimit [].

Section Commands.
Context {BM : BuildMode} {W : WindowsTokenizer}.

Definition set_wip (this : CommandObjectHandler) (c : CommandObject) : CommandObjectHandler :=
  mkCommandObjectHandler (previousKey this) c (parseLimit this) (commands this).
Definition set_previousKey (this : CommandObjectHandler) (k : Key) : CommandObjectHandler :=
  mkCommandObjectHandler k (wipCommand this) (parseLimit this) (commands this).

Definition coh_String (this : CommandObjectHandler) (s : str)
    : result (bool * CommandObjectHandler) :=
  let wip := wipCommand this in
  match previousKey this with
  | Unset => ENFORCE false "unexpected input" ;; Ok (false, this)
  | Directory => Ok (true, set_wip this (set_workingDirectory wip s))
  | File_ => Ok (true, set_wip this (set_filePath wip s))
  | Command =>
      args ← unescapeCommandLine AutoDetect s;
      Ok (true, set_wip this (set_arguments wip args))
  | Arguments_ => Ok (true, set_wip this (set_arguments wip (arguments wip ++ [s])))
  | Output => Ok (true, this)
  end.

Definition coh_Key (this : CommandObjectHandler) (key : str)
    : result (bool * CommandObjectHandler) :=
  if bool_decide (key = lit "directory") then Ok (true, set_previousKey this Directory)
  else if bool_decide (key = lit "file") then Ok (true, set_previousKey this File_)
  else if bool_decide (key = lit "command") then Ok (true, set_previousKey this Command)
  else if bool_decide (key = lit "output") then Ok (true, set_previousKey this Output)
  else if bool_decide (key = lit "arguments") then Ok (true, set_previousKey this Arguments_)
  else
    ENFORCE false "unexpected key should've been caught by validation" ;;
    Ok (true, this).

Definition coh_EndObject (this : CommandObjectHandler) (memberCount : Z)
    : result (bool * CommandObjectHandler) :=
  Ok (true, mkCommandObjectHandler Unset CommandObject_default (parseLimit this)
              (commands this ++ [wipCommand this])).

Definition reachedLimit (this : CommandObjectHandler) : bool :=
  Z.eqb (Z.of_nat (length (commands this))) (parseLimit this).

(** Every other event has [BaseReaderHandler]'s default, which goes on. *)
#[export] Instance command_object_handler : Handler CommandObjectHandler := fun this e =>
  match e with
  | EString s => coh_String this s
  | EKey k => coh_Key this k
  | EEndObject n => coh_EndObject this n
  | _ => Ok (true, this)
  end.
End Commands.

(** ** Opening the file *)
Class StdFile : Type := {
  fopen_read : str -> option str;        (** the contents, or a null pointer *)
  file_size : str -> option Z;           (** none for an error code *)
}.

Record File : Type := mkFile {
  sizeInBytes : Z;
  commandCount : Z;
  file : option str
}.

(** [File::open], and whether it set [fileSizeError].  The search for a [.git]
    directory above the file only feeds log messages. *)
Definition File_open `{BuildMode, LlvmPath, RapidJson, StdFile} (uninitialised : Z)
    (path : str) (validationOptions : ValidationOptions) : result (File * bool) :=
  match fopen_read path with
  | None => Ok (mkFile 0 0 None, false)
  | Some contents =>
      match file_size path with
      | None => Ok (mkFile 0 0 (Some contents), true)
      | Some size =>
          n ← validateAndCountJobs uninitialised contents validationOptions;
          Ok (mkFile size n (Some contents), false)
      end
  end.

Definition openAndExitOnErrors `{BuildMode, LlvmPath, RapidJson, StdFile} (uninitialised : Z)
    (path : str) (validationOptions : ValidationOptions) : result File :=
  '(compdbFile, fileSizeError) ← File_open uninitialised path validationOptions;
  if bool_decide (file compdbFile = None) then Err (Exit 1)
  else if (fileSizeError : bool) then Err (Exit 1)
  else if Z.eqb (commandCount compdbFile) 0 then Err (Exit 1)
  else Ok compdbFile.

(** ** What the validator accepts

    [members_wf] and [objects_wf] check a command object and the list of them,
    and thread the last key the program knows: an unknown key leaves it, so
    that its value is checked as if it belonged to that key. *)
Definition effective_key (last : Key) (name : str) : Key :=
  if bool_decide (key_of_name name = Unset) then last else key_of_name name.

Definition is_string (d : doc) : bool := match d with DString _ => true | _ => false end.

Definition value_wf `{LlvmPath} (checkAbsolute : bool) (last : Key) (name : str) (d : doc) : bool :=
  match d with
  | DArray l => bool_decide (key_of_name name = Arguments_) && forallb is_string l
  | DString s =>
      negb (bool_decide (key_of_name name = Arguments_))
      && negb (checkAbsolute && bool_decide (effective_key last name = Directory)
               && negb (is_absolute s))
  | _ => false
  end.

Fixpoint members_wf `{LlvmPath} (checkAbsolute : bool) (last : Key) (ms : list (str * doc))
    : option Key :=
  match ms with
  | [] => Some last
  | (name, d) :: ms' =>
      if value_wf checkAbsolute last name d
      then members_wf checkAbsolute (effective_key last name) ms' else None
  end.

Fixpoint objects_wf `{LlvmPath} (checkAbsolute : bool) (last : Key) (l : list doc) : option Key :=
  match l with
  | [] => Some last
  | DObject ms :: l' => last' ← members_wf checkAbsolute last ms; objects_wf checkAbsolute last' l'
  | _ => None
  end.

Definition compdb_wf `{LlvmPath} (o : ValidationOptions) (d : doc) : bool :=
  match d with
  | DArray l => bool_decide (is_Some (objects_wf (checkDirectoryPathsAreAbsolute o) Unset l))
  | _ => false
  end.

(** ** The validator on the events of a document *)
Definition forwarded (e : Event) : Event :=
  match e with EStartArray => EStartObject | _ => e end.

Section ValidatorSpec.
Context {H : Type} `{!Handler H}.
Context `{BM : BuildMode, LP : LlvmPath, !LlvmPathLaws}.

(** The inner handler of the validation pass never stops the reader. *)
Context (step : H -> Event -> H).
Hypothesis inner_goes_on : forall i e, handle i e = Ok (true, step i e).

Definition inner_steps (i : H) (es : list Event) : H := foldl step i (map forwarded es).

Lemma inner_steps_app i es1 es2 :
  inner_steps i (es1 ++ es2) = inner_steps (inner_steps i es1) es2.
Proof. unfold inner_steps. by rewrite map_app foldl_app. Qed.

(** Context, last key, options and inner state, the parts that matter. *)
Definition at_ (c : Context_) (k : Key) (o : ValidationOptions) (i : H)
    (this : ValidateHandler H) : Prop :=
  context this = c /\ lastKey this = k /\ options this = o /\ inner this = i.

(** [ok] says whether the reader goes on, then in a state with [P]. *)
Definition outcome (ok : bool) (P : ValidateHandler H -> Prop)
    (r : result (bool * ValidateHandler H)) : Prop :=
  exists this', r = Ok (ok, this') /\ (ok = true -> P this').

Lemma outcome_run ok P (this : ValidateHandler H) e es :
  outcome true (fun this' => outcome ok P (run this' es)) (handle this e) ->
  outcome ok P (run this (e :: es)).
Proof. intros (v & Hv & Hok). cbn [run]. rewrite Hv bind_Ok. by apply Hok. Qed.

Lemma outcome_stop P (this : ValidateHandler H) e es :
  outcome false P (handle this e) -> outcome false P (run this (e :: es)).
Proof. intros (v & Hv & Hok). exists v. cbn [run]. by rewrite Hv. Qed.

Lemma outcome_app ok1 ok P Q (this : ValidateHandler H) es1 es2 :
  outcome ok1 Q (run this es1) ->
  (ok1 = true -> forall v, Q v -> outcome ok P (run v es2)) -> (ok1 = false -> ok = false) ->
  outcome ok P (run this (es1 ++ es2)).
Proof.
  intros (v & Hv & Hq) Hok Hno. rewrite run_app Hv bind_Ok. destruct ok1.
  - apply Hok; [done|by apply Hq].
  - rewrite Hno //. by exists v.
Qed.

Lemma outcome_forward P (this : ValidateHandler H) e :
  P (set_inner this (step (inner this) e)) -> outcome true P (forward this e).
Proof. intros HP. unfold forward. rewrite inner_goes_on. by eexists. Qed.

Lemma run_strings l : forall k o i (this : ValidateHandler H),
  at_ InArgumentsValueArray k o i this ->
  outcome (forallb is_string l) (at_ InArgumentsValueArray k o (inner_steps i (concat (map events l))))
    (run this (concat (map events l))).
Proof.
  induction l as [|d l IH]; intros k o i this (Hc & Hk & Ho & Hi); [by exists this|].
  cbn [map concat forallb]. destruct d; cbn [is_string andb events app];
    try (apply outcome_stop; rewrite /handle /validate_handler /vh_StartArray /vh_StartObject ?Hc;
         eexists; done).
  apply outcome_run. rewrite /handle /validate_handler /vh_String Hc. apply outcome_forward.
  cbn [inner_steps map foldl forwarded]. rewrite -Hi. by apply IH.
Qed.

Lemma run_value o i (this : ValidateHandler H) (name : str) last d :
  at_ (if bool_decide (key_of_name name = Arguments_) then InArgumentsValue else InObject)
      (effective_key last name) o i this ->
  outcome (value_wf (checkDirectoryPathsAreAbsolute o) last name d)
    (at_ InObject (effective_key last name) o (inner_steps i (events d)))
    (run this (events d)).
Proof.
  intros (Hc & Hk & Ho & Hi). destruct d as [|b|n|s|l|ms]; cbn [value_wf events];
    try (apply outcome_stop; rewrite /handle /validate_handler /vh_StartObject ?Hc;
         case_bool_decide; eexists; done).
  - (* a string *)
    destruct (bool_decide (key_of_name name = Arguments_)); cbn [negb andb].
    { apply outcome_stop. rewrite /handle /validate_handler /vh_String Hc. by eexists. }
    assert (handle this (EString s) = if
        checkDirectoryPathsAreAbsolute o && bool_decide (effective_key last name = Directory)
         && negb (is_absolute s)
        then handle this (EString s) else forward this (EString s)) as Hh.
    { rewrite /handle /validate_handler /vh_String Hc Ho Hk tryFrom_spec.
      by destruct (checkDirectoryPathsAreAbsolute o), (bool_decide _), (is_absolute s). }
    destruct (checkDirectoryPathsAreAbsolute o && _ && _) eqn:E; cbn [negb].
    + apply outcome_stop. rewrite /handle /validate_handler /vh_String Hc Ho Hk tryFrom_spec.
      apply andb_true_iff in E as [-> E%negb_true_iff]. rewrite E. by eexists.
    + apply outcome_run. rewrite Hh. apply outcome_forward. eexists. split; [done|]. intros _.
      cbn [inner_steps map foldl forwarded]. by rewrite -Hi.
  - (* an array *)
    destruct (bool_decide (key_of_name name = Arguments_)); cbn [andb].
    2: { apply outcome_stop. rewrite /handle /validate_handler /vh_StartArray Hc. by eexists. }
    apply outcome_run. rewrite /handle /validate_handler /vh_StartArray Hc. apply outcome_forward.
    eapply outcome_app; [apply (run_strings _ (effective_key last name) o (step i EStartObject))|..].
    { unfold at_; cbn. by rewrite Hi. }
    + intros -> v (Hc' & Hk' & Ho' & Hi'). apply outcome_run.
      rewrite /handle /validate_handler /vh_EndArray Hc'. apply outcome_forward.
      eexists. split; [done|]. intros _. unfold at_. cbn. split_and!; try done.
      rewrite /inner_steps map_app foldl_app /=. by rewrite Hi'.
    + by intros ->.
Qed.

Lemma run_members ms : forall k o i (this : ValidateHandler H),
  at_ InObject k o i this ->
  let r := members_wf (checkDirectoryPathsAreAbsolute o) k ms in
  outcome (bool_decide (is_Some r))
    (at_ InObject (default k r) o (inner_steps i (member_events ms)))
    (run this (member_events ms)).
Proof.
  induction ms as [|[name d] ms IH]; intros k o i this Hthis; [by exists this|].
  cbn [members_wf]. unfold member_events. cbn [map concat app fst snd].
  destruct Hthis as (Hc & Hk & Ho & Hi). apply outcome_run.
  rewrite /handle /validate_handler /vh_Key Hc. apply outcome_forward.
  match goal with |- outcome _ _ (run ?st _) => set (v := st) end.
  assert (at_ (if bool_decide (key_of_name name = Arguments_) then InArgumentsValue else InObject)
      (effective_key k name) o (step i (EKey name)) v) as Hv.
  { subst v. unfold effective_key, at_.
    destruct (key_of_name name); simpl; rewrite -?Hk -?Hi; split_and!; done. }
  clearbody v. eapply outcome_app; [by apply run_value|..].
  - intros -> w Hw.
    replace (inner_steps i (EKey name :: events d ++ concat (map (fun m => EKey m.1 :: events m.2) ms)))
      with (inner_steps (inner_steps (step i (EKey name)) (events d)) (member_events ms))
      by by rewrite -inner_steps_app.
    destruct (IH _ _ _ _ Hw) as (w' & Hr & Hp). exists w'. split; [done|].
    intros Hsome. specialize (Hp Hsome). by destruct (members_wf _ _ ms).
  - by intros ->.
Qed.

Lemma run_objects l : forall k o i (this : ValidateHandler H),
  at_ InTopLevelArray k o i this ->
  let r := objects_wf (checkDirectoryPathsAreAbsolute o) k l in
  outcome (bool_decide (is_Some r))
    (at_ InTopLevelArray (default k r) o (inner_steps i (concat (map events l))))
    (run this (concat (map events l))).
Proof.
  induction l as [|d l IH]; intros k o i this Hthis; [by exists this|].
  destruct Hthis as (Hc & Hk & Ho & Hi). cbn [objects_wf map concat].
  destruct d as [|b|n|s|l'|ms]; cbn [events app];
    try (apply outcome_stop; rewrite /handle /validate_handler /vh_String /vh_StartArray ?Hc;
         by eexists).
  apply outcome_run. rewrite /handle /validate_handler /vh_StartObject Hc. apply outcome_forward.
  match goal with |- outcome _ _ (run ?st _) => set (v := st) end.
  assert (at_ InObject k o (step i EStartObject) v) as Hv by by rewrite -Hi -Hk.
  clearbody v. rewrite -app_assoc. fold (member_events ms).
  eapply outcome_app; [by apply run_members| |].
  - intros [k' Hk']%bool_decide_eq_true w Hw. rewrite Hk' in Hw |- *. simpl in Hw. simpl.
    destruct Hw as (Hc2 & Hk2 & Ho2 & Hi2). apply outcome_run.
    rewrite /handle /validate_handler /vh_EndObject Hc2. apply outcome_forward.
    match goal with |- outcome _ _ (run ?st _) => set (u := st) end.
    destruct (IH k' o (step (inner_steps (step i EStartObject) (member_events ms))
      (EEndObject (Z.of_nat (length ms)))) u) as (u' & Hr & Hp).
    { subst u. by rewrite -Hi2 -Hk2 -Ho2. }
    exists u'. split; [done|]. intros Hsome. specialize (Hp Hsome).
    change (inner_steps i (EStartObject :: ?es)) with (inner_steps (step i EStartObject) es).
    rewrite !inner_steps_app. destruct (objects_wf _ k' l); [done|].
    by apply bool_decide_eq_true in Hsome as [].
  - rewrite bool_decide_eq_false. intros Hno. apply bool_decide_eq_false.
    destruct (members_wf _ _ ms); [by destruct Hno|]. by intros [].
Qed.

(** A whole document in the outermost context. *)
Lemma run_doc d i o u :
  outcome (compdb_wf o d)
    (fun this => inner this = inner_steps i (events d))
    (run (ValidateHandler_new u i o) (events d)).
Proof.
  destruct d as [|b|n|s|l|ms]; cbn [events compdb_wf];
    try (apply outcome_stop; by eexists).
  apply outcome_run. apply outcome_forward. eapply outcome_app; 
    [by apply (run_objects l Unset o (step i EStartObject))|..].
  - intros Hsome v (Hc & Hk & Ho & Hi). rewrite Hsome. apply outcome_run.
    rewrite /handle /validate_handler /vh_EndArray Hc. apply outcome_forward.
    eexists; split; [done|]. intros _.
    cbn [inner set_inner set_context]. rewrite Hi.
    change (EStartArray :: ?es) with ([EStartArray] ++ es). by rewrite !inner_steps_app.
  - done.
Qed.
End ValidatorSpec.

Definition array_length (d : doc) : Z :=
  match d with DArray l => Z.of_nat (length l) | _ => 0 end.

Definition count_step (i : ArrayCountHandler) (e : Event) : ArrayCountHandler :=
  match e with EEndArray n => mkArrayCountHandler n | _ => i end.
Lemma count_goes_on i e : handle i e = Ok (true, count_step i e).
Proof. by destruct e. Qed.

(** No event stream, however malformed, makes the validator fail. *)
Lemma handle_validator_total `{BuildMode, LlvmPath, !LlvmPathLaws}
    (this : ValidateHandler ArrayCountHandler) e : exists r, handle this e = Ok r.
Proof.
  unfold handle, validate_handler, vh_Null, vh_Bool, vh_Number, vh_String, vh_StartObject,
    vh_Key, vh_EndObject, vh_StartArray, vh_EndArray, reject, forward.
  destruct e; try (by eexists); destruct (context this);
    rewrite ?tryFrom_spec ?count_goes_on ?bind_Ok; try (by eexists).
  destruct (_ && _); [|by eexists]. destruct (is_absolute s); by eexists.
Qed.

Lemma run_validator_total `{BuildMode, LlvmPath, !LlvmPathLaws} es :
  forall this : ValidateHandler ArrayCountHandler, exists r, run this es = Ok r.
Proof.
  induction es as [|e es IH]; intros this; [by eexists|]. cbn [run].
  destruct (handle_validator_total this e) as [[[] v] ->]; [apply IH|by eexists].
Qed.

Lemma validateAndCountJobs_correct_aux `{BuildMode, LlvmPath, !LlvmPathLaws, RapidJson} u text o :
  (forall d, json_tokens text = (events d, true) ->
    validateAndCountJobs u text o =
    if compdb_wf o d then Ok (array_length d) else Err (Exit 1))
  /\ (forall es, json_tokens text = (es, false) -> validateAndCountJobs u text o = Err (Exit 1)).
Proof.
  unfold validateAndCountJobs. split; intros ? ->.
  - destruct (run_doc count_step count_goes_on d (mkArrayCountHandler 0) o u) as (v & -> & Hv).
    rewrite bind_Ok. destruct (compdb_wf o d) eqn:Hwf; [|done]. rewrite (Hv eq_refl) /=. f_equal.
    destruct d as [| | | |l|]; try done. cbn [events]. unfold inner_steps.
    change (EStartArray :: ?a) with ([EStartArray] ++ a).
    by rewrite !map_app !foldl_app.
  - destruct (run_validator_total es
      (ValidateHandler_new u (mkArrayCountHandler 0) o)) as [[[] v] ->]; done.
Qed.

(** C28. Validating a compilation database never fails in an [ENFORCE] and
    depends neither on the uninitialised [presentKeys] nor on missing keys: a
    well-formed JSON text is accepted exactly when it is an array of objects
    whose members are strings, or an array of strings for "arguments" (with
    absolute strings under the last known key "directory" when that is
    checked), and then the count is the length of the outermost array; a
    rejected or malformed text makes the program exit with status 1. *)
Theorem validateAndCountJobs_correct `{BuildMode, LlvmPath, !LlvmPathLaws, RapidJson} u text o :
  (forall d, json_tokens text = (events d, true) ->
    validateAndCountJobs u text o =
    if compdb_wf o d then Ok (array_length d) else Err (Exit 1))
  /\ (forall es, json_tokens text = (es, false) -> validateAndCountJobs u text o = Err (Exit 1)).
Proof. exact (validateAndCountJobs_correct_aux u text o). Qed.

(** ** What the second pass builds *)
Definition doc_string (o : option doc) : option str :=
  match o with Some (DString s) => Some s | _ => None end.
Definition doc_strings (o : option doc) : list str :=
  match o with
  | Some (DArray l) => omap (fun d => doc_string (Some d)) l
  | _ => [] end.

(** The command object a JSON object stands for. *)
Definition command_of (ms : list (str * doc)) : CommandObject :=
  mkCommandObject POISON_INDEX
    (default [] (doc_string (assoc (lit "directory") ms)))
    (default [] (doc_string (assoc (lit "file") ms)))
    (match doc_string (assoc (lit "command") ms) with
     | Some c => automaton Gap [] c
     | None => doc_strings (assoc (lit "arguments") ms) end).

(** A command object in the sense of the Clang documentation: known keys, each
    once, "command" and "arguments" not both. *)
Record clang_object (ms : list (str * doc)) : Prop := {
  co_known : Forall (fun m => key_of_name m.1 <> Unset) ms;
  co_unique : NoDup ms.*1;
  co_values : Forall (fun m =>
    if bool_decide (key_of_name m.1 = Arguments_)
    then exists l, m.2 = DArray (map DString l) else is_string m.2 = true) ms;
  co_exclusive : ~ (lit "command" ∈ ms.*1 /\ lit "arguments" ∈ ms.*1)
}.

Section CommandsSpec.
Context {BM : BuildMode} {W : WindowsTokenizer}.

(** The effect of one member on the command under construction. *)
Definition apply_member (c : CommandObject) (m : str * doc) : CommandObject :=
  match key_of_name m.1, m.2 with
  | Directory, DString s => set_workingDirectory c s
  | File_, DString s => set_filePath c s
  | Command, DString s => set_arguments c (automaton Gap [] s)
  | Arguments_, DArray l => set_arguments c (arguments c ++ omap (fun d => doc_string (Some d)) l)
  | _, _ => c
  end.

Lemma coh_Key_known this name : key_of_name name <> Unset ->
  coh_Key this name = Ok (true, set_previousKey this (key_of_name name)).
Proof.
  unfold coh_Key, key_of_name. repeat case_bool_decide; by subst.
Qed.

Lemma run_argument_strings l : forall this, previousKey this = Arguments_ ->
  run this (concat (map events (map DString l))) =
  Ok (true, set_wip this (set_arguments (wipCommand this) (arguments (wipCommand this) ++ l))).
Proof.
  induction l as [|s l IH]; intros [pk [ix wd fp args] lim cs] Hk; simpl in *; subst.
  - by rewrite app_nil_r.
  - unfold handle at 1; simpl. rewrite IH //. simpl. by rewrite -app_assoc.
Qed.

Lemma omap_strings l : omap (fun d => doc_string (Some d)) (map DString l) = l.
Proof. induction l as [|s l IH]; [done|]. cbn. f_equal. exact IH. Qed.

Lemma run_member this name d :
  key_of_name name <> Unset ->
  (if bool_decide (key_of_name name = Arguments_)
   then exists l, d = DArray (map DString l) else is_string d = true) ->
  run this (EKey name :: events d) =
  Ok (true, set_previousKey (set_wip this (apply_member (wipCommand this) (name, d)))
              (key_of_name name)).
Proof.
  intros Hn Hd. cbn [run]. unfold handle at 1; cbn [command_object_handler].
  rewrite coh_Key_known // bind_Ok. unfold apply_member. cbn [fst snd].
  case_bool_decide as Ha.
  - destruct Hd as [l ->]. rewrite Ha. cbn [events run]. unfold handle at 1; cbn [command_object_handler].
    rewrite bind_Ok run_app run_argument_strings // bind_Ok. cbn. by rewrite omap_strings.
  - destruct d as [| | |s| |]; try done. cbn [events run]. unfold handle at 1. cbn.
    destruct (key_of_name name); try done; cbn; try (by destruct this).
    by rewrite unescapeCommandLine_gnu.
Qed.

Definition member_ok (m : str * doc) : Prop :=
  key_of_name m.1 <> Unset /\
  (if bool_decide (key_of_name m.1 = Arguments_)
   then exists l, m.2 = DArray (map DString l) else is_string m.2 = true).

Lemma run_members_commands ms : Forall member_ok ms -> forall this,
  run this (member_events ms) =
  Ok (true, set_previousKey (set_wip this (foldl apply_member (wipCommand this) ms))
              (foldl (fun _ m => key_of_name m.1) (previousKey this) ms)).
Proof.
  induction 1 as [|[name d] ms [Hn Hd] _ IH]; intros this; [by destruct this|].
  unfold member_events. cbn [map concat]. rewrite run_app run_member // bind_Ok.
  exact (IH (set_previousKey (set_wip this (apply_member (wipCommand this) (name, d)))
               (key_of_name name))).
Qed.

(** One object: its command is appended and the handler is as good as new. *)
Lemma run_object ms this : Forall member_ok ms ->
  run this (events (DObject ms)) =
  Ok (true, mkCommandObjectHandler Unset CommandObject_default (parseLimit this)
              (commands this ++ [foldl apply_member (wipCommand this) ms])).
Proof.
  intros Hms. cbn [events run]. unfold handle at 1; cbn [command_object_handler].
  rewrite bind_Ok. fold (member_events ms). rewrite run_app.
  by rewrite run_members_commands.
Qed.

(** *** Members in any order, each key at most once *)
Lemma assoc_not_in {A} (k : str) (l : list (str * A)) : k ∉ l.*1 -> assoc k l = None.
Proof.
  induction l as [|[k' v] l IH]; [done|]. cbn. rewrite not_elem_of_cons. intros [Hk Hl].
  by rewrite bool_decide_false; auto.
Qed.

(** A field that one key changes and no other key of the object touches. *)
Lemma foldl_apply_field {F} (get : CommandObject -> F) (k : str) (g : F -> doc -> F) ms c :
  NoDup ms.*1 ->
  (forall c d, get (apply_member c (k, d)) = g (get c) d) ->
  (forall m c, m ∈ ms -> m.1 <> k -> get (apply_member c m) = get c) ->
  get (foldl apply_member c ms) =
  match assoc k ms with Some d => g (get c) d | None => get c end.
Proof.
  intros Hnd Hk Hother. revert c Hnd Hother.
  induction ms as [|[name d] ms IH]; intros c Hnd Hother; [done|].
  apply NoDup_cons in Hnd as [Hni Hnd]. cbn in Hni. cbn.
  rewrite IH //; [by intros; apply Hother; [apply list_elem_of_further|]|].
  case_bool_decide as E; [subst name; by rewrite assoc_not_in|].
  rewrite Hother //. apply list_elem_of_here.
Qed.

Lemma key_of_name_inv name k : key_of_name name = k -> k <> Unset ->
  name = match k with Directory => lit "directory" | File_ => lit "file" | Command => lit "command"
    | Arguments_ => lit "arguments" | Output => lit "output" | Unset => name end.
Proof. unfold key_of_name. repeat case_bool_decide; intros <-; done. Qed.

Lemma assoc_elem_of {A} (k : str) (v : A) l : assoc k l = Some v -> (k, v) ∈ l.
Proof.
  induction l as [|[k' v'] l IH]; [done|]. cbn. case_bool_decide as E.
  - intros [= ->]. subst. apply list_elem_of_here.
  - intros ?%IH. by apply list_elem_of_further.
Qed.

Lemma assoc_in {A} (k : str) (l : list (str * A)) : k ∈ l.*1 -> is_Some (assoc k l).
Proof.
  induction l as [|[k' v] l IH]; [by intros ?%elem_of_nil|]. cbn.
  rewrite elem_of_cons. intros [->|Hl]; [by rewrite bool_decide_true|].
  case_bool_decide; [by eexists|auto].
Qed.

Ltac other_keys :=
  intros [name d] c Hm Hne; cbn in Hne; unfold apply_member; cbn [fst snd];
  destruct (key_of_name name) eqn:E; try done; apply key_of_name_inv in E; subst; destruct d; done.

Lemma foldl_apply_command ms : clang_object ms ->
  foldl apply_member CommandObject_default ms = command_of ms.
Proof.
  intros [Hkn Hnd Hval Hex]. unfold command_of.
  pose proof (foldl_apply_field workingDirectory (lit "directory")
    (fun x d => match d with DString s => s | _ => x end) ms CommandObject_default Hnd
    ltac:(by intros ? []) ltac:(other_keys)) as Hd.
  pose proof (foldl_apply_field filePath (lit "file")
    (fun x d => match d with DString s => s | _ => x end) ms CommandObject_default Hnd
    ltac:(by intros ? []) ltac:(other_keys)) as Hf.
  pose proof (foldl_apply_field index (lit "none") (fun x d => x) ms CommandObject_default Hnd
    ltac:(by intros ? []) ltac:(other_keys)) as Hi.
  assert (arguments (foldl apply_member CommandObject_default ms) =
    match doc_string (assoc (lit "command") ms) with
    | Some c => automaton Gap [] c
    | None => doc_strings (assoc (lit "arguments") ms) end) as Ha.
  { destruct (decide (lit "command" ∈ ms.*1)) as [Hc|Hc].
    - rewrite (foldl_apply_field arguments (lit "command")
        (fun x d => match d with DString s => automaton Gap [] s | _ => x end)) //;
        [by intros ? []| |].
      + intros [name d] c Hm Hne. cbn in Hne. unfold apply_member. cbn [fst snd].
        destruct (key_of_name name) eqn:E; try by destruct d.
        * exfalso. apply Hex. split; [done|]. apply key_of_name_inv in E; [|done]. subst.
          by apply (list_elem_of_fmap_2 fst) in Hm.
        * by apply key_of_name_inv in E.
      + destruct (assoc (lit "command") ms) as [d|] eqn:E.
        * apply assoc_elem_of in E. rewrite Forall_forall in Hval. apply Hval in E. cbn in E.
          by destruct d.
        * apply assoc_in in Hc as [? Hc]. by rewrite Hc in E.
    - rewrite (assoc_not_in _ _ Hc). cbn.
      rewrite (foldl_apply_field arguments (lit "arguments")
        (fun x d => match d with DArray l => x ++ omap (fun d => doc_string (Some d)) l | _ => x end)) //;
        [by intros ? []|].
      intros [name d] c Hm Hne. cbn in Hne. unfold apply_member. cbn [fst snd].
      destruct (key_of_name name) eqn:E; try by destruct d.
      + by apply key_of_name_inv in E.
      + exfalso. apply Hc. apply key_of_name_inv in E; [|done]. subst.
        by apply (list_elem_of_fmap_2 fst) in Hm. }
  destruct (foldl apply_member CommandObject_default ms) as [ix wd fp args]. cbn in *. subst.
  f_equal.
  - by destruct (assoc (lit "none") ms).
  - by destruct (assoc (lit "directory") ms) as [[]|].
  - by destruct (assoc (lit "file") ms) as [[]|].
Qed.

Lemma clang_object_members ms : clang_object ms -> Forall member_ok ms.
Proof.
  intros [Hkn _ Hval _]. apply Forall_forall. intros m Hm.
  rewrite Forall_forall in Hkn. rewrite Forall_forall in Hval. split; [by apply Hkn|by apply Hval].
Qed.

(** A handler between two objects. *)
Definition between_objects (this : CommandObjectHandler) : Prop :=
  previousKey this = Unset /\ wipCommand this = CommandObject_default.

Lemma run_clang_object ms this : clang_object ms -> between_objects this ->
  run this (events (DObject ms)) =
  Ok (true, mkCommandObjectHandler Unset CommandObject_default (parseLimit this)
              (commands this ++ [command_of ms])).
Proof.
  intros Hms [_ Hw]. rewrite run_object; [by apply clang_object_members|].
  by rewrite Hw foldl_apply_command.
Qed.

Lemma run_clang_objects mss this : Forall clang_object mss -> between_objects this ->
  run this (concat (map (fun ms => events (DObject ms)) mss)) =
  Ok (true, mkCommandObjectHandler Unset CommandObject_default (parseLimit this)
              (commands this ++ map command_of mss)).
Proof.
  intros Hms. revert this. induction Hms as [|ms mss H _ IH]; intros this Hthis.
  - destruct Hthis as [Hp Hw]. destruct this; cbn in *; subst. by rewrite app_nil_r.
  - cbn [map concat]. rewrite run_app run_clang_object // bind_Ok IH //=. by rewrite -app_assoc.
Qed.
End CommandsSpec.

(** C29. Reading a compilation database in the sense of the Clang documentation
    yields, in order, one command per object: its "directory" and "file", and
    its "arguments" or its split "command", whatever the order of the members,
    in debug and release builds alike; nothing leaks from one object to the
    next. *)
Theorem commands_of_document {BM : BuildMode} {W : WindowsTokenizer} mss limit :
  Forall clang_object mss ->
  run (CommandObjectHandler_new limit) (events (DArray (map DObject mss))) =
  Ok (true, mkCommandObjectHandler Unset CommandObject_default limit (map command_of mss)).
Proof.
  intros Hms. cbn [events run]. unfold handle at 1; cbn [command_object_handler].
  by rewrite bind_Ok run_app map_map run_clang_objects.
Qed.

(** *** Unknown keys

    The validator only warns about an unknown key; the second pass reads its
    value into the field of the key before it. *)
Lemma coh_Key_unknown {BM : BuildMode} this key : key_of_name key = Unset ->
  coh_Key this key =
  (ENFORCE false "unexpected key should've been caught by validation" ;; Ok (true, this)).
Proof. unfold coh_Key, key_of_name. repeat case_bool_decide; done. Qed.

Lemma run_skip {BM : BuildMode} {W : WindowsTokenizer} (this : CommandObjectHandler) e es :
  handle this e = Ok (true, this) -> run this (e :: es) = run this es.
Proof. intros He. cbn [run]. by rewrite He. Qed.

Lemma run_unknown_key {BM : BuildMode} {W : WindowsTokenizer} (this : CommandObjectHandler) key es :
  key_of_name key = Unset ->
  run this (EKey key :: es) =
  (ENFORCE false "unexpected key should've been caught by validation" ;; run this es).
Proof.
  intros Hk. cbn [run]. change (handle this (EKey key)) with (coh_Key this key).
  rewrite coh_Key_unknown //. by destruct (ENFORCE false _).
Qed.

(** The events of an object whose last member has the unknown key. *)
Lemma run_with_unknown_key {BM : BuildMode} {W : WindowsTokenizer} known key s this n m :
  Forall member_ok known -> key_of_name key = Unset ->
  run this (events (DArray [DObject (known ++ [(key, DString s)])])) =
  (ENFORCE false "unexpected key should've been caught by validation" ;;
   run (set_previousKey (set_wip this (foldl apply_member (wipCommand this) known))
         (foldl (fun _ m => key_of_name m.1) (previousKey this) known))
       [EString s; EEndObject n; EEndArray m]).
Proof.
  intros Hk Hu. cbn [events map concat]. rewrite app_nil_r.
  rewrite (run_skip this EStartArray) //. cbn [app]. rewrite (run_skip this EStartObject) //.
  rewrite -app_assoc map_app concat_app -app_assoc. fold (member_events known).
  rewrite run_app run_members_commands // bind_Ok. cbn [map concat app fst snd events].
  by rewrite run_unknown_key.
Qed.

(** An unknown key with a string value passes validation, but fails an
    [ENFORCE] of the second pass in a debug build, and in a release build its
    value replaces the value of the known key before it: here, the file name. *)
Theorem unknown_key_overwrites {LP : LlvmPath} {W : WindowsTokenizer} o key s dir cmd fil limit :
  key_of_name key = Unset -> is_absolute dir = true ->
  let d := DArray [DObject ([(lit "directory", DString dir); (lit "command", DString cmd);
                             (lit "file", DString fil)] ++ [(key, DString s)])] in
  compdb_wf o d = true
  /\ is_ok (@run _ (@command_object_handler true W) (CommandObjectHandler_new limit) (events d)) = false
  /\ @run _ (@command_object_handler false W) (CommandObjectHandler_new limit) (events d)
     = Ok (true, mkCommandObjectHandler Unset CommandObject_default limit
             [mkCommandObject POISON_INDEX dir s (automaton Gap [] cmd)]).
Proof.
  intros Hkey Hdir d.
  assert (Forall member_ok [(lit "directory", DString dir); (lit "command", DString cmd);
                            (lit "file", DString fil)]) as Hknown by by repeat constructor.
  split_and!.
  - subst d. cbn. unfold value_wf. rewrite Hdir.
    rewrite Hkey andb_false_r. cbn. unfold effective_key. rewrite Hkey. cbn. rewrite andb_false_r.
    done.
  - by rewrite (@run_with_unknown_key true _ _ _ _ _ 4 1 Hknown Hkey).
  - rewrite (@run_with_unknown_key false _ _ _ _ _ 4 1 Hknown Hkey). by vm_compute.
Qed.

(** When the unknown key comes first in its object, a release build stops
    reading there: the objects after it pass validation and are counted, and
    are never indexed. *)
Theorem unknown_first_key_truncates {W : WindowsTokenizer} mss key s ms rest limit :
  Forall clang_object mss -> key_of_name key = Unset ->
  exists h, @run _ (@command_object_handler false W) (CommandObjectHandler_new limit)
    (events (DArray (map DObject mss ++ DObject ((key, DString s) :: ms) :: rest))) = Ok (false, h)
  /\ commands h = map command_of mss.
Proof.
  intros Hms Hkey. cbn [events run]. unfold handle at 1; cbn [command_object_handler].
  rewrite bind_Ok map_app concat_app map_map -app_assoc run_app run_clang_objects // bind_Ok.
  cbn. unfold handle; cbn. rewrite (@coh_Key_unknown false) //. cbn. by eexists.
Qed.

(** With the check for absolute directories on, an unknown key at the start
    of an object is taken for the "directory" key when that was the last key of
    the object before: a relative value there makes the whole database
    invalid, although no "directory" has a relative value. *)
Theorem unknown_key_checked_as_directory `{BuildMode, LlvmPath, !LlvmPathLaws, RapidJson}
    u text detect dir fil cmd key s ms rest :
  key_of_name key = Unset -> is_absolute s = false ->
  json_tokens text = (events (DArray
    (DObject [(lit "file", DString fil); (lit "command", DString cmd); (lit "directory", DString dir)]
     :: DObject ((key, DString s) :: ms) :: rest)), true) ->
  validateAndCountJobs u text (mkValidationOptions true detect) = Err (Exit 1).
Proof.
  intros Hkey Hs Ht. rewrite (proj1 (validateAndCountJobs_correct_aux _ _ _) _ Ht).
  cbn [compdb_wf objects_wf members_wf checkDirectoryPathsAreAbsolute].
  unfold value_wf, effective_key. rewrite Hkey Hs. by destruct (is_absolute dir).
Qed.

(** An opened database has its contents and a positive count. *)
Lemma openAndExitOnErrors_Ok `{BuildMode, LlvmPath, RapidJson, StdFile} u path o f :
  openAndExitOnErrors u path o = Ok f ->
  exists text size, fopen_read path = Some text /\ file_size path = Some size
    /\ file f = Some text /\ sizeInBytes f = size /\ commandCount f <> 0
    /\ validateAndCountJobs u text o = Ok (commandCount f).
Proof.
  unfold openAndExitOnErrors, File_open. intros ([f' e] & Hopen & Hf)%bind_Ok_inv.
  destruct (fopen_read path) as [text|]; [|inv_ok; done].
  destruct (file_size path) as [size|]; [|inv_ok; done].
  apply bind_Ok_inv in Hopen as (n & Hn & [= <- <-]). cbn in Hf.
  destruct (Z.eqb_spec n 0) as [|Hne]; [done|]. injection Hf as <-. by exists text, size.
Qed.

(** ** Concrete inputs *)
Definition demo_windows : WindowsTokenizer := fun s => [s].
Definition demo_object (f : string) : list (str * doc) :=
  [(lit "file", DString (lit f)); (lit "directory", DString (lit "/p"));
   (lit "arguments", DArray [DString (lit "cc"); DString (lit f)])].
Definition demo_options : ValidationOptions := mkValidationOptions true false.
Definition demo_tokens (d : doc) (ok : bool) : RapidJson := fun _ => (events d, ok).

Lemma demo_object_clang f : clang_object (demo_object f).
Proof.
  split.
  - by repeat constructor.
  - apply (bool_decide_unpack _). by vm_compute.
  - repeat constructor; try done. exists [lit "cc"; lit f]. done.
  - intros [H _]. revert H. cbn. rewrite !elem_of_cons elem_of_nil. intros H.
    by destruct_or! H.
Qed.

Lemma validateAndCountJobs_correct_witness :
  @validateAndCountJobs true posix_path (demo_tokens (DArray (map (DObject ∘ demo_object) ["a.c"; "b.c"]%string)) true)
    77 [] demo_options = Ok 2.
Proof.
  rewrite (proj1 (@validateAndCountJobs_correct true posix_path posix_path_laws
    (demo_tokens (DArray (map (DObject ∘ demo_object) ["a.c"; "b.c"]%string)) true) 77 [] demo_options) _ eq_refl).
  by vm_compute.
Defined.

Lemma commands_of_document_witness :
  @run _ (@command_object_handler true demo_windows) (CommandObjectHandler_new 4)
    (events (DArray (map DObject [demo_object "a.c"]))) =
  Ok (true, mkCommandObjectHandler Unset CommandObject_default 4
    [mkCommandObject POISON_INDEX (lit "/p") (lit "a.c") [lit "cc"; lit "a.c"]]).
Proof.
  apply (@commands_of_document true demo_windows [demo_object "a.c"] 4).
  constructor; [apply demo_object_clang|constructor].
Defined.

Lemma unknown_key_overwrites_witness :
  @run _ (@command_object_handler false demo_windows) (CommandObjectHandler_new 4)
    (events (DArray [DObject [(lit "directory", DString (lit "/p")); (lit "command", DString (lit "cc a.c"));
                              (lit "file", DString (lit "a.c")); (lit "note", DString (lit "slow"))]]))
  = Ok (true, mkCommandObjectHandler Unset CommandObject_default 4
          [mkCommandObject POISON_INDEX (lit "/p") (lit "slow") [lit "cc"; lit "a.c"]]).
Proof.
  apply (@unknown_key_overwrites posix_path demo_windows demo_options (lit "note") (lit "slow")
           (lit "/p") (lit "cc a.c") (lit "a.c") 4); reflexivity.
Defined.

Lemma unknown_first_key_truncates_witness :
  exists h, @run _ (@command_object_handler false demo_windows) (CommandObjectHandler_new 4)
    (events (DArray (map DObject [demo_object "a.c"]
      ++ DObject ((lit "note", DString (lit "slow")) :: demo_object "b.c")
      :: [DObject (demo_object "c.c")]))) = Ok (false, h)
  /\ commands h = map command_of [demo_object "a.c"].
Proof.
  apply (@unknown_first_key_truncates demo_windows [demo_object "a.c"]); [|reflexivity].
  constructor; [apply demo_object_clang|constructor].
Defined.

Lemma unknown_key_checked_as_directory_witness :
  @validateAndCountJobs true posix_path (demo_tokens (DArray
    [DObject [(lit "file", DString (lit "a.c")); (lit "command", DString (lit "cc"));
              (lit "directory", DString (lit "/p"))];
     DObject ((lit "note", DString (lit "slow")) :: demo_object "b.c")]) true) 0 []
    (mkValidationOptions true false) = Err (Exit 1).
Proof.
  eapply (@unknown_key_checked_as_directory true posix_path posix_path_laws _ 0 [] false
    (lit "/p") (lit "a.c") (lit "cc") (lit "note") (lit "slow")); reflexivity.
Defined.
