(* ===== verification/Toolchains.v ===== *)
(** * Toolchains

    The compilers that CompilationDatabase.cc recognises ([ToolchainInfo] and
    its subclasses): how each is inferred by running the compiler, when it is
    well-formed, and how it adjusts a command line.  Running a process and
    searching PATH are parameters. *)
From S2P Require Import Prelude Ordering CppString Paths Json PackageMaps CommandLine.
Import CommandLine.Cleaner.

(** ** Running a compiler

    [boost::process]: the exit code and the two output texts, or a process
    error; [search_path] gives the empty path when nothing is found. *)
Class ProcessRunner : Type := {
  spawn : list str -> option (Z * str * str);
  search_path : str -> str
}.

Record CompletedProcess : Type := mkCompletedProcess {
  exitCode : Z;
  error : bool;
  stdoutLines : list str;
  stderrLines : list str
}.
Definition isSuccess (this : CompletedProcess) : bool :=
  Z.eqb (exitCode this) 0 && negb (error this).

Definition newline : ascii := "010".

(** [while (std::getline(stream, line) && !line.empty())]: [line] is what was
    read of the current line. *)
Fixpoint getline_nonempty (line : str) (text : str) : list str :=
  match text with
  | [] => if bool_decide (line = []) then [] else [line]
  | c :: text' =>
      if Ascii.eqb c newline
      then if bool_decide (line = []) then [] else line :: getline_nonempty [] text'
      else getline_nonempty (line ++ [c]) text'
  end.

Definition runProcess {P : ProcessRunner} (args : list str) : CompletedProcess :=
  match spawn args with
  | Some (code, out, err) =>
      mkCompletedProcess code false (getline_nonempty [] out) (getline_nonempty [] err)
  | None => mkCompletedProcess 1 true [] []
  end.

(** ** The toolchains *)
Record ClangToolchainInfo : Type := mkClangToolchainInfo {
  resourceDir : str;
  findResourceDirInvocation : list str;
  compilerDriverPath : str;
  findDriverInvocation : list str;
  clang_cleaner : CommandLineCleaner
}.

Record GccToolchainInfo : Type := mkGccToolchainInfo {
  installDir : str;
  findInstallDirInvocation : list str;
  gcc_cleaner : CommandLineCleaner
}.

Record NvccToolchainInfo : Type := mkNvccToolchainInfo {
  cudaDir : AbsolutePath;
  clangInfo : option ClangToolchainInfo;
  nvcc_cleaner : CommandLineCleaner
}.

Inductive ToolchainInfo : Type :=
| ClangToolchain (c : ClangToolchainInfo)
| GccToolchain (g : GccToolchainInfo)
| NvccToolchain (n : NvccToolchainInfo).

Inductive CompilerKind : Type := Gcc | Clang | Nvcc.
Definition kind (t : ToolchainInfo) : CompilerKind :=
  match t with ClangToolchain _ => Clang | GccToolchain _ => Gcc | NvccToolchain _ => Nvcc end.

(** *** nvcc's options *)
Definition nvccSkipOptionsNoArgs : list str :=
  [
   lit "--cuda"; lit "-cuda";
   lit "--cubin"; lit "-cubin";
   lit "--fatbin"; lit "-fatbin";
   lit "--ptx"; lit "-ptx";
   lit "--optix-ir"; lit "-optix-ir";
   lit "--generate-dependencies";
   lit "--compile";
   lit "--device-c"; lit "-dc";
   lit "--device-w"; lit "-dw";
   lit "--device-link"; lit "-dlink";
   lit "--link"; lit "-link";
   lit "--lib"; lit "-lib";
   lit "--run"; lit "-run";
   lit "--output-file";
   lit "--compiler-bindir"; lit "-ccbin";
   lit "--allow-unsupported-compiler";
   lit "--archiver-binary"; lit "-arbin";
   lit "--use-local-env"; lit "-use-local-env";
   lit "--profile"; lit "-pg";
   lit "--debug";
   lit "--device-debug"; lit "-G";
   lit "--generate-line-info";
   lit "--dlink-time-opt"; lit "-dlto";
   lit "--gen-opt-lto"; lit "-gen-opt-lto";
   lit "--no-host-device-initializer-list"; lit "-nohdinitlist";
   lit "--no-host-device-move-forward"; lit "-nohdmvforward";
   lit "--expt-relaxed-constexpr"; lit "-expt-relaxed-constexpr";
   lit "--extended-lambda"; lit "-extended-lambda";
   lit "--expt-extended-lambda"; lit "-expt-extended-lambda";
   lit "--m64"; lit "-m64";
   lit "--forward-unknown-to-host-compiler"; lit "-forward-unknown-to-host-compiler";
   lit "--forward-unknown-opts"; lit "-forward-unknown-opts";
   lit "--keep"; lit "-keep";
   lit "--save-temps"; lit "-save-temps";
   lit "--no-align-double"; lit "-no-align-double";
   lit "--no-device-link"; lit "-nodlink";
   lit "--extra-device-vectorization"; lit "-extra-device-vectorization";
   lit "--disable-warnings"; lit "-w";
   lit "--keep-device-functions"; lit "-keep-device-functions";
   lit "--source-in-ptx"; lit "-src-in-ptx";
   lit "--restrict"; lit "-restrict";
   lit "--Wreorder"; lit "-Wreorder";
   lit "--Wdefault-stream-launch"; lit "-Wdefault-stream-launch";
   lit "--Wmissing-launch-bounds"; lit "-Wmissing-launch-bounds";
   lit "--Wext-lambda-captures-this"; lit "-Wext-lambda-captures-this";
   lit "--Wno-deprecated-declarations"; lit "-Wno-deprecated-declarations";
   lit "--Wno-deprecated-gpu-targets"; lit "-Wno-deprecated-gpu-targets";
   lit "--resource-usage"; lit "-res-usage";
   lit "--extensible-whole-program"; lit "-ewp";
   lit "--compress-all"; lit "-compress-all";
   lit "--no-compress"; lit "-no-compress";
   lit "--qpp-config"; lit "-qpp-config";
   lit "--compile-as-tools-patch"; lit "-astoolspatch";
   lit "--display-error-number"; lit "-err-no";
   lit "--no-display-error-number"; lit "-no-err-no";
   lit "--augment-host-linker-script"; lit "-aug-hls";
   lit "--host-relocatable-link"; lit "-r"].

Definition nvccSkipOptionsWithArgs : list str :=
  [
   lit "--cudart"; lit "-cudart";
   lit "--cudadevrt"; lit "-cudadevrt";
   lit "--libdevice-directory"; lit "-ldir";
   lit "--target-directory"; lit "-target-dir";
   lit "--optimization-info";
   lit "--optimize";
   lit "--dopt"; lit "-dopt";
   lit "--machine"; lit "-m";
   lit "--threads"; lit "-t";
   lit "--split-compile"; lit "-split-compile";
   lit "--keep-dir"; lit "-keep-dir";
   lit "--compiler-options"; lit "-Xcompiler"; lit "--options-file";
   lit "--fatbin-options"; lit "-Xfatbin";
   lit "--linker-options";
   lit "--archive-options"; lit "-Xarchive";
   lit "--ptxas-options"; lit "-Xptxas";
   lit "--nvlink-options"; lit "-Xnvlink";
   lit "--time"; lit "-time";
   lit "--run-args"; lit "-run-args";
   lit "--input-drive-prefix"; lit "-idp";
   lit "--dependency-drive-prefix"; lit "-ddp";
   lit "--drive-prefix"; lit "-dp";
   lit "-dependency-target-name";
   lit "--gpu-architecture";
   lit "--gpu-code"; lit "-code";
   lit "--generate-code"; lit "-gencode";
   lit "--relocatable-device-code"; lit "-rdc";
   lit "--entries"; lit "-e";
   lit "--maxrregcount"; lit "-maxrregcount";
   lit "--use_fast_math"; lit "-use_fast_math";
   lit "--ftz"; lit "-ftz";
   lit "--prec-div"; lit "-prec-div";
   lit "--prec-sqrt"; lit "-prec-sqrt";
   lit "--fmad"; lit "-fmad";
   lit "--default-stream"; lit "-default-stream";
   lit "--Werror"; lit "-Werror";
   lit "--diag-error"; lit "-diag-error";
   lit "--diag-suppress"; lit "-diag-suppress";
   lit "--diag-warn"; lit "-diag-warn";
   lit "--host-linker-script"; lit "-hls";
   lit "--brief-diagnostics"; lit "-brief-diag"].

Definition emplace_all (k : CliOptionKind) (m : gmap str CliOptionKind) (l : list str)
    : gmap str CliOptionKind :=
  foldl (fun m s => match m !! s with Some _ => m | None => <[s := k]> m end) m l.

Definition nvccCleaner : CommandLineCleaner :=
  mkCleaner (emplace_all OneArgument (emplace_all NoArgument ∅ nvccSkipOptionsNoArgs)
               nvccSkipOptionsWithArgs) None.

Section Infer.
Context `{BM : BuildMode, LP : LlvmPath, FS : FileSystem, P : ProcessRunner, A : AbslStrings,
          R : LlvmRegex}.

(** The first line of [-###] that names the installation directory. *)
Fixpoint installedDir (lines : list str) : str :=
  match lines with
  | [] => []
  | line :: lines' =>
      let clangDriverDir := StripPrefix line (lit "InstalledDir: ") in
      if negb (Nat.eqb (length clangDriverDir) (length line))
      then joinPath (StripAsciiWhitespace clangDriverDir) (lit "clang")
      else installedDir lines'
  end.

Definition clang_tryInfer (compilerPath : AbsolutePath) : option ClangToolchainInfo :=
  let findResourceDirInvocation := [asStringRef compilerPath; lit "-print-resource-dir"] in
  let printResourceDirResult := runProcess findResourceDirInvocation in
  if negb (isSuccess printResourceDirResult) then None
  else
    match stdoutLines printResourceDirResult with
    | [] => None
    | front :: _ =>
        let resourceDir := StripAsciiWhitespace front in
        let findDriverInvocation := [asStringRef compilerPath; lit "-###"] in
        let hashHashHashResult := runProcess findDriverInvocation in
        let compilerDriverPath :=
          if isSuccess hashHashHashResult then installedDir (stderrLines hashHashHashResult)
          else [] in
        if bool_decide (compilerDriverPath = []) then None
        else Some (mkClangToolchainInfo resourceDir findResourceDirInvocation
                     compilerDriverPath findDriverInvocation forClangOrGcc)
    end.

Fixpoint installLine (lines : list str) : str :=
  match lines with
  | [] => []
  | line :: lines' =>
      if starts_with (lit "install:") line
      then StripAsciiWhitespace (StripPrefix line (lit "install:"))
      else installLine lines'
  end.

Definition gcc_tryInfer (compilerPath : AbsolutePath) : option GccToolchainInfo :=
  let findSearchDirsInvocation := [asStringRef compilerPath; lit "-print-search-dirs"] in
  let printSearchDirsResult := runProcess findSearchDirsInvocation in
  if negb (isSuccess printSearchDirsResult) then None
  else
    let installDir := installLine (stdoutLines printSearchDirsResult) in
    if bool_decide (installDir = []) then None
    else Some (mkGccToolchainInfo installDir findSearchDirsInvocation forClangOrGcc).

Definition NvccToolchainInfo_new (cudaDir : AbsolutePath) : result NvccToolchainInfo :=
  let clangPath := search_path (lit "clang") in
  clangInfo ←
    (if negb (bool_decide (clangPath = [])) then
       clangAbsPath ← AbsolutePath_new clangPath;
       Ok (clang_tryInfer clangAbsPath)
     else Ok None);
  Ok (mkNvccToolchainInfo cudaDir clangInfo nvccCleaner).

Definition nvcc_tryInfer (compilerPath : AbsolutePath) : result (option NvccToolchainInfo) :=
  let compilerVersionResult := runProcess [asStringRef compilerPath; lit "--version"] in
  if isSuccess compilerVersionResult
     && match stdoutLines compilerVersionResult with
        | line :: _ => StrContains line (lit "NVIDIA")
        | [] => false end
  then
    ref ← asRef compilerPath;
    binDir ← prefix_of_path ref;
    match binDir with
    | None => Ok None
    | Some binDir =>
        cudaDir ← prefix_of_path binDir;
        match cudaDir with
        | None => Ok None
        | Some cudaDir => Some <$> NvccToolchainInfo_new (AbsolutePath_ofRef cudaDir)
        end
    end
  else Ok None.

Definition infer (compilerPath : AbsolutePath) : result (option ToolchainInfo) :=
  match clang_tryInfer compilerPath with
  | Some clangInfo => Ok (Some (ClangToolchain clangInfo))
  | None =>
      match gcc_tryInfer compilerPath with
      | Some gccInfo => Ok (Some (GccToolchain gccInfo))
      | None =>
          nvccInfo ← nvcc_tryInfer compilerPath;
          Ok (option_map NvccToolchain nvccInfo)
      end
  end.

Definition clang_isWellFormed (this : ClangToolchainInfo) : bool :=
  if negb (fs_exists (resourceDir this)) then false
  else if negb (fs_exists (compilerDriverPath this)) then false
  else true.

Definition gcc_isWellFormed (this : GccToolchainInfo) : bool :=
  if negb (fs_exists (installDir this)) then false else true.

Definition nvcc_isWellFormed (this : NvccToolchainInfo) : bool :=
  let path := joinPath (asStringRef (cudaDir this)) (lit "include") in
  if negb (fs_exists path) then false else true.

Definition isWellFormed (t : ToolchainInfo) : bool :=
  match t with
  | ClangToolchain c => clang_isWellFormed c
  | GccToolchain g => gcc_isWellFormed g
  | NvccToolchain n => nvcc_isWellFormed n
  end.

(** [commandLine\[0\] = x]. *)
Definition set_front (x : str) (commandLine : list str) : result (list str) :=
  match commandLine with [] => Err OutOfRange | _ :: rest => Ok (x :: rest) end.

Definition clang_adjustCommandLine (this : ClangToolchainInfo) (commandLine : list str)
    : result (list str) :=
  commandLine ← set_front (compilerDriverPath this) commandLine;
  let commandLine := clean (clang_cleaner this) commandLine in
  Ok (commandLine ++ [lit "-resource-dir"] ++ [resourceDir this]).

Definition gcc_adjustCommandLine (this : GccToolchainInfo) (commandLine : list str) : list str :=
  let commandLine := clean (gcc_cleaner this) commandLine in
  commandLine ++ [lit "-resource-dir"] ++ [installDir this]
    ++ [lit "-I" ++ installDir this ++ lit "/include-fixed"].

Definition nvcc_adjustCommandLine (this : NvccToolchainInfo) (commandLine : list str)
    : result (list str) :=
  let commandLine := clean (nvcc_cleaner this) commandLine in
  commandLine ← match clangInfo this with
    | Some c => clang_adjustCommandLine c commandLine
    | None => Ok commandLine end;
  Ok (commandLine ++ [lit "-isystem" ++ asStringRef (cudaDir this) ++ [sep] ++ lit "include"]).

Definition toolchain_adjustCommandLine (t : ToolchainInfo) (commandLine : list str)
    : result (list str) :=
  match t with
  | ClangToolchain c => clang_adjustCommandLine c commandLine
  | GccToolchain g => Ok (gcc_adjustCommandLine g commandLine)
  | NvccToolchain n => nvcc_adjustCommandLine n commandLine
  end.
End Infer.

(** ** The cleaner for nvcc *)
Lemma emplace_all_lookup k l : forall m name,
  emplace_all k m l !! name =
  match m !! name with
  | Some v => Some v
  | None => if bool_decide (name ∈ l) then Some k else None end.
Proof.
  unfold emplace_all. induction l as [|s l IH]; intros m name.
  - cbn. by destruct (m !! name).
  - cbn [foldl]. rewrite IH. destruct (m !! s) as [v|] eqn:Es.
    + destruct (m !! name) eqn:En; [done|].
      assert (name <> s) as Hne by by intros ->; rewrite Es in En.
      by rewrite (bool_decide_ext (name ∈ s :: l) (name ∈ l)) // elem_of_cons; tauto.
    + destruct (decide (name = s)) as [->|Hne].
      * rewrite lookup_insert_eq Es bool_decide_true //. apply list_elem_of_here.
      * rewrite lookup_insert_ne //.
        by rewrite (bool_decide_ext (name ∈ s :: l) (name ∈ l)) // elem_of_cons; tauto.
Qed.

Lemma emplace_two_tables l1 l2 name : Forall (fun n => n ∉ l2) l1 ->
  emplace_all OneArgument (emplace_all NoArgument ∅ l1) l2 !! name =
    (if bool_decide (name ∈ l1) then Some NoArgument
     else if bool_decide (name ∈ l2) then Some OneArgument else None)
  /\ emplace_all OneArgument (emplace_all NoArgument ∅ l1) l2 !! name =
     emplace_all NoArgument (emplace_all OneArgument ∅ l2) l1 !! name.
Proof.
  rewrite Forall_forall => Hd. rewrite !emplace_all_lookup lookup_empty.
  case_bool_decide as H1; case_bool_decide as H2; try done. by apply Hd in H1.
Qed.

Lemma nvcc_tables_disjoint : Forall (fun n => n ∉ nvccSkipOptionsWithArgs) nvccSkipOptionsNoArgs.
Proof. apply (bool_decide_unpack _). by vm_compute. Qed.

Lemma nvcc_lookup name :
  toZap nvccCleaner !! name =
  (if bool_decide (name ∈ nvccSkipOptionsNoArgs) then Some NoArgument
   else if bool_decide (name ∈ nvccSkipOptionsWithArgs) then Some OneArgument else None).
Proof.
  change (toZap nvccCleaner) with (emplace_all OneArgument
    (emplace_all NoArgument ∅ nvccSkipOptionsNoArgs) nvccSkipOptionsWithArgs).
  apply (emplace_two_tables _ _ name nvcc_tables_disjoint).
Qed.

(** The tables of nvcc options do not contradict each other: no option is
    listed both with and without an argument, so the order in which the
    constructor inserts them does not matter, and the cleaner's map is exactly
    the two tables. *)
Theorem nvccCleaner_tables name :
  (name ∈ nvccSkipOptionsNoArgs -> name ∉ nvccSkipOptionsWithArgs)
  /\ toZap nvccCleaner !! name =
     (if bool_decide (name ∈ nvccSkipOptionsNoArgs) then Some NoArgument
      else if bool_decide (name ∈ nvccSkipOptionsWithArgs) then Some OneArgument else None)
  /\ toZap nvccCleaner =
     emplace_all NoArgument (emplace_all OneArgument ∅ nvccSkipOptionsWithArgs)
       nvccSkipOptionsNoArgs.
Proof.
  pose proof nvcc_tables_disjoint as Hd. split_and!.
  - rewrite Forall_forall in Hd. apply Hd.
  - apply nvcc_lookup.
  - change (toZap nvccCleaner) with (emplace_all OneArgument
      (emplace_all NoArgument ∅ nvccSkipOptionsNoArgs) nvccSkipOptionsWithArgs).
    apply map_eq. intros n. apply (emplace_two_tables _ _ n Hd).
Qed.

(** ** Adjusting a command line *)
Definition is_input (arg : str) : bool := negb (starts_with (lit "-") arg).

Section Adjust.
Context `{R : LlvmRegex}.

Lemma clean_cons c arg args : clean c (arg :: args) =
  match check c arg with
  | Keep => arg :: clean c args | ZapOne => clean c args | ZapTwo => clean c (tail args) end.
Proof. unfold clean, zap. cbn [zap_loop]. destruct (check c arg), args; done. Qed.

Lemma clean_input c arg args : is_input arg = true -> clean c (arg :: args) = arg :: clean c args.
Proof.
  intros Ha. unfold clean, zap. cbn [zap_loop].
  assert (check c arg = Keep) as ->; [|done].
  unfold check. unfold is_input in Ha. by rewrite Ha.
Qed.

(** The command a toolchain makes of a compiler and its arguments. *)
Definition adjusted_front (t : ToolchainInfo) (compiler : str) : str :=
  match t with
  | ClangToolchain c => compilerDriverPath c
  | GccToolchain _ => compiler
  | NvccToolchain n => from_option compilerDriverPath compiler (clangInfo n)
  end.

Definition adjusted_args (t : ToolchainInfo) (args : list str) : list str :=
  match t with
  | ClangToolchain c => clean (clang_cleaner c) args
  | GccToolchain g => clean (gcc_cleaner g) args
  | NvccToolchain n =>
      from_option (fun c => clean (clang_cleaner c)) id (clangInfo n) (clean (nvcc_cleaner n) args)
  end.

Definition adjusted_extra (t : ToolchainInfo) : list str :=
  match t with
  | ClangToolchain c => [lit "-resource-dir"; resourceDir c]
  | GccToolchain g =>
      [lit "-resource-dir"; installDir g; lit "-I" ++ installDir g ++ lit "/include-fixed"]
  | NvccToolchain n =>
      from_option (fun c => [lit "-resource-dir"; resourceDir c]) [] (clangInfo n)
      ++ [lit "-isystem" ++ asStringRef (cudaDir n) ++ [sep] ++ lit "include"]
  end.

(** The Clang driver of the toolchain, if it has one, is not an option. *)
Definition driver_is_input (t : ToolchainInfo) : Prop :=
  match t with
  | ClangToolchain c => is_input (compilerDriverPath c) = true
  | GccToolchain _ => True
  | NvccToolchain n => forall c, clangInfo n = Some c -> is_input (compilerDriverPath c) = true
  end.

Lemma adjusted_args_sublist t args : adjusted_args t args `sublist_of` args.
Proof.
  assert (forall c l, clean c l `sublist_of` l) as Hs.
  { intros c l. destruct (cleaned_kept c l (clean c l)) as [Hs _]; [|done].
    apply (zap_loop_cleaned c l). }
  destruct t as [c|g|n]; cbn; [apply Hs..|]. destruct (clangInfo n); cbn; [|apply Hs].
  etrans; apply Hs.
Qed.


(** The nvcc table lists [-use_fast_math] among the options with an argument
    and [-ccbin] among those without: cleaning removes the argument after the
    former, even the source file, and leaves the compiler path after the latter
    behind as if it were an input. *)
Theorem nvcc_option_arity arg rest :
  clean nvccCleaner (lit "-use_fast_math" :: arg :: rest) = clean nvccCleaner rest
  /\ (is_input arg = true ->
      clean nvccCleaner (lit "-ccbin" :: arg :: rest) = arg :: clean nvccCleaner rest).
Proof.
  assert (check nvccCleaner (lit "-use_fast_math") = ZapTwo) as H1.
  { unfold check. rewrite nvcc_lookup. by vm_compute. }
  assert (check nvccCleaner (lit "-ccbin") = ZapOne) as H2.
  { unfold check. rewrite nvcc_lookup. by vm_compute. }
  split; [by rewrite clean_cons H1|]. intros Ha. by rewrite clean_cons H2 clean_input.
Qed.
End Adjust.

Definition demo_clang : ClangToolchainInfo :=
  mkClangToolchainInfo (lit "/usr/lib/clang/17") [] (lit "/usr/bin/clang") [] forClangOrGcc.


Lemma nvcc_option_arity_witness :
  clean nvccCleaner [lit "-ccbin"; lit "/usr/bin/g++"; lit "a.cu"] = [lit "/usr/bin/g++"; lit "a.cu"].
Proof.
  rewrite (proj2 (@nvcc_option_arity demo_regex (lit "/usr/bin/g++") [lit "a.cu"]) eq_refl).
  reflexivity.
Defined.
