(* ===== verification/CompdbParser.v ===== *)
(** * The resumable parser of the compilation database

    [ResumableParser] of CompilationDatabase.h/.cc: batches of command objects
    read in a streaming fashion, filtered, numbered, and with their command
    lines adjusted through a cache of toolchains. *)
From S2P Require Import Prelude Ordering CppString Paths Json PackageMaps.
From S2P Require Import CommandLine Compdb Toolchains.
Import CommandLine.Parser CommandLine.Cleaner.

Record ParseOptions : Type := mkParseOptions {
  refillCount : Z;
  adjustCommandLine_ : bool;
  skipNonMainFileEntries : bool;
  checkFilesExist : bool
}.

Definition ParseOptions_create {BM : BuildMode} (refillCount : Z) (forTesting : bool)
    : result ParseOptions :=
  ENFORCE (0 <? refillCount) "refillCount > 0" ;;
  Ok (mkParseOptions refillCount (negb forTesting) (negb forTesting) (negb forTesting)).

Record ParseStats : Type := mkParseStats {
  skippedNonTuFileExtension : Z;
  skippedNonExistentTuFile : Z
}.

(** [rapidjson::FileReadStream] over a text: its remaining tokens, and whether
    a syntax error follows them. *)
Record FileReadStream : Type := mkFileReadStream { pending : list Event; wellFormed : bool }.

(** The states of the iterative [rapidjson::Reader]. *)
Inductive ReaderState : Type := Parsing | Finished | HasParseError.
#[export] Instance ReaderState_eq_dec : EqDecision ReaderState.
Proof. solve_decision. Defined.

Definition IterativeParseComplete (reader : ReaderState) : bool :=
  negb (bool_decide (reader = Parsing)).

(** [IterativeParseNext]: one token; the last one finishes the parse. *)
Definition IterativeParseNext {S} `{!Handler S} (stream : FileReadStream) (handler : S)
    : result (ReaderState * FileReadStream * S) :=
  match pending stream with
  | [] => Ok (HasParseError, stream, handler)
  | e :: es =>
      '(continue, handler) ← handle handler e;
      let stream := mkFileReadStream es (wellFormed stream) in
      if negb continue then Ok (HasParseError, stream, handler)
      else if bool_decide (es = []) && wellFormed stream then Ok (Finished, stream, handler)
      else Ok (Parsing, stream, handler)
  end.

Record ResumableParser : Type := mkResumableParser {
  jsonStreamBuffer_size : Z;
  compDbStream : option FileReadStream;
  handler : option CommandObjectHandler;
  reader : ReaderState;
  currentIndex : Z;
  options : ParseOptions;
  emittedErrors : gset str;
  fileExtensionRegex : str;
  toolchainInfoMap : gmap str (option ToolchainInfo);
  stats : ParseStats
}.

(** [llvm::Regex::escape] and [fmt::join]. *)
Class RegexEscape : Type := regex_escape : str -> str.

Fixpoint fmt_join (sep : str) (l : list str) : str :=
  match l with
  | [] => []
  | [s] => s
  | s :: l' => s ++ sep ++ fmt_join sep l'
  end.

Definition tuFileExtensions : list str :=
  [lit "c"; lit "C"; lit "cc"; lit "cpp"; lit "CPP"; lit "cxx"; lit "c++"; lit "cu"].

Definition fileExtensionPattern {E : RegexEscape} : str :=
  let extensions := map (fun ext => regex_escape (lit "." ++ ext)) tuFileExtensions in
  lit ".+(" ++ fmt_join (lit "|") extensions ++ lit ")$".

(** The size of the stream buffer, in [size_t] arithmetic. *)
Definition bufferSize (sizeInBytes commandCount refillCount : Z) : Z :=
  let averageJobSize := sizeInBytes / commandCount in
  Z.min (128 * 1024 * 1024) (wrap64 (wrap64 (averageJobSize * 2) * refillCount)).

Section Resumable.
Context `{BM : BuildMode, LP : LlvmPath, FS : FileSystem, P : ProcessRunner, A : AbslStrings,
          R : LlvmRegex, E : RegexEscape, W : WindowsTokenizer, RJ : RapidJson}.
Implicit Types this : ResumableParser.

Definition initialize this (compdb : File) (options : ParseOptions) : ResumableParser :=
  let '(tokens, ok) := json_tokens (default [] (file compdb)) in
  mkResumableParser (bufferSize (sizeInBytes compdb) (commandCount compdb) (refillCount options))
    (Some (mkFileReadStream tokens ok))
    (Some (CommandObjectHandler_new (refillCount options)))
    Parsing (currentIndex this) options (emittedErrors this) fileExtensionPattern
    (toolchainInfoMap this) (stats this).

Definition set_parse this (r : ReaderState) (s : FileReadStream) (h : CommandObjectHandler)
    : ResumableParser :=
  mkResumableParser (jsonStreamBuffer_size this) (Some s) (Some h) r (currentIndex this)
    (options this) (emittedErrors this) (fileExtensionRegex this) (toolchainInfoMap this) (stats this).
Definition set_index_stats this (i : Z) (st : ParseStats) : ResumableParser :=
  mkResumableParser (jsonStreamBuffer_size this) (compDbStream this) (handler this) (reader this) i
    (options this) (emittedErrors this) (fileExtensionRegex this) (toolchainInfoMap this) st.
Definition set_toolchains this (e : gset str) (m : gmap str (option ToolchainInfo))
    : ResumableParser :=
  mkResumableParser (jsonStreamBuffer_size this) (compDbStream this) (handler this) (reader this)
    (currentIndex this) (options this) e (fileExtensionRegex this) m (stats this).

(** *** [adjustCommandLine] *)
Definition notOnPathMessage (compiler : str) : str :=
  lit "scip-clang needs to be invoke '" ++ compiler ++ lit "' (found via the compilation"
  ++ lit " database) to determine the resource directory, but couldn't find"
  ++ lit " '" ++ compiler ++ lit "' on PATH. Hint: Use a modified PATH to invoke scip-clang,"
  ++ lit " or change the compilation database to use absolute paths"
  ++ lit " for the compiler.".

(** Inserts into [emittedErrors]; an error is logged the first time only. *)
Definition emitError this (error : str) : ResumableParser :=
  set_toolchains this ({[error]} ∪ emittedErrors this) (toolchainInfoMap this).

(** [insert] and [emplace] keep an existing entry; the flag says whether they
    inserted. *)
Definition toolchain_insert this (compiler : str) (t : option ToolchainInfo)
    : ResumableParser * bool :=
  match toolchainInfoMap this !! compiler with
  | Some _ => (this, false)
  | None => (set_toolchains this (emittedErrors this) (<[compiler := t]> (toolchainInfoMap this)), true)
  end.

(** The path to invoke: an absolute path, or none; and whether the lookup on
    PATH failed. *)
Definition compilerInvocation (directoryPath compiler : str) : result (str * bool) :=
  match find_char compiler sep 0 with
  | None =>
      let absPath := search_path compiler in
      if bool_decide (absPath = []) then Ok ([], true)
      else p ← AbsolutePath_new absPath; Ok (asStringRef p, false)
  | Some _ =>
      if is_relative compiler then
        if is_absolute directoryPath then
          p ← AbsolutePath_new (joinPath directoryPath compiler); Ok (asStringRef p, false)
        else Ok ([], false)
      else
        ENFORCE (is_absolute compiler) "llvm::sys::path::is_absolute(compilerOrWrapperPath)" ;;
        p ← AbsolutePath_new compiler; Ok (asStringRef p, false)
  end.

Definition adjustCommandLine this (directoryPath : str) (commandLine : list str)
    : result (ResumableParser * list str) :=
  match commandLine with
  | [] => Err OutOfRange
  | compilerOrWrapperPath :: _ =>
      match toolchainInfoMap this !! compilerOrWrapperPath with
      | Some (Some toolchain) =>
          commandLine ← toolchain_adjustCommandLine toolchain commandLine;
          Ok (this, commandLine)
      | Some None => Ok (this, commandLine)
      | None =>
          let fail this := Ok ((toolchain_insert this compilerOrWrapperPath None).1, commandLine) in
          '(path, notOnPath) ← compilerInvocation directoryPath compilerOrWrapperPath;
          if (notOnPath : bool) then fail (emitError this (notOnPathMessage compilerOrWrapperPath))
          else if bool_decide (path = []) then fail this
          else
            optToolchainInfo ← infer (mkAbsolutePath path);
            match optToolchainInfo with
            | None => fail this
            | Some toolchain =>
                if negb (isWellFormed toolchain) then fail this
                else
                  let '(this, inserted) :=
                    toolchain_insert this compilerOrWrapperPath (Some toolchain) in
                  ENFORCE inserted "inserted" ;;
                  commandLine ← toolchain_adjustCommandLine toolchain commandLine;
                  Ok (this, commandLine)
            end
      end
  end.

(** *** [parseMore] *)
Definition doesFileExist (path base : str) : bool :=
  if is_absolute path then fs_exists path else fs_exists (base ++ [sep] ++ path).

(** The inner loop: tokens until the batch is full or the text is read. *)
Fixpoint parse_until (fuel : nat) this : result ResumableParser :=
  h ← optional_value (handler this);
  if negb (reachedLimit h) && negb (IterativeParseComplete (reader this)) then
    match fuel with
    | O => Err OutOfFuel
    | S fuel' =>
        s ← optional_value (compDbStream this);
        '(r, s, h) ← IterativeParseNext s h;
        parse_until fuel' (set_parse this r s h)
    end
  else Ok this.

(** The body of the loop over a batch. *)
Definition filter_command (st : ResumableParser * list CommandObject) (cmd : CommandObject)
    : ResumableParser * list CommandObject :=
  let '(this, out) := st in
  let cmd := set_index cmd (currentIndex this) in
  let i := wrap64 (currentIndex this + 1) in
  let st := stats this in
  if skipNonMainFileEntries (options this)
     && negb (regex_match (fileExtensionRegex this) (filePath cmd)) then
    (set_index_stats this i (mkParseStats (wrap32 (skippedNonTuFileExtension st + 1))
                                          (skippedNonExistentTuFile st)), out)
  else if checkFilesExist (options this)
          && negb (doesFileExist (filePath cmd) (workingDirectory cmd)) then
    (set_index_stats this i (mkParseStats (skippedNonTuFileExtension st)
                                          (wrap32 (skippedNonExistentTuFile st + 1))), out)
  else (set_index_stats this i st, out ++ [cmd]).

Definition clear_commands (h : CommandObjectHandler) : CommandObjectHandler :=
  mkCommandObjectHandler (previousKey h) (wipCommand h) (parseLimit h) [].

(** [while (out.size() == initialSize)]. *)
Fixpoint fill (fuel : nat) (initialSize : nat) this (out : list CommandObject)
    : result (ResumableParser * list CommandObject) :=
  if negb (Nat.eqb (length out) initialSize) then Ok (this, out)
  else
    match fuel with
    | O => Err OutOfFuel
    | S fuel' =>
        s ← optional_value (compDbStream this);
        this ← parse_until (S (length (pending s))) this;
        h ← optional_value (handler this);
        s ← optional_value (compDbStream this);
        if bool_decide (commands h = []) then Ok (this, out)
        else
          let '(this, out) := foldl filter_command (this, out) (commands h) in
          fill fuel' initialSize (set_parse this (reader this) s (clear_commands h)) out
    end.

Definition adjust_command (st : ResumableParser * list CommandObject) (cmd : CommandObject)
    : result (ResumableParser * list CommandObject) :=
  let '(this, done) := st in
  match arguments cmd with
  | [] => Ok (this, done ++ [cmd])
  | _ =>
      '(this, args) ← adjustCommandLine this (workingDirectory cmd) (arguments cmd);
      Ok (this, done ++ [set_arguments cmd args])
  end.

(** The loop at the end of [parseMore] goes over the whole of [out]. *)
Definition adjust_commands this (out : list CommandObject)
    : result (ResumableParser * list CommandObject) :=
  foldM adjust_command (this, []) out.

Definition parseMore this (out : list CommandObject)
    : result (ResumableParser * list CommandObject) :=
  if IterativeParseComplete (reader this) then Ok (this, out)
  else
    ENFORCE (bool_decide (is_Some (handler this))) "should've been handled by initializer method" ;;
    ENFORCE (bool_decide (is_Some (compDbStream this))) "should've been handled by initializer method" ;;
    s ← optional_value (compDbStream this);
    '(this, out) ← fill (S (length (pending s))) (length out) this out;
    if adjustCommandLine_ (options this) then adjust_commands this out
    else Ok (this, out).

(** A client that asks for batches until it gets an empty one. *)
Fixpoint parse_batches (fuel : nat) this : result (ResumableParser * list (list CommandObject)) :=
  match fuel with
  | O => Err OutOfFuel
  | S fuel' =>
      '(this, batch) ← parseMore this [];
      if bool_decide (batch = []) then Ok (this, [])
      else
        '(this, batches) ← parse_batches fuel' this;
        Ok (this, batch :: batches)
  end.
End Resumable.

(** ** Reading tokens in batches *)
Section Batches.
Context `{BM : BuildMode, LP : LlvmPath, FS : FileSystem, P : ProcessRunner, A : AbslStrings,
          R : LlvmRegex, E : RegexEscape, W : WindowsTokenizer, RJ : RapidJson}.
Implicit Types this : ResumableParser.

Definition is_end_object (e : Event) : bool := match e with EEndObject _ => true | _ => false end.

(** Only the end of an object adds a command. *)
Lemma handle_keeps_commands (h h' : CommandObjectHandler) e c :
  is_end_object e = false -> handle h e = Ok (c, h') ->
  commands h' = commands h /\ parseLimit h' = parseLimit h.
Proof.
  destruct e; try done; intros _; unfold handle; cbn [command_object_handler];
    try (by intros [= _ <-]).
  - unfold coh_String. destruct (previousKey h); intros Hr; inv_ok; try done.
  - unfold coh_Key. repeat (case_bool_decide; [by intros [= _ <-]|]). intros Hr; by inv_ok.
Qed.

Lemma parse_until_S fuel this h : handler this = Some h ->
  parse_until (S fuel) this =
  if negb (reachedLimit h) && negb (IterativeParseComplete (reader this)) then
    s ← optional_value (compDbStream this);
    '(r, s, h) ← IterativeParseNext s h;
    parse_until fuel (set_parse this r s h)
  else Ok this.
Proof. intros Hh. cbn [parse_until]. by rewrite Hh. Qed.

Lemma set_parse_twice this r s h r' s' h' :
  set_parse (set_parse this r s h) r' s' h' = set_parse this r' s' h'.
Proof. done. Qed.

(** The reader is in the middle of a text whose remaining tokens are [es]. *)
Definition reading this (es : list Event) (h : CommandObjectHandler) : Prop :=
  reader this = Parsing /\ compDbStream this = Some (mkFileReadStream es true) /\ handler this = Some h.

(** Tokens without an end of object, and one more token, below the limit. *)
Lemma parse_until_run es e rest : forall fuel this h h',
  reading this (es ++ e :: rest) h -> rest <> [] -> reachedLimit h = false ->
  forallb (fun e => negb (is_end_object e)) es = true ->
  run h (es ++ [e]) = Ok (true, h') ->
  parse_until (length es + S fuel) this =
  parse_until fuel (set_parse this Parsing (mkFileReadStream rest true) h').
Proof.
  induction es as [|e1 es IH]; intros fuel this h h' (Hr & Hs & Hh) Hrest Hlim Hno Hrun.
  - cbn [length app plus] in *. rewrite (parse_until_S _ _ _ Hh) Hlim Hr Hs /=.
    cbn [run] in Hrun. unfold IterativeParseNext. cbn [pending].
    destruct (handle h e) as [[[] h1]|]; cbn in Hrun |- *; inv_ok; try done.
    by rewrite bool_decide_false.
  - cbn [forallb] in Hno. apply andb_true_iff in Hno as [He1%negb_true_iff Hno].
    cbn [length app plus] in *. rewrite (parse_until_S _ _ _ Hh) Hlim Hr Hs /=.
    cbn [run] in Hrun. unfold IterativeParseNext. cbn [pending].
    destruct (handle h e1) as [[[] h1]|] eqn:Eh; cbn in Hrun |- *; inv_ok; try done.
    rewrite bool_decide_false; [by destruct es|]. cbn.
    destruct (handle_keeps_commands _ _ _ _ He1 Eh) as [Hc Hl].
    rewrite (IH fuel _ h1 h'); try done.
    unfold reachedLimit. by rewrite Hc Hl.
Qed.

Lemma member_events_no_end ms : Forall member_ok ms ->
  forallb (fun e => negb (is_end_object e)) (member_events ms) = true.
Proof.
  induction 1 as [|[name d] ms [Hn Hd] _ IH]; [done|].
  unfold member_events. cbn [map concat fst snd]. rewrite forallb_app. fold (member_events ms).
  rewrite IH andb_true_r. cbn [fst snd] in Hd. case_bool_decide.
  - destruct Hd as [l ->]. cbn [events forallb is_end_object negb andb]. rewrite forallb_app. cbn.
    rewrite andb_true_r. clear. induction l; [done|]. cbn. done.
  - by destruct d.
Qed.

Definition handler_with (lim : Z) (cs : list CommandObject) : CommandObjectHandler :=
  mkCommandObjectHandler Unset CommandObject_default lim cs.

(** One command object below the limit. *)
Lemma parse_until_object ms rest fuel this lim cs :
  clang_object ms -> reading this (events (DObject ms) ++ rest) (handler_with lim cs) ->
  rest <> [] -> Z.of_nat (length cs) < lim ->
  parse_until (length (events (DObject ms)) + fuel) this =
  parse_until fuel (set_parse this Parsing (mkFileReadStream rest true)
    (handler_with lim (cs ++ [command_of ms]))).
Proof.
  intros Hms Hread Hrest Hlim.
  set (es := EStartObject :: member_events ms). set (e := EEndObject (Z.of_nat (length ms))).
  assert (events (DObject ms) = es ++ [e]) as Hes by done.
  replace (length (events (DObject ms)) + fuel)%nat with (length es + S fuel)%nat
    by (rewrite Hes length_app; cbn [length]; lia).
  eapply (parse_until_run es e rest fuel).
  - rewrite Hes -app_assoc in Hread. exact Hread.
  - done.
  - unfold reachedLimit. cbn. lia.
  - cbn. by apply member_events_no_end, clang_object_members.
  - rewrite -Hes. by apply (run_clang_object ms (handler_with lim cs)).
Qed.

Definition object_tokens (mss : list (list (str * doc))) : list Event :=
  concat (map (fun ms => events (DObject ms)) mss).

(** A batch from a position before [mss], with [n] more elements in the array. *)
Lemma parse_until_objects n mss : forall fuel this lim cs,
  Forall clang_object mss ->
  reading this (object_tokens mss ++ [EEndArray n]) (handler_with lim cs) ->
  Z.of_nat (length cs) <= lim ->
  (length (object_tokens mss) < fuel)%nat ->
  parse_until fuel this = Ok (
    let k := Z.to_nat (lim - Z.of_nat (length cs)) in
    let h := handler_with lim (cs ++ map command_of (take k mss)) in
    if (length mss <? k)%nat then set_parse this Finished (mkFileReadStream [] true) h
    else set_parse this Parsing (mkFileReadStream (object_tokens (drop k mss) ++ [EEndArray n]) true) h).
Proof.
  induction mss as [|ms mss IH]; intros fuel this lim cs Hms Hread Hlen Hfuel.
  - destruct fuel as [|fuel]; [cbn in Hfuel; lia|]. destruct Hread as (Hr & Hs & Hh).
    rewrite (parse_until_S _ _ _ Hh) Hr Hs. unfold reachedLimit. cbn.
    rewrite take_nil drop_nil app_nil_r.
    destruct (Z.eqb_spec (Z.of_nat (length cs)) lim) as [<-|Hne].
    + rewrite Z.sub_diag /=. destruct this; cbn in *; by subst.
    + destruct (Z.to_nat (lim - Z.of_nat (length cs))) eqn:Ek; [lia|].
      destruct fuel; cbn; by rewrite andb_false_r.
  - apply Forall_cons in Hms as [Hms Hmss].
    destruct (Z.eqb_spec (Z.of_nat (length cs)) lim) as [Heq|Hne].
    + subst lim. rewrite Z.sub_diag. cbn [Z.to_nat take drop map]. rewrite app_nil_r.
      destruct fuel as [|fuel]; [lia|]. destruct Hread as (Hr & Hs & Hh).
      rewrite (parse_until_S _ _ _ Hh). unfold reachedLimit. cbn [handler_with commands parseLimit].
      rewrite Z.eqb_refl /=. destruct this; cbn in *; by subst.
    + unfold object_tokens in Hfuel, Hread. cbn [map concat] in Hfuel, Hread.
      rewrite length_app in Hfuel. rewrite -app_assoc in Hread.
      replace fuel with (length (events (DObject ms)) + (fuel - length (events (DObject ms))))%nat by lia.
      rewrite (parse_until_object ms _ _ _ lim cs Hms Hread); [by destruct (concat _)|lia|].
      rewrite (IH _ _ lim (cs ++ [command_of ms])) //; [rewrite length_app /=; lia| |].
      { unfold object_tokens. lia. }
      rewrite length_app /=. f_equal.
      replace (Z.to_nat (lim - Z.of_nat (length cs)))
        with (S (Z.to_nat (lim - Z.of_nat (length cs + 1)))) by lia.
      cbn [take drop map length]. rewrite -app_assoc. cbn [app].
      replace (S (length mss) <? S (Z.to_nat (lim - Z.of_nat (length cs + 1))))%nat
        with (length mss <? Z.to_nat (lim - Z.of_nat (length cs + 1)))%nat; [done|].
      apply eq_true_iff_eq. rewrite !Nat.ltb_lt. lia.
Qed.

(** What is left to read: the opening bracket at the start, and objects. *)
Definition tokens_at (start : bool) (mss : list (list (str * doc))) (n : Z) : list Event :=
  (if start then [EStartArray] else []) ++ object_tokens mss ++ [EEndArray n].

Lemma parse_until_batch start mss n this lim :
  Forall clang_object mss -> 0 < lim ->
  reading this (tokens_at start mss n) (handler_with lim []) ->
  parse_until (S (length (tokens_at start mss n))) this = Ok (
    let k := Z.to_nat lim in
    let h := handler_with lim (map command_of (take k mss)) in
    if (length mss <? k)%nat then set_parse this Finished (mkFileReadStream [] true) h
    else set_parse this Parsing (mkFileReadStream (tokens_at false (drop k mss) n) true) h).
Proof.
  intros Hms Hlim Hread.
  assert (forall this fuel, reading this (object_tokens mss ++ [EEndArray n]) (handler_with lim []) ->
    (length (object_tokens mss) < fuel)%nat ->
    parse_until fuel this = Ok (
    let k := Z.to_nat lim in
    let h := handler_with lim (map command_of (take k mss)) in
    if (length mss <? k)%nat then set_parse this Finished (mkFileReadStream [] true) h
    else set_parse this Parsing (mkFileReadStream (tokens_at false (drop k mss) n) true) h)) as Hgo.
  { intros t fuel Ht Hf. rewrite (parse_until_objects n mss fuel t lim []) //; [cbn; lia|].
    by rewrite /= Z.sub_0_r. }
  destruct start; cbn [tokens_at app length] in *.
  - rewrite (parse_until_run [] EStartArray (object_tokens mss ++ [EEndArray n]) _ this
      (handler_with lim []) (handler_with lim [])) //; [by destruct (object_tokens mss)| |].
    { apply Z.eqb_neq. cbn [handler_with commands parseLimit length]. lia. }
    rewrite Hgo //. rewrite length_app. cbn [length]. lia.
  - apply Hgo; [done|]. rewrite length_app. cbn [length]. lia.
Qed.

(** ** Filtering and numbering *)
Definition keep (o : ParseOptions) (re : str) (cmd : CommandObject) : bool :=
  negb (skipNonMainFileEntries o && negb (regex_match re (filePath cmd)))
  && negb (checkFilesExist o && negb (doesFileExist (filePath cmd) (workingDirectory cmd))).

Fixpoint number (i : Z) (cmds : list CommandObject) : list CommandObject :=
  match cmds with
  | [] => []
  | c :: cmds' => set_index c i :: number (wrap64 (i + 1)) cmds'
  end.
Definition index_after (i : Z) (n : nat) : Z := Nat.iter n (fun i => wrap64 (i + 1)) i.

Lemma index_after_S i n : index_after i (S n) = index_after (wrap64 (i + 1)) n.
Proof. unfold index_after. by rewrite Nat.iter_succ_r. Qed.

Lemma index_after_app i n m : index_after i (n + m) = index_after (index_after i n) m.
Proof. unfold index_after. by rewrite Nat.add_comm Nat.iter_add. Qed.

Lemma length_number i l : length (number i l) = length l.
Proof. revert i. induction l as [|c l IH]; intros i; [done|]. cbn. by rewrite IH. Qed.

Lemma number_app i l1 l2 : number i (l1 ++ l2) = number i l1 ++ number (index_after i (length l1)) l2.
Proof.
  revert i. induction l1 as [|c l1 IH]; intros i; [done|].
  cbn [app number length]. by rewrite IH index_after_S.
Qed.

(** Everything but the index and the statistics. *)
Definition same_but_index this this' : Prop :=
  exists i st, this' = set_index_stats this i st.

Lemma filter_commands_spec cmds : forall this out,
  exists st, foldl filter_command (this, out) cmds =
    (set_index_stats this (index_after (currentIndex this) (length cmds)) st,
     out ++ filter (fun c => keep (options this) (fileExtensionRegex this) c = true)
              (number (currentIndex this) cmds)).
Proof.
  induction cmds as [|c cmds IH]; intros this out.
  - exists (stats this). cbn. rewrite app_nil_r. by destruct this.
  - cbn [foldl number length]. rewrite filter_cons.
    assert (exists st b, filter_command (this, out) c =
      (set_index_stats this (wrap64 (currentIndex this + 1)) st,
       if (b : bool) then out ++ [set_index c (currentIndex this)] else out)
      /\ b = keep (options this) (fileExtensionRegex this) (set_index c (currentIndex this)))
      as (st & b & -> & Hb).
    { unfold filter_command, keep.
      destruct (skipNonMainFileEntries _ && _); [by exists (mkParseStats
        (wrap32 (skippedNonTuFileExtension (stats this) + 1)) (skippedNonExistentTuFile (stats this))), false|].
      destruct (checkFilesExist _ && _); [by exists (mkParseStats (skippedNonTuFileExtension (stats this))
        (wrap32 (skippedNonExistentTuFile (stats this) + 1))), false|].
      by exists (stats this), true. }
    destruct (IH (set_index_stats this (wrap64 (currentIndex this + 1)) st)
      (if b then out ++ [set_index c (currentIndex this)] else out)) as [st' ->].
    exists st'. f_equal.
    + by rewrite index_after_S.
    + cbn [set_index_stats options fileExtensionRegex currentIndex]. rewrite -Hb.
      destruct b; case_decide; try done. by rewrite -app_assoc.
Qed.

(** ** One call of [parseMore], before the command lines are adjusted *)
Definition at_position this (lim : Z) (start : bool) (mss : list (list (str * doc))) (n : Z) : Prop :=
  reading this (tokens_at start mss n) (handler_with lim [])
  \/ (start = false /\ mss = [] /\ reader this = Finished
      /\ compDbStream this = Some (mkFileReadStream [] true)
      /\ handler this = Some (handler_with lim [])).

Definition same_settings this this' : Prop :=
  options this' = options this /\ fileExtensionRegex this' = fileExtensionRegex this
  /\ emittedErrors this' = emittedErrors this /\ toolchainInfoMap this' = toolchainInfoMap this.

(** The state after a batch was read and its commands were taken. *)
Lemma take_batch start mss n this lim :
  Forall clang_object mss -> 0 < lim -> at_position this lim start mss n ->
  let k := Z.to_nat lim in
  exists s this1 s1, compDbStream this = Some s
    /\ parse_until (S (length (pending s))) this = Ok this1
    /\ handler this1 = Some (handler_with lim (map command_of (take k mss)))
    /\ compDbStream this1 = Some s1
    /\ currentIndex this1 = currentIndex this /\ same_settings this this1
    /\ forall i st, at_position (set_parse (set_index_stats this1 i st) (reader this1) s1
                      (handler_with lim [])) lim false (drop k mss) n.
Proof.
  intros Hms Hlim [Hread|(-> & -> & Hr & Hs & Hh)] k.
  - pose proof (parse_until_batch start mss n this lim Hms Hlim Hread) as Hp.
    cbv zeta in Hp. fold k in Hp. destruct (length mss <? k)%nat eqn:Ek;
      (eexists _, _, _; split_and!; [apply Hread|exact Hp|..]; try done); intros i st.
    + right. split_and!; try done. apply drop_ge. apply Nat.ltb_lt in Ek. lia.
    + by left.
  - exists (mkFileReadStream [] true), this, (mkFileReadStream [] true).
    cbn [pending length parse_until]. rewrite Hh /= Hr andb_false_r. rewrite take_nil drop_nil.
    split_and!; try done. intros i st. by right.
Qed.

Lemma fill_spec n lim fuel : forall start mss this,
  Forall clang_object mss -> 0 < lim -> at_position this lim start mss n ->
  (length mss < fuel)%nat ->
  exists consumed rest this',
    mss = consumed ++ rest
    /\ let out := filter (fun c => keep (options this) (fileExtensionRegex this) c = true)
                    (number (currentIndex this) (map command_of consumed)) in
       fill fuel 0 this [] = Ok (this', out)
       /\ at_position this' lim false rest n
       /\ currentIndex this' = index_after (currentIndex this) (length consumed)
       /\ same_settings this this'
       /\ (out = [] -> rest = []) /\ Z.of_nat (length out) <= lim.
Proof.
  induction fuel as [|fuel IH]; intros start mss this Hms Hlim Hat Hfuel; [lia|].
  destruct (take_batch start mss n this lim Hms Hlim Hat)
    as (s & this1 & s1 & Hs & Hp & Hh & Hs1 & Hi & (Ho & Hre & He & Ht) & Hnext).
  remember (Z.to_nat lim) as k eqn:Hk.
  assert (fill (S fuel) 0 this [] =
    if bool_decide (map command_of (take k mss) = []) then Ok (this1, [])
    else let '(this2, out) := foldl filter_command (this1, []) (map command_of (take k mss)) in
      fill fuel 0 (set_parse this2 (reader this1) s1 (handler_with lim [])) out) as Hfill.
  { cbn [fill length Nat.eqb negb]. rewrite Hs. cbn [optional_value]. rewrite bind_Ok Hp bind_Ok Hh.
    cbn [optional_value]. rewrite bind_Ok Hs1. cbn [optional_value]. rewrite bind_Ok.
    cbn [handler_with commands]. case_bool_decide; [done|].
    destruct (filter_commands_spec (map command_of (take k mss)) this1 []) as [st Hf].
    rewrite Hf. done. }
  rewrite Hfill. clear Hfill. case_bool_decide as Hempty.
  - (* nothing left *)
    assert (mss = []) as ->.
    { destruct mss, k; [done..|lia|done]. }
    exists [], [], this1. specialize (Hnext (currentIndex this1) (stats this1)).
    rewrite drop_nil in Hnext. rewrite take_nil in Hh.
    replace (set_parse (set_index_stats this1 (currentIndex this1) (stats this1)) (reader this1) s1
      (handler_with lim [])) with this1 in Hnext; [|destruct this1; cbn in *; by subst].
    split; [done|]. cbn. split_and!; try done. lia.
  - destruct (filter_commands_spec (map command_of (take k mss)) this1 []) as [st ->].
    rewrite Hi Ho Hre app_nil_l length_map.
    set (out := filter _ _). set (this2 := set_parse _ _ _ _).
    destruct (decide (out = [])) as [Hout|Hout].
    + (* the whole batch was filtered out *)
      destruct (IH false (drop k mss) this2) as (consumed & rest & this' & Hsplit & Hf & Hat' & Hi' & Hset & Hnil & Hl).
      { by apply Forall_drop. } { done. } { apply Hnext. }
      { rewrite length_drop. destruct mss, k; cbn in Hempty |- *; [done..|lia|]. cbn in Hfuel. lia. }
      exists (take k mss ++ consumed), rest, this'. rewrite -app_assoc -Hsplit take_drop. split; [done|].
      cbn [set_parse set_index_stats currentIndex options fileExtensionRegex this2] in Hf, Hi', Hl, Hnil.
      rewrite Ho Hre in Hf, Hl, Hnil.
      rewrite map_app number_app filter_app length_map. fold out. rewrite Hout app_nil_l.
      split_and!; try done.
      * by rewrite Hi' length_app index_after_app.
      * destruct Hset as (H1 & H2 & H3 & H4). unfold same_settings. rewrite H1 H2 H3 H4. done.
    + exists (take k mss), (drop k mss), this2. split; [by rewrite take_drop|].
      cbv zeta. fold out. split_and!; try done.
      * clearbody out this2. by destruct out, fuel.
      * apply Hnext.
      * pose proof (length_filter (fun c => keep (options this) (fileExtensionRegex this) c = true)
          (number (currentIndex this) (map command_of (take k mss)))) as Hl.
        fold out in Hl. rewrite length_number length_map length_take in Hl. lia.
Qed.
End Batches.

(** ** Adjusting command lines through the toolchain cache *)
Section Cache.
Context `{BM : BuildMode, LP : LlvmPath, !LlvmPathLaws, FS : FileSystem, P : ProcessRunner,
          A : AbslStrings, R : LlvmRegex, E : RegexEscape, W : WindowsTokenizer}.
Implicit Types this : ResumableParser.

(** PATH leads to absolute paths. *)
Definition search_ok : Prop := forall c, search_path c = [] \/ is_absolute (search_path c) = true.

(** What a compiler resolves to when it is not in the cache. *)
Definition resolve (directoryPath compiler : str) : result (option ToolchainInfo) :=
  '(path, _) ← compilerInvocation directoryPath compiler;
  if bool_decide (path = []) then Ok None
  else
    t ← infer (mkAbsolutePath path);
    Ok (t ≫= fun t => if isWellFormed t then Some t else None).

Lemma absolute_not_empty p : is_absolute p = true -> p <> [].
Proof. intros (q & ->)%is_absolute_posix. done. Qed.

Lemma compilerInvocation_total d c : search_ok ->
  exists path b, compilerInvocation d c = Ok (path, b)
    /\ (path = [] \/ is_absolute path = true) /\ (b = true -> path = []).
Proof.
  intros Hs. unfold compilerInvocation. destruct (find_char c sep 0).
  - rewrite is_relative_negb. destruct (is_absolute c) eqn:Ec; cbn [negb].
    + rewrite ENFORCE_true bind_Ok AbsolutePath_new_abs //. cbn; eexists _, _; split_and!; [done|by auto|done].
    + destruct (is_absolute d) eqn:Ed; [|by eexists _, _; split_and!; [done|auto|done]].
      assert (is_absolute (joinPath d c) = true) as Hj.
      { apply is_absolute_posix in Ed as (q & ->). apply is_absolute_posix. unfold joinPath.
        destruct (ends_with _ _); by eexists. }
      rewrite AbsolutePath_new_abs //. cbn; eexists _, _; split_and!; [done|by auto|done].
  - destruct (Hs c) as [->|Ha]; [by cbn; eexists _, _; split_and!; [done|auto|done]|].
    rewrite bool_decide_false; [by apply absolute_not_empty|].
    rewrite AbsolutePath_new_abs //. cbn; eexists _, _; split_and!; [done|by auto|done].
Qed.

Lemma infer_total p : search_ok -> is_absolute (asStringRef p) = true ->
  exists t, infer p = Ok t.
Proof.
  intros Hs Hp. unfold infer. destruct (clang_tryInfer p); [by eexists|].
  destruct (gcc_tryInfer p); [by eexists|]. unfold nvcc_tryInfer.
  destruct (_ && _); [|by eexists]. rewrite asRef_wf // bind_Ok. unfold prefix_of_path.
  rewrite tryFrom_spec bind_Ok. destruct (is_absolute (parent_path _)); [|by eexists].
  rewrite tryFrom_spec bind_Ok.
  destruct (is_absolute (parent_path _)); [|by eexists]. unfold NvccToolchainInfo_new.
  destruct (Hs (lit "clang")) as [->|Ha]; [by eexists|].
  rewrite bool_decide_false; [by apply absolute_not_empty|].
  rewrite AbsolutePath_new_abs //. by eexists.
Qed.

Lemma toolchain_adjust_total t compiler args : is_input compiler = true ->
  exists l, toolchain_adjustCommandLine t (compiler :: args) = Ok l.
Proof.
  intros Hc. destruct t as [c|g|n]; cbn [toolchain_adjustCommandLine]; [by eexists..|].
  unfold nvcc_adjustCommandLine. rewrite clean_input //. destruct (clangInfo n); by eexists.
Qed.

(** The command line with the toolchain, if there is one. *)
Definition adjust_with (t : option ToolchainInfo) (l : list str) : result (list str) :=
  match t with Some t => toolchain_adjustCommandLine t l | None => Ok l end.

Lemma adjustCommandLine_total this d compiler args :
  search_ok -> is_input compiler = true ->
  exists found line errors,
    adjustCommandLine this d (compiler :: args) =
      Ok (set_toolchains this errors (<[compiler := found]> (toolchainInfoMap this)), line)
    /\ adjust_with found (compiler :: args) = Ok line
    /\ match toolchainInfoMap this !! compiler with
       | Some t => found = t /\ errors = emittedErrors this
       | None => resolve d compiler = Ok found end.
Proof.
  intros Hs Hc. unfold adjustCommandLine.
  destruct (toolchainInfoMap this !! compiler) as [[t|]|] eqn:Em.
  - destruct (toolchain_adjust_total t compiler args Hc) as [l Hl].
    exists (Some t), l, (emittedErrors this). rewrite Hl insert_id //. by destruct this.
  - exists None, (compiler :: args), (emittedErrors this). rewrite insert_id //. by destruct this.
  - assert (forall e, toolchain_insert (set_toolchains this e (toolchainInfoMap this)) compiler =
      fun t => (set_toolchains this e (<[compiler := t]> (toolchainInfoMap this)), true)) as Hins.
    { intros e. unfold toolchain_insert. cbn. by rewrite Em. }
    unfold resolve. destruct (compilerInvocation_total d compiler Hs) as (path & b & -> & Hp & Hb).
    rewrite !bind_Ok. destruct b.
    { rewrite (Hb eq_refl) bool_decide_true //. unfold emitError.
      eexists None, _, _. rewrite Hins. cbn. done. }
    assert (toolchain_insert this compiler = fun t =>
      (set_toolchains this (emittedErrors this) (<[compiler := t]> (toolchainInfoMap this)), true)) as Hins'.
    { unfold toolchain_insert. by rewrite Em. }
    destruct Hp as [->|Ha].
    { rewrite bool_decide_true //. rewrite Hins'. by eexists None, _, _. }
    rewrite bool_decide_false; [by apply absolute_not_empty|].
    destruct (infer_total (mkAbsolutePath path) Hs Ha) as [t ->]. rewrite !bind_Ok.
    destruct t as [t|]; cbn [mbind option_bind].
    2: { rewrite Hins'. by eexists None, _, _. }
    destruct (isWellFormed t); cbn [negb].
    2: { rewrite Hins'. by eexists None, _, _. }
    destruct (toolchain_adjust_total t compiler args Hc) as [l Hl].
    rewrite Hins' ENFORCE_true bind_Ok Hl. by eexists (Some t), l, _.
Qed.

(** What adjusting one command means: the compiler is looked up in the cache,
    and resolved in the command's directory when it is not there. *)
Inductive adjusted (m : gmap str (option ToolchainInfo)) (c : CommandObject)
    : gmap str (option ToolchainInfo) -> CommandObject -> Prop :=
| adjusted_empty : arguments c = [] -> adjusted m c m c
| adjusted_cached compiler args t line :
    arguments c = compiler :: args -> m !! compiler = Some t ->
    adjust_with t (arguments c) = Ok line -> adjusted m c m (set_arguments c line)
| adjusted_resolved compiler args t line :
    arguments c = compiler :: args -> m !! compiler = None ->
    resolve (workingDirectory c) compiler = Ok t ->
    adjust_with t (arguments c) = Ok line ->
    adjusted m c (<[compiler := t]> m) (set_arguments c line).

Inductive adjusted_all : gmap str (option ToolchainInfo) -> list CommandObject ->
    gmap str (option ToolchainInfo) -> list CommandObject -> Prop :=
| adjusted_nil m : adjusted_all m [] m []
| adjusted_cons m c m1 c' l m2 l' :
    adjusted m c m1 c' -> adjusted_all m1 l m2 l' -> adjusted_all m (c :: l) m2 (c' :: l').

Lemma adjusted_all_app m l1 m1 l1' l2 m2 l2' :
  adjusted_all m l1 m1 l1' -> adjusted_all m1 l2 m2 l2' ->
  adjusted_all m (l1 ++ l2) m2 (l1' ++ l2').
Proof. induction 1; [done|]. intros. cbn. econstructor; eauto. Qed.

Lemma adjusted_all_length m l m' l' : adjusted_all m l m' l' -> length l' = length l.
Proof. induction 1; cbn; congruence. Qed.

(** A command whose compiler is not mistaken for an option. *)
Definition compiler_ok (c : CommandObject) : Prop :=
  match arguments c with [] => True | compiler :: _ => is_input compiler = true end.

Lemma adjust_command_total this acc c : search_ok -> compiler_ok c ->
  exists errors m c', adjust_command (this, acc) c = Ok (set_toolchains this errors m, acc ++ [c'])
    /\ adjusted (toolchainInfoMap this) c m c'.
Proof.
  intros Hs Hc. unfold adjust_command, compiler_ok in *. destruct (arguments c) as [|compiler args] eqn:Ea.
  - exists (emittedErrors this), (toolchainInfoMap this), c. split; [by destruct this|by constructor].
  - destruct (adjustCommandLine_total this (workingDirectory c) compiler args Hs Hc)
      as (found & line & errors & -> & Hadj & Hfound).
    exists errors, (<[compiler := found]> (toolchainInfoMap this)), (set_arguments c line).
    split; [done|]. rewrite -Ea in Hadj. destruct (toolchainInfoMap this !! compiler) as [t|] eqn:Em.
    + destruct Hfound as [-> ->]. rewrite insert_id //. by eapply adjusted_cached.
    + by eapply adjusted_resolved.
Qed.

Lemma adjust_commands_total out : forall this acc, search_ok -> Forall compiler_ok out ->
  exists errors m out', foldM adjust_command (this, acc) out =
      Ok (set_toolchains this errors m, acc ++ out')
    /\ adjusted_all (toolchainInfoMap this) out m out'.
Proof.
  induction out as [|c out IH]; intros this acc Hs Hok.
  - exists (emittedErrors this), (toolchainInfoMap this), []. rewrite app_nil_r.
    split; [by destruct this|constructor].
  - apply Forall_cons in Hok as [Hc Hok]. cbn [foldM].
    destruct (adjust_command_total this acc c Hs Hc) as (e1 & m1 & c' & -> & H1).
    rewrite bind_Ok. destruct (IH (set_toolchains this e1 m1) (acc ++ [c']) Hs Hok)
      as (e2 & m2 & out' & -> & H2).
    exists e2, m2, (c' :: out'). rewrite -app_assoc. split; [done|]. by econstructor.
Qed.
End Cache.

(** ** The whole database *)
Section Whole.
Context `{BM : BuildMode, LP : LlvmPath, !LlvmPathLaws, FS : FileSystem, P : ProcessRunner,
          A : AbslStrings, R : LlvmRegex, E : RegexEscape, W : WindowsTokenizer, RJ : RapidJson}.
Implicit Types this : ResumableParser.

(** The final command lists with or without adjusting. *)
Definition finished_commands (adjust : bool) m (kept : list CommandObject) m' out : Prop :=
  if adjust then adjusted_all m kept m' out else m' = m /\ out = kept.

Lemma length_object_tokens mss : (length mss <= length (object_tokens mss))%nat.
Proof.
  induction mss as [|ms mss IH]; [done|]. unfold object_tokens in *. cbn [map concat].
  rewrite length_app. assert (1 <= length (events (DObject ms)))%nat by (cbn; lia).
  cbn [length]. lia.
Qed.

Lemma number_compiler_ok cmds : forall i, Forall compiler_ok cmds -> Forall compiler_ok (number i cmds).
Proof. induction cmds as [|c cmds IH]; intros i; [done|]. intros [? ?]%Forall_cons. cbn. by constructor; auto. Qed.

Lemma at_position_toolchains this lim start mss n e m :
  at_position this lim start mss n -> at_position (set_toolchains this e m) lim start mss n.
Proof. done. Qed.

Lemma parseMore_spec n lim start mss this :
  Forall clang_object mss -> Forall compiler_ok (map command_of mss) -> search_ok ->
  0 < lim -> at_position this lim start mss n ->
  exists consumed rest this' out,
    mss = consumed ++ rest
    /\ parseMore this [] = Ok (this', out)
    /\ finished_commands (adjustCommandLine_ (options this)) (toolchainInfoMap this)
         (filter (fun c => keep (options this) (fileExtensionRegex this) c = true)
            (number (currentIndex this) (map command_of consumed))) (toolchainInfoMap this') out
    /\ at_position this' lim false rest n
    /\ currentIndex this' = index_after (currentIndex this) (length consumed)
    /\ options this' = options this /\ fileExtensionRegex this' = fileExtensionRegex this
    /\ (out = [] -> rest = []) /\ Z.of_nat (length out) <= lim.
Proof.
  intros Hms Hok Hs Hlim Hat. pose proof Hat as Hat0.
  destruct Hat0 as [(Hr & Hstream & Hh)|(-> & -> & Hr & Hstream & Hh)].
  2: { exists [], [], this, []. unfold parseMore. rewrite Hr. split_and!; try done; [|cbn; lia].
       cbn. unfold finished_commands. destruct (adjustCommandLine_ _); [constructor|done]. }
  destruct (fill_spec n lim (S (length (tokens_at start mss n))) start mss this Hms Hlim Hat)
    as (consumed & rest & this1 & Hsplit & Hf & Hat1 & Hi & (Ho & Hre & He & Ht) & Hnil & Hl).
  { unfold tokens_at. rewrite !length_app. pose proof (length_object_tokens mss). lia. }
  assert (parseMore this [] =
    if adjustCommandLine_ (options this1) then adjust_commands this1 (filter (fun c =>
        keep (options this) (fileExtensionRegex this) c = true)
        (number (currentIndex this) (map command_of consumed)))
    else Ok (this1, filter (fun c => keep (options this) (fileExtensionRegex this) c = true)
        (number (currentIndex this) (map command_of consumed)))) as Hpm.
  { unfold parseMore. rewrite Hr Hh Hstream. cbn [IterativeParseComplete].
    rewrite !ENFORCE_true. cbn [optional_value]. rewrite !bind_Ok. cbn [pending length].
    by rewrite Hf bind_Ok. }
  rewrite Hpm Ho. clear Hpm Hf. set (kept := filter _ _) in *.
  unfold finished_commands. destruct (adjustCommandLine_ (options this)).
  - assert (Forall compiler_ok kept) as Hkept.
    { subst mss. rewrite map_app in Hok. apply Forall_app in Hok as [Hok _].
      apply (number_compiler_ok _ (currentIndex this)) in Hok. rewrite Forall_forall in Hok.
      apply Forall_forall. intros c [_ Hc]%list_elem_of_filter. by apply Hok. }
    destruct (adjust_commands_total kept this1 [] Hs Hkept) as (e & m & out & Hadj & Hall).
    exists consumed, rest, (set_toolchains this1 e m), out. unfold adjust_commands. rewrite Hadj.
    rewrite -Ht. pose proof (adjusted_all_length _ _ _ _ Hall) as Hlen.
    split_and!; try done; [|by rewrite Hlen].
    intros ->. apply Hnil. by destruct kept.
  - exists consumed, rest, this1, kept. split_and!; done.
Qed.

Lemma parse_batches_spec n lim fuel : forall start mss this,
  Forall clang_object mss -> Forall compiler_ok (map command_of mss) -> search_ok ->
  0 < lim -> at_position this lim start mss n -> (length mss < fuel)%nat ->
  exists this' batches,
    parse_batches fuel this = Ok (this', batches)
    /\ Forall (fun b => b <> [] /\ Z.of_nat (length b) <= lim) batches
    /\ finished_commands (adjustCommandLine_ (options this)) (toolchainInfoMap this)
         (filter (fun c => keep (options this) (fileExtensionRegex this) c = true)
            (number (currentIndex this) (map command_of mss))) (toolchainInfoMap this') (concat batches).
Proof.
  induction fuel as [|fuel IH]; intros start mss this Hms Hok Hs Hlim Hat Hfuel; [lia|].
  destruct (parseMore_spec n lim start mss this Hms Hok Hs Hlim Hat)
    as (consumed & rest & this1 & out & -> & Hpm & Hfin & Hat1 & Hi & Ho & Hre & Hnil & Hl).
  cbn [parse_batches]. rewrite Hpm bind_Ok. case_bool_decide as Hout.
  - rewrite (Hnil Hout) app_nil_r. exists this1, []. split_and!; [done|done|]. by subst out.
  - apply Forall_app in Hms as [_ Hms]. rewrite map_app in Hok. apply Forall_app in Hok as [_ Hok].
    assert (consumed <> []) as Hc.
    { intros ->. apply Hout. unfold finished_commands in Hfin. cbn in Hfin.
      destruct (adjustCommandLine_ _); [by inversion Hfin|by apply Hfin]. }
    destruct (IH false rest this1 Hms Hok Hs Hlim Hat1) as (this2 & batches & -> & Hb & Hfin2).
    { rewrite length_app in Hfuel. destruct consumed; [done|]. cbn in Hfuel. lia. }
    exists this2, (out :: batches). split_and!; [done|by constructor|].
    rewrite Ho Hre Hi in Hfin2. rewrite map_app number_app filter_app length_map. cbn [concat].
    unfold finished_commands in *. destruct (adjustCommandLine_ _).
    + by eapply adjusted_all_app.
    + destruct Hfin as [H1 ->], Hfin2 as [H2 ->]. by rewrite H2 H1.
Qed.
End Whole.

(** A default-constructed parser. *)
Definition ResumableParser_default (o : ParseOptions) : ResumableParser :=
  mkResumableParser 0 None None Parsing 0 o ∅ [] ∅ (mkParseStats 0 0).

Lemma number_imap cmds i : 0 <= i -> i + Z.of_nat (length cmds) <= 2 ^ 64 ->
  number i cmds = imap (fun k c => set_index c (i + Z.of_nat k)) cmds.
Proof.
  revert i. induction cmds as [|c cmds IH]; intros i Hi Hl; [done|]. cbn [number imap length] in *.
  f_equal; [by rewrite Z.add_0_r|]. destruct cmds as [|c2 cmds]; [done|].
  rewrite wrap64_small; [unfold uint64; cbn [length] in Hl; lia|].
  rewrite IH; [lia|cbn [length] in *; lia|]. apply imap_ext. intros k x _. cbn. f_equal. lia.
Qed.

(** C18. Asking a freshly initialised parser for batches until an empty one
    terminates without a failure and delivers the whole compilation database:
    the concatenation of the batches is, in order, the command objects whose
    extension and existence pass the filters, each with its position in the
    database as index and with its command line adjusted by the toolchain its
    compiler resolved to first.  No batch is empty or larger than the refill
    count, and the refill count influences nothing else. *)
Theorem parse_batches_complete `{BM : BuildMode, LP : LlvmPath, !LlvmPathLaws, FS : FileSystem,
    P : ProcessRunner, A : AbslStrings, R : LlvmRegex, E : RegexEscape, W : WindowsTokenizer,
    RJ : RapidJson} compdb text mss o o0 :
  file compdb = Some text ->
  json_tokens text = (events (DArray (map DObject mss)), true) ->
  Forall clang_object mss -> Z.of_nat (length mss) <= 2 ^ 64 ->
  Forall compiler_ok (map command_of mss) -> search_ok -> 0 < refillCount o ->
  exists this batches,
    parse_batches (S (length mss)) (initialize (ResumableParser_default o0) compdb o)
      = Ok (this, batches)
    /\ Forall (fun b => b <> [] /\ Z.of_nat (length b) <= refillCount o) batches
    /\ finished_commands (adjustCommandLine_ o) ∅
         (filter (fun c => keep o fileExtensionPattern c = true)
            (imap (fun k c => set_index c (Z.of_nat k)) (map command_of mss)))
         (toolchainInfoMap this) (concat batches).
Proof.
  intros Hfile Htok Hms Hlen Hok Hs Hlim.
  rewrite -(imap_ext (fun k c => set_index c (0 + Z.of_nat k))) // -number_imap;
    [done|by rewrite length_map|].
  unfold initialize. rewrite Hfile. cbn [default from_option id]. rewrite Htok.
  match goal with |- context [parse_batches _ ?p] =>
    apply (parse_batches_spec (Z.of_nat (length (map DObject mss))) (refillCount o)
             (S (length mss)) true mss p) end; try done; [|lia].
  left. split_and!; try done. unfold tokens_at, object_tokens. cbn. by rewrite map_map.
Qed.

(** Adjusting a command line never fails when PATH leads to absolute paths,
    and is one lookup in a cache: the entry of the compiler, or else what the
    compiler resolves to in this directory, which is then remembered (failures
    too); the command line is the toolchain's adjustment of it, and unchanged
    without a toolchain. *)
Theorem adjustCommandLine_correct `{BM : BuildMode, LP : LlvmPath, !LlvmPathLaws, FS : FileSystem,
    P : ProcessRunner, A : AbslStrings, R : LlvmRegex} (this : ResumableParser) d compiler args :
  search_ok -> is_input compiler = true ->
  exists found line errors,
    adjustCommandLine this d (compiler :: args) =
      Ok (set_toolchains this errors (<[compiler := found]> (toolchainInfoMap this)), line)
    /\ adjust_with found (compiler :: args) = Ok line
    /\ match toolchainInfoMap this !! compiler with
       | Some t => found = t /\ errors = emittedErrors this
       | None => resolve d compiler = Ok found end.
Proof. exact (adjustCommandLine_total this d compiler args). Qed.

(** The cache is keyed by the compiler as written, so a compiler with a
    relative path is resolved in the directory of its first command only: the
    second command gets the first directory's toolchain, whatever its own
    directory holds. *)
Theorem relative_compiler_resolved_once `{BM : BuildMode, LP : LlvmPath, !LlvmPathLaws,
    FS : FileSystem, P : ProcessRunner, A : AbslStrings, R : LlvmRegex}
    (this : ResumableParser) d1 d2 compiler args1 args2 :
  search_ok -> is_input compiler = true -> toolchainInfoMap this !! compiler = None ->
  exists this1 line1 found line2,
    adjustCommandLine this d1 (compiler :: args1) = Ok (this1, line1)
    /\ resolve d1 compiler = Ok found
    /\ adjustCommandLine this1 d2 (compiler :: args2) = Ok (this1, line2)
    /\ adjust_with found (compiler :: args2) = Ok line2.
Proof.
  intros Hs Hc Hnone.
  destruct (adjustCommandLine_total this d1 compiler args1 Hs Hc)
    as (found & line1 & e1 & H1 & _ & Hr). rewrite Hnone in Hr.
  set (this1 := set_toolchains _ _ _) in H1.
  destruct (adjustCommandLine_total this1 d2 compiler args2 Hs Hc)
    as (found2 & line2 & e2 & H2 & Ha2 & Hr2).
  cbn [this1 set_toolchains toolchainInfoMap] in Hr2. rewrite lookup_insert_eq in Hr2.
  destruct Hr2 as [-> ->].
  exists this1, line1, found, line2. split_and!; try done. rewrite H2. subst this1. cbn.
  by rewrite insert_insert_eq.
Qed.

(** The stream buffer holds between 4 bytes (what rapidjson needs) and 128
    MiB whenever every object takes at least two bytes of the file and the
    product does not overflow; and its size is the refill count times twice
    the average job when that is below the limit. *)
Theorem bufferSize_bounds size count refill :
  0 < count -> 2 * count <= size -> 0 < refill -> size / count * 2 * refill < 2 ^ 64 ->
  4 <= bufferSize size count refill <= 128 * 1024 * 1024
  /\ (size / count * 2 * refill <= 128 * 1024 * 1024 ->
      bufferSize size count refill = size / count * 2 * refill).
Proof.
  intros Hc Hsize Hr Hov. unfold bufferSize.
  assert (2 <= size / count) as Ha by (apply Z.div_le_lower_bound; lia).
  assert (size / count * 2 <= size / count * 2 * refill) by nia.
  rewrite (wrap64_small (size / count * 2)); [unfold uint64; lia|].
  rewrite wrap64_small; [unfold uint64; lia|]. lia.
Qed.

(** ** Concrete inputs *)
(** Every compiler answers like gcc; PATH leads to /usr/bin/cc. *)
Definition demo_runner : ProcessRunner := {|
  spawn args := match args with
    | [_; flag] => if bool_decide (flag = lit "-print-search-dirs")
                   then Some (0, lit "install: /lib/gcc/12", []) else Some (1, [], [])
    | _ => None end;
  search_path _ := lit "/usr/bin/cc" |}.
Definition demo_absl : AbslStrings := {|
  StripAsciiWhitespace s := drop 1 s;
  StripPrefix s p := if starts_with p s then drop (length p) s else s;
  StrContains := str_contains |}.
Definition demo_all_files : FileSystem := {|
  fs_exists _ := true; fs_read _ := []; real_path p := inl p; fs_is_directory _ := false |}.
Definition demo_c_regex : LlvmRegex := fun p s => ends_with (lit ".c") s.
Definition demo_escape : RegexEscape := fun s => s.

Lemma demo_search_ok : @search_ok posix_path demo_runner.
Proof. by right. Qed.

Lemma parse_batches_complete_witness :
  exists this batches,
    @parse_batches true posix_path demo_all_files demo_runner demo_absl demo_c_regex demo_windows 3
      (@initialize demo_escape (demo_tokens (DArray (map DObject [demo_object "a.c"; demo_object "b.h"])) true)
        (ResumableParser_default (mkParseOptions 1 true true true))
        (mkFile 100 2 (Some [])) (mkParseOptions 1 true true true)) = Ok (this, batches)
    /\ length (concat batches) = 1%nat.
Proof.
  destruct (@parse_batches_complete true posix_path posix_path_laws demo_all_files demo_runner demo_absl
    demo_c_regex demo_escape demo_windows
    (demo_tokens (DArray (map DObject [demo_object "a.c"; demo_object "b.h"])) true)
    (mkFile 100 2 (Some [])) [] [demo_object "a.c"; demo_object "b.h"]
    (mkParseOptions 1 true true true) (mkParseOptions 1 true true true) eq_refl eq_refl)
    as (this & batches & H & _ & Hf).
  - repeat (constructor; [apply demo_object_clang|]). constructor.
  - cbn. lia.
  - repeat constructor.
  - apply demo_search_ok.
  - done.
  - exists this, batches. split; [exact H|]. apply adjusted_all_length in Hf. rewrite Hf. reflexivity.
Defined.

Lemma adjustCommandLine_correct_witness :
  exists this line,
    @adjustCommandLine true posix_path demo_all_files demo_runner demo_absl demo_c_regex
      (ResumableParser_default (mkParseOptions 1 true true true)) (lit "/p")
      [lit "./cc"; lit "a.cpp"] = Ok (this, line) /\ head line = Some (lit "./cc").
Proof.
  destruct (@adjustCommandLine_correct true posix_path posix_path_laws demo_all_files demo_runner
    demo_absl demo_c_regex (ResumableParser_default (mkParseOptions 1 true true true)) (lit "/p")
    (lit "./cc") [lit "a.cpp"] demo_search_ok eq_refl) as (found & line & e & H & Ha & Hr).
  eexists _, line. split; [exact H|]. cbn in Hr.
  assert (found = Some (GccToolchain (mkGccToolchainInfo (lit "/lib/gcc/12")
    [lit "/p/./cc"; lit "-print-search-dirs"] forClangOrGcc))) as -> by (injection Hr as <-; reflexivity).
  injection Ha as <-. reflexivity.
Defined.

Lemma relative_compiler_resolved_once_witness :
  exists this1 line1 found line2,
    @adjustCommandLine true posix_path demo_all_files demo_runner demo_absl demo_c_regex
      (ResumableParser_default (mkParseOptions 1 true true true)) (lit "/a")
      [lit "./cc"; lit "x.cpp"] = Ok (this1, line1)
    /\ @resolve true posix_path demo_all_files demo_runner demo_absl (lit "/a") (lit "./cc") = Ok found
    /\ @adjustCommandLine true posix_path demo_all_files demo_runner demo_absl demo_c_regex
      this1 (lit "/b") [lit "./cc"; lit "y.cpp"] = Ok (this1, line2)
    /\ @adjust_with demo_c_regex found [lit "./cc"; lit "y.cpp"] = Ok line2.
Proof.
  apply (@relative_compiler_resolved_once true posix_path posix_path_laws demo_all_files demo_runner
    demo_absl demo_c_regex (ResumableParser_default (mkParseOptions 1 true true true))
    (lit "/a") (lit "/b") (lit "./cc") [lit "x.cpp"] [lit "y.cpp"] demo_search_ok); reflexivity.
Defined.

Lemma bufferSize_bounds_witness : 4 <= bufferSize 1000 10 4 <= 128 * 1024 * 1024.
Proof. apply (bufferSize_bounds 1000 10 4); reflexivity || (vm_compute; congruence). Defined.
