(* ===== verification/Ipc.v ===== *)
(** * Messages and queues between the driver and its workers

    IpcMessages.h/.cc: the message types, their JSON forms, the names of queues
    and shard files.  JsonIpcQueue.h/.cc: sending and receiving them through a
    bounded message queue of boost, which is a parameterless FIFO here (all
    messages are sent with the same priority).  CliOptions.h/.cc: the options a
    worker needs to find its queues, and [HeaderFilter]. *)
From S2P Require Import Prelude Ordering CppString Paths Json PackageMaps IdPaths.
From S2P Require Import CommandLine Compdb.

(** ** Identifiers *)
Abbreviation WorkerId := Z (only parsing).

Definition SHUTDOWN_VALUE : Z := 2 ^ 32 - 1.

Record JobId : Type := mkJobId { taskId : Z; subtaskId : Z }.
#[export] Instance JobId_eq_dec : EqDecision JobId.
Proof. solve_decision. Defined.
#[export] Instance JobId_countable : Countable JobId.
Proof. by apply (inj_countable' (fun j => (taskId j, subtaskId j)) (fun p => mkJobId p.1 p.2)); intros []. Defined.

Definition JobId_default : JobId := mkJobId SHUTDOWN_VALUE SHUTDOWN_VALUE.
Definition newTask (taskId : Z) : JobId := mkJobId taskId 0.
Definition nextSubtask (this : JobId) : JobId := mkJobId (taskId this) (wrap32 (subtaskId this + 1)).
Definition to64Bit (this : JobId) : Z := wrap64 (Z.shiftl (taskId this) 32 + subtaskId this).
Definition from64Bit (v : Z) : JobId := mkJobId (wrap32 (Z.shiftr v 32)) (wrap32 v).
Definition traceId (this : JobId) : Z := to64Bit this.
Definition Shutdown : JobId := JobId_default.

Definition JobId_wf (j : JobId) : Prop := uint32 (taskId j) /\ uint32 (subtaskId j).

(** ** Names *)
Definition driverToWorkerQueueName (driverId : str) (workerId : WorkerId) : str :=
  lit "scip-clang-" ++ driverId ++ lit "-worker-" ++ fmt_uint workerId ++ lit "-recv".
Definition workerToDriverQueueName (driverId : str) : str :=
  lit "scip-clang-" ++ driverId ++ lit "-worker-send".

(** [ShardPaths::prefix] and [ShardPaths::tryParseJobId]. *)
Definition prefix (taskId : Z) (workerId : WorkerId) : str :=
  lit "job-" ++ fmt_uint taskId ++ lit "-worker-" ++ fmt_uint workerId.

Definition tryParseJobId `{AbslSplit} (fileName : str) : option Z :=
  match StrSplit fileName "-"%char with
  | p0 :: p1 :: p2 :: _ =>
      if bool_decide (p0 = lit "job") && bool_decide (p2 = lit "worker")
      then from_chars_uint32 p1 else None
  | _ => None
  end.

(** ** Messages *)
Record SemanticAnalysisJobDetails : Type := mkSemanticAnalysisJobDetails { command : CommandObject }.

Record PreprocessedFileInfo : Type := mkPreprocessedFileInfo {
  pfi_path : AbsolutePath;
  hashValue : HashValue
}.
#[export] Instance PreprocessedFileInfo_eq_dec : EqDecision PreprocessedFileInfo.
Proof. solve_decision. Defined.

Record PreprocessedFileInfoMulti : Type := mkPreprocessedFileInfoMulti {
  pfim_path : AbsolutePath;
  hashValues : list HashValue
}.

Record EmitIndexJobDetails : Type := mkEmitIndexJobDetails {
  filesToBeIndexed : list PreprocessedFileInfo
}.

Inductive Kind : Type := SemanticAnalysis | EmitIndex.
#[export] Instance Kind_eq_dec : EqDecision Kind.
Proof. solve_decision. Defined.

Record IndexJob : Type := mkIndexJob {
  job_kind : Kind;
  job_semanticAnalysis : SemanticAnalysisJobDetails;
  job_emitIndex : EmitIndexJobDetails
}.

Record IndexJobRequest : Type := mkIndexJobRequest { request_id : JobId; request_job : IndexJob }.

Record SemanticAnalysisJobResult : Type := mkSemanticAnalysisJobResult {
  wellBehavedFiles : list PreprocessedFileInfo;
  illBehavedFiles : list PreprocessedFileInfoMulti
}.

Record IndexingStatistics : Type := mkIndexingStatistics { totalTimeMicros : Z }.

Record ShardPaths : Type := mkShardPaths {
  docsAndExternals : AbsolutePath;
  forwardDecls : AbsolutePath
}.

Record EmitIndexJobResult : Type := mkEmitIndexJobResult {
  statistics : IndexingStatistics;
  shardPaths : ShardPaths
}.

Record IndexJobResult : Type := mkIndexJobResult {
  result_kind : Kind;
  result_semanticAnalysis : SemanticAnalysisJobResult;
  result_emitIndex : EmitIndexJobResult
}.

Record IndexJobResponse : Type := mkIndexJobResponse {
  response_workerId : WorkerId;
  response_jobId : JobId;
  response_result : IndexJobResult
}.

Record IpcTestMessage : Type := mkIpcTestMessage { content : str }.

(** Default-constructed values: the fields of the kind that is not used. *)
Definition SemanticAnalysisJobDetails_default := mkSemanticAnalysisJobDetails CommandObject_default.
Definition EmitIndexJobDetails_default := mkEmitIndexJobDetails [].
Definition SemanticAnalysisJobResult_default := mkSemanticAnalysisJobResult [] [].
Definition EmitIndexJobResult_default :=
  mkEmitIndexJobResult (mkIndexingStatistics 0) (mkShardPaths (mkAbsolutePath []) (mkAbsolutePath [])).

(** *** Orders *)
Definition HashValue_cmp : HashValue -> HashValue -> comparison := Z.compare.

Definition PreprocessedFileInfo_cmp (lhs rhs : PreprocessedFileInfo) : comparison :=
  CMP_EXPR HashValue_cmp (hashValue lhs) (hashValue rhs)
  (CMP_EXPR AbsolutePath_cmp (pfi_path lhs) (pfi_path rhs)
  Eq).

Definition PreprocessedFileInfoMulti_cmp (lhs rhs : PreprocessedFileInfoMulti) : comparison :=
  CMP_EXPR AbsolutePath_cmp (pfim_path lhs) (pfim_path rhs)
  (CMP_CHECK (compareRange_by HashValue_cmp (hashValues lhs) (hashValues rhs))
  Eq).

(** ** JSON *)
Section Json.
Context `{JsonLib}.

#[export] Instance JobId_serializable : Serializable JobId := {|
  toJSON jobId := json_uint64 (to64Bit jobId);
  fromJSON value := from64Bit <$> getAsUINT64 value |}.
#[export] Instance JobId_json_ok : JsonOk JobId := JobId_wf.

#[export] Instance Kind_serializable : Serializable Kind := {|
  toJSON kind := match kind with
    | SemanticAnalysis => json_string (lit "SemanticAnalysis")
    | EmitIndex => json_string (lit "EmitIndex") end;
  fromJSON jsonValue :=
    s ← getAsString jsonValue;
    if bool_decide (s = lit "SemanticAnalysis") then Some SemanticAnalysis
    else if bool_decide (s = lit "EmitIndex") then Some EmitIndex
    else None |}.
#[export] Instance Kind_json_ok : JsonOk Kind := fun _ => True.

#[export] Instance AbsolutePath_serializable : Serializable AbsolutePath :=
  DERIVE_SERIALIZE_1_NEWTYPE asStringRef mkAbsolutePath.
#[export] Instance AbsolutePath_json_ok : JsonOk AbsolutePath := fun p => json_ok (asStringRef p).

(** [toJSON] and [fromJSON] for [CommandObject] leave the index out. *)
#[export] Instance CommandObject_serializable : Serializable CommandObject := {|
  toJSON cmd := json_object [(lit "directory", toJSON (workingDirectory cmd));
                             (lit "file", toJSON (filePath cmd));
                             (lit "arguments", toJSON (arguments cmd))];
  fromJSON jsonValue :=
    if is_object jsonValue then
      workingDirectory ← mapper_map jsonValue (lit "directory");
      filePath ← mapper_map jsonValue (lit "file");
      arguments ← mapper_map jsonValue (lit "arguments");
      Some (mkCommandObject POISON_INDEX workingDirectory filePath arguments)
    else None |}.
#[export] Instance CommandObject_json_ok : JsonOk CommandObject := fun c =>
  index c = POISON_INDEX /\ json_ok (workingDirectory c) /\ json_ok (filePath c)
  /\ json_ok (arguments c).

#[export] Instance IndexingStatistics_serializable : Serializable IndexingStatistics :=
  DERIVE_SERIALIZE_1_NEWTYPE totalTimeMicros mkIndexingStatistics.
#[export] Instance IndexingStatistics_json_ok : JsonOk IndexingStatistics :=
  fun s => json_ok (totalTimeMicros s).

#[export] Instance IpcTestMessage_serializable : Serializable IpcTestMessage :=
  DERIVE_SERIALIZE_1_NEWTYPE content mkIpcTestMessage.
#[export] Instance IpcTestMessage_json_ok : JsonOk IpcTestMessage := fun m => json_ok (content m).

#[export] Instance SemanticAnalysisJobDetails_serializable : Serializable SemanticAnalysisJobDetails :=
  DERIVE_SERIALIZE_1_NEWTYPE command mkSemanticAnalysisJobDetails.
#[export] Instance SemanticAnalysisJobDetails_json_ok : JsonOk SemanticAnalysisJobDetails :=
  fun d => json_ok (command d).

#[export] Instance ShardPaths_serializable : Serializable ShardPaths :=
  DERIVE_SERIALIZE_2 "docsAndExternals" "forwardDecls" docsAndExternals forwardDecls mkShardPaths.
#[export] Instance ShardPaths_json_ok : JsonOk ShardPaths :=
  fun s => json_ok (docsAndExternals s) /\ json_ok (forwardDecls s).

#[export] Instance EmitIndexJobResult_serializable : Serializable EmitIndexJobResult :=
  DERIVE_SERIALIZE_2 "statistics" "shardPaths" statistics shardPaths mkEmitIndexJobResult.
#[export] Instance EmitIndexJobResult_json_ok : JsonOk EmitIndexJobResult :=
  fun r => json_ok (statistics r) /\ json_ok (shardPaths r).

#[export] Instance PreprocessedFileInfo_serializable : Serializable PreprocessedFileInfo :=
  DERIVE_SERIALIZE_2 "path" "hashValue" pfi_path hashValue mkPreprocessedFileInfo.
#[export] Instance PreprocessedFileInfo_json_ok : JsonOk PreprocessedFileInfo :=
  fun i => json_ok (pfi_path i) /\ json_ok (hashValue i).

#[export] Instance PreprocessedFileInfoMulti_serializable : Serializable PreprocessedFileInfoMulti :=
  DERIVE_SERIALIZE_2 "path" "hashValues" pfim_path hashValues mkPreprocessedFileInfoMulti.
#[export] Instance PreprocessedFileInfoMulti_json_ok : JsonOk PreprocessedFileInfoMulti :=
  fun i => json_ok (pfim_path i) /\ json_ok (hashValues i).

#[export] Instance EmitIndexJobDetails_serializable : Serializable EmitIndexJobDetails :=
  DERIVE_SERIALIZE_1_NEWTYPE filesToBeIndexed mkEmitIndexJobDetails.
#[export] Instance EmitIndexJobDetails_json_ok : JsonOk EmitIndexJobDetails :=
  fun d => json_ok (filesToBeIndexed d).

#[export] Instance SemanticAnalysisJobResult_serializable : Serializable SemanticAnalysisJobResult :=
  DERIVE_SERIALIZE_2 "wellBehavedFiles" "illBehavedFiles" wellBehavedFiles illBehavedFiles
    mkSemanticAnalysisJobResult.
#[export] Instance SemanticAnalysisJobResult_json_ok : JsonOk SemanticAnalysisJobResult :=
  fun r => json_ok (wellBehavedFiles r) /\ json_ok (illBehavedFiles r).

(** [toJSONIndexJob] and [fromJSONIndexJob], templates over the two tagged
    structs; the field of the other kind stays default-constructed. *)
Definition toJSONIndexJob {S E} `{!Serializable S, !Serializable E}
    (kind : Kind) (semanticAnalysis : S) (emitIndex : E) : Value :=
  let details := match kind with
    | SemanticAnalysis => toJSON semanticAnalysis
    | EmitIndex => toJSON emitIndex end in
  json_object [(lit "kind", toJSON kind); (lit "details", details)].

Definition fromJSONIndexJob {IJ S E} `{!Serializable S, !Serializable E}
    (mk : Kind -> S -> E -> IJ) (default_s : S) (default_e : E) (jsonValue : Value) : option IJ :=
  if is_object jsonValue then
    kind ← mapper_map jsonValue (lit "kind");
    match kind with
    | SemanticAnalysis => s ← mapper_map jsonValue (lit "details"); Some (mk SemanticAnalysis s default_e)
    | EmitIndex => e ← mapper_map jsonValue (lit "details"); Some (mk EmitIndex default_s e)
    end
  else None.

#[export] Instance IndexJob_serializable : Serializable IndexJob := {|
  toJSON job := toJSONIndexJob (job_kind job) (job_semanticAnalysis job) (job_emitIndex job);
  fromJSON := fromJSONIndexJob mkIndexJob SemanticAnalysisJobDetails_default EmitIndexJobDetails_default |}.
#[export] Instance IndexJob_json_ok : JsonOk IndexJob := fun job =>
  match job_kind job with
  | SemanticAnalysis => json_ok (job_semanticAnalysis job) /\ job_emitIndex job = EmitIndexJobDetails_default
  | EmitIndex => json_ok (job_emitIndex job) /\ job_semanticAnalysis job = SemanticAnalysisJobDetails_default
  end.

#[export] Instance IndexJobResult_serializable : Serializable IndexJobResult := {|
  toJSON r := toJSONIndexJob (result_kind r) (result_semanticAnalysis r) (result_emitIndex r);
  fromJSON := fromJSONIndexJob mkIndexJobResult SemanticAnalysisJobResult_default EmitIndexJobResult_default |}.
#[export] Instance IndexJobResult_json_ok : JsonOk IndexJobResult := fun r =>
  match result_kind r with
  | SemanticAnalysis => json_ok (result_semanticAnalysis r) /\ result_emitIndex r = EmitIndexJobResult_default
  | EmitIndex => json_ok (result_emitIndex r) /\ result_semanticAnalysis r = SemanticAnalysisJobResult_default
  end.

#[export] Instance IndexJobRequest_serializable : Serializable IndexJobRequest :=
  DERIVE_SERIALIZE_2 "id" "job" request_id request_job mkIndexJobRequest.
#[export] Instance IndexJobRequest_json_ok : JsonOk IndexJobRequest :=
  fun r => json_ok (request_id r) /\ json_ok (request_job r).

#[export] Instance IndexJobResponse_serializable : Serializable IndexJobResponse := {|
  toJSON r := json_object [(lit "workerId", toJSON (response_workerId r));
                           (lit "jobId", toJSON (response_jobId r));
                           (lit "result", toJSON (response_result r))];
  fromJSON value :=
    if is_object value then
      workerId ← mapper_map value (lit "workerId");
      jobId ← mapper_map value (lit "jobId");
      result ← mapper_map value (lit "result");
      Some (mkIndexJobResponse workerId jobId result)
    else None |}.
#[export] Instance IndexJobResponse_json_ok : JsonOk IndexJobResponse := fun r =>
  json_ok (response_workerId r) /\ json_ok (response_jobId r) /\ json_ok (response_result r).

(** *** Round trips *)
Context `{!JsonLaws}.

Lemma to64Bit_wf j : JobId_wf j -> to64Bit j = taskId j * 2 ^ 32 + subtaskId j /\ uint64 (to64Bit j).
Proof.
  intros [H1 H2]. unfold to64Bit, uint32, uint64 in *. rewrite Z.shiftl_mul_pow2 //.
  rewrite wrap64_small; [unfold uint64; lia|]. split; [done|lia].
Qed.

Lemma from64Bit_to64Bit j : JobId_wf j -> from64Bit (to64Bit j) = j.
Proof.
  intros Hj. destruct (to64Bit_wf j Hj) as [-> _]. destruct Hj as [H1 H2], j as [t s].
  unfold from64Bit, uint32 in *. cbn in *. rewrite Z.shiftr_div_pow2 //. f_equal.
  - rewrite Z.div_add_l // Z.div_small // Z.add_0_r wrap32_small //.
  - unfold wrap32. rewrite Z.add_comm Z_mod_plus_full. by apply wrap32_small.
Qed.

#[export] Instance JobId_laws : SerializableLaws JobId.
Proof.
  intros j Hj. unfold fromJSON, toJSON; cbn. rewrite getAsUINT64_uint64; [by apply to64Bit_wf|].
  cbn. by rewrite from64Bit_to64Bit.
Qed.

#[export] Instance Kind_laws : SerializableLaws Kind.
Proof.
  assert (forall s : string, Forall (fun c => Ascii.leb c "127"%char = true) (lit s) ->
    getAsString (json_string (lit s)) = Some (lit s)) as Hs.
  { intros s Hs. apply getAsString_string, isUTF8_ascii, Hs. }
  intros [] _; unfold fromJSON, toJSON; cbn [Kind_serializable]; rewrite Hs; by repeat constructor.
Qed.

#[export] Instance AbsolutePath_laws : SerializableLaws AbsolutePath.
Proof. apply newtype_serializable_laws; [by intros []|done]. Qed.
#[export] Instance IndexingStatistics_laws : SerializableLaws IndexingStatistics.
Proof. apply newtype_serializable_laws; [by intros []|done]. Qed.
#[export] Instance IpcTestMessage_laws : SerializableLaws IpcTestMessage.
Proof. apply newtype_serializable_laws; [by intros []|done]. Qed.
#[export] Instance ShardPaths_laws : SerializableLaws ShardPaths.
Proof. apply record2_serializable_laws; [done|by intros []|done]. Qed.
#[export] Instance EmitIndexJobResult_laws : SerializableLaws EmitIndexJobResult.
Proof. apply record2_serializable_laws; [done|by intros []|done]. Qed.
#[export] Instance PreprocessedFileInfo_laws : SerializableLaws PreprocessedFileInfo.
Proof. apply record2_serializable_laws; [done|by intros []|done]. Qed.
#[export] Instance PreprocessedFileInfoMulti_laws : SerializableLaws PreprocessedFileInfoMulti.
Proof. apply record2_serializable_laws; [done|by intros []|done]. Qed.
#[export] Instance EmitIndexJobDetails_laws : SerializableLaws EmitIndexJobDetails.
Proof. apply newtype_serializable_laws; [by intros []|done]. Qed.
#[export] Instance SemanticAnalysisJobResult_laws : SerializableLaws SemanticAnalysisJobResult.
Proof. apply record2_serializable_laws; [done|by intros []|done]. Qed.

(** Reading the fields of an object literal back. *)
Lemma mapper_map_object {T} `{!Serializable T, !JsonOk T, !SerializableLaws T} kvs k (t : T) :
  NoDup kvs.*1 -> assoc k kvs = Some (toJSON t) -> json_ok t ->
  mapper_map (json_object kvs) k = Some t.
Proof.
  intros Hnd Hk Ht. unfold mapper_map. rewrite object_get_object // Hk /=. by apply fromJSON_toJSON.
Qed.

#[export] Instance CommandObject_laws : SerializableLaws CommandObject.
Proof.
  intros [ix d f a] (Hi & Hd & Hf & Ha). cbn in Hi, Hd, Hf, Ha. unfold fromJSON, toJSON; cbn [CommandObject_serializable].
  rewrite is_object_object.
  assert (NoDup [lit "directory"; lit "file"; lit "arguments"]) as Hnd
    by (apply (bool_decide_unpack _); by vm_compute).
  rewrite (mapper_map_object _ (lit "directory") d) //=. rewrite (mapper_map_object _ (lit "file") f) //=.
  rewrite (mapper_map_object _ (lit "arguments") a) //=. by rewrite Hi.
Qed.
#[export] Instance SemanticAnalysisJobDetails_laws : SerializableLaws SemanticAnalysisJobDetails.
Proof. apply newtype_serializable_laws; [by intros []|done]. Qed.

Lemma fromJSONIndexJob_toJSONIndexJob {IJ S E}
    `{!Serializable S, !JsonOk S, !SerializableLaws S, !Serializable E, !JsonOk E, !SerializableLaws E}
    (mk : Kind -> S -> E -> IJ) default_s default_e k s e :
  match k with SemanticAnalysis => json_ok s /\ e = default_e
             | EmitIndex => json_ok e /\ s = default_s end ->
  fromJSONIndexJob mk default_s default_e (toJSONIndexJob k s e) = Some (mk k s e).
Proof.
  intros Hok. unfold fromJSONIndexJob, toJSONIndexJob. rewrite is_object_object.
  assert (NoDup [lit "kind"; lit "details"]) as Hnd by (apply (bool_decide_unpack _); by vm_compute).
  rewrite (mapper_map_object _ (lit "kind") k) //=. destruct k, Hok as [Hok ->].
  - by rewrite (mapper_map_object _ (lit "details") s).
  - by rewrite (mapper_map_object _ (lit "details") e).
Qed.

#[export] Instance IndexJob_laws : SerializableLaws IndexJob.
Proof. intros [k s e] Hok. by apply fromJSONIndexJob_toJSONIndexJob. Qed.
#[export] Instance IndexJobResult_laws : SerializableLaws IndexJobResult.
Proof. intros [k s e] Hok. by apply fromJSONIndexJob_toJSONIndexJob. Qed.
#[export] Instance IndexJobRequest_laws : SerializableLaws IndexJobRequest.
Proof. apply record2_serializable_laws; [done|by intros []|done]. Qed.

#[export] Instance IndexJobResponse_laws : SerializableLaws IndexJobResponse.
Proof.
  intros [w j r] (Hw & Hj & Hr). cbn in Hw, Hj, Hr. unfold fromJSON, toJSON; cbn [IndexJobResponse_serializable].
  rewrite is_object_object.
  assert (NoDup [lit "workerId"; lit "jobId"; lit "result"]) as Hnd
    by (apply (bool_decide_unpack _); by vm_compute).
  rewrite (mapper_map_object _ (lit "workerId") w) //=. rewrite (mapper_map_object _ (lit "jobId") j) //=.
  by rewrite (mapper_map_object _ (lit "result") r).
Qed.
End Json.

(** ** [JsonIpcQueue]

    [boost::interprocess::message_queue]: named queues of byte strings with a
    maximal number and size of messages.  The state of the system's queues is a
    map from names; a [send] to a full queue blocks. *)
Record BoostQueue : Type := mkBoostQueue {
  messages : list str;
  max_msg_count : Z;
  max_msg_size : Z
}.
Abbreviation queues := (gmap str BoostQueue) (only parsing).

Inductive QueueInit : Type := CreateOnly | OpenOnly.
#[export] Instance QueueInit_eq_dec : EqDecision QueueInit.
Proof. solve_decision. Defined.

Record JsonIpcQueue : Type := mkJsonIpcQueue {
  name : str;
  queueInit : QueueInit;
  scratchBuffer_size : Z;
  prevRecvCount : Z
}.

(** The exceptions of boost's constructors and operations that the code sees. *)
Inductive interprocess_exception : Type :=
| already_exists_error | not_found_error | size_error.
#[export] Instance interprocess_exception_eq_dec : EqDecision interprocess_exception.
Proof. solve_decision. Defined.

Inductive ReceiveError : Type := TimeoutError | ParseError | FromJsonError.
#[export] Instance ReceiveError_eq_dec : EqDecision ReceiveError.
Proof. solve_decision. Defined.

(** [llvm_ext::format] prints a JSON value. *)
Class JsonPrinter `{JsonLib} : Type := json_print : Value -> str.

(** What sender and receiver rely on of the text form. *)
Class JsonTextLaws `{JsonLib, !JsonPrinter, !JsonParser} : Prop :=
  json_parse_print v : json_parse (json_print v) = Some v.

Section Queue.
Context `{BM : BuildMode, JL : JsonLib, JP : !JsonPrinter, JA : !JsonParser}.

Definition create (qs : queues) (name : str) (maxMsgCount maxMsgSize : Z)
    : (queues * JsonIpcQueue) + interprocess_exception :=
  match qs !! name with
  | Some _ => inr already_exists_error
  | None => inl (<[name := mkBoostQueue [] maxMsgCount maxMsgSize]> qs,
                 mkJsonIpcQueue name CreateOnly maxMsgSize 0)
  end.

Definition open (qs : queues) (name : str) : JsonIpcQueue + interprocess_exception :=
  match qs !! name with
  | None => inr not_found_error
  | Some q => inl (mkJsonIpcQueue name OpenOnly (max_msg_size q) 0)
  end.

(** The destructor. *)
Definition JsonIpcQueue_drop (qs : queues) (this : JsonIpcQueue) : queues :=
  match queueInit this with
  | OpenOnly => qs
  | CreateOnly => delete (name this) qs
  end.

(** What a [send] does: it returns (with an exception or not), or it blocks. *)
Inductive send_result : Type := Sent (qs : gmap str BoostQueue) | SendError (e : interprocess_exception) | Blocked.

Definition sendValue (qs : queues) (this : JsonIpcQueue) (jsonValue : Value) : result send_result :=
  match qs !! name this with
  | None => Ok (SendError not_found_error)
  | Some q =>
      let buffer := json_print jsonValue in
      let size := Z.of_nat (length buffer) in
      if max_msg_size q <? size then
        ENFORCE (25 <? size) "buffer.size() > 25" ;;
        Ok (SendError size_error)
      else if max_msg_count q <=? Z.of_nat (length (messages q)) then Ok Blocked
      else Ok (Sent (<[name this := mkBoostQueue (messages q ++ [buffer]) (max_msg_count q) (max_msg_size q)]> qs))
  end.

Definition send {T} `{!Serializable T} (qs : queues) (this : JsonIpcQueue) (t : T)
    : result send_result := sendValue qs this (toJSON t).

(** The overload that parses the text; [None] for a message is a timeout. *)
Definition timedReceiveValue (qs : queues) (this : JsonIpcQueue)
    : queues * JsonIpcQueue * (Value + ReceiveError) :=
  match qs !! name this with
  | Some q =>
      match messages q with
      | m :: ms =>
          (<[name this := mkBoostQueue ms (max_msg_count q) (max_msg_size q)]> qs,
           mkJsonIpcQueue (name this) (queueInit this) (scratchBuffer_size this) (Z.of_nat (length m)),
           match json_parse m with Some v => inl v | None => inr ParseError end)
      | [] => (qs, this, inr TimeoutError)
      end
  | None => (qs, this, inr TimeoutError)
  end.

Definition timedReceive {T} `{!Serializable T} (qs : queues) (this : JsonIpcQueue)
    : queues * JsonIpcQueue * (T + ReceiveError) :=
  let '(qs, this, valueOrErr) := timedReceiveValue qs this in
  (qs, this,
   match valueOrErr with
   | inr err => inr err
   | inl value => match fromJSON value with Some t => inl t | None => inr FromJsonError end
   end).

(** [tryReceiveInstant(t)]: whether there was a message, and the new [t]; a
    release build reports success for a message it could not read. *)
Definition tryReceiveInstant {T} `{!Serializable T} (qs : queues) (this : JsonIpcQueue) (t : T)
    : result (queues * JsonIpcQueue * (bool * T)) :=
  match qs !! name this with
  | Some q =>
      if Nat.eqb (length (messages q)) 0 then Ok (qs, this, (false, t))
      else
        let '(qs, this, r) := timedReceive qs this in
        ENFORCE (match r with inl _ => true | inr _ => false end) "!recvError" ;;
        Ok (qs, this, (true, match r with inl t' => t' | inr _ => t end))
  | None => Ok (qs, this, (false, t))
  end.

Record IpcOptions : Type := mkIpcOptions {
  ipcSizeHintBytes : Z;
  receiveTimeout : Z;
  driverId : str;
  workerId : WorkerId
}.

Record MessageQueuePair : Type := mkMessageQueuePair {
  driverToWorker : JsonIpcQueue;
  workerToDriver : JsonIpcQueue
}.

Definition forWorker (qs : queues) (ipcOptions : IpcOptions)
    : MessageQueuePair + interprocess_exception :=
  let d2w := driverToWorkerQueueName (driverId ipcOptions) (workerId ipcOptions) in
  let w2d := workerToDriverQueueName (driverId ipcOptions) in
  match open qs d2w with
  | inr e => inr e
  | inl d2w =>
      match open qs w2d with
      | inr e => inr e
      | inl w2d => inl (mkMessageQueuePair d2w w2d)
      end
  end.
End Queue.

(** ** [HeaderFilter] *)
Record HeaderFilter : Type := mkHeaderFilter {
  regexText : str;
  matcher : option str (** the compiled pattern *)
}.
Definition HeaderFilter_default : HeaderFilter := mkHeaderFilter [] None.

(** [llvm::Regex::isValid]. *)
Class RegexValid : Type := regex_valid : str -> bool.

Definition HeaderFilter_new `{RegexValid} (re : str) : result HeaderFilter :=
  if bool_decide (re = []) then Ok HeaderFilter_default
  else
    let regexText := lit "^(" ++ re ++ lit ")$" in
    if negb (regex_valid regexText) then Err (Exit 1)
    else Ok (mkHeaderFilter regexText (Some regexText)).

Definition matches `{R : Cleaner.LlvmRegex} (this : HeaderFilter) (data : str) : bool :=
  match matcher this with
  | Some re => if Cleaner.regex_match re data then true else false
  | None => false
  end.
Definition isIdentity (this : HeaderFilter) : bool := bool_decide (regexText this = []).

(** ** Identifiers never collide *)

(** Job ids survive their 64-bit form, which is also their trace id and
    what they are hashed by: distinct ids have distinct forms.  The shutdown id
    is none of the ids of semantic analysis or index emission jobs, whatever the
    task id is. *)
Theorem JobId_encoding j1 j2 t :
  JobId_wf j1 -> JobId_wf j2 ->
  from64Bit (to64Bit j1) = j1
  /\ (traceId j1 = traceId j2 -> j1 = j2)
  /\ newTask t <> Shutdown /\ nextSubtask (newTask t) <> Shutdown
  /\ newTask t <> nextSubtask (newTask t).
Proof.
  intros H1 H2. split_and!; try done; [by apply from64Bit_to64Bit|].
  unfold traceId. intros Heq. by rewrite -(from64Bit_to64Bit j1 H1) Heq from64Bit_to64Bit.
Qed.

Lemma JobId_encoding_witness : from64Bit (to64Bit (mkJobId 7 1)) = mkJobId 7 1.
Proof. apply (JobId_encoding (mkJobId 7 1) (mkJobId 7 0) 3); by split. Defined.

Lemma fmt_uint_no_char z (c : ascii) : is_digit c = false -> c ∉ fmt_uint z.
Proof.
  intros Hc Hin. pose proof (fmt_uint_digits z) as Hd. rewrite Forall_forall in Hd.
  rewrite (Hd c Hin) in Hc. done.
Qed.

Lemma driverToWorkerQueueName_inj driverId w1 w2 :
  0 <= w1 -> 0 <= w2 ->
  driverToWorkerQueueName driverId w1 = driverToWorkerQueueName driverId w2 -> w1 = w2.
Proof.
  intros H1 H2. unfold driverToWorkerQueueName. intros Heq.
  apply app_inv_head, app_inv_head, app_inv_head in Heq.
  apply app_inv_tail in Heq. by apply fmt_uint_inj.
Qed.

Lemma queue_directions_differ driverId w :
  driverToWorkerQueueName driverId w <> workerToDriverQueueName driverId.
Proof.
  unfold driverToWorkerQueueName, workerToDriverQueueName.
  intros Heq. apply app_inv_head, app_inv_head in Heq.
  change (lit "-worker-send") with (lit "-worker-" ++ lit "send") in Heq.
  apply app_inv_head in Heq. pose proof (fmt_uint_digits w) as Hd.
  pose proof (fmt_uint_nonempty w) as Hne. destruct (fmt_uint w) as [|c s]; [done|].
  apply Forall_cons in Hd as [Hc _]. cbn in Heq. by injection Heq as ->.
Qed.

(** The queues of one driver are all different: the names of the queues to
    two workers differ, and none is the name of the queue to the driver, for
    any driver id. *)
Theorem queue_names_distinct driverId w1 w2 :
  0 <= w1 -> 0 <= w2 ->
  driverToWorkerQueueName driverId w1 <> workerToDriverQueueName driverId
  /\ (driverToWorkerQueueName driverId w1 = driverToWorkerQueueName driverId w2 -> w1 = w2).
Proof.
  intros H1 H2. split; [apply queue_directions_differ|by apply driverToWorkerQueueName_inj].
Qed.

(** *** Splitting at a separator *)
Definition join_pieces (d : ascii) (ps : list str) : option str :=
  foldr (fun p acc => match acc with None => Some p | Some a => Some (p ++ (d :: a)) end) None ps.

Lemma join_pieces_cons d a rest ps :
  (forall p, p ∈ ps -> d ∉ p) -> d ∉ a ->
  join_pieces d ps = Some (a ++ d :: rest) ->
  exists ps', ps = a :: ps' /\ join_pieces d ps' = Some rest.
Proof.
  intros Hps Ha Hj. destruct ps as [|p ps]; [done|]. cbn in Hj.
  assert (d ∉ p) as Hp by (apply Hps, list_elem_of_here).
  fold (join_pieces d ps) in Hj. destruct (join_pieces d ps) as [r|] eqn:Er.
  - injection Hj as Hj. exists ps.
    assert (p = a /\ r = rest) as [-> ->]; [|done].
    revert a Ha Hj. clear -Hp. induction p as [|c p IH]; intros [|c' a] Ha Hj; cbn in Hj.
    + by injection Hj.
    + injection Hj as -> _. exfalso. apply Ha, list_elem_of_here.
    + injection Hj as -> _. exfalso. apply Hp, list_elem_of_here.
    + injection Hj as -> Hj. apply not_elem_of_cons in Hp as [_ Hp].
      apply not_elem_of_cons in Ha as [_ Ha]. destruct (IH Hp a Ha Hj) as [-> ->]. done.
  - injection Hj as Hj. exfalso. apply Hp. rewrite Hj. apply elem_of_app. right. apply list_elem_of_here.
Qed.

(** The task id of a shard file is read back from its name, whatever follows
    the prefix. *)
Theorem tryParseJobId_prefix `{AbslSplit, !AbslSplitLaws} taskId workerId suffix :
  uint32 taskId -> tryParseJobId (prefix taskId workerId ++ suffix) = Some taskId.
Proof.
  intros Ht. unfold tryParseJobId, prefix.
  set (s := _ ++ suffix).
  assert (forall p, p ∈ StrSplit s "-"%char -> "-"%char ∉ p) as Hp by (intros p; apply StrSplit_pieces).
  assert (join_pieces "-" (StrSplit s "-") = Some (lit "job" ++ "-"%char :: fmt_uint taskId
    ++ "-"%char :: lit "worker" ++ "-"%char :: fmt_uint workerId ++ suffix)) as Hj.
  { unfold join_pieces. rewrite StrSplit_join. subst s. by rewrite -!app_assoc. }
  clearbody s.
  apply join_pieces_cons in Hj as (ps1 & E1 & Hj); [|done|apply (bool_decide_unpack _); by vm_compute].
  rewrite E1 in Hp. apply join_pieces_cons in Hj as (ps2 & E2 & Hj);
    [|by intros p Hin; apply Hp; right|by apply fmt_uint_no_char].
  rewrite E2 in Hp. apply join_pieces_cons in Hj as (ps3 & E3 & Hj);
    [|by intros p Hin; apply Hp; right; right|apply (bool_decide_unpack _); by vm_compute].
  rewrite E1 E2 E3. rewrite !bool_decide_true //. by apply from_chars_fmt_uint.
Qed.

Lemma tryParseJobId_prefix_witness :
  @tryParseJobId demo_split (prefix 42 7 ++ lit "-docs.shard") = Some 42.
Proof. apply (@tryParseJobId_prefix demo_split demo_split_laws 42 7 (lit "-docs.shard")). by split. Defined.

Lemma queue_names_distinct_witness :
  driverToWorkerQueueName (lit "x") 0 <> workerToDriverQueueName (lit "x").
Proof. apply (queue_names_distinct (lit "x") 0 1); lia. Defined.

(** ** The queues deliver what was sent, in order *)
Section Delivery.
Context `{BM : BuildMode, JL : JsonLib, !JsonLaws, JP : !JsonPrinter, JA : !JsonParser, !JsonTextLaws}.
Context {T : Type} `{!Serializable T, !JsonOk T, !SerializableLaws T}.

(** A sender that sends a list of messages, and a receiver that polls [n] times. *)
Definition send_all (qs : queues) (this : JsonIpcQueue) (ts : list T) : result (option (gmap str BoostQueue)) :=
  foldM (fun acc t =>
    match acc with
    | None => Ok None
    | Some qs => r ← send qs this t; Ok (match r with Sent qs => Some qs | _ => None end)
    end) (Some qs) ts.

Fixpoint receive_all (n : nat) (qs : queues) (this : JsonIpcQueue) (t0 : T)
    : result (gmap str BoostQueue * JsonIpcQueue * list T) :=
  match n with
  | O => Ok (qs, this, [])
  | S n' =>
      '(qs, this, (received, t)) ← tryReceiveInstant qs this t0;
      '(qs, this, ts) ← receive_all n' qs this t0;
      Ok (qs, this, if (received : bool) then t :: ts else ts)
  end.

(** The message fits into the queue. *)
Definition fits (q : BoostQueue) (t : T) : Prop :=
  Z.of_nat (length (json_print (toJSON t))) <= max_msg_size q.

Definition with_messages (q : BoostQueue) (ms : list str) : BoostQueue :=
  mkBoostQueue ms (max_msg_count q) (max_msg_size q).
Definition encode_message (t : T) : str := json_print (toJSON t).

Lemma send_all_spec ts : forall qs this q,
  qs !! name this = Some q -> Forall (fits q) ts ->
  Z.of_nat (length (messages q) + length ts) <= max_msg_count q ->
  send_all qs this ts = Ok (Some (<[name this := with_messages q (messages q ++ map encode_message ts)]> qs)).
Proof.
  unfold send_all. induction ts as [|t ts IH]; intros qs this q Hq Hfit Hcount.
  - cbn. rewrite app_nil_r insert_id //. by destruct q.
  - apply Forall_cons in Hfit as [Ht Hts]. cbn [foldM]. unfold send, sendValue. rewrite Hq.
    unfold fits in Ht. cbn [length] in Hcount.
    rewrite (proj2 (Z.ltb_ge _ _)) // (proj2 (Z.leb_gt _ _)); [lia|]. rewrite !bind_Ok.
    rewrite (IH _ this (with_messages q (messages q ++ [encode_message t]))).
    + by rewrite lookup_insert_eq.
    + done.
    + cbn. rewrite length_app /=. lia.
    + cbn [with_messages messages max_msg_count max_msg_size map].
      rewrite insert_insert_eq -app_assoc. done.
Qed.

Lemma receive_all_spec ts : forall qs this t0 q,
  qs !! name this = Some q -> messages q = map encode_message ts -> Forall json_ok ts ->
  exists this', receive_all (length ts) qs this t0 =
    Ok (<[name this := with_messages q []]> qs, this', ts) /\ name this' = name this.
Proof.
  induction ts as [|t ts IH]; intros qs this t0 q Hq Hms Hok.
  - exists this. cbn. rewrite insert_id //. rewrite Hq. destruct q; cbn in *; by subst.
  - apply Forall_cons in Hok as [Ht Hts]. cbn [length receive_all].
    assert (tryReceiveInstant qs this t0 = Ok (<[name this := with_messages q (map encode_message ts)]> qs,
      mkJsonIpcQueue (name this) (queueInit this) (scratchBuffer_size this) (Z.of_nat (length (encode_message t))),
      (true, t))) as ->.
    { unfold tryReceiveInstant, timedReceive, timedReceiveValue. rewrite Hq Hms. cbn [map length Nat.eqb].
      unfold encode_message at 2. rewrite json_parse_print fromJSON_toJSON // ENFORCE_true. done. }
    rewrite bind_Ok.
    destruct (IH (<[name this := with_messages q (map encode_message ts)]> qs)
      (mkJsonIpcQueue (name this) (queueInit this) (scratchBuffer_size this) (Z.of_nat (length (encode_message t))))
      t0 (with_messages q (map encode_message ts))) as (this' & -> & Hn); [cbn; by rewrite lookup_insert_eq|done..|].
    exists this'. rewrite bind_Ok. cbn [name] in *. by rewrite insert_insert_eq.
Qed.
End Delivery.


(** A message that cannot be read stops a debug build; a release build takes
    it out of the queue and reports success without changing the message. *)
Theorem tryReceiveInstant_unreadable `{JL : JsonLib, JA : !JsonParser} {T : Type}
    `{!Serializable T} (qs : gmap str BoostQueue) this q m ms (t0 : T) :
  qs !! name this = Some q -> messages q = m :: ms -> json_parse m ≫= fromJSON (T := T) = None ->
  is_ok (@tryReceiveInstant true JL JA T _ qs this t0) = false
  /\ exists this', @tryReceiveInstant false JL JA T _ qs this t0 =
       Ok (<[name this := with_messages q ms]> qs, this', (true, t0)).
Proof.
  intros Hq Hms Hbad. unfold tryReceiveInstant, timedReceive, timedReceiveValue. rewrite Hq Hms.
  cbn [length Nat.eqb]. destruct (json_parse m) as [v|]; cbn in Hbad |- *; [rewrite Hbad|];
    (split; [done|by eexists]).
Qed.

(** ** Concrete inputs

    A text form for the concrete JSON values: the bits of a code number. *)
Fixpoint tree_of_json (v : json) : gen_tree (str + Z) :=
  match v with
  | JString s => GenLeaf (inl s)
  | JNumber n => GenLeaf (inr n)
  | JArray l => GenNode 0 (map tree_of_json l)
  | JObject kvs => GenNode 1 (concat (map (fun kv => [GenLeaf (inl kv.1); tree_of_json kv.2]) kvs))
  end.

Fixpoint json_of_tree (fuel : nat) (t : gen_tree (str + Z)) : json :=
  match fuel with
  | O => JArray []
  | S fuel =>
      match t with
      | GenLeaf (inl s) => JString s
      | GenLeaf (inr n) => JNumber n
      | GenNode 0 ts => JArray (map (json_of_tree fuel) ts)
      | GenNode _ ts =>
          JObject ((fix go ts := match ts with
            | GenLeaf (inl k) :: v :: ts' => (k, json_of_tree fuel v) :: go ts'
            | _ => [] end) ts)
      end
  end.

Fixpoint json_depth (v : json) : nat :=
  match v with
  | JString _ | JNumber _ => 1
  | JArray l => S (foldr max 0 (map json_depth l))%nat
  | JObject kvs => S (foldr max 0 (map (fun kv => json_depth kv.2) kvs))%nat
  end.

Lemma json_of_tree_of_json fuel : forall v, (json_depth v <= fuel)%nat ->
  json_of_tree fuel (tree_of_json v) = v.
Proof.
  induction fuel as [|fuel IH]; intros [s|n|l|kvs] Hd; cbn in Hd; try done; try lia;
    cbn; f_equal; apply Nat.succ_le_mono in Hd.
  - induction l as [|v l IHl]; [done|]. cbn in Hd |- *. rewrite IH; [lia|]. f_equal. apply IHl. lia.
  - induction kvs as [|[k v] kvs IHl]; [done|]. cbn in Hd |- *. rewrite IH; [lia|]. f_equal. apply IHl. lia.
Qed.

Fixpoint bits_of (p : positive) : str :=
  match p with xH => [] | xO p' => "0"%char :: bits_of p' | xI p' => "1"%char :: bits_of p' end.
Fixpoint of_bits (s : str) : positive :=
  match s with [] => xH | c :: s' => if Ascii.eqb c "0" then xO (of_bits s') else xI (of_bits s') end.

Lemma of_bits_of p : of_bits (bits_of p) = p.
Proof. induction p as [p IH|p IH|]; cbn; by rewrite ?IH. Qed.

(** The depth goes in front, as unary digits. *)
Definition demo_print : @JsonPrinter json_lib := fun v =>
  bits_of (encode (json_depth v, tree_of_json v)).
Definition demo_json_parser : @JsonParser json_lib := fun s =>
  '(n, t) ← decode (A := nat * gen_tree (str + Z)) (of_bits s); Some (json_of_tree n t).

Lemma demo_text_laws : @JsonTextLaws json_lib demo_print demo_json_parser.
Proof.
  intros v. unfold json_parse, json_print, demo_json_parser, demo_print.
  rewrite of_bits_of decode_encode /=. by rewrite json_of_tree_of_json.
Qed.

Definition demo_ipc_queue : BoostQueue := mkBoostQueue [] 2 (2 ^ 40).


Lemma tryReceiveInstant_unreadable_witness :
  is_ok (@tryReceiveInstant true json_lib (fun _ => None) JobId (@JobId_serializable json_lib)
    {[lit "q" := mkBoostQueue [lit "?"] 2 100]} (mkJsonIpcQueue (lit "q") OpenOnly 0 0) (newTask 0)) = false.
Proof.
  apply (@tryReceiveInstant_unreadable json_lib (fun _ => None) JobId (@JobId_serializable json_lib)
    {[lit "q" := mkBoostQueue [lit "?"] 2 100]} (mkJsonIpcQueue (lit "q") OpenOnly 0 0)
    (mkBoostQueue [lit "?"] 2 100) (lit "?") []); reflexivity.
Defined.
