(* ===== verification/CliOptions.v ===== *)
(** * Command-line options, output files and statistics

    [CliOptions] (CliOptions.h/.cc), [std::filesystem::path] as far as it is used for
    output paths, the files that a process writes, and [StatsEntry] (Statistics.h/.cc). *)
From S2P Require Import Prelude CppString Paths ScipMessages IndexBuilder Compdb Ipc.

Record CliOptions : Type := mkCliOptions {
  cli_compdbPath : str;
  scipClangExecutablePath : str;
  cli_temporaryOutputDir : str;
  cli_indexOutputPath : str;
  cli_statsFilePath : str;
  cli_packageMapPath : str;
  cli_showCompilerDiagnostics : bool;
  cli_showProgress : bool;
  cli_ipcSizeHintBytes : Z;
  cli_receiveTimeout : Z;
  cli_numWorkers : Z;
  cli_logLevel : Z;
  cli_deterministic : bool;
  cli_preprocessorRecordHistoryFilterRegex : str;
  cli_supplementaryOutputDir : str;
  cli_originalArgv : list str;
  cli_isTesting : bool;
  cli_workerFault : str;
  cli_noStacktrace : bool;
  workerMode : str;
  cli_measureStatistics : bool;
  cli_preprocessorHistoryLogPath : str;
  cli_driverId : str;
  cli_workerId : WorkerId;
}.

Definition CliOptions_ipcOptions (this : CliOptions) : IpcOptions :=
  mkIpcOptions (cli_ipcSizeHintBytes this) (cli_receiveTimeout this) (cli_driverId this)
    (cli_workerId this).

(** [std::filesystem::path::operator/] on POSIX. *)
Definition path_append (p q : str) : str :=
  match q with
  | "/"%char :: _ => q
  | _ =>
      match last p with
      | None => q
      | Some c => if bool_decide (c = "/"%char) then p ++ q else p ++ lit "/" ++ q
      end
  end.

(** [std::filesystem::current_path] and the like, and whether a file can be written. *)
Class ProcessEnv : Type := {
  current_path : str;
  temp_directory_path : str;
  open_fails : str -> bool;
  create_directories_fails : str -> bool;
}.

(** ** Statistics *)
Record StatsEntry : Type := mkStatsEntry {
  stats_path : str;
  stats_stats : IndexingStatistics;
}.

(** ** Output files: what was written to which path, in order *)
Inductive FileContent : Type :=
| IndexFile (index : Index)
| ForwardDeclFile (index : list ForwardDecl)
| StatsFile (entries : list StatsEntry).
Abbreviation OutputFiles := (list (str * FileContent)) (only parsing).

(** [StatsEntry::emitAll]. *)
Definition emitAll `{BuildMode, ProcessEnv} (stats : list StatsEntry) (path : str)
    (files : OutputFiles) : result (list (str * FileContent)) :=
  ENFORCE (negb (open_fails path)) "!error" ;;
  Ok (if open_fails path then files else files ++ [(path, StatsFile stats)]).
