(* ===== verification/MacroIndexer.v ===== *)
(** * Macro occurrences and includes

    [FileLocalMacroOccurrence], [NonFileBasedMacro] and [MacroIndexer] of
    Indexer.h/.cc: what the preprocessor callbacks save about macros and
    [#include]s, per file, and how it is emitted into SCIP messages. *)
From S2P Require Import Prelude CppString Ordering Paths PackageMaps IdPaths Symbols ScipMessages.
From S2P Require Import IndexBuilder Clang Formatter.

(** Tokens, [MacroInfo] (compared by address) and [MacroDefinition]. *)
Class ClangMacros `{ClangSourceManager} : Type := {
  Token : Type;
  tok_getLocation : Token -> SourceLocation;
  tok_getLength : Token -> Z;
  MacroInfo : Type;
  MacroInfo_eq_dec :: EqDecision MacroInfo;
  getDefinitionLoc : MacroInfo -> SourceLocation;
  isBuiltinMacro : MacroInfo -> bool;
  MacroDefinition : Type;
  isAmbiguous : MacroDefinition -> bool;
  getMacroInfo : MacroDefinition -> option MacroInfo;
}.

(** Constants of the generated code for scip.proto. *)
Class ScipEnums : Type := {
  SymbolRole_Definition : Z;
  IdentifierMacroDefinition : Z;
  IdentifierMacro : Z;
  Language_CPP : str;
}.

Inductive Role : Type := Role_Definition | Role_Reference.
#[export] Instance Role_eq_dec : EqDecision Role.
Proof. solve_decision. Defined.

(** Setters of an occurrence, as protobuf generates them. *)
Definition occ_set_symbol_roles (v : Z) (o : Occurrence) : Occurrence :=
  mkOccurrence (range o) (occ_symbol o) v (override_documentation o) (syntax_kind o) (diagnostics o).
Definition occ_set_syntax_kind (v : Z) (o : Occurrence) : Occurrence :=
  mkOccurrence (range o) (occ_symbol o) (symbol_roles o) (override_documentation o) v (diagnostics o).
Definition occ_set_symbol (v : str) (o : Occurrence) : Occurrence :=
  mkOccurrence (range o) v (symbol_roles o) (override_documentation o) (syntax_kind o) (diagnostics o).
Definition occ_set_range (v : list Z) (o : Occurrence) : Occurrence :=
  mkOccurrence v (occ_symbol o) (symbol_roles o) (override_documentation o) (syntax_kind o)
    (diagnostics o).
Definition empty_symbolInformation : SymbolInformation := mkSymbolInformation [] [] [].
Definition add_occurrence (o : Occurrence) (d : Document) : Document :=
  mkDocument (language d) (relative_path d) (occurrences d ++ [o]) (symbols d).
Definition add_symbol (s : SymbolInformation) (d : Document) : Document :=
  mkDocument (language d) (relative_path d) (occurrences d) (symbols d ++ [s]).
Definition add_external_symbol (s : SymbolInformation) (i : Index) : Index :=
  mkIndex (documents i) (external_symbols i ++ [s]).

Section MacroIndexer.
Context `{BuildMode, AbslReplace, ClangFileID, !ClangSourceManager, !ClangAst, !ClangMacros}.
Context `{HashIteration, TextHash, ScipEnums}.

Record FileLocalMacroOccurrence : Type := mkMacroOccurrence {
  mo_range : FileLocalSourceRange;
  defInfo : MacroInfo;
  role : Role;
}.

(** [DERIVE_HASH_CMP_NEWTYPE(..., range, CMP_EXPR)]: only the range counts. *)
Definition FileLocalMacroOccurrence_cmp (lhs rhs : FileLocalMacroOccurrence) : comparison :=
  CMP_EXPR FileLocalSourceRange_cmp (mo_range lhs) (mo_range rhs) Eq.

Definition FileLocalMacroOccurrence_new (macroToken : Token) (defInfo : MacroInfo) (role : Role)
    : result FileLocalMacroOccurrence :=
  let startLoc := getSpellingLoc (tok_getLocation macroToken) in
  let endLoc := getLocWithOffset startLoc (tok_getLength macroToken) in
  r ← fromNonEmpty (mkSourceRange _ _ startLoc endLoc);
  Ok (mkMacroOccurrence r.1 defInfo role).

Definition emitOccurrence (this : FileLocalMacroOccurrence) (occ : Occurrence)
    : ST SymbolFormatter Occurrence :=
  let occ :=
    match role this with
    | Role_Definition =>
        occ_set_syntax_kind IdentifierMacroDefinition (occ_set_symbol_roles SymbolRole_Definition occ)
    | Role_Reference => occ_set_syntax_kind IdentifierMacro occ
    end in
  let occ := occ_set_range (FileLocalSourceRange_addTo (mo_range this) (range occ)) occ in
  symbol ← getMacroSymbol (getDefinitionLoc (defInfo this));
  mret (occ_set_symbol (ref_value symbol) occ).

Definition macro_emitSymbolInformation (name : str) (symbolInfo : SymbolInformation)
    : SymbolInformation :=
  mkSymbolInformation name (si_documentation symbolInfo) (si_relationships symbolInfo).

(** ** [NonFileBasedMacro] *)
Definition NonFileBasedMacro_cmp (m1 m2 : MacroInfo) : comparison :=
  Z.compare (getRawEncoding (getDefinitionLoc m1)) (getRawEncoding (getDefinitionLoc m2)).

Definition nonFile_emitSymbolInformation (this : MacroInfo) (symbolInfo : SymbolInformation)
    : ST SymbolFormatter SymbolInformation :=
  symbol ← getMacroSymbol (getDefinitionLoc this);
  mret (macro_emitSymbolInformation (ref_value symbol) symbolInfo).

(** ** [MacroIndexer] *)
Record MacroIndexer : Type := mkMacroIndexer {
  table : gmap FileID (list FileLocalMacroOccurrence);
  nonFileBasedMacros : list MacroInfo;
  includeRanges : gmap FileID (list (SourceRange * AbsolutePathRef));
}.
Definition MacroIndexer_new : MacroIndexer := mkMacroIndexer ∅ [] ∅.

Definition macro_saveOccurrence (this : MacroIndexer) (occFileId : FileID) (macroToken : Token)
    (macroInfo : MacroInfo) (role : Role) : result MacroIndexer :=
  ENFORCE (FileID_isValid occFileId) "trying to record occurrence outside an actual file" ;;
  occ ← FileLocalMacroOccurrence_new macroToken macroInfo role;
  let set := default [] (table this !! occFileId) in
  Ok (mkMacroIndexer
        (<[occFileId := set_insert FileLocalMacroOccurrence_cmp occ set]> (table this))
        (nonFileBasedMacros this) (includeRanges this)).

Definition saveNonFileBasedMacro (this : MacroIndexer) (macroInfo : MacroInfo) : MacroIndexer :=
  mkMacroIndexer (table this)
    (if bool_decide (macroInfo ∈ nonFileBasedMacros this) then nonFileBasedMacros this
     else nonFileBasedMacros this ++ [macroInfo])
    (includeRanges this).

Definition macro_saveDefinition (this : MacroIndexer) (macroNameToken : Token)
    (macroInfo : option MacroInfo) : result MacroIndexer :=
  ENFORCE (bool_decide (is_Some macroInfo)) "macroInfo" ;;
  macroInfo ← optional_value macroInfo;
  let fileId := getFileID (getDefinitionLoc macroInfo) in
  if negb (FileID_isValid fileId) then Ok (saveNonFileBasedMacro this macroInfo)
  else macro_saveOccurrence this fileId macroNameToken macroInfo Role_Definition.

Definition macro_saveReference (this : MacroIndexer) (macroNameToken : Token)
    (macroDefinition : MacroDefinition) : result MacroIndexer :=
  if isAmbiguous macroDefinition then Ok this
  else
    match getMacroInfo macroDefinition with
    | None => Ok this
    | Some defMacroInfo =>
        if isBuiltinMacro defMacroInfo then Ok this
        else
          ENFORCE (loc_isValid (getDefinitionLoc defMacroInfo))
            "invalid definition loc for reference" ;;
          let refLoc := getSpellingLoc (tok_getLocation macroNameToken) in
          let refFileId := getFileID refLoc in
          if negb (FileID_isValid refFileId) then Ok this
          else macro_saveOccurrence this refFileId macroNameToken defMacroInfo Role_Reference
    end.

Definition macro_saveInclude (this : MacroIndexer) (containingFileId : FileID)
    (pathRange : SourceRange) (includedFilePath : AbsolutePathRef) : MacroIndexer :=
  mkMacroIndexer (table this) (nonFileBasedMacros this)
    (match includeRanges this !! containingFileId with
     | Some vec =>
         <[containingFileId := vec ++ [(pathRange, includedFilePath)]]> (includeRanges this)
     | None => <[containingFileId := [(pathRange, includedFilePath)]]> (includeRanges this)
     end).

(** *** Emission *)

(** The callback of [emitDocumentOccurrencesAndSymbols]. *)
Definition emit_macro_occurrence (macroOcc : FileLocalMacroOccurrence) (document : Document)
    : ST SymbolFormatter Document :=
  occ ← emitOccurrence macroOcc empty_occurrence;
  match role macroOcc with
  | Role_Definition =>
      let symbolInfo := mkSymbolInformation [] [missingDocumentationPlaceholder] [] in
      st_lift (ENFORCE (negb (bool_decide (occ_symbol occ = []))) "!occ.symbol().empty()") ;;
      let symbolInfo := macro_emitSymbolInformation (occ_symbol occ) symbolInfo in
      mret (add_occurrence occ (add_symbol symbolInfo document))
  | Role_Reference => mret (add_occurrence occ document)
  end.

(** [extractTransform] with a callback that uses the formatter. *)
Definition extractTransform_setM {T A} (cmp : T -> T -> comparison) (set : list T)
    (deterministic : bool) (f : T -> A -> ST SymbolFormatter A) (a : A) : ST SymbolFormatter A :=
  extractTransform_set cmp (iterate_set set) deterministic (fun m t => a ← m; f t a) (mret a).

Definition macro_emitDocumentOccurrencesAndSymbols (this : MacroIndexer) (deterministic : bool)
    (fileId : FileID) (document : Document) : ST SymbolFormatter (MacroIndexer * Document) :=
  match table this !! fileId with
  | None => mret (this, document)
  | Some set =>
      document ← extractTransform_setM FileLocalMacroOccurrence_cmp set deterministic
                   emit_macro_occurrence document;
      mret (mkMacroIndexer (<[fileId := []]> (table this)) (nonFileBasedMacros this)
              (includeRanges this), document)
  end.

(** The files of the macros without a file: at most one. *)
Definition nonFileBased_paths (macros : list MacroInfo) : list str :=
  foldl (fun paths macro =>
      let path := tryGetPath (getFileID (getDefinitionLoc macro)) in
      if bool_decide (path ∈ paths) then paths else paths ++ [path]) [] macros.

Definition emit_nonFile_macro (macro : MacroInfo) (index : Index) : ST SymbolFormatter Index :=
  symbolInfo ← nonFile_emitSymbolInformation macro empty_symbolInformation;
  mret (add_external_symbol symbolInfo index).

Definition macro_emitExternalSymbols (this : MacroIndexer) (deterministic : bool) (index : Index)
    : ST SymbolFormatter (MacroIndexer * Index) :=
  st_lift (ENFORCE (length (nonFileBased_paths (iterate_set (nonFileBasedMacros this))) <=? 1)%nat
             "non-file based macros found in") ;;
  index ← extractTransform_setM NonFileBasedMacro_cmp (nonFileBasedMacros this) deterministic
            emit_nonFile_macro index;
  mret (mkMacroIndexer (table this) [] (includeRanges this), index).

Definition forEachIncludeInFile {S} (this : MacroIndexer) (fileId : FileID)
    (callback : S -> SourceRange -> AbsolutePathRef -> result S) (s : S) : result S :=
  match includeRanges this !! fileId with
  | None => Ok s
  | Some includes => foldM (fun s i => callback s i.1 i.2) s includes
  end.
End MacroIndexer.

(** ** What the formatter says about macros *)
Section MacroSymbols.
Context `{BM : BuildMode, AR : AbslReplace, CF : ClangFileID}.
Context {SM : ClangSourceManager} {CA : ClangAst} `{TH : TextHash}.

(** The symbol of a macro without the cache: its defining file and position. *)
Definition macro_builder (fm : FileMetadataMap) (defLoc : SourceLocation) : SymbolBuilder :=
  let defPLoc := getPresumedLoc defLoc false in
  let '(path, id) :=
    match getFileMetadata fm (presumedFileID defLoc false) with
    | Some md => (rel_value (sf_path (stableFileId md)), packageId md)
    | None => (pl_getFilename defPLoc, mkPackageId [] [])
    end in
  mkSymbolBuilder id
    [mkDescriptor (path ++ lit ":" ++ fmt_uint (pl_getLine defPLoc) ++ lit ":"
                     ++ fmt_uint (pl_getColumn defPLoc)) [] Macro].

Definition macro_cache_ok (fm : FileMetadataMap) (st : SymbolFormatter) : Prop :=
  sfm_fileMetadataMap st = fm
  /\ forall l s, locationBasedCache st !! l = Some s -> format (macro_builder fm l) = Ok s.

Lemma macro_builder_format fm l :
  exists s, format (macro_builder fm l) = Ok s /\ ref_value s <> [].
Proof.
  unfold macro_builder. destruct (match getFileMetadata fm _ with Some _ => _ | None => _ end) as [p id].
  unfold format, SymbolBuilder_formatTo. simpl. eexists. split; [done|]. simpl.
  by intros [[_ ?]%app_eq_nil _]%app_eq_nil.
Qed.

Lemma getMacroSymbol_ok fm l st :
  macro_cache_ok fm st -> pl_isValid (getPresumedLoc l false) = true ->
  exists s st', getMacroSymbol l st = Ok (s, st') /\ macro_cache_ok fm st'
    /\ format (macro_builder fm l) = Ok s.
Proof.
  intros [Hfm Hst] Hv. unfold getMacroSymbol. rewrite ST_bind_unfold {1}/st_gets.
  destruct (locationBasedCache st !! l) as [s|] eqn:E; [exists s, st; by split_and!; [|split|apply Hst]|].
  destruct (macro_builder_format fm l) as (s & Hs & _).
  exists s, (set_locationBasedCache (<[l := s]> (locationBasedCache st)) st).
  rewrite ST_bind_unfold /st_lift Hv ENFORCE_true bind_Ok ST_bind_unfold {1}/st_gets Hfm.
  pose proof Hs as Hs'. unfold macro_builder in Hs'. cbv zeta.
  destruct (match getFileMetadata fm _ with Some _ => _ | None => _ end) as [p id].
  rewrite ST_bind_unfold Hs' bind_Ok /cache_insert ST_bind_unfold {1}/st_gets E.
  split_and!; [done| |done]. split; [done|]. intros l' s'. simpl.
  rewrite lookup_insert_Some. intros [[<- <-]|[_ Hl]]; [done|by apply Hst].
Qed.
End MacroSymbols.

Section MacroFacts.
Context `{BM : BuildMode, AR : AbslReplace, CF : ClangFileID}.
Context {SM : ClangSourceManager} {CA : ClangAst} {CM : ClangMacros}.
Context `{HI : HashIteration, TH : TextHash, SE : ScipEnums}.

#[export] Instance FileLocalMacroOccurrence_cmp_strong : StrongOrdering FileLocalMacroOccurrence_cmp.
Proof.
  apply (cmp_ext (cmp_on mo_range FileLocalSourceRange_cmp)); [|apply _].
  intros x y. unfold FileLocalMacroOccurrence_cmp, CMP_EXPR, cmp_on. by rewrite CMP_CHECK_Eq_r.
Qed.

Lemma FileLocalMacroOccurrence_cmp_eq x y :
  FileLocalMacroOccurrence_cmp x y = Eq <-> mo_range x = mo_range y.
Proof.
  unfold FileLocalMacroOccurrence_cmp, CMP_EXPR. rewrite CMP_CHECK_Eq_r. split.
  - apply (cmp_eq_exact (cmp:=FileLocalSourceRange_cmp)).
  - intros ->. apply (cmp_refl FileLocalSourceRange_cmp).
Qed.

(** ** What is saved *)

(** No file has two occurrences with the same range. *)
Definition table_wf (this : MacroIndexer) : Prop :=
  forall f es, table this !! f = Some es -> NoDup (mo_range <$> es) /\ FileID_isValid f = true.

Lemma set_insert_ranges x s :
  NoDup (mo_range <$> s) ->
  NoDup (mo_range <$> set_insert FileLocalMacroOccurrence_cmp x s)
  /\ forall r, r ∈ mo_range <$> set_insert FileLocalMacroOccurrence_cmp x s
       <-> r = mo_range x \/ r ∈ mo_range <$> s.
Proof.
  intros Hnd. unfold set_insert, set_contains.
  destruct (existsb _ s) eqn:E.
  - apply existsb_In in E as (y & Hy & Hc). split; [done|]. intros r. split; [auto|].
    intros [->|?]; [|done]. apply list_elem_of_fmap. exists y. split; [|done].
    apply FileLocalMacroOccurrence_cmp_eq. by destruct (FileLocalMacroOccurrence_cmp x y).
  - rewrite fmap_app. split.
    + apply NoDup_app. split_and!; [done| |apply NoDup_singleton].
      intros r Hr ->%list_elem_of_singleton. apply list_elem_of_fmap in Hr as (y & Hxy & Hy).
      assert (existsb (fun y => match FileLocalMacroOccurrence_cmp x y with
                                | Eq => true | _ => false end) s = true) as Ht; [|by rewrite Ht in E].
      apply existsb_In. exists y. split; [done|].
      by rewrite (proj2 (FileLocalMacroOccurrence_cmp_eq x y) Hxy).
    + intros r. rewrite elem_of_app list_elem_of_singleton. tauto.
Qed.

(** The callbacks of the preprocessor, as far as this class sees them. *)
Inductive macro_event : Type :=
| SaveDefinition (tok : Token) (info : option MacroInfo)
| SaveReference (tok : Token) (def : MacroDefinition)
| SaveInclude (fileId : FileID) (pathRange : SourceRange) (path : AbsolutePathRef).

Definition macro_save (this : MacroIndexer) (e : macro_event) : result MacroIndexer :=
  match e with
  | SaveDefinition tok info => macro_saveDefinition this tok info
  | SaveReference tok def => macro_saveReference this tok def
  | SaveInclude fileId pathRange path => Ok (macro_saveInclude this fileId pathRange path)
  end.

(** An operation that leaves the table alone or adds one occurrence. *)
Lemma macro_saveOccurrence_wf this f tok info r this' :
  FileID_isValid f = true -> table_wf this ->
  macro_saveOccurrence this f tok info r = Ok this' -> table_wf this'.
Proof.
  intros Hf Hwf. unfold macro_saveOccurrence. intros H'. inv_ok. intros f' es. simpl.
  rewrite lookup_insert_Some. intros [[<- <-]|[_ Hl]]; [|by apply Hwf]. split; [|done].
  apply set_insert_ranges. destruct (table this !! f) eqn:Ef; simpl; [by eapply Hwf|constructor].
Qed.

Lemma macro_save_wf this e this' :
  table_wf this -> macro_save this e = Ok this' -> table_wf this'.
Proof.
  intros Hwf. destruct e as [tok info|tok def|f r p]; simpl.
  - unfold macro_saveDefinition. intros H'. inv_ok.
    destruct (FileID_isValid _) eqn:Ev; simpl in *.
    + by eapply macro_saveOccurrence_wf.
    + by injection H' as <-.
  - unfold macro_saveReference. destruct (isAmbiguous def); [by intros [= <-]|].
    destruct (getMacroInfo def) as [info|]; [|by intros [= <-]].
    destruct (isBuiltinMacro info); [by intros [= <-]|]. intros H'. inv_ok.
    destruct (FileID_isValid _) eqn:Ev; simpl in *.
    + by eapply macro_saveOccurrence_wf.
    + by injection H' as <-.
  - by intros [= <-].
Qed.

Lemma macro_saves_wf es this :
  foldM macro_save MacroIndexer_new es = Ok this -> table_wf this.
Proof.
  intros Hf. eapply (foldM_invariant table_wf); [| |exact Hf].
  - intros t e t' _ Ht. by apply macro_save_wf.
  - intros f es'. simpl. by rewrite lookup_empty.
Qed.

(** ** What is emitted *)
Variable fm : FileMetadataMap.

Definition macro_symbol_str (l : SourceLocation) : str :=
  match format (macro_builder fm l) with Ok s => ref_value s | Err _ => [] end.

(** The SCIP occurrence and symbol of a saved occurrence. *)
Definition scip_macro_occurrence (o : FileLocalMacroOccurrence) : Occurrence :=
  mkOccurrence (FileLocalSourceRange_addTo (mo_range o) [])
    (macro_symbol_str (getDefinitionLoc (defInfo o)))
    (match role o with Role_Definition => SymbolRole_Definition | Role_Reference => 0 end) []
    (match role o with Role_Definition => IdentifierMacroDefinition | Role_Reference => IdentifierMacro end)
    [].
Definition scip_macro_symbol (o : FileLocalMacroOccurrence) : SymbolInformation :=
  mkSymbolInformation (macro_symbol_str (getDefinitionLoc (defInfo o)))
    [missingDocumentationPlaceholder] [].
Definition is_definition_occurrence (o : FileLocalMacroOccurrence) : Prop :=
  role o = Role_Definition.
#[local] Instance is_definition_occurrence_dec o : Decision (is_definition_occurrence o).
Proof. unfold is_definition_occurrence. apply _. Defined.

Definition add_macros (os : list FileLocalMacroOccurrence) (d : Document) : Document :=
  mkDocument (language d) (relative_path d) (occurrences d ++ map scip_macro_occurrence os)
    (symbols d ++ map scip_macro_symbol (filter is_definition_occurrence os)).

Lemma emit_macro_occurrence_ok o d st :
  macro_cache_ok fm st -> pl_isValid (getPresumedLoc (getDefinitionLoc (defInfo o)) false) = true ->
  exists st', emit_macro_occurrence o d st = Ok (add_macros [o] d, st') /\ macro_cache_ok fm st'.
Proof.
  intros Hst Hv. destruct (getMacroSymbol_ok fm _ st Hst Hv) as (s & st' & Hs & Hst' & Hf).
  exists st'. split; [|done]. destruct (macro_builder_format fm (getDefinitionLoc (defInfo o)))
    as (s' & Hf' & Hne). assert (s' = s) as -> by congruence.
  unfold emit_macro_occurrence, emitOccurrence.
  rewrite !ST_bind_unfold Hs. cbn [mret ST_ret]. unfold add_macros.
  destruct (role o) eqn:Er.
  - rewrite filter_cons_True // filter_nil.
    rewrite ST_bind_unfold /st_lift bool_decide_false //= ENFORCE_true /=.
    unfold scip_macro_symbol, scip_macro_occurrence, macro_symbol_str. by rewrite Hf Er.
  - rewrite filter_cons_False; [by unfold is_definition_occurrence; rewrite Er|].
    rewrite filter_nil /= app_nil_r. unfold scip_macro_occurrence, macro_symbol_str.
    by rewrite Hf Er.
Qed.

Lemma add_macros_app l1 l2 d : add_macros l2 (add_macros l1 d) = add_macros (l1 ++ l2) d.
Proof. unfold add_macros. simpl. by rewrite filter_app !map_app -!app_assoc. Qed.

(** A fold of state operations that each succeed. *)
Lemma emit_macros_ok os d st :
  macro_cache_ok fm st ->
  (forall o, o ∈ os -> pl_isValid (getPresumedLoc (getDefinitionLoc (defInfo o)) false) = true) ->
  forall (m : ST SymbolFormatter Document) st0, m st0 = Ok (d, st) ->
  exists st', foldl (fun m o => d ← m; emit_macro_occurrence o d) m os st0
    = Ok (add_macros os d, st') /\ macro_cache_ok fm st'.
Proof.
  revert d st. induction os as [|o os IH]; intros d st Hst Hv m st0 Hm; simpl.
  - exists st. split; [|done]. rewrite Hm /add_macros filter_nil /= !app_nil_r. by destruct d.
  - destruct (emit_macro_occurrence_ok o d st Hst (Hv o ltac:(left))) as (st1 & H1 & Hst1).
    destruct (IH (add_macros [o] d) st1 Hst1 ltac:(by intros; apply Hv; right)
                (d ← m; emit_macro_occurrence o d) st0) as (st' & H2 & Hst').
    { by rewrite (ST_bind_Ok _ _ _ _ _ Hm). }
    exists st'. split; [|done]. by rewrite H2 add_macros_app.
Qed.
End MacroFacts.

(** ** A concrete preprocessor *)
Definition demo_macros : @ClangMacros demo_files demo_sm := {|
  Token := Z; tok_getLocation t := (t : @SourceLocation demo_files demo_sm); tok_getLength _ := 3;
  MacroInfo := Z; getDefinitionLoc m := (m : @SourceLocation demo_files demo_sm);
  isBuiltinMacro _ := false; MacroDefinition := option Z; isAmbiguous _ := false;
  getMacroInfo d := d;
|}.
Definition demo_enums : ScipEnums := {|
  SymbolRole_Definition := 1; IdentifierMacroDefinition := 17; IdentifierMacro := 16;
  Language_CPP := lit "CPP";
|}.

(** ** Properties *)

Definition range_before `{ClangMacros} (o1 o2 : FileLocalMacroOccurrence) : Prop :=
  FileLocalMacroOccurrence_cmp o1 o2 = Lt.

(** C35. However often the preprocessor reports a macro occurrence, the document of
    its file gets exactly one SCIP occurrence for every distinct range (and one symbol
    for every definition); in deterministic mode they come strictly ordered by range,
    which leaves one possible list whatever order the hash set yields its elements in.
    Emission succeeds in debug and release builds. *)
Theorem macro_occurrences_emitted_once
    `{BM : BuildMode, AR : AbslReplace, CF : ClangFileID}
    {SM : ClangSourceManager} {CA : ClangAst} {CM : ClangMacros}
    `{HI : HashIteration, !HashIterationLaws, SE : ScipEnums}
    (fm : FileMetadataMap) (events : list macro_event) (this : MacroIndexer)
    (st : SymbolFormatter) (document : Document) (fileId : FileID)
    (es : list FileLocalMacroOccurrence) (deterministic : bool) :
  foldM macro_save MacroIndexer_new events = Ok this -> table this !! fileId = Some es ->
  macro_cache_ok fm st ->
  (forall o, o ∈ es -> pl_isValid (getPresumedLoc (getDefinitionLoc (defInfo o)) false) = true) ->
  exists os st', os ≡ₚ es /\ NoDup (mo_range <$> es)
    /\ (deterministic = true -> StronglySorted range_before os)
    /\ macro_emitDocumentOccurrencesAndSymbols this deterministic fileId document st
       = Ok ((mkMacroIndexer (<[fileId := []]> (table this)) (nonFileBasedMacros this)
                (includeRanges this), add_macros fm os document), st')
    /\ macro_cache_ok fm st'.
Proof.
  intros Hrun Hes Hst Hv. destruct (macro_saves_wf _ _ Hrun _ _ Hes) as [Hnd _].
  set (os := if deterministic then c_sort FileLocalMacroOccurrence_cmp (iterate_set es)
             else iterate_set es).
  assert (os ≡ₚ es) as Hos.
  { unfold os. destruct deterministic; rewrite ?c_sort_Permutation; apply iterate_set_entries. }
  destruct (emit_macros_ok fm os document st Hst) with (m := mret document : ST SymbolFormatter Document)
    (st0 := st) as (st' & Hr & Hst'); [by intros o; rewrite Hos; apply Hv|done|].
  exists os, st'. split_and!; [done..| | |done].
  - unfold os. intros ->. apply (sorted_strictly _ mo_range); [| |apply c_sort_sorted, _].
    + intros x y. apply FileLocalMacroOccurrence_cmp_eq.
    + rewrite c_sort_Permutation. by rewrite iterate_set_entries.
  - unfold macro_emitDocumentOccurrencesAndSymbols. rewrite Hes.
    unfold extractTransform_setM, extractTransform_set. rewrite ST_bind_unfold.
    unfold os in Hr. by destruct deterministic; simpl; rewrite Hr.
Qed.

Definition demo_events : list (@macro_event demo_files demo_sm demo_macros) :=
  [@SaveReference demo_files demo_sm demo_macros 10510 (Some 10101 : option Z);
   @SaveDefinition demo_files demo_sm demo_macros 10101 (Some 10101 : option Z);
   @SaveReference demo_files demo_sm demo_macros 10510 (Some 10101 : option Z)].
Definition demo_macro_run : result (@MacroIndexer demo_files demo_sm demo_macros) :=
  @foldM _ _ (@macro_save true demo_files demo_sm demo_macros) MacroIndexer_new demo_events.
Definition demo_macro_indexer : @MacroIndexer demo_files demo_sm demo_macros :=
  match demo_macro_run with Ok this => this | Err _ => MacroIndexer_new end.
Definition demo_macro_entry : option (list (@FileLocalMacroOccurrence demo_files demo_sm demo_macros)) :=
  table demo_macro_indexer !! (1%N : @FileID demo_files).
Definition demo_macro_occurrences := default [] demo_macro_entry.

Lemma demo_macro_run_ok : demo_macro_run = Ok demo_macro_indexer.
Proof.
  assert (is_ok demo_macro_run = true) as Hok by (vm_compute; reflexivity).
  unfold demo_macro_indexer. by destruct demo_macro_run.
Qed.
Lemma demo_macro_entry_some : demo_macro_entry = Some demo_macro_occurrences.
Proof.
  assert (bool_decide (is_Some demo_macro_entry) = true) as Hok by (vm_compute; reflexivity).
  unfold demo_macro_occurrences. by destruct demo_macro_entry.
Qed.

Lemma macro_occurrences_emitted_once_witness :
  exists os st', os ≡ₚ demo_macro_occurrences /\ NoDup (mo_range <$> demo_macro_occurrences)
    /\ (true = true -> StronglySorted range_before os)
    /\ @macro_emitDocumentOccurrencesAndSymbols true demo_replace demo_files demo_sm demo_ast
         demo_macros tree_iteration demo_enums demo_macro_indexer true 1%N
         (mkDocument [] [] [] []) (SymbolFormatter_new (demo_fm demo_base))
       = Ok ((mkMacroIndexer (<[(1%N : @FileID demo_files) := []]> (table demo_macro_indexer))
                (nonFileBasedMacros demo_macro_indexer) (includeRanges demo_macro_indexer),
              @add_macros true demo_replace demo_files demo_sm demo_macros demo_enums (demo_fm demo_base) os (mkDocument [] [] [] [])), st')
    /\ @macro_cache_ok true demo_replace demo_files demo_sm demo_ast (demo_fm demo_base) st'.
Proof.
  apply (@macro_occurrences_emitted_once true demo_replace demo_files demo_sm demo_ast demo_macros
    tree_iteration tree_iteration_laws demo_enums (demo_fm demo_base) demo_events
    demo_macro_indexer (SymbolFormatter_new (demo_fm demo_base)) (mkDocument [] [] [] []) 1%N
    demo_macro_occurrences true).
  - exact demo_macro_run_ok.
  - exact demo_macro_entry_some.
  - split; [reflexivity|]. intros l s. cbn. by rewrite lookup_empty.
  - apply Forall_forall. apply (bool_decide_unpack _). vm_compute. exact I.
Defined.
