(* ===== verification/Preprocessor.v ===== *)
(** * Hashing what the preprocessor sees

    Preprocessing.h/.cc and Hash.h: one running hash per file on the include stack,
    mixed with the hashes of the files it includes; when the translation unit ends,
    the (path, hash) pairs become the result of semantic analysis.  [wyhash] and
    Clang's callbacks are parameters. *)
From S2P Require Import Prelude CppString Ordering Paths PackageMaps IdPaths Symbols ScipMessages.
From S2P Require Import CommandLine Ipc Clang Formatter MacroIndexer.

(** ** Hash values *)
Class WyHash : Type := wyhash : str -> Z -> Z.

(** The object representation of a [uint64_t] (little-endian). *)
Definition uint64_bytes (v : Z) : str :=
  map (fun i => ascii_of_N (Z.to_N (Z.shiftr v (8 * Z.of_nat i) mod 256))) (seq 0 8).

Section Hash.
Context `{WyHash}.
Definition HashValue_mix (this : HashValue) (key : str) : HashValue := wyhash key this.
Definition HashValue_forText (text : str) : Z := HashValue_mix 0 text.
End Hash.

Record HistoryEntry : Type := mkHistoryEntry {
  beforeHash : Z;
  afterHash : Z;
  mixedValue : str;
  mixContext : str;
  contextData : str;
}.

(** [history] is null when nothing is recorded. *)
Record HashValueBuilder : Type := mkHashValueBuilder {
  runningHash : HashValue;
  history : option (list HistoryEntry);
}.
Definition HashValueBuilder_new (recordHistory : bool) : HashValueBuilder :=
  mkHashValueBuilder 0 (if recordHistory then Some [] else None).

(** The two overloads of [mix]; [fmt::format] of either. *)
Inductive Mixed : Type := MixText (text : str) | MixInt (v : Z).
Definition mixed_bytes (t : Mixed) : str :=
  match t with MixText text => text | MixInt v => uint64_bytes v end.
Definition mixed_format (t : Mixed) : str :=
  match t with MixText text => text | MixInt v => fmt_uint v end.

Section Builder.
Context `{BuildMode, WyHash}.

Definition builder_mix (this : HashValueBuilder) (t : Mixed) : HashValueBuilder :=
  mkHashValueBuilder (HashValue_mix (runningHash this) (mixed_bytes t)) (history this).

Definition isRecordingHistory (this : HashValueBuilder) : bool := bool_decide (is_Some (history this)).

Definition mixWithContext (this : HashValueBuilder) (t : Mixed) (entry : HistoryEntry)
    : result HashValueBuilder :=
  ENFORCE (isRecordingHistory this) "this->isRecordingHistory()" ;;
  let before := runningHash this in
  let this := builder_mix this t in
  match history this with
  | Some h =>
      Ok (mkHashValueBuilder (runningHash this)
            (Some (h ++ [mkHistoryEntry before (runningHash this) (mixedValue entry)
                           (mixContext entry) (contextData entry)])))
  | None => Err BadOptionalAccess
  end.

Definition finish (this : HashValueBuilder) : HashValue * option (list HistoryEntry) :=
  (runningHash this, history this).
End Builder.

(** ** The stack *)
Section Stack.
Context `{BuildMode, ClangFileID}.

Record HeaderInfoBuilder : Type := mkHeaderInfoBuilder {
  hashValueBuilder : HashValueBuilder;
  hib_fileId : FileID;
}.

(** The vector, its last element first. *)
Abbreviation IndexerPreprocessorStack := (list (option HeaderInfoBuilder)) (only parsing).

Definition isTopValid (this : IndexerPreprocessorStack) : result bool :=
  ENFORCE (negb (bool_decide (this = []))) "!this->empty()" ;;
  match this with
  | back :: _ => Ok (bool_decide (is_Some back))
  | [] => Err OutOfRange
  end.

(** [ENFORCE(e)] for an expression that can fail itself; release builds do not
    evaluate it. *)
Definition ENFORCE_result (e : result bool) (what : string) : result unit :=
  if debugMode then b ← e; ENFORCE b what else Ok ().

Definition topHash (this : IndexerPreprocessorStack) : result HashValueBuilder :=
  ENFORCE_result (isTopValid this) "this->isTopValid()" ;;
  match this with
  | Some back :: _ => Ok (hashValueBuilder back)
  | None :: _ => Err BadOptionalAccess
  | [] => Err OutOfRange
  end.

(** Assignment through the reference that [topHash] returns. *)
Definition set_topHash (this : IndexerPreprocessorStack) (h : HashValueBuilder)
    : IndexerPreprocessorStack :=
  match this with
  | Some back :: rest => Some (mkHeaderInfoBuilder h (hib_fileId back)) :: rest
  | _ => this
  end.

Definition popInvalid (this : IndexerPreprocessorStack) : result IndexerPreprocessorStack :=
  ENFORCE_result (negb <$> isTopValid this) "!this->isTopValid()" ;;
  Ok (match this with [] => [] | _ :: rest => rest end).

Definition tryPopValid (this : IndexerPreprocessorStack)
    : result (option HeaderInfoBuilder * IndexerPreprocessorStack) :=
  match this with
  | [] => Ok (None, [])
  | back :: rest =>
      ENFORCE_result (isTopValid this) "this->isTopValid()" ;;
      Ok (back, rest)
  end.

Definition pushInvalid (this : IndexerPreprocessorStack) : IndexerPreprocessorStack := None :: this.
Definition pushValid (this : IndexerPreprocessorStack) (info : HeaderInfoBuilder)
    : IndexerPreprocessorStack := Some info :: this.
End Stack.

(** ** [IndexerPreprocessorWrapper] *)

(** [yamlStream] is an output stream: it is part of the wrapper's state. *)
Record PreprocessorHistoryRecorder : Type := mkRecorder {
  rec_filter : HeaderFilter;
  normalizePath : str -> str;
}.
Record IndexerPreprocessorOptions : Type := mkPreprocessorOptions {
  ppo_projectRootPath : RootPath;
  ppo_recorder : option PreprocessorHistoryRecorder;
  ppo_deterministic : bool;
}.
Record PreprocessorHistory : Type := mkPreprocessorHistory {
  ph_path : str;
  ph_history : list HistoryEntry;
  finalHashValue : Z;
}.

Inductive FileChangeReason : Type := EnterFile | ExitFile | SystemHeaderPragma | RenameFile.

Section Wrapper.
Context `{BuildMode, WyHash, LlvmPath, Cleaner.LlvmRegex, ClangFileID}.
Context `{!ClangSourceManager, !ClangMacros}.
Context `{HashIteration}.

Record IndexerPreprocessorWrapper : Type := mkWrapper {
  ppw_options : IndexerPreprocessorOptions;
  ppw_stack : list (option HeaderInfoBuilder);
  finishedProcessing : gmap FileID HashValue;
  macroIndexer : MacroIndexer;
  yamlStream : list PreprocessorHistory;
}.
Definition IndexerPreprocessorWrapper_new (options : IndexerPreprocessorOptions)
    : IndexerPreprocessorWrapper :=
  mkWrapper options [] ∅ MacroIndexer_new [].

Definition set_stack (this : IndexerPreprocessorWrapper) s :=
  mkWrapper (ppw_options this) s (finishedProcessing this) (macroIndexer this) (yamlStream this).
Definition set_finishedProcessing (this : IndexerPreprocessorWrapper) f :=
  mkWrapper (ppw_options this) (ppw_stack this) f (macroIndexer this) (yamlStream this).
Definition set_macroIndexer (this : IndexerPreprocessorWrapper) m :=
  mkWrapper (ppw_options this) (ppw_stack this) (finishedProcessing this) m (yamlStream this).
Definition set_yamlStream (this : IndexerPreprocessorWrapper) y :=
  mkWrapper (ppw_options this) (ppw_stack this) (finishedProcessing this) (macroIndexer this) y.

(** The macro evaluates [_path_expr] only when the history is recorded. *)
Definition MIX_INTO_HASH (stack : list (option HeaderInfoBuilder)) (value : Mixed)
    (path_expr : unit -> result str) (context_expr : str) : result (list (option HeaderInfoBuilder)) :=
  valid ← isTopValid stack;
  if valid then
    hash ← topHash stack;
    if isRecordingHistory hash then
      path ← path_expr ();
      hash ← mixWithContext hash value
               (mkHistoryEntry 0 0 (mixed_format value) context_expr path);
      Ok (set_topHash stack hash)
    else Ok (set_topHash stack (builder_mix hash value))
  else Ok stack.

Definition enterFileImpl (this : IndexerPreprocessorWrapper) (recordHistory : bool)
    (enteredFileId : FileID) : IndexerPreprocessorWrapper :=
  set_stack this (pushValid (ppw_stack this)
                    (mkHeaderInfoBuilder (HashValueBuilder_new recordHistory) enteredFileId)).

(** The path for which the history is recorded, if any. *)
Definition recorded_path (this : IndexerPreprocessorWrapper) (enteredFileId : FileID)
    : option (PreprocessorHistoryRecorder * str) :=
  match ppo_recorder (ppw_options this) with
  | Some recorder =>
      match getFileEntryForID enteredFileId with
      | Some enteredFileEntry =>
          let path := tryGetRealPathName enteredFileEntry in
          if negb (bool_decide (path = [])) && matches (rec_filter recorder) path
          then Some (recorder, path) else None
      | None => None
      end
  | None => None
  end.

Definition enterFile (this : IndexerPreprocessorWrapper) (sourceLoc : SourceLocation)
    : result IndexerPreprocessorWrapper :=
  if negb (loc_isValid sourceLoc) then Ok (set_stack this (pushInvalid (ppw_stack this)))
  else
    ENFORCE (loc_isFileID sourceLoc) "EnterFile called on a non-FileID" ;;
    let enteredFileId := getFileID sourceLoc in
    if negb (FileID_isValid enteredFileId) then
      Ok (set_stack this (pushInvalid (ppw_stack this)))
    else
      match recorded_path this enteredFileId with
      | Some (recorder, path) =>
          let this := enterFileImpl this true enteredFileId in
          stack ← MIX_INTO_HASH (ppw_stack this) (MixText (normalizePath recorder path))
                    (fun _ => Ok []) (lit "self path");
          Ok (set_stack this stack)
      | None => Ok (enterFileImpl this false enteredFileId)
      end.

Definition pathKeyForHistory (this : IndexerPreprocessorWrapper) (fileId : FileID) : result str :=
  ENFORCE (bool_decide (is_Some (ppo_recorder (ppw_options this)))) "this->options.recorder" ;;
  recorder ← optional_value (ppo_recorder (ppw_options this));
  Ok (normalizePath recorder (tryGetPath fileId)).

(** The end of [exitFileImpl], for the header that was popped. *)
Definition finish_header (this : IndexerPreprocessorWrapper) (fileInfo : HeaderInfoBuilder)
    : result (HashValue * IndexerPreprocessorWrapper) :=
  let '(hashValue, history) := finish (hashValueBuilder fileInfo) in
  let this :=
    if FileID_isValid (hib_fileId fileInfo) then
      match finishedProcessing this !! hib_fileId fileInfo with
      | None => set_finishedProcessing this
                  (<[hib_fileId fileInfo := hashValue]> (finishedProcessing this))
      | Some _ => this
      end
    else this in
  match history with
  | Some h =>
      ENFORCE (bool_decide (is_Some (ppo_recorder (ppw_options this))))
        "Recorded history even though output stream is missing" ;;
      path ← pathKeyForHistory this (hib_fileId fileInfo);
      Ok (hashValue,
          set_yamlStream this (yamlStream this ++ [mkPreprocessorHistory path h hashValue]))
  | None => Ok (hashValue, this)
  end.

Definition exitFileImpl (this : IndexerPreprocessorWrapper) (fileId : FileID)
    : result (option HashValue * IndexerPreprocessorWrapper) :=
  if negb (FileID_isValid fileId) then
    valid ← isTopValid (ppw_stack this);
    if valid then
      popped ← tryPopValid (ppw_stack this);
      ENFORCE (bool_decide (is_Some popped.1)) "popped.has_value()" ;;
      Ok (None, set_stack this popped.2)
    else
      stack ← popInvalid (ppw_stack this);
      Ok (None, set_stack this stack)
  else
    optHeaderInfo ← tryPopValid (ppw_stack this);
    let this := set_stack this optHeaderInfo.2 in
    ENFORCE (bool_decide (is_Some optHeaderInfo.1)) "missing matching enterInclude for exit" ;;
    fileInfo ← optional_value optHeaderInfo.1;
    ENFORCE (bool_decide (hib_fileId fileInfo = fileId)) "fileId mismatch" ;;
    '(hashValue, this) ← finish_header this fileInfo;
    Ok (Some hashValue, this).

Definition exitFile (this : IndexerPreprocessorWrapper) (previousFileId : FileID)
    : result IndexerPreprocessorWrapper :=
  '(optHash, this) ← exitFileImpl this previousFileId;
  match optHash with
  | None => Ok this
  | Some hash =>
      if bool_decide (ppw_stack this = []) then Ok this
      else
        stack ← MIX_INTO_HASH (ppw_stack this) (MixInt hash)
                  (fun _ => pathKeyForHistory this previousFileId) (lit "hash for #include");
        Ok (set_stack this stack)
  end.

(** *** The overrides of [PPCallbacks] *)
Definition FileChanged (this : IndexerPreprocessorWrapper) (sourceLoc : SourceLocation)
    (reason : FileChangeReason) (previousFileId : FileID) : result IndexerPreprocessorWrapper :=
  match reason with
  | SystemHeaderPragma | RenameFile => Ok this
  | ExitFile => exitFile this previousFileId
  | EnterFile => enterFile this sourceLoc
  end.

(** [macroDirective] is a pointer; its [getMacroInfo()]. *)
Definition MacroDefined (this : IndexerPreprocessorWrapper) (macroNameToken : Token)
    (macroDirective : option (option MacroInfo)) : result IndexerPreprocessorWrapper :=
  ENFORCE (bool_decide (is_Some macroDirective)) "macroDirective != nullptr" ;;
  macroInfo ← optional_value macroDirective;
  m ← macro_saveDefinition (macroIndexer this) macroNameToken macroInfo;
  Ok (set_macroIndexer this m).

(** [MacroUndefined], [MacroExpands], [Ifdef], [Ifndef], [Defined], [Elifdef] and
    [Elifndef] all save a reference. *)
Definition MacroReferenced (this : IndexerPreprocessorWrapper) (macroNameToken : Token)
    (macroDefinition : MacroDefinition) : result IndexerPreprocessorWrapper :=
  m ← macro_saveReference (macroIndexer this) macroNameToken macroDefinition;
  Ok (set_macroIndexer this m).

(** [CharSourceRange::isInvalid]: one of the ends is invalid. *)
Definition range_isInvalid (r : SourceRange) : bool :=
  negb (loc_isValid (getBegin r)) || negb (loc_isValid (getEnd r)).

Definition InclusionDirective (this : IndexerPreprocessorWrapper) (fileNameRange : SourceRange)
    (optFileEntry : option FileEntry) : result IndexerPreprocessorWrapper :=
  match optFileEntry with
  | None => Ok this
  | Some fileEntry =>
      if range_isInvalid fileNameRange then Ok this
      else
        let fileId := getFileID (getBegin fileNameRange) in
        if negb (FileID_isValid fileId) then Ok this
        else
          let realPath := tryGetRealPathName fileEntry in
          optAbsPathRef ← tryFrom realPath;
          match optAbsPathRef with
          | Some absPathRef =>
              Ok (set_macroIndexer this
                    (macro_saveInclude (macroIndexer this) fileId fileNameRange absPathRef))
          | None => Ok this
          end
  end.

(** *** [flushState] *)

(** The lambda [getAbsPath]; the flag is [emittedEmptyPathWarning]. *)
Definition getAbsPath (emittedEmptyPathWarning : bool) (fileId : FileID)
    : result (option AbsolutePathRef * bool) :=
  ENFORCE (FileID_isValid fileId) "stored invalid FileID in map!" ;;
  match getFileEntryForID fileId with
  | None => Ok (None, emittedEmptyPathWarning)
  | Some entry =>
      let path := tryGetRealPathName entry in
      if bool_decide (path = []) && negb emittedEmptyPathWarning then Ok (None, true)
      else
        optAbsPath ← tryFrom path;
        Ok (optAbsPath, emittedEmptyPathWarning)
  end.

(** One round of the loop over [finishedProcessing]. *)
Definition collect_step (st : ClangIdLookupMap * bool) (entry : FileID * HashValue)
    : result (ClangIdLookupMap * bool) :=
  '(optPath, warned) ← getAbsPath st.2 entry.1;
  match optPath with
  | Some absPathRef => Ok (lookupMap_insert st.1 absPathRef entry.2 entry.1, warned)
  | None => Ok (st.1, warned)
  end.

Definition collect_finished (this : IndexerPreprocessorWrapper) (clangIdLookupMap : ClangIdLookupMap)
    : result ClangIdLookupMap :=
  fst <$> foldM collect_step (clangIdLookupMap, false) (iterate (finishedProcessing this)).

Definition classify_path (res : SemanticAnalysisJobResult) (absPathRef : AbsolutePathRef)
    (m : gmap HashValue FileID) : result SemanticAnalysisJobResult :=
  let path := AbsolutePath_ofRef absPathRef in
  if (size m =? 1)%nat then
    Ok (mkSemanticAnalysisJobResult
          (wellBehavedFiles res ++
             map (fun kv => mkPreprocessedFileInfo path kv.1) (iterate m))
          (illBehavedFiles res))
  else
    ENFORCE (1 <? size m)%nat "clangIdLookupMap stores non-empty maps" ;;
    let hashes := map fst (iterate m) in
    Ok (mkSemanticAnalysisJobResult (wellBehavedFiles res)
          (illBehavedFiles res ++ [mkPreprocessedFileInfoMulti path hashes])).

Definition flushState (this : IndexerPreprocessorWrapper) (res : SemanticAnalysisJobResult)
    (clangIdLookupMap : ClangIdLookupMap)
    : result (IndexerPreprocessorWrapper * SemanticAnalysisJobResult * ClangIdLookupMap * MacroIndexer) :=
  this ← exitFile this getMainFileID;
  let macroIndexerOutput := macroIndexer this in
  clangIdLookupMap ← collect_finished this clangIdLookupMap;
  res ← forEachPathAndHash clangIdLookupMap classify_path res;
  let res :=
    if ppo_deterministic (ppw_options this) then
      mkSemanticAnalysisJobResult (c_sort PreprocessedFileInfo_cmp (wellBehavedFiles res))
        (c_sort PreprocessedFileInfoMulti_cmp (illBehavedFiles res))
    else res in
  Ok (set_macroIndexer this MacroIndexer_new, res, clangIdLookupMap, macroIndexerOutput).
End Wrapper.
