(* ===== verification/IncludeTrees.v ===== *)
(** * What the preprocessor callbacks compute

    The callbacks see an include tree in the order of a depth-first walk.  The hash
    of a file is a function of the tree below it; semantic analysis reports exactly
    the pairs of path and hash in the tree, sorted into files that always expand in
    the same way and files that do not. *)
From S2P Require Import Prelude CppString Ordering Paths PackageMaps IdPaths Symbols ScipMessages.
From S2P Require Import CommandLine Ipc Clang Formatter MacroIndexer Preprocessor.

Section Trees.
Context `{BM : BuildMode, WH : WyHash, LP : LlvmPath, !LlvmPathLaws, RX : Cleaner.LlvmRegex}.
Context `{CF : ClangFileID} {SM : ClangSourceManager} {CM : ClangMacros}.
Context `{HI : HashIteration, !HashIterationLaws}.

(** A file that is entered at a location, and what it includes. *)
Inductive IncludeTree : Type := Include (loc : SourceLocation) (children : list IncludeTree).

Lemma IncludeTree_ind' (P : IncludeTree -> Prop) :
  (forall loc cs, (forall c, c ∈ cs -> P c) -> P (Include loc cs)) -> forall t, P t.
Proof.
  intros Hstep. fix IH 1. intros [loc cs]. apply Hstep.
  induction cs as [|c cs IHcs]; intros x Hx; [destruct (not_elem_of_nil x Hx)|].
  apply elem_of_cons in Hx as [->|Hx]; [apply IH|exact (IHcs x Hx)].
Qed.

Definition tree_loc (t : IncludeTree) : SourceLocation := let '(Include loc _) := t in loc.
Definition tree_file (t : IncludeTree) : FileID := getFileID (tree_loc t).
Definition tree_valid (t : IncludeTree) : bool :=
  loc_isValid (tree_loc t) && FileID_isValid (tree_file t).

Definition pp_event : Type := SourceLocation * FileChangeReason * FileID.
Definition pp_step (this : IndexerPreprocessorWrapper) (e : pp_event)
    : result IndexerPreprocessorWrapper := FileChanged this e.1.1 e.1.2 e.2.

(** The events of a file: it is entered, its includes are processed, it is left. *)
Fixpoint events (t : IncludeTree) : list pp_event :=
  match t with
  | Include loc cs =>
      (loc, EnterFile, getFileID loc) :: flat_map events cs ++ [(loc, ExitFile, getFileID loc)]
  end.

Section Options.
Variable options : IndexerPreprocessorOptions.

Definition recorded (f : FileID) : option (PreprocessorHistoryRecorder * str) :=
  recorded_path (IndexerPreprocessorWrapper_new options) f.

(** The hash of a file: its own path if its history is recorded, then the hashes of
    the files it includes. *)
Definition initial_hash (f : FileID) : Z :=
  match recorded f with
  | Some (recorder, path) => HashValue_mix 0 (normalizePath recorder path)
  | None => 0
  end.
Fixpoint tree_hash (t : IncludeTree) : Z :=
  match t with
  | Include loc cs =>
      foldl (fun h c => if tree_valid c then HashValue_mix h (uint64_bytes (tree_hash c)) else h)
        (initial_hash (getFileID loc)) cs
  end.

(** The files of a tree with their hashes, in the order in which they are left. *)
Fixpoint post_order (t : IncludeTree) : list (FileID * HashValue) :=
  match t with
  | Include loc cs =>
      flat_map post_order cs
      ++ (if tree_valid t then [(getFileID loc, tree_hash t)] else [])
  end.

Inductive tree_wf : IncludeTree -> Prop :=
| tree_wf_include loc cs :
    (loc_isValid loc = true -> loc_isFileID loc = true) ->
    (loc_isValid loc = false -> FileID_isValid (getFileID loc) = false) ->
    (forall c, c ∈ cs -> tree_wf c) -> tree_wf (Include loc cs).

Definition add_finished (m : gmap FileID HashValue) (l : list (FileID * HashValue)) :=
  foldl (fun m fh => match m !! fh.1 with None => <[fh.1 := fh.2]> m | Some _ => m end) m l.

(** ** The stack, without the histories *)
Definition entry_view (o : option HeaderInfoBuilder) : option (FileID * Z * bool) :=
  match o with
  | Some b => Some (hib_fileId b, runningHash (hashValueBuilder b),
                    isRecordingHistory (hashValueBuilder b))
  | None => None
  end.
Definition stack_view (s : list (option HeaderInfoBuilder)) := map entry_view s.

Definition mix_view (h : option Z) (s : list (option (FileID * Z * bool))) :=
  match h, s with
  | Some h, Some (f, h0, r) :: rest => Some (f, HashValue_mix h0 (uint64_bytes h), r) :: rest
  | _, _ => s
  end.
Definition root_hash (t : IncludeTree) : option Z :=
  if tree_valid t then Some (tree_hash t) else None.

(** What the walk relies on: the options, and that only files with a recorder record. *)
Definition wrapper_ok (this : IndexerPreprocessorWrapper) : Prop :=
  ppw_options this = options
  /\ forall f h, Some (f, h, true) ∈ stack_view (ppw_stack this) -> is_Some (ppo_recorder options).

Definition agrees (this this' : IndexerPreprocessorWrapper) : Prop :=
  wrapper_ok this' /\ macroIndexer this' = macroIndexer this.

Lemma isTopValid_cons o s : isTopValid (o :: s) = Ok (bool_decide (is_Some o)).
Proof.
  unfold isTopValid. rewrite (bool_decide_false (o :: s = [])); [done|]. by rewrite ENFORCE_true.
Qed.

Lemma ENFORCE_result_Ok b what : b = true -> ENFORCE_result (Ok b) what = Ok ().
Proof. intros ->. unfold ENFORCE_result. destruct debugMode; [apply ENFORCE_true|done]. Qed.

Lemma MIX_INTO_HASH_view s v path_expr ctx :
  s <> [] ->
  (forall f h, head (stack_view s) = Some (Some (f, h, true)) -> exists p, path_expr () = Ok p) ->
  exists s', MIX_INTO_HASH s v path_expr ctx = Ok s'
    /\ stack_view s' = match stack_view s with
        | Some (f, h, r) :: rest => Some (f, HashValue_mix h (mixed_bytes v), r) :: rest
        | l => l
        end.
Proof.
  destruct s as [|[[[h hist] f]|] s]; [done| |]; intros _ Hp; unfold MIX_INTO_HASH;
    rewrite isTopValid_cons bind_Ok; simpl; [|by eexists].
  unfold topHash. rewrite isTopValid_cons ENFORCE_result_Ok //= .
  destruct hist as [hist|]; simpl.
  - destruct (Hp f h eq_refl) as [p ->]. rewrite bind_Ok. unfold mixWithContext. simpl.
    rewrite ENFORCE_true /=. by eexists.
  - by eexists.
Qed.

(** Entering a file pushes it with its initial hash. *)
Lemma enterFile_view this t :
  tree_wf t -> wrapper_ok this ->
  exists this', enterFile this (tree_loc t) = Ok this' /\ agrees this this'
    /\ finishedProcessing this' = finishedProcessing this
    /\ exists r, stack_view (ppw_stack this')
       = (if tree_valid t then Some (tree_file t, initial_hash (tree_file t), r) else None)
         :: stack_view (ppw_stack this).
Proof.
  intros [loc cs Hid Hinv _] [Hopt Hrec]. unfold enterFile, tree_valid, tree_file. simpl.
  destruct (loc_isValid loc) eqn:Hl; simpl.
  2: { exists (set_stack this (pushInvalid (ppw_stack this))). split_and!; [done| |done|by exists false].
    split; [|done]. split; [done|]. simpl. intros f h [?|?]%elem_of_cons; [done|by eapply Hrec]. }
  rewrite Hid // ENFORCE_true bind_Ok. destruct (FileID_isValid (getFileID loc)) eqn:Hf; simpl.
  2: { exists (set_stack this (pushInvalid (ppw_stack this))). split_and!; [done| |done|by exists false].
    split; [|done]. split; [done|]. simpl. intros f h [?|?]%elem_of_cons; [done|by eapply Hrec]. }
  assert (recorded_path this (getFileID loc) = recorded (getFileID loc)) as Er.
  { unfold recorded, recorded_path. simpl. by rewrite Hopt. }
  rewrite Er. unfold initial_hash. destruct (recorded (getFileID loc)) as [[recorder path]|] eqn:Erec.
  - destruct (MIX_INTO_HASH_view (ppw_stack (enterFileImpl this true (getFileID loc)))
      (MixText (normalizePath recorder path)) (fun _ => Ok []) (lit "self path"))
      as (s' & Hs & Hv); [done|by eexists|]. rewrite Hs bind_Ok.
    eexists. split; [done|]. split; [|split; [done|exists true; exact Hv]].
    split; [|done]. split; [done|]. simpl. rewrite Hv. simpl.
    intros f h [[= -> -> ]|?]%elem_of_cons; [|by eapply Hrec].
    unfold recorded, recorded_path in Erec. simpl in Erec. by destruct (ppo_recorder options).
  - eexists. split; [done|]. split; [|split; [done|by exists false]].
    split; [|done]. split; [done|]. simpl.
    intros f h [?|?]%elem_of_cons; [done|by eapply Hrec].
Qed.

Lemma tree_valid_file t : tree_wf t -> FileID_isValid (tree_file t) = tree_valid t.
Proof.
  intros [loc cs _ Hinv _]. unfold tree_valid, tree_file. simpl.
  destruct (loc_isValid loc) eqn:Hl; [done|]. simpl. by apply Hinv.
Qed.

(** Finishing a header keeps the first hash of its file id. *)
Lemma finish_header_ok this b :
  wrapper_ok this -> FileID_isValid (hib_fileId b) = true ->
  (isRecordingHistory (hashValueBuilder b) = true -> is_Some (ppo_recorder options)) ->
  exists this', finish_header this b = Ok (runningHash (hashValueBuilder b), this')
    /\ agrees this this' /\ ppw_stack this' = ppw_stack this
    /\ finishedProcessing this'
       = add_finished (finishedProcessing this) [(hib_fileId b, runningHash (hashValueBuilder b))].
Proof.
  intros [Hopt Hrec] Hv Hb. unfold finish_header. rewrite Hv. destruct b as [[h hist] f]. simpl.
  set (this1 := match finishedProcessing this !! f with
    | Some _ => this | None => set_finishedProcessing this (<[f := h]> (finishedProcessing this)) end).
  assert (ppw_stack this1 = ppw_stack this /\ ppw_options this1 = options
    /\ macroIndexer this1 = macroIndexer this
    /\ finishedProcessing this1 = add_finished (finishedProcessing this) [(f, h)]) as (E1 & E2 & E3 & E4).
  { unfold this1. simpl. by destruct (finishedProcessing this !! f). }
  assert (wrapper_ok this1) as Hok1 by (split; [done|by rewrite E1]).
  destruct hist as [hist|]; [|by exists this1].
  destruct (Hb eq_refl) as [recorder Hro]. unfold pathKeyForHistory.
  rewrite E2 Hro !bool_decide_true // !ENFORCE_true /=. eexists. split; [done|].
  by split_and!.
Qed.

(** Mixing into the top of the stack, if it is a valid file. *)
Lemma mix_top_ok this h f :
  wrapper_ok this -> ppw_stack this <> [] ->
  exists s, MIX_INTO_HASH (ppw_stack this) (MixInt h) (fun _ => pathKeyForHistory this f)
      (lit "hash for #include") = Ok s
    /\ agrees this (set_stack this s)
    /\ stack_view s = mix_view (Some h) (stack_view (ppw_stack this)).
Proof.
  intros [Hopt Hrec] Hne.
  destruct (MIX_INTO_HASH_view (ppw_stack this) (MixInt h) (fun _ => pathKeyForHistory this f)
    (lit "hash for #include") Hne) as (s & Hs & Hview).
  { intros f' h' Hhd. destruct (Hrec f' h') as [recorder Hro].
    { destruct (stack_view (ppw_stack this)); [done|]. injection Hhd as ->. by left. }
    unfold pathKeyForHistory. rewrite Hopt Hro bool_decide_true // ENFORCE_true /=. by eexists. }
  assert (stack_view s = mix_view (Some h) (stack_view (ppw_stack this))) as Hview'.
  { rewrite Hview. by destruct (stack_view (ppw_stack this)) as [|[[[]]|]]. }
  exists s. split_and!; [done| |done]. split; [|done]. split; [done|]. simpl. rewrite Hview'.
  intros f' h'. destruct (stack_view (ppw_stack this)) as [|[[[f1 h1] r1]|] rest] eqn:E; [by intros ?%elem_of_nil| |apply Hrec].
  intros [[= -> -> <-]|Hin]%elem_of_cons; [by apply (Hrec f1 h1); left|].
  apply (Hrec f' h'). by right.
Qed.

Lemma wrapper_ok_pop this o s :
  wrapper_ok this -> ppw_stack this = o :: s -> wrapper_ok (set_stack this s).
Proof.
  intros [Hopt Hrec] Hs. split; [done|]. simpl. intros f h Hin. apply (Hrec f h).
  rewrite Hs. by right.
Qed.

(** Leaving a file pops it, and mixes its hash into the including file. *)
Lemma exitFile_view this t h r rest :
  tree_wf t -> wrapper_ok this ->
  stack_view (ppw_stack this)
    = (if tree_valid t then Some (tree_file t, h, r) else None) :: rest ->
  exists this', exitFile this (tree_file t) = Ok this' /\ agrees this this'
    /\ finishedProcessing this'
       = add_finished (finishedProcessing this) (if tree_valid t then [(tree_file t, h)] else [])
    /\ stack_view (ppw_stack this') = mix_view (if tree_valid t then Some h else None) rest.
Proof.
  intros Hwf Hok Hs. pose proof (tree_valid_file t Hwf) as Hv.
  destruct (ppw_stack this) as [|top stack] eqn:Est; [done|]. simpl in Hs. injection Hs as Htop Hst.
  pose proof (wrapper_ok_pop _ _ _ Hok Est) as Hok1.
  unfold exitFile, exitFileImpl. rewrite Hv Est. destruct (tree_valid t) eqn:Et; cbn [negb].
  - destruct top as [b|]; [|done]. injection Htop as Hf Hh Hr.
    destruct (finish_header_ok (set_stack this stack) b Hok1) as (this2 & H2 & [Hok2 Hm2] & Hs2 & Hf2).
    { by rewrite Hf Hv. }
    { intros Hrec. apply (proj2 Hok (tree_file t) h). rewrite Est. apply elem_of_cons. left.
      simpl. by rewrite Hf Hh Hrec. }
    unfold tryPopValid. rewrite isTopValid_cons ENFORCE_result_Ok // !bind_Ok. cbn [fst snd].
    rewrite (bool_decide_true (is_Some (Some b))); [done|]. rewrite ENFORCE_true bind_Ok.
    rewrite bool_decide_true // ENFORCE_true bind_Ok H2 bind_Ok.
    rewrite Hf Hh in Hf2. rewrite bind_Ok Hs2 Hh. simpl. destruct stack as [|o stack].
    + exists this2. rewrite Hs2. subst rest. by split_and!.
    + rewrite bool_decide_false; [done|].
      destruct (mix_top_ok this2 h (tree_file t) Hok2) as (s & Hmix & [Hok3 _] & Hview); [by rewrite Hs2|].
      rewrite Hs2 in Hmix, Hview. simpl in Hmix, Hview. rewrite Hmix bind_Ok.
      eexists. split; [done|]. subst rest. by split_and!.
  - destruct top as [top|]; [done|]. rewrite isTopValid_cons. cbn.
    unfold popInvalid. rewrite isTopValid_cons /= ENFORCE_result_Ok //=.
    eexists. split; [done|]. split_and!; [done..|]. simpl. subst rest.
    by destruct (stack_view stack) as [|[[[]]|]].
Qed.

(** ** The walk *)
Definition walks (t : IncludeTree) : Prop := forall this, tree_wf t -> wrapper_ok this ->
  exists this', foldM pp_step this (events t) = Ok this' /\ agrees this this'
    /\ finishedProcessing this' = add_finished (finishedProcessing this) (post_order t)
    /\ stack_view (ppw_stack this') = mix_view (root_hash t) (stack_view (ppw_stack this)).

Lemma add_finished_app m l1 l2 : add_finished m (l1 ++ l2) = add_finished (add_finished m l1) l2.
Proof. unfold add_finished. by rewrite foldl_app. Qed.

Lemma walk_children cs : (forall c, c ∈ cs -> walks c) -> (forall c, c ∈ cs -> tree_wf c) ->
  forall this, wrapper_ok this ->
  exists this', foldM pp_step this (flat_map events cs) = Ok this' /\ agrees this this'
    /\ finishedProcessing this' = add_finished (finishedProcessing this) (flat_map post_order cs)
    /\ stack_view (ppw_stack this')
       = foldl (fun v c => mix_view (root_hash c) v) (stack_view (ppw_stack this)) cs.
Proof.
  induction cs as [|c cs IH]; intros Hc Hwf this Hok; [by exists this|].
  destruct (Hc c ltac:(left) this (Hwf c ltac:(left)) Hok) as (t1 & H1 & [Hok1 Hm1] & Hf1 & Hs1).
  destruct (IH (fun c' H' => Hc c' ltac:(by right)) (fun c' H' => Hwf c' ltac:(by right)) t1 Hok1)
    as (t2 & H2 & [Hok2 Hm2] & Hf2 & Hs2).
  exists t2. simpl. rewrite foldM_app H1 bind_Ok add_finished_app.
  split; [done|]. split; [by split; [|congruence]|]. split; [by rewrite Hf2 Hf1|by rewrite Hs2 Hs1].
Qed.

Lemma mix_views_valid cs f h r rest :
  foldl (fun v c => mix_view (root_hash c) v) (Some (f, h, r) :: rest) cs
  = Some (f, foldl (fun h c => if tree_valid c then HashValue_mix h (uint64_bytes (tree_hash c)) else h)
               h cs, r) :: rest.
Proof.
  revert h. induction cs as [|c cs IH]; intros h; [done|]. simpl. unfold root_hash at 2.
  by destruct (tree_valid c); rewrite IH.
Qed.
Lemma mix_views_invalid cs rest :
  foldl (fun v c => mix_view (root_hash c) v) (None :: rest) cs = None :: rest.
Proof.
  induction cs as [|c cs IH]; [done|]. simpl. unfold root_hash at 2. by destruct (tree_valid c).
Qed.

(** Entering a file and processing its includes. *)
Lemma walk_open loc cs this :
  tree_wf (Include loc cs) -> (forall c, c ∈ cs -> walks c) -> wrapper_ok this ->
  exists this' r,
    foldM pp_step this ((loc, EnterFile, getFileID loc) :: flat_map events cs) = Ok this'
    /\ agrees this this'
    /\ finishedProcessing this' = add_finished (finishedProcessing this) (flat_map post_order cs)
    /\ stack_view (ppw_stack this')
       = (if tree_valid (Include loc cs)
          then Some (getFileID loc, tree_hash (Include loc cs), r) else None)
         :: stack_view (ppw_stack this).
Proof.
  intros Hwf Hcs Hok. assert (forall c, c ∈ cs -> tree_wf c) as Hwcs by by inversion Hwf.
  destruct (enterFile_view this _ Hwf Hok) as (t1 & H1 & [Hok1 Hm1] & Hf1 & r & Hs1).
  destruct (walk_children cs Hcs Hwcs t1 Hok1) as (t2 & H2 & [Hok2 Hm2] & Hf2 & Hs2).
  exists t2, r. cbn [foldM]. change (pp_step this (loc, EnterFile, getFileID loc))
    with (enterFile this loc). cbn [tree_loc] in *.
  rewrite H1 bind_Ok H2. split; [done|]. split; [by split; [|congruence]|].
  rewrite Hf2 Hf1. split; [done|]. rewrite Hs2 Hs1.
  destruct (tree_valid (Include loc cs)); [apply mix_views_valid|apply mix_views_invalid].
Qed.

Lemma walk_tree t : walks t.
Proof.
  induction t as [loc cs IH] using IncludeTree_ind'. intros this Hwf Hok.
  destruct (walk_open loc cs this Hwf IH Hok) as (t1 & r & H1 & [Hok1 Hm1] & Hf1 & Hs1).
  destruct (exitFile_view t1 _ _ r _ Hwf Hok1 Hs1) as (t2 & H2 & [Hok2 Hm2] & Hf2 & Hs2).
  exists t2. cbn [events]. rewrite app_comm_cons foldM_app H1 bind_Ok. cbn [foldM].
  change (pp_step t1 (loc, ExitFile, getFileID loc)) with (exitFile t1 (getFileID loc)).
  unfold tree_file in H2. cbn [tree_loc] in H2.
  rewrite H2 bind_Ok. split; [done|]. split; [by split; [|congruence]|].
  split; [|by rewrite Hs2]. rewrite Hf2 Hf1 -add_finished_app. cbn [post_order]. done.
Qed.
End Options.

(** ** Flushing *)

(** The absolute path of a file id, if it has one. *)
Definition file_path (f : FileID) : option AbsolutePathRef :=
  match getFileEntryForID f with
  | Some entry =>
      if is_absolute (tryGetRealPathName entry)
      then Some (mkAbsolutePathRef (tryGetRealPathName entry)) else None
  | None => None
  end.

Lemma getAbsPath_ok w f :
  FileID_isValid f = true -> exists w', getAbsPath w f = Ok (file_path f, w').
Proof.
  intros Hf. unfold getAbsPath, file_path. rewrite Hf ENFORCE_true bind_Ok.
  destruct (getFileEntryForID f) as [entry|]; [|by eexists].
  destruct (bool_decide (tryGetRealPathName entry = [])) eqn:E; simpl.
  - apply bool_decide_eq_true in E.
    assert (is_absolute (tryGetRealPathName entry) = false) as Ha.
    { rewrite E. destruct (is_absolute []) eqn:Ea; [|done].
      by apply is_absolute_posix in Ea as [q ?]. }
    destruct w; simpl; rewrite ?tryFrom_spec Ha; by eexists.
  - rewrite tryFrom_spec. by eexists.
Qed.

(** The entries of a lookup map as a relation. *)
Definition listed (m : ClangIdLookupMap) (p : AbsolutePathRef) (h : HashValue) : Prop :=
  exists f, lookupMap_lookup m p h = Some f.

Lemma listed_insert m p h f p' h' :
  listed (lookupMap_insert m p h f) p' h' <-> (p = p' /\ h = h') \/ listed m p' h'.
Proof.
  unfold listed. rewrite lookupMap_lookup_insert. case_bool_decide; [|naive_solver].
  split; [by left|]. intros _. by exists f.
Qed.

Lemma collect_step_ok m w f h :
  lookupMap_wf m -> FileID_isValid f = true ->
  exists w', collect_step (m, w) (f, h)
      = Ok (match file_path f with Some p => lookupMap_insert m p h f | None => m end, w')
    /\ lookupMap_wf (match file_path f with Some p => lookupMap_insert m p h f | None => m end).
Proof.
  intros Hwf Hf. destruct (getAbsPath_ok w f Hf) as [w' H1]. exists w'.
  unfold collect_step. cbn [fst snd]. rewrite H1 bind_Ok.
  destruct (file_path f); split; try done. by apply lookupMap_insert_wf.
Qed.

Lemma collect_loop l m w :
  lookupMap_wf m -> (forall f h, (f, h) ∈ l -> FileID_isValid f = true) ->
  exists m' w', foldM collect_step (m, w) l = Ok (m', w') /\ lookupMap_wf m'
    /\ (forall p h, listed m' p h <-> listed m p h \/ exists f, (f, h) ∈ l /\ file_path f = Some p)
    /\ (forall p h f, lookupMap_lookup m' p h = Some f ->
          lookupMap_lookup m p h = Some f \/ ((f, h) ∈ l /\ file_path f = Some p)).
Proof.
  revert m w. induction l as [|[f h] l IH]; intros m w Hwf Hv.
  { exists m, w. split_and!; [done..| |auto]. intros p h. setoid_rewrite elem_of_nil. naive_solver. }
  destruct (collect_step_ok m w f h Hwf) as (w1 & Hb & Hwf1); [apply (Hv f h); by left|].
  destruct (IH _ w1 Hwf1) as (m2 & w2 & H2 & Hwf2 & Hl2 & Hk2); [intros; eapply Hv; by right|].
  exists m2, w2. cbn [foldM]. rewrite Hb bind_Ok. split_and!; [done..| |].
  - intros p' h'. rewrite Hl2. setoid_rewrite elem_of_cons. destruct (file_path f) as [p|] eqn:Ep.
    + rewrite listed_insert. naive_solver.
    + naive_solver.
  - intros p' h' f' Hf'. destruct (Hk2 _ _ _ Hf') as [Hm|[Hin Hp]]; [|right; split; [by right|done]].
    destruct (file_path f) as [p|] eqn:Ep; [|by left].
    rewrite lookupMap_lookup_insert in Hm. case_bool_decide as Hc; [|by left].
    destruct Hc as [-> ->]. injection Hm as <-. right. split; [by left|done].
Qed.

Lemma collect_finished_ok this :
  (forall f h, finishedProcessing this !! f = Some h -> FileID_isValid f = true) ->
  exists m, collect_finished this ∅ = Ok m /\ lookupMap_wf m
    /\ (forall p h, listed m p h <->
          exists f, finishedProcessing this !! f = Some h /\ file_path f = Some p)
    /\ (forall p h f, lookupMap_lookup m p h = Some f ->
          finishedProcessing this !! f = Some h /\ file_path f = Some p).
Proof.
  intros Hv. unfold collect_finished.
  destruct (collect_loop (iterate (finishedProcessing this)) ∅ false) as (m & w & -> & Hwf & Hlist & Hlook).
  { intros k v. by rewrite lookup_empty. }
  { intros f h. rewrite iterate_elem_of. apply Hv. }
  assert (forall p h, lookupMap_lookup ∅ p h = None) as Hempty.
  { intros p h. unfold lookupMap_lookup. by rewrite lookup_empty. }
  exists m. split_and!; [done..| |].
  - intros p h. rewrite Hlist. split.
    + intros [[f Hf]|(f & Hf & Hp)]; [by rewrite Hempty in Hf|]. exists f.
      by rewrite iterate_elem_of in Hf.
    + intros (f & Hf & Hp). right. exists f. by rewrite iterate_elem_of.
  - intros p h f Hf. destruct (Hlook _ _ _ Hf) as [Hm|[Hin Hp]]; [by rewrite Hempty in Hm|].
    by rewrite iterate_elem_of in Hin.
Qed.

(** What [classify_path] adds for one path. *)
Definition well_of (kv : AbsolutePathRef * gmap HashValue FileID) : list PreprocessedFileInfo :=
  if (size kv.2 =? 1)%nat
  then map (fun hf => mkPreprocessedFileInfo (AbsolutePath_ofRef kv.1) hf.1) (iterate kv.2) else [].
Definition ill_of (kv : AbsolutePathRef * gmap HashValue FileID) : list PreprocessedFileInfoMulti :=
  if (size kv.2 =? 1)%nat then []
  else [mkPreprocessedFileInfoMulti (AbsolutePath_ofRef kv.1) (map fst (iterate kv.2))].

Lemma classify_path_ok res p hs :
  hs <> ∅ ->
  classify_path res p hs
  = Ok (mkSemanticAnalysisJobResult (wellBehavedFiles res ++ well_of (p, hs))
          (illBehavedFiles res ++ ill_of (p, hs))).
Proof.
  intros Hhs. unfold classify_path, well_of, ill_of. cbn [fst snd].
  destruct (size hs =? 1)%nat eqn:Es; [by rewrite app_nil_r|].
  apply Nat.eqb_neq in Es. assert (1 <? size hs = true)%nat as ->.
  { apply Nat.ltb_lt. rewrite -map_size_non_empty_iff in Hhs. lia. }
  by rewrite ENFORCE_true bind_Ok app_nil_r.
Qed.

Lemma classify_all m res :
  lookupMap_wf m ->
  forEachPathAndHash m classify_path res
  = Ok (mkSemanticAnalysisJobResult (wellBehavedFiles res ++ flat_map well_of (iterate m))
          (illBehavedFiles res ++ flat_map ill_of (iterate m))).
Proof.
  intros Hwf. unfold forEachPathAndHash.
  assert (forall kv, kv ∈ iterate m -> kv.2 <> ∅) as Hne.
  { intros [k v] Hin%iterate_elem_of. by eapply Hwf. }
  revert res. induction (iterate m) as [|[p hs] l IH]; intros res.
  { cbn. rewrite !app_nil_r. by destruct res. }
  pose proof (Hne (p, hs) ltac:(left)) as Hhs. cbn [foldM snd fst] in *.
  rewrite bool_decide_false // ENFORCE_true bind_Ok classify_path_ok // bind_Ok.
  rewrite IH; [by intros; apply Hne; right|]. cbn. by rewrite -!app_assoc.
Qed.

(** ** Whole translation units *)

(** The pairs of path and hash that occur in a tree. *)
Definition seen (options : IndexerPreprocessorOptions) (t : IncludeTree)
    (p : AbsolutePathRef) (h : HashValue) : Prop :=
  exists f, (f, h) ∈ post_order options t /\ file_path f = Some p.

(** Clang gives every inclusion a file id of its own. *)
Definition distinct_files (options : IndexerPreprocessorOptions) (t : IncludeTree) : Prop :=
  NoDup (post_order options t).*1.

Lemma add_finished_lookup l m f h :
  NoDup l.*1 -> (forall f h, (f, h) ∈ l -> m !! f = None) ->
  add_finished m l !! f = Some h <-> m !! f = Some h \/ (f, h) ∈ l.
Proof.
  revert m. induction l as [|[f0 h0] l IH]; intros m Hnd Hm; simpl.
  { rewrite elem_of_nil. tauto. }
  apply NoDup_cons in Hnd as [Hni Hnd]. rewrite (Hm f0 h0); [by left|].
  rewrite IH; [done| |].
  - intros f1 h1 Hin. rewrite lookup_insert_ne; [|by apply (Hm f1 h1); right].
    intros ->. apply Hni, list_elem_of_fmap. by exists (f1, h1).
  - rewrite lookup_insert_Some elem_of_cons. split; [naive_solver|].
    intros [Hf|[[= -> ->]|Hin]]; [|by left; left|by right]. left. right. split; [|done].
    intros ->. by rewrite (Hm f h0 ltac:(by left)) in Hf.
Qed.

Lemma elem_of_flat_map {A B} (f : A -> list B) l y :
  y ∈ flat_map f l <-> exists x, x ∈ l /\ y ∈ f x.
Proof.
  rewrite list_elem_of_In in_flat_map. by setoid_rewrite list_elem_of_In.
Qed.

Lemma post_order_valid options t f h :
  tree_wf t -> (f, h) ∈ post_order options t -> FileID_isValid f = true.
Proof.
  induction t as [loc cs IH] using IncludeTree_ind'. intros Hwf. cbn [post_order].
  rewrite elem_of_app. intros [Hin|Hin].
  - apply elem_of_flat_map in Hin as (c & Hc & Hin).
    apply (IH c Hc); [by inversion Hwf; auto|done].
  - destruct (tree_valid (Include loc cs)) eqn:Et; [|by apply elem_of_nil in Hin].
    apply list_elem_of_singleton in Hin as [= -> _].
    by rewrite -(tree_valid_file (Include loc cs) Hwf) in Et.
Qed.

(** One path of the lookup map: a single hash, or several. *)
Lemma size_one_iff (m : gmap HashValue FileID) h f :
  m !! h = Some f -> size m = 1%nat <-> forall h' f', m !! h' = Some f' -> h' = h.
Proof.
  intros Hh. split.
  - intros Hs h' f' Hf'. destruct (decide (h' = h)) as [->|Hne]; [done|].
    assert (size (delete h m) = 0)%nat as Hd by by rewrite map_size_delete Hh Hs.
    apply map_size_empty_inv in Hd.
    assert (delete h m !! h' = None) as Hn by by rewrite Hd lookup_empty.
    by rewrite lookup_delete_ne // Hf' in Hn.
  - intros Hall. assert (m = {[h := f]}) as ->; [|by rewrite map_size_singleton].
    apply map_eq. intros k. destruct (decide (k = h)) as [->|Hk].
    + by rewrite lookup_singleton_eq.
    + rewrite lookup_singleton_ne //. destruct (m !! k) eqn:E; [|done]. by apply Hall in E.
Qed.

Lemma listed_entry (m : ClangIdLookupMap) p h :
  listed m p h <-> exists hs f, m !! p = Some hs /\ hs !! h = Some f.
Proof.
  unfold listed, lookupMap_lookup. destruct (m !! p) as [hs|]; naive_solver.
Qed.

Lemma well_of_spec m p h :
  mkPreprocessedFileInfo (AbsolutePath_ofRef p) h ∈ flat_map well_of (iterate m)
  <-> listed m p h /\ forall h', listed m p h' -> h' = h.
Proof.
  rewrite elem_of_flat_map listed_entry. split.
  - intros ([p' hs] & Hp%iterate_elem_of & Hin). unfold well_of in Hin. cbn [fst snd] in Hin.
    destruct (Nat.eqb_spec (size hs) 1) as [Hs|]; [|by apply elem_of_nil in Hin].
    apply list_elem_of_fmap in Hin as ([h0 f] & [= Hpp ->] & Hf%iterate_elem_of).
    assert (p' = p) as -> by (destruct p, p'; simpl in *; congruence).
    split; [by exists hs, f|]. intros h' (hs' & f' & Hp' & Hf')%listed_entry.
    assert (Some hs' = Some hs) as [= ->] by by rewrite -Hp -Hp'.
    by eapply (proj1 (size_one_iff hs h0 f Hf)).
  - intros [(hs & f & Hp & Hf) Hall]. exists (p, hs). split; [by apply iterate_elem_of|].
    unfold well_of. cbn [fst snd]. rewrite (proj2 (size_one_iff hs h f Hf)).
    + intros h' f' Hf'. apply Hall, listed_entry. by exists hs, f'.
    + apply list_elem_of_fmap. exists (h, f). split; [done|by apply iterate_elem_of].
Qed.

Lemma ill_of_spec m p h :
  (exists hs, mkPreprocessedFileInfoMulti (AbsolutePath_ofRef p) hs ∈ flat_map ill_of (iterate m)
     /\ h ∈ hs)
  <-> listed m p h /\ exists h', listed m p h' /\ h' <> h.
Proof.
  split.
  - intros (l & ([p' hs] & Hp%iterate_elem_of & Hin)%elem_of_flat_map & Hh).
    unfold ill_of in Hin. cbn [fst snd] in Hin.
    destruct (Nat.eqb_spec (size hs) 1) as [|Hs]; [by apply elem_of_nil in Hin|].
    apply list_elem_of_singleton in Hin as [= Hpp ->].
    assert (p' = p) as -> by (destruct p, p'; simpl in *; congruence).
    apply list_elem_of_fmap in Hh as ([h0 f] & -> & Hf%iterate_elem_of). simpl.
    split; [apply listed_entry; by exists hs, f|].
    destruct (decide (map_Forall (fun h' _ => h' = h0) hs)) as [Hall|Hall].
    + destruct Hs. apply (size_one_iff hs h0 f Hf). intros h' f' Hf'. by apply (Hall h' f').
    + apply map_not_Forall in Hall as (h' & f' & Hf' & Hne); [|apply _].
      exists h'. split; [apply listed_entry; by exists hs, f'|done].
  - intros [(hs & f & Hp & Hf)%listed_entry (h' & (hs' & f' & Hp' & Hf')%listed_entry & Hne)].
    assert (Some hs' = Some hs) as [= ->] by by rewrite -Hp -Hp'. exists (map fst (iterate hs)). split.
    + apply elem_of_flat_map. exists (p, hs). split; [by apply iterate_elem_of|].
      unfold ill_of. cbn [fst snd]. destruct (Nat.eqb_spec (size hs) 1) as [Hs|]; [|by left].
      destruct Hne. by eapply (proj1 (size_one_iff hs h f Hf)).
    + apply list_elem_of_fmap. exists (h, f). split; [done|by apply iterate_elem_of].
Qed.

(** The pairs of a tree are the entries of the map that [flushState] builds. *)
Lemma listed_seen options t m finished :
  distinct_files options t ->
  finished = add_finished ∅ (post_order options t) ->
  (forall p h, listed m p h <-> exists f, finished !! f = Some h /\ file_path f = Some p) ->
  forall p h, listed m p h <-> seen options t p h.
Proof.
  intros Hnd -> Hlist p h. rewrite Hlist. unfold seen.
  split; intros (f & Hf & Hp); exists f; (split; [|exact Hp]); revert Hf;
    rewrite add_finished_lookup; [exact Hnd| |by intros [?%lookup_empty_Some|]|exact Hnd| |by right];
    intros; by rewrite lookup_empty.
Qed.

(** [flushState] leaves the main file and classifies what has been finished. *)
Lemma flushState_ok options loc cs w r :
  tree_wf (Include loc cs) -> tree_valid (Include loc cs) = true ->
  getFileID loc = getMainFileID -> distinct_files options (Include loc cs) ->
  wrapper_ok options w ->
  stack_view (ppw_stack w) = [Some (getFileID loc, tree_hash options (Include loc cs), r)] ->
  finishedProcessing w = add_finished ∅ (flat_map (post_order options) cs) ->
  exists w' res m, flushState w (mkSemanticAnalysisJobResult [] []) ∅ = Ok (w', res, m, macroIndexer w)
    /\ stack_view (ppw_stack w') = []
    /\ (forall p h, listed m p h <-> seen options (Include loc cs) p h)
    /\ (forall p h f, lookupMap_lookup m p h = Some f ->
          (f, h) ∈ post_order options (Include loc cs) /\ file_path f = Some p)
    /\ (forall i, i ∈ wellBehavedFiles res <-> i ∈ flat_map well_of (iterate m))
    /\ (forall i, i ∈ illBehavedFiles res <-> i ∈ flat_map ill_of (iterate m)).
Proof.
  intros Hwf Hv Hmain Hnd Hok Hs Hf.
  destruct (exitFile_view options w (Include loc cs) (tree_hash options (Include loc cs)) r [] Hwf Hok)
    as (w1 & H1 & [Hok1 Hm1] & Hf1 & Hs1); [by rewrite Hv|]. rewrite Hv in Hf1.
  assert (finishedProcessing w1 = add_finished ∅ (post_order options (Include loc cs))) as Hfin.
  { rewrite Hf1 Hf -add_finished_app. cbn [post_order]. by rewrite Hv. }
  assert (forall f h, finishedProcessing w1 !! f = Some h <-> (f, h) ∈ post_order options (Include loc cs))
    as Hlook.
  { intros f h. rewrite Hfin add_finished_lookup; [exact Hnd|by intros; rewrite lookup_empty|].
    rewrite lookup_empty. naive_solver. }
  destruct (collect_finished_ok w1) as (m & H2 & Hmwf & Hlist & Hmlook).
  { intros f h Hin%Hlook. by eapply post_order_valid. }
  unfold tree_file in H1. cbn [tree_loc] in H1. rewrite Hmain in H1.
  unfold flushState. rewrite H1 bind_Ok H2 bind_Ok classify_all // bind_Ok Hm1. simpl.
  do 3 eexists. split; [done|]. cbn [ppw_stack set_macroIndexer]. split; [by rewrite Hs1 Hv|].
  split; [by eapply listed_seen|]. split.
  { intros p h f Hin%Hmlook. by rewrite Hlook in Hin. }
  destruct (ppo_deterministic (ppw_options w1)); simpl; [|done].
  split; intros i; apply c_sort_elem_of.
Qed.

(** C9. What semantic analysis reports.  When Clang walks the include tree of a
    translation unit whose main file is at the root, the callbacks and [flushState]
    run without failing, the stack is empty in the end, and with the hash of a file
    being a function of the tree below it: a file is reported as well-behaved with
    a hash exactly if all its inclusions have that hash, it is reported as
    ill-behaved with exactly its hashes if they differ, and the map for the second
    phase gives for each of the pairs an inclusion of that path with that hash. *)
Theorem semantic_analysis_reports_tree options loc cs :
  tree_wf (Include loc cs) -> tree_valid (Include loc cs) = true ->
  getFileID loc = getMainFileID -> distinct_files options (Include loc cs) ->
  exists w w' res m,
    foldM pp_step (IndexerPreprocessorWrapper_new options)
      ((loc, EnterFile, getFileID loc) :: flat_map events cs) = Ok w
    /\ flushState w (mkSemanticAnalysisJobResult [] []) ∅ = Ok (w', res, m, macroIndexer w)
    /\ ppw_stack w' = []
    /\ (forall p h, mkPreprocessedFileInfo (AbsolutePath_ofRef p) h ∈ wellBehavedFiles res
          <-> seen options (Include loc cs) p h
              /\ forall h', seen options (Include loc cs) p h' -> h' = h)
    /\ (forall p h, (exists hs, mkPreprocessedFileInfoMulti (AbsolutePath_ofRef p) hs ∈ illBehavedFiles res
                       /\ h ∈ hs)
          <-> seen options (Include loc cs) p h
              /\ exists h', seen options (Include loc cs) p h' /\ h' <> h)
    /\ (forall p h, seen options (Include loc cs) p h ->
          exists f, lookupMap_lookup m p h = Some f
            /\ (f, h) ∈ post_order options (Include loc cs) /\ file_path f = Some p).
Proof.
  intros Hwf Hv Hmain Hnd.
  destruct (walk_open options loc cs (IndexerPreprocessorWrapper_new options) Hwf)
    as (w & r & Hw & [Hok _] & Hf & Hs).
  { intros c _. apply walk_tree. }
  { split; [done|]. intros f h Hin. by apply elem_of_nil in Hin. }
  rewrite Hv in Hs.
  destruct (flushState_ok options loc cs w r Hwf Hv Hmain Hnd Hok Hs Hf)
    as (w' & res & m & Hfl & Hst & Hlist & Hlook & Hwell & Hill).
  exists w, w', res, m. split_and!; [done..| | | |].
  - by destruct (ppw_stack w').
  - intros p h. rewrite Hwell well_of_spec Hlist. by setoid_rewrite Hlist.
  - intros p h. setoid_rewrite Hill. rewrite ill_of_spec Hlist. by setoid_rewrite Hlist.
  - intros p h Hseen. apply Hlist in Hseen as [f Hfm]. exists f. split; [done|]. by apply Hlook.
Qed.
End Trees.

(** ** A translation unit whose header expands in two ways *)
Definition demo_wyhash : WyHash := fun key seed =>
  foldl (fun h c => (h * 31 + Z.of_N (N_of_ascii c) + 7) mod 2 ^ 64) seed key.
Definition demo_filter : HeaderFilter := mkHeaderFilter (lit "b.h") (Some (lit "b.h")).
Definition demo_match : Cleaner.LlvmRegex := fun p s => ends_with p s.
Definition demo_pp_options : IndexerPreprocessorOptions :=
  mkPreprocessorOptions demo_root (Some (mkRecorder demo_filter id)) true.

(** a.cc includes b.h, which includes c.h, and then b.h again, which does not. *)
Definition demo_include_tree : @IncludeTree demo_files demo_sm :=
  @Include demo_files demo_sm 10101
    [@Include demo_files demo_sm 20101 [@Include demo_files demo_sm 40101 []];
     @Include demo_files demo_sm 30101 []].
Definition demo_includes : list (@IncludeTree demo_files demo_sm) :=
  let '(Include _ cs) := demo_include_tree in cs.


Ltac demo_tree_wf :=
  constructor; [intros H; first [reflexivity|discriminate H]..|];
  let c := fresh in let Hc := fresh in intros c Hc;
  repeat (apply elem_of_cons in Hc as [->|Hc]; [demo_tree_wf|]); by apply elem_of_nil in Hc.

(** The hash of b.h where it includes c.h. *)
Definition demo_header_hash : Z :=
  @tree_hash demo_wyhash demo_match demo_files demo_sm demo_macros demo_pp_options
    (@Include demo_files demo_sm 20101 [@Include demo_files demo_sm 40101 []]).

Lemma semantic_analysis_reports_tree_witness :
  exists w w' res m hs,
    foldM (@pp_step true demo_wyhash demo_match demo_files demo_sm demo_macros)
      (@IndexerPreprocessorWrapper_new demo_files demo_sm demo_macros demo_pp_options)
      ((10101, EnterFile, 1%N : @FileID demo_files)
         :: flat_map (@events demo_files demo_sm) demo_includes) = Ok w
    /\ @flushState true demo_wyhash posix_path demo_files demo_sm demo_macros tree_iteration
         w (mkSemanticAnalysisJobResult [] []) ∅ = Ok (w', res, m, macroIndexer w)
    /\ mkPreprocessedFileInfoMulti (mkAbsolutePath (lit "/p/b.h")) hs ∈ illBehavedFiles res
    /\ demo_header_hash ∈ hs.
Proof.
  destruct (@semantic_analysis_reports_tree true demo_wyhash posix_path posix_path_laws demo_match
    demo_files demo_sm demo_macros tree_iteration tree_iteration_laws demo_pp_options
    10101 demo_includes) as (w & w' & res & m & H1 & H2 & _ & _ & Hill & _).
  - demo_tree_wf.
  - reflexivity.
  - reflexivity.
  - apply (bool_decide_unpack _). vm_compute. exact I.
  - destruct (proj2 (Hill (mkAbsolutePathRef (lit "/p/b.h")) demo_header_hash)) as (hs & Hin & Hh).
    + split; [|eexists; split].
      * exists (2%N : @FileID demo_files). split; [apply list_elem_of_In; vm_compute; tauto|reflexivity].
      * exists (3%N : @FileID demo_files). split; [|reflexivity].
        apply list_elem_of_In. vm_compute. right. right. left. reflexivity.
      * vm_compute. discriminate.
    + exists w, w', res, m, hs. split; [exact H1|]. split; [exact H2|]. split; [exact Hin|exact Hh].
Defined.
