(* ===== verification/TuAst.v ===== *)
(** * The AST nodes that the indexer visits

    What Indexer.cc and ApproximateNameResolver.cc ask Clang about types, comments,
    expressions and type locations: the class [ClangTuAst], and records with what
    the accessors of a node return.  [AstEvent] is a call of a [Visit*] or
    [Traverse*] method of the AST visitor. *)
From S2P Require Import Prelude CppString Paths PackageMaps IdPaths Clang Formatter.

Inductive TemplateSpecializationKind : Type :=
| TSK_Undeclared | TSK_ImplicitInstantiation | TSK_ExplicitSpecialization
| TSK_ExplicitInstantiationDeclaration | TSK_ExplicitInstantiationDefinition.

(** [clang::TemplateName::NameKind]. *)
Inductive TemplateNameKind : Type :=
| TN_Template | TN_UsingTemplate | TN_OverloadedTemplate | TN_AssumedTemplate | TN_QualifiedTemplate
| TN_DeducedTemplate | TN_DependentTemplate | TN_SubstTemplateTemplateParm
| TN_SubstTemplateTemplateParmPack.

Class ClangTuAst `{ClangAst} : Type := {
  (** pointers to types, and [clang::QualType] *)
  CType : Type;
  CType_eq_dec :: EqDecision CType;
  CType_countable :: Countable CType;
  QualType : Type;
  getTypePtrOrNull : QualType -> option CType;
  getCanonicalType : QualType -> QualType;
  getCanonicalTypeInternal : CType -> QualType;
  isPointerType : CType -> bool;
  isReferenceType : CType -> bool;
  getPointeeType : CType -> QualType;
  TemplateName : Type;
  (** the casts: [dyn_cast] to the class itself, [getAs] looks through sugar; what is
      returned is the declaration ([getDecl()]) or the template name *)
  dyn_cast_TypedefType : CType -> option Decl;
  getAsTagDecl : CType -> option Decl;
  dyn_cast_TemplateSpecializationType : CType -> option TemplateName;
  getAs_RecordType : CType -> option Decl;
  getAs_TemplateSpecializationType : CType -> option TemplateName;
  (** [getInjectedSpecializationType()] *)
  getAs_InjectedClassNameType : CType -> option QualType;
  (** members of [TemplateName] *)
  getAsTemplateDecl : TemplateName -> option Decl;
  getAsQualifiedTemplateName : TemplateName -> option TemplateName;
  getAsDeducedTemplateName : TemplateName -> option TemplateName;
  tn_getKind : TemplateName -> TemplateNameKind;
  getAsUsingShadowDecl : TemplateName -> option Decl;
  (** [TemplateDecl::getTemplatedDecl], null for a template template parameter *)
  template_getTemplatedDecl : Decl -> option Decl;
  (** members of declarations *)
  decl_getBeginLoc : Decl -> SourceLocation;
  isThisDeclarationADefinition : Decl -> bool;
  isPureVirtual : Decl -> bool;
  overridden_methods : Decl -> list Decl;
  isInlineNamespace : Decl -> bool;
  enumerators : Decl -> list Decl;
  hasDefinition : Decl -> bool;
  (** the types of the base specifiers *)
  bases : Decl -> list QualType;
  getSpecializationKind : Decl -> TemplateSpecializationKind;
  getIntroducer : Decl -> option Decl;
  getTargetDecl : Decl -> option Decl;
  shadows : Decl -> list Decl;
  isStaticDataMember : Decl -> bool;
  isFileVarDecl : Decl -> bool;
  isImplicit : Decl -> bool;
  (** [getQualifier()] of an [UnresolvedUsingValueDecl], followed by [getAsType()] *)
  getQualifier_getAsType : Decl -> option CType;
  (** names, as [getAsOpaqueInteger()] *)
  DeclarationName : Type;
  DeclarationName_eq_dec :: EqDecision DeclarationName;
  DeclarationName_countable :: Countable DeclarationName;
  isIdentifier : DeclarationName -> bool;
  (** [HeuristicResolver::lookupDependentName] *)
  lookupDependentName : Decl -> DeclarationName -> (Decl -> bool) -> list Decl;
  (** the location of the token that [Lexer::findNextToken] finds *)
  findNextToken : SourceLocation -> option SourceLocation;
  (** comments *)
  RawComment : Type;
  comment_getBeginLoc : RawComment -> SourceLocation;
  getFormattedText : RawComment -> str;
  getRawCommentForDeclNoCache : Decl -> option RawComment;
  getRawCommentForAnyRedecl : Decl -> option RawComment;
}.

Section Nodes.
Context `{ClangTuAst}.

Record DeclarationNameInfo : Type := mkDeclarationNameInfo {
  dni_getName : DeclarationName;
  dni_getLoc : SourceLocation;
}.

(** A [NestedNameSpecifierLoc] is the chain that [getPrefix] follows, the innermost
    specifier first. *)
Inductive NestedNameSpecifier : Type :=
| NNS_Namespace (getAsNamespace : Decl)
| NNS_TypeSpec (getAsType : option CType)
| NNS_Identifier | NNS_NamespaceAlias | NNS_Global | NNS_Super.
Abbreviation NestedNameSpecifierLoc := (list (NestedNameSpecifier * SourceLocation)) (only parsing).

(** *** Type locations *)
Record TypedefTypeLoc : Type := mkTypedefTypeLoc {
  getTypedefNameDecl : option Decl;
  typedef_getNameLoc : SourceLocation;
}.
Record UsingTypeLoc : Type := mkUsingTypeLoc {
  using_getFoundDecl : option Decl;
  using_getNameLoc : SourceLocation;
}.
(** [EnumTypeLoc] and [RecordTypeLoc] are [TagTypeLoc]s. *)
Record TagTypeLoc : Type := mkTagTypeLoc {
  tag_isDefinition : bool;
  tag_getDecl : Decl;
  tag_getNameLoc : SourceLocation;
}.
Record TemplateTypeParmTypeLoc : Type := mkTemplateTypeParmTypeLoc {
  ttp_getDecl : Decl;
  ttp_getNameLoc : SourceLocation;
}.
Record TemplateSpecializationTypeLoc : Type := mkTemplateSpecializationTypeLoc {
  getTemplateName : TemplateName;
  getTemplateNameLoc : SourceLocation;
}.

(** *** Expressions *)
(** The configuration call of a kernel call: [getCalleeDecl] and [getExprLoc]. *)
Record CUDAKernelCallExpr : Type := mkCUDAKernelCallExpr {
  getConfig : option (option Decl * SourceLocation);
}.
Record CXXConstructExpr : Type := mkCXXConstructExpr {
  getConstructor : option Decl;
  construct_getBeginLoc : SourceLocation;
}.
(** [CXXDependentScopeMemberExpr] and [UnresolvedMemberExpr]. *)
Record UnresolvedMember : Type := mkUnresolvedMember {
  um_getBaseType : QualType;
  um_getMemberNameInfo : DeclarationNameInfo;
}.
Record DeclRefExpr : Type := mkDeclRefExpr {
  ref_getFoundDecl : option Decl;
  ref_getLocation : SourceLocation;
}.
Record MemberExpr : Type := mkMemberExpr {
  getMemberDecl : Decl;
  member_getMemberNameInfo : DeclarationNameInfo;
  getMemberLoc : SourceLocation;
}.
Record UnresolvedLookupExpr : Type := mkUnresolvedLookupExpr {
  decls : list (option Decl);
  lookup_getNameLoc : SourceLocation;
}.

(** *** The calls of the visitor *)
Inductive AstEvent : Type :=
| VisitDecl (kind : DeclClass) (decl : Decl)
| VisitCUDAKernelCallExpr (expr : CUDAKernelCallExpr)
| VisitCXXConstructExpr (expr : CXXConstructExpr)
| VisitCXXDependentScopeMemberExpr (expr : UnresolvedMember)
| VisitDeclRefExpr (expr : DeclRefExpr)
| VisitMemberExpr (expr : MemberExpr)
| VisitUnresolvedLookupExpr (expr : UnresolvedLookupExpr)
| VisitUnresolvedMemberExpr (expr : UnresolvedMember)
| VisitEnumTypeLoc (typeLoc : TagTypeLoc)
| VisitRecordTypeLoc (typeLoc : TagTypeLoc)
| VisitTemplateSpecializationTypeLoc (typeLoc : TemplateSpecializationTypeLoc)
| VisitTemplateTypeParmTypeLoc (typeLoc : TemplateTypeParmTypeLoc)
| VisitTypedefTypeLoc (typeLoc : TypedefTypeLoc)
| VisitUsingTypeLoc (typeLoc : UsingTypeLoc)
| TraverseNestedNameSpecifierLoc (nestedNameSpecifierLoc : NestedNameSpecifierLoc)
| TraverseConstructorInitializerMember (fieldDecl : Decl) (loc : SourceLocation).
End Nodes.

(** ** A concrete AST

    On top of [demo_ast]: the type of a record is the record; looking up a name in
    [C] finds [f] and [using T::m], whose qualifier is [B]; [f] has a comment. *)
Definition demo_is_record (d : demo_decl) : bool :=
  match d with DC | DCfwd | DAnon | DBase => true | _ => false end.
Definition demo_tuast : @ClangTuAst demo_files demo_sm demo_ast := {|
  CType := demo_decl; QualType := option demo_decl;
  getTypePtrOrNull q := q; getCanonicalType q := q; getCanonicalTypeInternal d := Some d;
  isPointerType _ := false; isReferenceType _ := false; getPointeeType d := Some d;
  TemplateName := unit; dyn_cast_TypedefType _ := None;
  getAsTagDecl d := if demo_is_record d then Some d : option (@Decl _ _ demo_ast) else None;
  dyn_cast_TemplateSpecializationType _ := None;
  getAs_RecordType d := if demo_is_record d then Some d : option (@Decl _ _ demo_ast) else None;
  getAs_TemplateSpecializationType _ := None; getAs_InjectedClassNameType _ := None;
  getAsTemplateDecl _ := None; getAsQualifiedTemplateName _ := None;
  getAsDeducedTemplateName _ := None; tn_getKind _ := TN_AssumedTemplate;
  getAsUsingShadowDecl _ := None; template_getTemplatedDecl d := Some d : option (@Decl _ _ demo_ast);
  decl_getBeginLoc d := @getLocation _ _ demo_ast d;
  isThisDeclarationADefinition (d : @Decl _ _ demo_ast) :=
    match d with DCfwd => false | _ => true end;
  isPureVirtual _ := false; overridden_methods _ := []; isInlineNamespace _ := false;
  enumerators _ := [];
  hasDefinition d := demo_is_record d;
  bases (d : @Decl _ _ demo_ast) := match d with DC | DCfwd => [Some DBase] | _ => [] end;
  getSpecializationKind _ := TSK_Undeclared; getIntroducer _ := None; getTargetDecl _ := None;
  shadows _ := []; isStaticDataMember _ := false; isFileVarDecl _ := false; isImplicit _ := false;
  getQualifier_getAsType (d : @Decl _ _ demo_ast) :=
    match d with DUsing => Some DBase | _ => None end;
  DeclarationName := unit; isIdentifier _ := true;
  lookupDependentName d _ keep :=
    List.filter keep (match d : demo_decl with DC => [DF; DUsing] | DBase => [DField] | _ => [] end);
  findNextToken _ := None;
  RawComment := unit; comment_getBeginLoc _ := 10204 : @SourceLocation _ demo_sm;
  getFormattedText _ := lit "Does f.";
  getRawCommentForDeclNoCache (d : @Decl _ _ demo_ast) := match d with DF => Some () | _ => None end;
  getRawCommentForAnyRedecl _ := None;
|}.
