(* ===== verification/NameResolver.v ===== *)
(** * Resolving members of dependent types

    [ApproximateNameResolver] (ApproximateNameResolver.h/.cc): a cached lookup that
    follows unresolved using declarations through the types that they name. *)
From S2P Require Import Prelude Worklist CppString Paths PackageMaps IdPaths Clang Formatter TuAst.

Section NameResolver.
Context `{BM : BuildMode, CF : ClangFileID}.
Context {SM : ClangSourceManager} {CA : ClangAst} {CT : ClangTuAst}.

Abbreviation MemberLookupKey := (option CType * DeclarationName)%type (only parsing).

Definition MemberLookupKey_new (type : CType) (declNameInfo : DeclarationNameInfo)
    : result MemberLookupKey :=
  let canonicalTypePtr := getTypePtrOrNull (getCanonicalTypeInternal type) in
  ENFORCE (bool_decide (is_Some canonicalTypePtr))
    "member lookups should exit early for null base type" ;;
  Ok (canonicalTypePtr, dni_getName declNameInfo).

Record ApproximateNameResolver : Type := mkApproximateNameResolver {
  dependentNameLookupCache : gmap MemberLookupKey (list Decl);
}.
Definition ApproximateNameResolver_new : ApproximateNameResolver := mkApproximateNameResolver ∅.

Definition tryFindDeclForType (type : CType) : option Decl :=
  match getAs_RecordType type with
  | Some recordDecl => if isa CXXRecordDecl recordDecl then Some recordDecl else None
  | None =>
      let type :=
        match getAs_InjectedClassNameType type with
        | Some injected => getTypePtrOrNull injected
        | None => Some type
        end in
      match type with
      | None => None
      | Some type =>
          match getAs_TemplateSpecializationType type with
          | None => None
          | Some templateName =>
              match getAsTemplateDecl templateName with
              | Some templateDecl =>
                  if isa ClassTemplateDecl templateDecl
                  then Some (getTemplatedDecl templateDecl) else None
              | None => None
              end
          end
      end
  end.

(** The lambda [filter]. *)
Definition not_using_decl (namedDecl : Decl) : bool := negb (isa UsingDecl namedDecl).

(** One lookup result: it is a result, or its type is pushed. *)
Definition add_lookup_result (acc : list Decl * list CType) (namedDecl : Decl)
    : list Decl * list CType :=
  if negb (isa UnresolvedUsingValueDecl namedDecl) then (acc.1 ++ [namedDecl], acc.2)
  else
    match getQualifier_getAsType namedDecl with
    | Some innerType => (acc.1, innerType :: acc.2)
    | None => acc
    end.

(** The body of the loop for a type that was not seen. *)
Definition lookup_in_type (declName : DeclarationName) (results : list Decl) (type : CType)
    : result (list Decl * list CType) :=
  match tryFindDeclForType type with
  | None => Ok (results, [])
  | Some cxxRecordDecl =>
      if negb (hasDefinition cxxRecordDecl) then Ok (results, [])
      else
        cxxRecordDecl ← optional_value (getDefinition cxxRecordDecl);
        let lookupResults := lookupDependentName cxxRecordDecl declName not_using_decl in
        Ok (foldl add_lookup_result (results, []) lookupResults)
  end.

Definition MAX_ITERATIONS : nat := Z.to_nat 10000.
Arguments MAX_ITERATIONS : simpl never.

Definition tryResolveMember (this : ApproximateNameResolver) (type : option CType)
    (declNameInfo : DeclarationNameInfo) : result (list Decl * ApproximateNameResolver) :=
  match type with
  | None => Ok ([], this)
  | Some type =>
      key ← MemberLookupKey_new type declNameInfo;
      match dependentNameLookupCache this !! key with
      | Some results => Ok (results, this)
      | None =>
          results ← worklist (lookup_in_type (dni_getName declNameInfo)) MAX_ITERATIONS
                      [type] ∅ [];
          Ok (results, mkApproximateNameResolver
                         (<[key := results]> (dependentNameLookupCache this)))
      end
  end.

(** ** What a lookup finds *)

(** The declarations that a type itself contributes, and the types that it refers to. *)
Definition lookups (declName : DeclarationName) (type : CType) : list Decl :=
  match tryFindDeclForType type with
  | Some d =>
      if hasDefinition d then
        match getDefinition d with
        | Some d => lookupDependentName d declName not_using_decl
        | None => []
        end
      else []
  | None => []
  end.
Definition inner_type (namedDecl : Decl) : option CType :=
  if isa UnresolvedUsingValueDecl namedDecl then getQualifier_getAsType namedDecl else None.
Definition inner_types (declName : DeclarationName) (type : CType) : list CType :=
  omap inner_type (lookups declName type).

(** [d] is a member of [type]: found in a type that using declarations lead to. *)
Definition member (declName : DeclarationName) (type : CType) (d : Decl) : Prop :=
  exists u, reach (inner_types declName) ∅ [type] u
    /\ d ∈ lookups declName u /\ isa UnresolvedUsingValueDecl d = false.

Lemma add_lookup_results l results stack :
  foldl add_lookup_result (results, stack) l
  = (results ++ filter (fun d => isa UnresolvedUsingValueDecl d = false) l,
     rev (omap inner_type l) ++ stack).
Proof.
  revert results stack. induction l as [|d l IH]; intros results stack; simpl.
  { by rewrite app_nil_r. }
  destruct (isa UnresolvedUsingValueDecl d) eqn:E.
  - rewrite filter_cons_False; [by rewrite E|].
    assert (inner_type d = getQualifier_getAsType d) as -> by (unfold inner_type; by rewrite E).
    unfold add_lookup_result at 2. rewrite E. simpl.
    destruct (getQualifier_getAsType d) as [t|]; rewrite IH; [|done]. simpl. by rewrite -app_assoc.
  - rewrite filter_cons_True //.
    assert (inner_type d = None) as -> by (unfold inner_type; by rewrite E).
    unfold add_lookup_result at 2. rewrite E. simpl. by rewrite IH -app_assoc.
Qed.

(** What the theorem relies on: a record with a definition has one, a type has a
    canonical type, and it determines the record. *)
Record types_ok : Prop := {
  definition_present d : hasDefinition d = true -> is_Some (getDefinition d);
  canonical_present t : is_Some (getTypePtrOrNull (getCanonicalTypeInternal t));
  canonical_decl t1 t2 :
    getTypePtrOrNull (getCanonicalTypeInternal t1) = getTypePtrOrNull (getCanonicalTypeInternal t2) ->
    tryFindDeclForType t1 = tryFindDeclForType t2;
}.

(** The types that a lookup reaches fit into the limit on iterations. *)
Definition small_lookup (declName : DeclarationName) (type : CType) : Prop :=
  exists R, region (inner_types declName) ∅ [type] R
    /\ (1 + pushes (inner_types declName) R <= MAX_ITERATIONS)%nat.

Section Correct.
Hypothesis Hok : types_ok.

Lemma lookup_in_type_spec name results t :
  lookup_in_type name results t
  = Ok (results ++ filter (fun d => isa UnresolvedUsingValueDecl d = false) (lookups name t),
        rev (inner_types name t)).
Proof.
  unfold lookup_in_type, inner_types, lookups.
  destruct (tryFindDeclForType t) as [d|]; [|by rewrite /= app_nil_r].
  destruct (hasDefinition d) eqn:Ed; simpl; [|by rewrite app_nil_r].
  destruct (definition_present Hok d Ed) as [def ->]. cbn [optional_value]. rewrite bind_Ok.
  by rewrite add_lookup_results app_nil_r.
Qed.

Lemma visits_results name vs results :
  visits (lookup_in_type name) results vs
  = Ok (results ++ flat_map (fun t => filter (fun d => isa UnresolvedUsingValueDecl d = false)
                                        (lookups name t)) vs).
Proof.
  unfold visits. revert results. induction vs as [|t vs IH]; intros results; cbn [foldM flat_map].
  { by rewrite app_nil_r. }
  rewrite lookup_in_type_spec. cbn. by rewrite IH -app_assoc.
Qed.

Lemma worklist_members name type :
  small_lookup name type ->
  exists results, worklist (lookup_in_type name) MAX_ITERATIONS [type] ∅ [] = Ok results
    /\ forall d, d ∈ results <-> member name type d.
Proof.
  intros (R & HR & Hb).
  destruct (worklist_visits (lookup_in_type name) (inner_types name) MAX_ITERATIONS [type] ∅ [] R)
    as [(vs & s & Hv & Hw & _ & Hvs)|(vs & x & s & e & _ & _ & Hv & _)]; [|done|exact Hb| |].
  { intros s x s' pushed. rewrite lookup_in_type_spec. intros [= _ <-].
    symmetry. apply Permutation_rev. }
  - exists s. split; [done|]. rewrite visits_results in Hv. injection Hv as <-. intros d.
    unfold member. rewrite list_elem_of_In in_flat_map. split.
    + intros (t & Ht & Hd). apply list_elem_of_In in Ht, Hd.
      apply list_elem_of_filter in Hd as [? ?]. exists t. by rewrite -Hvs.
    + intros (t & Ht & Hd & Hu). exists t. rewrite -!list_elem_of_In Hvs list_elem_of_filter.
      by split_and!.
  - by rewrite lookup_in_type_spec in Hv.
Qed.

Lemma member_canonical name t1 t2 d :
  getTypePtrOrNull (getCanonicalTypeInternal t1) = getTypePtrOrNull (getCanonicalTypeInternal t2) ->
  member name t1 d -> member name t2 d.
Proof.
  intros Hc (u & Hu & Hd & Hn). pose proof (canonical_decl Hok t1 t2 Hc) as Ht.
  assert (lookups name t1 = lookups name t2) as E by (unfold lookups; by rewrite Ht).
  assert (exists u', reach (inner_types name) ∅ [t2] u' /\ lookups name u' = lookups name u)
    as (u' & Hu' & Eu).
  { clear Hd Hn. remember [t1] as l eqn:El. induction Hu as [l y Hy Hs|l z y Hz IH Hy Hs]; subst l.
    - apply list_elem_of_singleton in Hy as ->. exists t2. split; [|done].
      constructor; [by left|set_solver].
    - destruct (IH eq_refl) as (z' & Hz' & Ez). exists y. split; [|done].
      apply (reach_step _ _ _ z'); [done| |done]. unfold inner_types in *. by rewrite Ez. }
  exists u'. by rewrite Eu.
Qed.

Definition resolver_ok (this : ApproximateNameResolver) : Prop :=
  forall c name results, dependentNameLookupCache this !! (c, name) = Some results ->
    forall t, getTypePtrOrNull (getCanonicalTypeInternal t) = c ->
    forall d, d ∈ results <-> member name t d.

Lemma tryResolveMember_ok this type info :
  resolver_ok this -> (forall t, type = Some t -> small_lookup (dni_getName info) t) ->
  exists results this', tryResolveMember this type info = Ok (results, this') /\ resolver_ok this'
    /\ forall d, d ∈ results <-> exists t, type = Some t /\ member (dni_getName info) t d.
Proof.
  intros Hthis Hsmall. destruct type as [t|]; cbn [tryResolveMember].
  2: { exists [], this. split; [done|]. split; [done|]. intros d. rewrite elem_of_nil.
    split; [done|by intros (t & ? & _)]. }
  unfold MemberLookupKey_new. destruct (canonical_present Hok t) as [c Hc].
  rewrite Hc bool_decide_true; [done|]. rewrite ENFORCE_true !bind_Ok.
  destruct (dependentNameLookupCache this !! (Some c, dni_getName info)) as [results|] eqn:Ek.
  - exists results, this. split; [done|]. split; [done|]. intros d. rewrite (Hthis _ _ _ Ek t Hc). naive_solver.
  - destruct (worklist_members (dni_getName info) t) as (results & -> & Hr); [by apply Hsmall|].
    rewrite bind_Ok. eexists results, _. split; [done|]. split.
    + intros c' name results'. simpl. rewrite lookup_insert_Some.
      intros [[[= <- <-] <-]|[_ Hl]]; [|by apply Hthis]. intros t' Ht' d. rewrite Hr.
      split; apply member_canonical; congruence.
    + intros d. rewrite Hr. split; [by exists t|by intros (t' & [= <-] & ?)].
Qed.

Definition query : Type := option CType * DeclarationNameInfo.
Definition small_query (q : query) : Prop := forall t, q.1 = Some t -> small_lookup (dni_getName q.2) t.
Definition resolve_all (this : ApproximateNameResolver) (qs : list query) : result ApproximateNameResolver :=
  foldM (fun this q => snd <$> tryResolveMember this q.1 q.2) this qs.

Lemma resolve_all_ok this qs :
  resolver_ok this -> (forall q, q ∈ qs -> small_query q) ->
  exists this', resolve_all this qs = Ok this' /\ resolver_ok this'.
Proof.
  intros Hthis Hqs. apply (foldM_total resolver_ok); [|done]. intros t q Hq Ht.
  destruct (tryResolveMember_ok t q.1 q.2 Ht (Hqs q Hq)) as (rs & t' & -> & Ht' & _). by exists t'.
Qed.
End Correct.

End NameResolver.

Lemma demo_types_ok : @types_ok demo_files demo_sm demo_ast demo_tuast.
Proof.
  split; [by intros []|intros []; by eexists|]. by intros [] [].
Qed.

Definition demo_info : @DeclarationNameInfo demo_files demo_sm demo_ast demo_tuast :=
  @mkDeclarationNameInfo demo_files demo_sm demo_ast demo_tuast () (10310 : @SourceLocation _ demo_sm).

(** At most two types are reached from any type. *)
Lemma demo_reach l t :
  @reach demo_decl _ _ (@inner_types demo_files demo_sm demo_ast demo_tuast ()) ∅ l t ->
  t ∈ DBase :: l.
Proof.
  induction 1 as [l x Hx _|l x y _ _ Hy _]; [by right|].
  apply list_elem_of_In in Hy. destruct x; simpl in Hy; try done; destruct Hy as [<-|[]]; by left.
Qed.

Lemma demo_small_lookup t :
  @small_lookup demo_files demo_sm demo_ast demo_tuast () t.
Proof.
  exists (remove_dups [DBase; t]). split.
  - split; [apply NoDup_remove_dups|]. intros y Hy%demo_reach. by apply elem_of_remove_dups.
  - transitivity 4%nat; [destruct t; apply Nat.leb_le; vm_compute; reflexivity|]. unfold MAX_ITERATIONS. lia.
Qed.

