(* ===== verification/HashKeys.v ===== *)
(** * Keys of hash containers

    The key types of the code's [absl::flat_hash_map]s and [absl::flat_hash_set]s, with
    their [AbslHashValue] and [operator==], most of them derived by the macros of Derive.h.
    A hash container works only if values that compare equal have equal hashes; every
    instance of [HashKey] proves that of its type. *)
From S2P Require Import Prelude CppString Ordering Paths Json PackageMaps IdPaths Symbols ScipMessages.
From S2P Require Import CommandLine Compdb Ipc Clang Formatter MacroIndexer TuAst NameResolver.

(** The state that a hash is computed in, and [H::combine] with one value. *)
Class AbslHash (H : Type) : Type := combine : forall {A : Type}, H -> A -> H.

Class HashKey (A : Type) : Type := {
  key_eq : A -> A -> bool;
  AbslHashValue : forall {H : Type} `{AbslHash H}, H -> A -> H;
  hash_respects_eq a b : key_eq a b = true -> forall {H : Type} `{AbslHash H} (h : H), AbslHashValue h a = AbslHashValue h b
}.

(** ** Derive.h *)
Definition DERIVE_HASH_1 {A B} (expr : A -> B) : forall {H : Type} `{AbslHash H}, H -> A -> H :=
  fun H _ h self => combine h (expr self).
Definition DERIVE_EQ_ALL {A} `{EqDecision A} (lhs rhs : A) : bool := bool_decide (lhs = rhs).
Definition DERIVE_EQ_VIA_CMP {A} (cmp : A -> A -> comparison) (lhs rhs : A) : bool :=
  bool_decide (cmp lhs rhs = Eq).

(** [DERIVE_HASH_CMP_NEWTYPE]: hash and comparison of one field. *)
Definition NEWTYPE_cmp {A B} (field : A -> B) (cmp_macro : B -> B -> comparison) (lhs rhs : A) : comparison :=
  CMP_CHECK (cmp_macro (field lhs) (field rhs)) Eq.
Lemma newtype_respects {A B} (field : A -> B) (cmp_macro : B -> B -> comparison) `{!ExactOrdering cmp_macro} a b :
  DERIVE_EQ_VIA_CMP (NEWTYPE_cmp field cmp_macro) a b = true -> field a = field b.
Proof.
  unfold DERIVE_EQ_VIA_CMP, NEWTYPE_cmp. rewrite bool_decide_eq_true CMP_CHECK_eq. intros [E _].
  by apply (cmp_eq_exact (cmp:=cmp_macro)).
Qed.
Definition DERIVE_HASH_CMP_NEWTYPE {A B} (field : A -> B) (cmp_macro : B -> B -> comparison)
    `{!ExactOrdering cmp_macro} : HashKey A := {|
  key_eq := DERIVE_EQ_VIA_CMP (NEWTYPE_cmp field cmp_macro);
  AbslHashValue H _ := DERIVE_HASH_1 field;
  hash_respects_eq a b E H _ h := f_equal (combine h) (newtype_respects field cmp_macro a b E)
|}.

(** A key whose comparison is exact. *)
Definition exact_key {A} (eq : A -> A -> bool) (hash : forall {H : Type} `{AbslHash H}, H -> A -> H)
    (exact : forall a b, eq a b = true -> a = b) : HashKey A := {|
  key_eq := eq;
  AbslHashValue := @hash;
  hash_respects_eq a b E H _ h := f_equal (hash h) (exact a b E)
|}.
Lemma DERIVE_EQ_ALL_exact {A} `{EqDecision A} (a b : A) : DERIVE_EQ_ALL a b = true -> a = b.
Proof. apply bool_decide_eq_true_1. Qed.
Lemma DERIVE_EQ_VIA_CMP_exact {A} (cmp : A -> A -> comparison) `{!ExactOrdering cmp} (a b : A) :
  DERIVE_EQ_VIA_CMP cmp a b = true -> a = b.
Proof. intros E%bool_decide_eq_true_1. by apply cmp_eq_exact. Qed.

(** ** The key types *)

(** Symbol names, absolute paths (Path.h, SymbolName.h). *)
#[export] Instance SymbolName_key : HashKey SymbolName := DERIVE_HASH_CMP_NEWTYPE symbol_value CmpStr.
#[export] Instance SymbolSuffix_key : HashKey SymbolSuffix := DERIVE_HASH_CMP_NEWTYPE suffix_value CmpStr.
#[export] Instance SymbolNameRef_key : HashKey SymbolNameRef := DERIVE_HASH_CMP_NEWTYPE ref_value CmpStr.
#[export] Instance AbsolutePath_key : HashKey AbsolutePath := DERIVE_HASH_CMP_NEWTYPE asStringRef CmpStr.
#[export] Instance AbsolutePathRef_key : HashKey AbsolutePathRef :=
  exact_key DERIVE_EQ_ALL (fun H _ => DERIVE_HASH_1 asStringView) DERIVE_EQ_ALL_exact.

(** The kind of the root enters as [bool(self._kind)]. *)
Definition RootRelativePathRef_hash {H} `{AbslHash H} (h : H) (self : RootRelativePathRef) : H :=
  let '(value, kind) := RootRelativePathRef_hash_parts self in combine (combine h value) kind.
#[export] Instance RootRelativePathRef_key : HashKey RootRelativePathRef :=
  exact_key (DERIVE_EQ_VIA_CMP RootRelativePathRef_cmp) (@RootRelativePathRef_hash)
    (DERIVE_EQ_VIA_CMP_exact RootRelativePathRef_cmp).

(** [StableFileId] combines the hash of its path. *)
Definition StableFileId_hash {H} `{AbslHash H} (h : H) (s : StableFileId) : H :=
  combine (combine (RootRelativePathRef_hash h (sf_path s)) (isInProject s)) (isSynthetic s).
#[export] Instance StableFileId_cmp_exact : ExactOrdering StableFileId_cmp.
Proof.
  set (c := cmp_then (cmp_on sf_path RootRelativePathRef_cmp) (cmp_then (cmp_on isInProject cmp_bool) (cmp_on isSynthetic cmp_bool))).
  assert (forall x y, StableFileId_cmp x y = c x y) as E.
  { intros x y. unfold StableFileId_cmp, c, cmp_then, cmp_on. by autorewrite with cmp. }
  split; [eapply cmp_ext; [intros; symmetry; apply E|apply _]|].
  intros [p1 i1 s1] [p2 i2 s2]. rewrite E /c /cmp_then /cmp_on /=.
  intros [E1%(cmp_eq_exact (cmp:=RootRelativePathRef_cmp)) [E2%(cmp_eq_exact (cmp:=cmp_bool)) E3%(cmp_eq_exact (cmp:=cmp_bool))]%CMP_CHECK_eq]%CMP_CHECK_eq.
  by subst.
Qed.
#[export] Instance StableFileId_key : HashKey StableFileId :=
  exact_key (DERIVE_EQ_VIA_CMP StableFileId_cmp) (@StableFileId_hash) (DERIVE_EQ_VIA_CMP_exact StableFileId_cmp).

#[export] Instance JobId_key : HashKey JobId :=
  exact_key DERIVE_EQ_ALL (fun H _ => DERIVE_HASH_1 to64Bit) DERIVE_EQ_ALL_exact.
#[export] Instance HashValue_key : HashKey HashValue :=
  exact_key DERIVE_EQ_ALL (fun H _ => DERIVE_HASH_1 (fun rawValue : Z => rawValue)) DERIVE_EQ_ALL_exact.

(** Ranges: the end line is combined twice, the end column never. *)
Definition FileLocalSourceRange_hash {H} `{AbslHash H} (h : H) (r : FileLocalSourceRange) : H :=
  combine (combine (combine (combine h (startLine r)) (startColumn r)) (endLine r)) (endLine r).
#[export] Instance FileLocalSourceRange_key : HashKey FileLocalSourceRange :=
  exact_key (DERIVE_EQ_VIA_CMP FileLocalSourceRange_cmp) (@FileLocalSourceRange_hash)
    (DERIVE_EQ_VIA_CMP_exact FileLocalSourceRange_cmp).

(** Ranges that only differ in the end column have the same hash, whatever combines. *)
Lemma range_hash_ignores_end_column l1 c1 l2 c2 c2' :
  (c2 <> c2' -> key_eq (mkFileLocalSourceRange l1 c1 l2 c2) (mkFileLocalSourceRange l1 c1 l2 c2') = false)
  /\ forall {H} `{AbslHash H} (h : H),
       AbslHashValue h (mkFileLocalSourceRange l1 c1 l2 c2) = AbslHashValue h (mkFileLocalSourceRange l1 c1 l2 c2').
Proof.
  split; [|done]. intros Hc. apply bool_decide_eq_false. intros E.
  apply (cmp_eq_exact (cmp:=FileLocalSourceRange_cmp)) in E. by injection E.
Qed.

Section Clang.
Context `{CF : ClangFileID} {SM : ClangSourceManager} {CM : ClangMacros}.

(** Only the range counts: occurrences of different macros can be equal. *)
Lemma FileLocalMacroOccurrence_respects a b :
  DERIVE_EQ_VIA_CMP FileLocalMacroOccurrence_cmp a b = true -> mo_range a = mo_range b.
Proof.
  unfold DERIVE_EQ_VIA_CMP, FileLocalMacroOccurrence_cmp, CMP_EXPR. rewrite bool_decide_eq_true CMP_CHECK_eq.
  intros [E _]. by apply (cmp_eq_exact (cmp:=FileLocalSourceRange_cmp)).
Qed.
Definition FileLocalMacroOccurrence_hash {H} `{AbslHash H} (h : H) (self : FileLocalMacroOccurrence) : H :=
  FileLocalSourceRange_hash h (mo_range self).
#[export] Instance FileLocalMacroOccurrence_key : HashKey FileLocalMacroOccurrence := {|
  key_eq := DERIVE_EQ_VIA_CMP FileLocalMacroOccurrence_cmp;
  AbslHashValue H _ := FileLocalMacroOccurrence_hash;
  hash_respects_eq a b E H _ h := f_equal (FileLocalSourceRange_hash h) (FileLocalMacroOccurrence_respects a b E)
|}.

(** Macros are interned: pointers are compared. *)
#[export] Instance NonFileBasedMacro_key : HashKey MacroInfo :=
  exact_key DERIVE_EQ_ALL (fun H _ => DERIVE_HASH_1 (fun defInfo : MacroInfo => defInfo)) DERIVE_EQ_ALL_exact.

Context {CA : ClangAst} {CT : ClangTuAst}.
Definition MemberLookupKey_hash {H} `{AbslHash H} (h : H) (self : option CType * DeclarationName) : H :=
  combine (combine h (fst self)) (snd self).
#[export] Instance MemberLookupKey_key : HashKey (option CType * DeclarationName) :=
  exact_key DERIVE_EQ_ALL (@MemberLookupKey_hash) DERIVE_EQ_ALL_exact.
End Clang.

(** ** Keys of ScipExtras.h *)
Definition RelationshipExt_hash {H} `{AbslHash H} (h : H) (r : Relationship) : H :=
  combine (combine (combine (combine (combine h (rel_symbol r)) (is_definition r)) (is_reference r))
    (is_type_definition r)) (is_implementation r).
#[export] Instance RelationshipExt_key : HashKey Relationship :=
  exact_key (DERIVE_EQ_VIA_CMP compareRelationships) (@RelationshipExt_hash)
    (DERIVE_EQ_VIA_CMP_exact compareRelationships).

Definition Diagnostic_hash {H} `{AbslHash H} (h : H) (d : Diagnostic) : H :=
  let h := combine (combine (combine (combine h (severity d)) (code d)) (message d)) (source d) in
  foldl (fun h t => combine h t) h (tags d).
Definition OccurrenceExt_hash {H} `{AbslHash H} (h : H) (occ : Occurrence) : H :=
  let h := foldl (fun h i => combine h i) h (range occ) in
  let h := combine h (occ_symbol occ) in
  let h := combine h (symbol_roles occ) in
  let h := foldl (fun h d => combine h d) h (override_documentation occ) in
  let h := combine h (syntax_kind occ) in
  foldl Diagnostic_hash h (diagnostics occ).
(** On well-formed ranges [operator<=>] is [OccurrenceExt_cmp]. *)
#[export] Instance OccurrenceExt_key : HashKey Occurrence :=
  exact_key (DERIVE_EQ_VIA_CMP OccurrenceExt_cmp) (@OccurrenceExt_hash) (DERIVE_EQ_VIA_CMP_exact OccurrenceExt_cmp).
