(* ===== verification/TuIndexer.v ===== *)
(** * Indexing a translation unit

    [DocComment], [RefersToForwardDecl], [ForwardDeclMap] and [TuIndexer] of
    Indexer.h/.cc: what is saved for every visited node, and how the saved
    documents, external symbols and forward declarations are emitted. *)
From S2P Require Import Prelude Worklist CppString Ordering Paths PackageMaps IdPaths Symbols.
From S2P Require Import ScipMessages IndexBuilder Clang Formatter MacroIndexer TuAst NameResolver.

(** utfcpp. *)
Class Utf8 : Type := {
  utf8_is_valid : str -> bool;
  utf8_replace_invalid : str -> str;
}.

(** [flat_hash_map::emplace] of a key that is there may or may not move from its
    argument: what is left of it. *)
Class AbslEmplace : Type := after_failed_emplace : SymbolInformation -> SymbolInformation.

(** ** [DocComment] *)
Section DocComment.
Context `{AbslStrings, Utf8}.

Record DocComment : Type := mkDocComment { contents : str }.
Definition DocComment_new : DocComment := mkDocComment missingDocumentationPlaceholder.

Definition replaceIfEmpty (this other : DocComment) : DocComment :=
  if negb (bool_decide (contents other = [])) then
    if bool_decide (contents this = [])
       || bool_decide (contents this = missingDocumentationPlaceholder) then other
    else this
  else this.

(** The comment afterwards (a moved-from string is empty), and the slot. *)
Definition DocComment_addTo (this : DocComment) (slot : str) : DocComment * str :=
  let stripped := StripAsciiWhitespace (contents this) in
  if bool_decide (stripped = []) then (this, slot)
  else if negb (utf8_is_valid stripped) then (mkDocComment [], utf8_replace_invalid stripped)
  else if (length stripped =? length (contents this))%nat then (mkDocComment [], contents this)
  else (mkDocComment [], stripped).

(** [addTo] of a new documentation string. *)
Definition DocComment_addToInfo (this : DocComment) (symbolInfo : SymbolInformation)
    : SymbolInformation :=
  mkSymbolInformation (si_symbol symbolInfo)
    (si_documentation symbolInfo ++ [(DocComment_addTo this []).2]) (si_relationships symbolInfo).
End DocComment.

(** The setters and adders of [scip::SymbolInformation]. *)
Definition si_set_symbol (v : str) (i : SymbolInformation) : SymbolInformation :=
  mkSymbolInformation v (si_documentation i) (si_relationships i).
Definition si_add_documentation (v : str) (i : SymbolInformation) : SymbolInformation :=
  mkSymbolInformation (si_symbol i) (si_documentation i ++ [v]) (si_relationships i).
Definition si_set_documentation (v : list str) (i : SymbolInformation) : SymbolInformation :=
  mkSymbolInformation (si_symbol i) v (si_relationships i).
Definition si_add_relationship (v : Relationship) (i : SymbolInformation) : SymbolInformation :=
  mkSymbolInformation (si_symbol i) (si_documentation i) (si_relationships i ++ [v]).

(** ** [ForwardDeclMap] *)
Record FwdValue : Type := mkFwdValue {
  fwd_docComment : DocComment;
  ranges : list (RootRelativePathRef * FileLocalSourceRange);
}.
Definition FwdValue_default : FwdValue := mkFwdValue DocComment_new [].
Definition ForwardDeclMap : Type := gmap SymbolNameRef FwdValue.

Definition fwd_insert (this : ForwardDeclMap) (symbol : SymbolNameRef) (docComment : DocComment)
    (projectFilePath : RootRelativePathRef) (occRange : FileLocalSourceRange) : ForwardDeclMap :=
  let entry := default FwdValue_default (this !! symbol) in
  <[symbol := mkFwdValue (replaceIfEmpty (fwd_docComment entry) docComment)
                (ranges entry ++ [(projectFilePath, occRange)])]> this.

Definition ForwardDeclIndex : Type := list ForwardDecl.

Section ForwardDecls.
Context `{BM : BuildMode, AS : AbslStrings, U8 : Utf8, HI : HashIteration}.

(** The callback of [emit]; the index is what was added before. *)
Definition emit_forward_decl (symbol : SymbolNameRef) (value : FwdValue) (index : ForwardDeclIndex)
    : result ForwardDeclIndex :=
  let optSuffix := getPackageAgnosticSuffix symbol in
  ENFORCE (bool_decide (is_Some optSuffix)) "missing $ in symbol name" ;;
  suffix ← optional_value optSuffix;
  let documentation := (DocComment_addTo (fwd_docComment value) []).2 in
  let references :=
    map (fun pr => mkForwardDeclReference (rel_value pr.1) (FileLocalSourceRange_addTo pr.2 []))
      (ranges value) in
  Ok (index ++ [mkForwardDecl (suffix_value suffix) documentation references]).

(** The map afterwards is moved from. *)
Definition fwd_emit (this : ForwardDeclMap) (deterministic : bool) (index : ForwardDeclIndex)
    : result (ForwardDeclMap * ForwardDeclIndex) :=
  index ← extractTransform_map SymbolNameRef_cmp (iterate this) deterministic
            (fun m symbol value => index ← m; emit_forward_decl symbol value index) (Ok index);
  Ok (∅, index).
End ForwardDecls.

(** ** [TuIndexer] *)
Section TuIndexer.
Context `{BM : BuildMode, AR : AbslReplace, CF : ClangFileID}.
Context {SM : ClangSourceManager} {CA : ClangAst} {CT : ClangTuAst}.
Context `{AS : AbslStrings, U8 : Utf8, AE : AbslEmplace, TH : TextHash, SE : ScipEnums}.
Context `{LP : LlvmPath, HI : HashIteration}.

Record PartialDocument : Type := mkPartialDocument {
  pd_occurrences : list Occurrence;
  symbolInfos : gmap SymbolNameRef SymbolInformation;
}.
Definition PartialDocument_default : PartialDocument := mkPartialDocument [] ∅.

(** The formatter and the file metadata map are references; the formatter holds a
    reference to the same map, which is read through it here. *)
Record TuIndexer : Type := mkTuIndexer {
  fileIdsToBeIndexed : gset FileID;
  symbolFormatter : SymbolFormatter;
  approximateNameResolver : ApproximateNameResolver;
  documentMap : gmap FileID PartialDocument;
  tu_externalSymbols : gmap SymbolNameRef SymbolInformation;
  forwardDeclarations : ForwardDeclMap;
}.
Definition TuIndexer_new (fileIdsToBeIndexed : gset FileID) (symbolFormatter : SymbolFormatter)
    : TuIndexer :=
  mkTuIndexer fileIdsToBeIndexed symbolFormatter ApproximateNameResolver_new ∅ ∅ ∅.

Definition set_symbolFormatter f this := mkTuIndexer (fileIdsToBeIndexed this) f
  (approximateNameResolver this) (documentMap this) (tu_externalSymbols this)
  (forwardDeclarations this).
Definition set_approximateNameResolver r this := mkTuIndexer (fileIdsToBeIndexed this)
  (symbolFormatter this) r (documentMap this) (tu_externalSymbols this) (forwardDeclarations this).
Definition set_documentMap d this := mkTuIndexer (fileIdsToBeIndexed this) (symbolFormatter this)
  (approximateNameResolver this) d (tu_externalSymbols this) (forwardDeclarations this).
Definition set_tu_externalSymbols e this := mkTuIndexer (fileIdsToBeIndexed this)
  (symbolFormatter this) (approximateNameResolver this) (documentMap this) e
  (forwardDeclarations this).
Definition set_forwardDeclarations f this := mkTuIndexer (fileIdsToBeIndexed this)
  (symbolFormatter this) (approximateNameResolver this) (documentMap this)
  (tu_externalSymbols this) f.

Abbreviation TM A := (ST TuIndexer A) (only parsing).

(** A call of the formatter. *)
Definition formatter {A} (m : ST SymbolFormatter A) : TM A := fun this =>
  match m (symbolFormatter this) with
  | Ok (a, f) => Ok (a, set_symbolFormatter f this)
  | Err e => Err e
  end.

(** [if (opt) { ... }]. *)
Definition if_some {A} (o : option A) (k : A -> TM unit) : TM unit :=
  match o with Some a => k a | None => mret () end.

(** [fileMetadataMap.getStableFileId(fileId)] *)
Definition stableFileIdOf (fileId : FileID) : TM (option StableFileId) :=
  st_gets (fun this => getStableFileId (sfm_fileMetadataMap (symbolFormatter this)) fileId).
Definition shouldIndex (fileId : FileID) : TM bool :=
  st_gets (fun this => bool_decide (fileId ∈ fileIdsToBeIndexed this)).

(** *** Comments *)
Definition loc_gt (a b : SourceLocation) : bool := negb (loc_le a b).

(** The loop over the enumerators; [i] and [previous] are the variables of the code. *)
Fixpoint comment_on_previous (i : Z) (previous : option Decl) (enumDecls : list Decl)
    (enumConstantDecl : Decl) (comment : RawComment) : bool :=
  match enumDecls with
  | [] => false
  | current :: rest =>
      let i := i + 1 in
      if i =? 64 then false
      else if negb (bool_decide (current = enumConstantDecl)) then
        comment_on_previous i (Some current) rest enumConstantDecl comment
      else
        match previous with
        | Some previous => loc_gt (decl_getBeginLoc previous) (comment_getBeginLoc comment)
        | None => false
        end
  end.

Definition checkIfCommentBelongsToPreviousEnumCase (decl : Decl) (comment : RawComment) : bool :=
  if isa EnumConstantDecl decl then
    let enumDecl := getDeclContext decl in
    if isa EnumDecl enumDecl then comment_on_previous (-1) None (enumerators enumDecl) decl comment
    else false
  else false.

Definition getDocComment (decl : Decl) : DocComment :=
  let fromRawComment rawComment :=
    if checkIfCommentBelongsToPreviousEnumCase decl rawComment then DocComment_new
    else mkDocComment (getFormattedText rawComment) in
  match getRawCommentForDeclNoCache decl with
  | Some rawComment => fromRawComment rawComment
  | None =>
      match getRawCommentForAnyRedecl decl with
      | Some rawComment => fromRawComment rawComment
      | None => DocComment_new
      end
  end.

(** [RefersToForwardDecl::check]. *)
Definition RefersToForwardDecl_check (decl : Decl) : bool :=
  let canonicalDecl := getCanonicalDecl decl in
  if isa VarDecl canonicalDecl || isa TagDecl canonicalDecl || isa FunctionDecl canonicalDecl
     || isa FunctionTemplateDecl canonicalDecl
  then negb (isThisDeclarationADefinition canonicalDecl) else false.

(** *** Occurrences *)
Definition getTokenExpansionRange (startExpansionLoc : SourceLocation)
    : result (FileLocalSourceRange * FileID) :=
  let tokenLength := MeasureTokenLength startExpansionLoc in
  ENFORCE (0 <? tokenLength) "tokenLength > 0" ;;
  let endLoc := getLocWithOffset startExpansionLoc tokenLength in
  fromNonEmpty (mkSourceRange _ _ startExpansionLoc endLoc).

(** The reference to the document that is returned is its key. *)
Definition saveOccurrenceImpl (symbol : SymbolNameRef) (range : FileLocalSourceRange)
    (fileId : FileID) (allRoles : Z) : TM FileID :=
  let occ := occ_set_range (FileLocalSourceRange_addTo range []) empty_occurrence in
  let occ := occ_set_symbol (ref_value symbol) occ in
  let occ := occ_set_symbol_roles allRoles occ in
  st_modify (fun this =>
    let doc := default PartialDocument_default (documentMap this !! fileId) in
    set_documentMap
      (<[fileId := mkPartialDocument (pd_occurrences doc ++ [occ]) (symbolInfos doc)]>
         (documentMap this)) this) ;;
  mret fileId.

Definition saveOccurrence (symbol : SymbolNameRef) (expansionLoc : SourceLocation) (allRoles : Z)
    : TM FileID :=
  '(range, fileId) ← st_lift (getTokenExpansionRange expansionLoc);
  saveOccurrenceImpl symbol range fileId allRoles.

(** [doc.symbolInfos.emplace(symbol, info)]: the first one stays. *)
Definition emplace_symbolInfo (doc : FileID) (symbol : SymbolNameRef) (info : SymbolInformation)
    : TM unit :=
  st_modify (fun this =>
    let d := default PartialDocument_default (documentMap this !! doc) in
    match symbolInfos d !! symbol with
    | Some _ => this
    | None =>
        set_documentMap
          (<[doc := mkPartialDocument (pd_occurrences d) (<[symbol := info]> (symbolInfos d))]>
             (documentMap this)) this
    end).

Definition saveExternalSymbol (symbol : SymbolNameRef) (symbolInfo : SymbolInformation) : TM unit :=
  st_modify (fun this =>
    match tu_externalSymbols this !! symbol with
    | None => set_tu_externalSymbols (<[symbol := symbolInfo]> (tu_externalSymbols this)) this
    | Some old =>
        let symbolInfo := after_failed_emplace symbolInfo in
        if bool_decide (si_documentation old = [])
           && negb (bool_decide (si_documentation symbolInfo = []))
        then set_tu_externalSymbols
               (<[symbol := si_set_documentation (si_documentation symbolInfo) old]>
                  (tu_externalSymbols this)) this
        else this
    end).

Definition saveDefinition (symbol : SymbolNameRef) (loc : SourceLocation)
    (optSymbolInfo : option SymbolInformation) (extraRoles : Z) : TM unit :=
  let expansionLoc := getExpansionLoc loc in
  let fileId := getFileID expansionLoc in
  index ← shouldIndex fileId;
  if negb index then mret ()
  else
    optStableFileId ← stableFileIdOf fileId;
    if_some optStableFileId (fun stableFileId =>
      let optSymbolInfo :=
        match optSymbolInfo with
        | Some info =>
            if bool_decide (si_documentation info = [])
            then Some (si_add_documentation missingDocumentationPlaceholder info) else Some info
        | None => None
        end in
      if isInProject stableFileId then
        doc ← saveOccurrence symbol expansionLoc (Z.lor extraRoles SymbolRole_Definition);
        if_some optSymbolInfo (fun info => emplace_symbolInfo doc symbol info)
      else if_some optSymbolInfo (fun info => saveExternalSymbol symbol info)).

Definition saveForwardDeclaration (symbol : SymbolNameRef) (loc : SourceLocation)
    (docComment : DocComment) : TM unit :=
  let expansionLoc := getExpansionLoc loc in
  '(range, fileId) ← st_lift (getTokenExpansionRange expansionLoc);
  index ← shouldIndex fileId;
  if negb index then mret ()
  else
    optStableFileId ← stableFileIdOf fileId;
    match optStableFileId with
    | Some stableFileId =>
        if isInProject stableFileId then
          st_modify (fun this => set_forwardDeclarations
            (fwd_insert (forwardDeclarations this) symbol docComment (sf_path stableFileId) range)
            this)
        else mret ()
    | None => mret ()
    end.

Definition saveReference (symbol : SymbolNameRef) (loc : SourceLocation)
    (maybeFwdDecl : option Decl) (extraRoles : Z) : TM unit :=
  let expansionLoc := getExpansionLoc loc in
  let fileId := getFileID expansionLoc in
  index ← shouldIndex fileId;
  if negb index then mret ()
  else
    optStableFileId ← stableFileIdOf fileId;
    match optStableFileId with
    | Some stableFileId =>
        if isInProject stableFileId then
          st_lift (ENFORCE (Z.land extraRoles SymbolRole_Definition =? 0)
                     "use saveDefinition instead") ;;
          let occurrence := saveOccurrence symbol expansionLoc extraRoles ;; mret () in
          match maybeFwdDecl with
          | Some decl =>
              if RefersToForwardDecl_check decl then
                '(range, _) ← st_lift (getTokenExpansionRange expansionLoc);
                st_modify (fun this => set_forwardDeclarations
                  (fwd_insert (forwardDeclarations this) symbol (getDocComment decl)
                     (sf_path stableFileId) range) this)
              else occurrence
          | None => occurrence
          end
        else mret ()
    | None => mret ()
    end.

(** The default arguments. *)
Definition saveReference_ (symbol : SymbolNameRef) (loc : SourceLocation) : TM unit :=
  saveReference symbol loc None 0.
Definition saveDefinition_ (symbol : SymbolNameRef) (loc : SourceLocation)
    (info : option SymbolInformation) : TM unit := saveDefinition symbol loc info 0.

(** *** Files *)
Definition saveSyntheticFileDefinition (fileId : FileID) (fileMetadata : FileMetadata) : TM unit :=
  let stableFileId := stableFileId fileMetadata in
  if isSynthetic stableFileId || negb (isInProject stableFileId) then mret ()
  else
    let fileStartLoc := getLocForStartOfFile fileId in
    symbol ← formatter (getFileSymbol fileMetadata);
    let tokenLength := MeasureTokenLength fileStartLoc in
    if 0 <? tokenLength then
      let docComment :=
        if isSynthetic stableFileId then
          match fileName (rel_value (sf_path stableFileId)) with
          | Some filename => lit "File: " ++ filename
          | None => lit "File"
          end
        else lit "File: " ++ rel_value (sf_path stableFileId) in
      saveDefinition_ symbol fileStartLoc
        (Some (si_add_documentation docComment empty_symbolInformation))
    else
      let range := makeEmpty fileStartLoc in
      saveOccurrenceImpl symbol range fileId SymbolRole_Definition ;; mret ().

Definition tu_saveInclude (sourceRange : SourceRange) (fileMetadata : FileMetadata) : TM unit :=
  if isSynthetic (stableFileId fileMetadata) then mret ()
  else
    symbol ← formatter (getFileSymbol fileMetadata);
    '(range, fileId) ← st_lift (fromNonEmpty sourceRange);
    index ← shouldIndex fileId;
    if negb index then mret ()
    else saveOccurrenceImpl symbol range fileId 0 ;; mret ().

(** *** Declarations *)
Definition documented (decl : Decl) : SymbolInformation :=
  DocComment_addToInfo (getDocComment decl) empty_symbolInformation.

Definition saveBindingDecl (bindingDecl : Decl) : TM unit :=
  optSymbol ← formatter (getBindingSymbol bindingDecl);
  if_some optSymbol (fun symbol => saveDefinition_ symbol (getLocation bindingDecl) None).

Definition saveClassTemplateDecl (_ : Decl) : TM unit := mret ().

Definition saveEnumConstantDecl (enumConstantDecl : Decl) : TM unit :=
  optSymbol ← formatter (getEnumConstantSymbol enumConstantDecl);
  if_some optSymbol (fun symbol =>
    let symbolInfo := documented enumConstantDecl in
    st_lift (ENFORCE (bool_decide (decl_getBeginLoc enumConstantDecl = getLocation enumConstantDecl))
               "enumConstantDecl.getBeginLoc() == enumConstantDecl.getLocation()") ;;
    saveDefinition_ symbol (getLocation enumConstantDecl) (Some symbolInfo)).

Definition saveFieldDecl (fieldDecl : Decl) : TM unit :=
  optSymbol ← formatter (getFieldSymbol fieldDecl);
  if_some optSymbol (fun symbol =>
    saveDefinition_ symbol (getLocation fieldDecl) (Some (documented fieldDecl))).

Definition saveFieldReference (fieldDecl : Decl) (loc : SourceLocation) : TM unit :=
  optSymbol ← formatter (getFieldSymbol fieldDecl);
  if_some optSymbol (fun symbol => saveReference_ symbol loc).

(** The loop over the overridden methods. *)
Fixpoint add_overridden (methods : list Decl) (symbolInfo : SymbolInformation)
    : TM SymbolInformation :=
  match methods with
  | [] => mret symbolInfo
  | overridenMethodDecl :: methods =>
      optOverridenSymbol ← formatter (getFunctionSymbol overridenMethodDecl);
      add_overridden methods
        match optOverridenSymbol with
        | Some symbol =>
            si_add_relationship (mkRelationship (ref_value symbol) true true false false) symbolInfo
        | None => symbolInfo
        end
  end.

Definition saveFunctionDecl (functionDecl : Decl) : TM unit :=
  optSymbol ← formatter (getFunctionSymbol functionDecl);
  if_some optSymbol (fun symbol =>
    if isPureVirtual functionDecl || isThisDeclarationADefinition functionDecl then
      let symbolInfo := documented functionDecl in
      symbolInfo ←
        (if isa CXXMethodDecl functionDecl
         then add_overridden (overridden_methods functionDecl) symbolInfo
         else mret symbolInfo);
      saveDefinition_ symbol (getLocation functionDecl) (Some symbolInfo)
    else
      saveForwardDeclaration symbol (getLocation functionDecl) (getDocComment functionDecl)).

Definition saveFunctionTemplateDecl (_ : Decl) : TM unit := mret ().

(** The lambda [startLoc]. *)
Definition namespace_startLoc (namespaceDecl : Decl) : result SourceLocation :=
  if isAnonymousNamespace namespaceDecl then
    if isInlineNamespace namespaceDecl then
      let namespaceToken := findNextToken (decl_getBeginLoc namespaceDecl) in
      ENFORCE (bool_decide (is_Some namespaceToken)) "namespaceToken.has_value()" ;;
      match namespaceToken with
      | Some loc => Ok loc
      | None => Ok (decl_getBeginLoc namespaceDecl)
      end
    else Ok (decl_getBeginLoc namespaceDecl)
  else Ok (getLocation namespaceDecl).

Definition saveNamespaceDecl (namespaceDecl : Decl) : TM unit :=
  optSymbol ← formatter (getNamespaceSymbol namespaceDecl);
  if_some optSymbol (fun symbol =>
    startLoc ← st_lift (namespace_startLoc namespaceDecl);
    let documentation :=
      if isAnonymousNamespace namespaceDecl then lit "anonymous namespace"
      else (if isInlineNamespace namespaceDecl then lit "inline " else [])
             ++ lit "namespace " ++ getName namespaceDecl in
    saveDefinition_ symbol startLoc
      (Some (si_add_documentation documentation empty_symbolInformation))).

(** *** Types *)
Definition typeReferenceDecl (type : CType) : option Decl :=
  match dyn_cast_TypedefType type with
  | Some typedefDecl => Some typedefDecl
  | None =>
      match getAsTagDecl type with
      | Some tagDecl => Some tagDecl
      | None =>
          match dyn_cast_TemplateSpecializationType type with
          | Some templateName =>
              match getAsTemplateDecl templateName with
              | Some templateDecl => template_getTemplatedDecl templateDecl
              | None => None
              end
          | None => None
          end
      end
  end.

Definition trySaveTypeReference (type : option CType) (loc : SourceLocation) : TM unit :=
  if_some type (fun type =>
    if_some (typeReferenceDecl type) (fun namedDecl =>
      optSymbol ← formatter (getNamedDeclSymbol namedDecl);
      if_some optSymbol (fun symbol => saveReference symbol loc (Some namedDecl) 0))).

Fixpoint saveNestedNameSpecifierLoc (nameSpecLoc : list (NestedNameSpecifier * SourceLocation))
    : TM unit :=
  match nameSpecLoc with
  | [] => mret ()
  | (nameSpec, localBeginLoc) :: prefix =>
      match nameSpec with
      | NNS_Namespace namedDecl =>
          optSymbol ← formatter (getNamedDeclSymbol namedDecl);
          if_some optSymbol (fun symbol => saveReference_ symbol localBeginLoc)
      | NNS_TypeSpec type => trySaveTypeReference type localBeginLoc
      | NNS_Identifier | NNS_NamespaceAlias | NNS_Global | NNS_Super => mret ()
      end ;;
      saveNestedNameSpecifierLoc prefix
  end.

(** The declaration that a base specifier pushes on the stack. *)
Definition baseRecordDecl (base : QualType) : result (option Decl) :=
  baseType ← optional_value (getTypePtrOrNull (getCanonicalType base));
  Ok match getAs_RecordType baseType with
     | Some decl => if isa CXXRecordDecl decl then Some decl else None
     | None =>
         match getAs_TemplateSpecializationType baseType with
         | Some templateName =>
             match getAsTemplateDecl templateName with
             | Some templateDecl =>
                 match template_getTemplatedDecl templateDecl with
                 | Some decl => if isa CXXRecordDecl decl then Some decl else None
                 | None => None
                 end
             | None => None
             end
         | None => None
         end
     end.

(** The declarations that the bases push, the last one first. *)
Definition push_bases (cxxRecordDecl : Decl) : result (list Decl) :=
  foldM (fun stack base =>
      opt ← baseRecordDecl base;
      Ok match opt with Some decl => decl :: stack | None => stack end)
    [] (bases cxxRecordDecl).

(** The body of the loop over the inheritance hierarchy, for a declaration that was
    not seen. *)
Definition visit_base (startDecl : Decl) (st : TuIndexer * SymbolInformation) (cxxRecordDecl : Decl)
    : result ((TuIndexer * SymbolInformation) * list Decl) :=
  st ←
    (if negb (bool_decide (cxxRecordDecl = startDecl)) then
       '(optRelatedSymbol, this) ← formatter (getNamedDeclSymbol cxxRecordDecl) st.1;
       Ok (this,
           match optRelatedSymbol with
           | Some symbol =>
               si_add_relationship (mkRelationship (ref_value symbol) false true false false) st.2
           | None => st.2
           end)
     else Ok st);
  if negb (hasDefinition cxxRecordDecl) then Ok (st, [])
  else stack ← push_bases cxxRecordDecl; Ok (st, stack).

(** At most 10'000 iterations. *)
Definition add_bases (tagDecl : Decl) (symbolInfo : SymbolInformation) : TM SymbolInformation :=
  fun this =>
    if isa CXXRecordDecl tagDecl then
      st ← worklist (visit_base tagDecl) MAX_ITERATIONS [tagDecl] ∅ (this, symbolInfo);
      Ok (st.2, st.1)
    else Ok (symbolInfo, this).

Definition isExplicitSpecialization (tagDecl : Decl) : bool :=
  isa ClassTemplateSpecializationDecl tagDecl
  && negb (isa ClassTemplatePartialSpecializationDecl tagDecl)
  && match getSpecializationKind tagDecl with TSK_ExplicitSpecialization => true | _ => false end.

Definition saveTagDecl (tagDecl : Decl) : TM unit :=
  optSymbol ← formatter (getTagSymbol tagDecl);
  if_some optSymbol (fun symbol =>
    if negb (isThisDeclarationADefinition tagDecl) then
      saveForwardDeclaration symbol (getLocation tagDecl) (getDocComment tagDecl)
    else
      symbolInfo ← add_bases tagDecl (documented tagDecl);
      (if isExplicitSpecialization tagDecl then saveReference_ symbol (getLocation tagDecl)
       else mret ()) ;;
      saveDefinition_ symbol (getLocation tagDecl) (Some symbolInfo)).

Definition saveTagTypeLoc (tagTypeLoc : TagTypeLoc) : TM unit :=
  if tag_isDefinition tagTypeLoc then mret ()
  else
    optSymbol ← formatter (getTagSymbol (tag_getDecl tagTypeLoc));
    if_some optSymbol (fun symbol =>
      saveReference symbol (tag_getNameLoc tagTypeLoc) (Some (tag_getDecl tagTypeLoc)) 0).

Definition saveEnumDecl := saveTagDecl.
Definition saveRecordDecl := saveTagDecl.
Definition saveEnumTypeLoc := saveTagTypeLoc.
Definition saveRecordTypeLoc := saveTagTypeLoc.

Definition saveTypedefTypeLoc (typedefTypeLoc : TypedefTypeLoc) : TM unit :=
  if_some (getTypedefNameDecl typedefTypeLoc) (fun typedefNameDecl =>
    optSymbol ← formatter (getTypedefNameSymbol typedefNameDecl);
    if_some optSymbol (fun symbol => saveReference_ symbol (typedef_getNameLoc typedefTypeLoc))).

Definition saveUsingTypeLoc (usingTypeLoc : UsingTypeLoc) : TM unit :=
  if_some (using_getFoundDecl usingTypeLoc) (fun usingShadowDecl =>
    optSymbol ← formatter (getUsingShadowSymbol usingShadowDecl);
    if_some optSymbol (fun symbol => saveReference_ symbol (using_getNameLoc usingTypeLoc))).

(** [SAVE_TEMPLATE_PARM]; the getters of the three classes are one function. *)
Definition saveTemplateParm (decl : Decl) : TM unit :=
  optSymbol ← formatter (getNextLocalSymbol decl);
  if_some optSymbol (fun symbol => saveDefinition_ symbol (getLocation decl) None).
Definition saveNonTypeTemplateParmDecl := saveTemplateParm.
Definition saveTemplateTemplateParmDecl := saveTemplateParm.
Definition saveTemplateTypeParmDecl := saveTemplateParm.

Definition saveTemplateTypeParmTypeLoc (typeLoc : TemplateTypeParmTypeLoc) : TM unit :=
  optSymbol ← formatter (getTemplateTypeParmSymbol (ttp_getDecl typeLoc));
  if_some optSymbol (fun symbol => saveReference_ symbol (ttp_getNameLoc typeLoc)).

Definition saveTemplateSpecializationTypeLoc (typeLoc : TemplateSpecializationTypeLoc) : TM unit :=
  let templateName := getTemplateName typeLoc in
  let templateName := default templateName (getAsQualifiedTemplateName templateName) in
  let templateName := default templateName (getAsDeducedTemplateName templateName) in
  match tn_getKind templateName with
  | TN_Template =>
      templateDecl ← st_lift (optional_value (getAsTemplateDecl templateName));
      optSymbol ←
        (if isa ClassTemplateDecl templateDecl then
           formatter (getRecordSymbol (getTemplatedDecl templateDecl))
         else if isa TypeAliasTemplateDecl templateDecl then
           formatter (getTypedefNameSymbol (getTemplatedDecl templateDecl))
         else if isa TemplateTemplateParmDecl templateDecl then
           formatter (getTemplateTemplateParmSymbol templateDecl)
         else mret None);
      if_some optSymbol (fun symbol => saveReference_ symbol (getTemplateNameLoc typeLoc))
  | TN_UsingTemplate =>
      usingShadowDecl ← st_lift (optional_value (getAsUsingShadowDecl templateName));
      optSymbol ← formatter (getUsingShadowSymbol usingShadowDecl);
      if_some optSymbol (fun symbol => saveReference_ symbol (getTemplateNameLoc typeLoc))
  | TN_OverloadedTemplate | TN_AssumedTemplate | TN_QualifiedTemplate | TN_DeducedTemplate
  | TN_DependentTemplate | TN_SubstTemplateTemplateParm | TN_SubstTemplateTemplateParmPack => mret ()
  end.

(** *** Aliases, [using] and variables *)
Definition saveTypeAliasTemplateDecl (_ : Decl) : TM unit := mret ().

Definition saveTypedefNameDecl (typedefNameDecl : Decl) : TM unit :=
  optSymbol ← formatter (getNamedDeclSymbol typedefNameDecl);
  if_some optSymbol (fun symbol =>
    saveDefinition_ symbol (getLocation typedefNameDecl) (Some (documented typedefNameDecl))).

Definition saveUsingShadowDecl (usingShadowDecl : Decl) : TM unit :=
  optSymbol ← formatter (getUsingShadowSymbol usingShadowDecl);
  if_some optSymbol (fun symbol =>
    if_some (getIntroducer usingShadowDecl) (fun _ =>
      saveDefinition_ symbol (getLocation usingShadowDecl) (Some (documented usingShadowDecl))) ;;
    if_some (getTargetDecl usingShadowDecl) (fun namedDecl =>
      optSymbol ← formatter (getNamedDeclSymbol namedDecl);
      if_some optSymbol (fun symbol => saveReference_ symbol (getLocation usingShadowDecl)))).

Fixpoint save_shadows (shadows : list Decl) : TM unit :=
  match shadows with
  | [] => mret ()
  | usingShadowDecl :: shadows => saveUsingShadowDecl usingShadowDecl ;; save_shadows shadows
  end.
Definition saveUsingDecl (usingDecl : Decl) : TM unit := save_shadows (shadows usingDecl).

Definition saveVarDecl (varDecl : Decl) : TM unit :=
  if isa DecompositionDecl varDecl then mret ()
  else
    let loc := getLocation varDecl in
    if isLocalExternDecl varDecl then
      optSymbol ← formatter (getVarSymbol varDecl);
      if_some optSymbol (fun symbol => saveReference symbol loc (Some varDecl) 0)
    else
      let file_or_member :=
        if isStaticDataMember varDecl || isFileVarDecl varDecl then
          optSymbol ← formatter (getVarSymbol varDecl);
          if_some optSymbol (fun symbol => saveDefinition_ symbol loc (Some (documented varDecl)))
        else mret () in
      if isLocalVarDeclOrParm varDecl then
        optSymbol ← formatter (getVarSymbol varDecl);
        if_some optSymbol (fun symbol => saveDefinition_ symbol loc None ;; file_or_member)
      else file_or_member.

Definition saveVarTemplateDecl (_ : Decl) : TM unit := mret ().

(** *** Expressions *)
Definition saveCUDAKernelCallExpr (cudaKernelCallExpr : CUDAKernelCallExpr) : TM unit :=
  if_some (getConfig cudaKernelCallExpr) (fun '(calleeDecl, exprLoc) =>
    if_some calleeDecl (fun calleeDecl =>
      if isa NamedDecl calleeDecl then
        optSymbolName ← formatter (getNamedDeclSymbol calleeDecl);
        if_some optSymbolName (fun symbolName => saveReference_ symbolName exprLoc)
      else mret ())).

Definition saveCXXConstructExpr (cxxConstructExpr : CXXConstructExpr) : TM unit :=
  if_some (getConstructor cxxConstructExpr) (fun cxxConstructorDecl =>
    if isImplicit cxxConstructorDecl then mret ()
    else
      optSymbol ← formatter (getFunctionSymbol cxxConstructorDecl);
      if_some optSymbol (fun symbol =>
        saveReference_ symbol (construct_getBeginLoc cxxConstructExpr))).

Definition saveDeclRefExpr (declRefExpr : DeclRefExpr) : TM unit :=
  if_some (ref_getFoundDecl declRefExpr) (fun foundDecl =>
    optSymbol ← formatter (getNamedDeclSymbol foundDecl);
    if_some optSymbol (fun symbol =>
      saveReference symbol (ref_getLocation declRefExpr) (Some foundDecl) 0)).

Definition saveMemberExpr (memberExpr : MemberExpr) : TM unit :=
  let namedDecl := getMemberDecl memberExpr in
  if negb (isa NamedDecl namedDecl) then mret ()
  else
    optSymbol ← formatter (getNamedDeclSymbol namedDecl);
    if_some optSymbol (fun symbol =>
      if negb (isIdentifier (dni_getName (member_getMemberNameInfo memberExpr))) then mret ()
      else saveReference symbol (getMemberLoc memberExpr) (Some namedDecl) 0).

Definition MAX_UNRESOLVED_DECL_LIMIT : Z := 16.

(** The loop over the candidates; [count] of them have been saved. *)
Fixpoint save_unresolved (decls : list (option Decl)) (loc : SourceLocation) (count : Z) : TM unit :=
  match decls with
  | [] => mret ()
  | None :: decls => save_unresolved decls loc count
  | Some namedDecl :: decls =>
      optSymbol ← formatter (getNamedDeclSymbol namedDecl);
      match optSymbol with
      | None => save_unresolved decls loc count
      | Some symbol =>
          saveReference_ symbol loc ;;
          let count := count + 1 in
          if count =? MAX_UNRESOLVED_DECL_LIMIT then mret () else save_unresolved decls loc count
      end
  end.
Definition saveUnresolvedLookupExpr (unresolvedLookupExpr : UnresolvedLookupExpr) : TM unit :=
  save_unresolved (decls unresolvedLookupExpr) (lookup_getNameLoc unresolvedLookupExpr) 0.

(** A call of the name resolver. *)
Definition tu_tryResolveMember (type : option CType) (info : DeclarationNameInfo) : TM (list Decl) :=
  fun this =>
    '(namedDecls, resolver) ← tryResolveMember (approximateNameResolver this) type info;
    Ok (namedDecls, set_approximateNameResolver resolver this).

Fixpoint save_members (namedDecls : list Decl) (loc : SourceLocation) : TM unit :=
  match namedDecls with
  | [] => mret ()
  | namedDecl :: namedDecls =>
      optSymbol ← formatter (getNamedDeclSymbol namedDecl);
      if_some optSymbol (fun symbol => saveReference symbol loc (Some namedDecl) 0) ;;
      save_members namedDecls loc
  end.

Definition trySaveMemberReferenceViaLookup (baseType : QualType) (memberNameInfo : DeclarationNameInfo)
    : TM unit :=
  match getTypePtrOrNull baseType with
  | None => mret ()
  | Some type =>
      let derefBaseType :=
        if isPointerType type || isReferenceType type then getPointeeType type
        else getCanonicalType baseType in
      namedDecls ← tu_tryResolveMember (getTypePtrOrNull derefBaseType) memberNameInfo;
      save_members namedDecls (dni_getLoc memberNameInfo)
  end.

Definition saveCXXDependentScopeMemberExpr (expr : UnresolvedMember) : TM unit :=
  trySaveMemberReferenceViaLookup (um_getBaseType expr) (um_getMemberNameInfo expr).
Definition saveUnresolvedMemberExpr (expr : UnresolvedMember) : TM unit :=
  trySaveMemberReferenceViaLookup (um_getBaseType expr) (um_getMemberNameInfo expr).

(** *** The calls of the AST visitor

    [VISIT_DECL], [VISIT_EXPR] and [VISIT_TYPE_LOC] of AstConsumer.cc. *)
Definition saveDecl (kind : DeclClass) (decl : Decl) : TM unit :=
  match kind with
  | BindingDecl => saveBindingDecl decl
  | ClassTemplateDecl => saveClassTemplateDecl decl
  | EnumConstantDecl => saveEnumConstantDecl decl
  | EnumDecl => saveEnumDecl decl
  | FieldDecl => saveFieldDecl decl
  | FunctionDecl => saveFunctionDecl decl
  | FunctionTemplateDecl => saveFunctionTemplateDecl decl
  | NamespaceDecl => saveNamespaceDecl decl
  | NonTypeTemplateParmDecl => saveNonTypeTemplateParmDecl decl
  | RecordDecl => saveRecordDecl decl
  | TemplateTemplateParmDecl => saveTemplateTemplateParmDecl decl
  | TemplateTypeParmDecl => saveTemplateTypeParmDecl decl
  | TypeAliasTemplateDecl => saveTypeAliasTemplateDecl decl
  | TypedefNameDecl => saveTypedefNameDecl decl
  | UsingShadowDecl => saveUsingShadowDecl decl
  | UsingDecl => saveUsingDecl decl
  | VarDecl => saveVarDecl decl
  | VarTemplateDecl => saveVarTemplateDecl decl
  | _ => mret ()
  end.

Definition visit (event : AstEvent) : TM unit :=
  match event with
  | VisitDecl kind decl => saveDecl kind decl
  | VisitCUDAKernelCallExpr expr => saveCUDAKernelCallExpr expr
  | VisitCXXConstructExpr expr => saveCXXConstructExpr expr
  | VisitCXXDependentScopeMemberExpr expr => saveCXXDependentScopeMemberExpr expr
  | VisitDeclRefExpr expr => saveDeclRefExpr expr
  | VisitMemberExpr expr => saveMemberExpr expr
  | VisitUnresolvedLookupExpr expr => saveUnresolvedLookupExpr expr
  | VisitUnresolvedMemberExpr expr => saveUnresolvedMemberExpr expr
  | VisitEnumTypeLoc typeLoc => saveEnumTypeLoc typeLoc
  | VisitRecordTypeLoc typeLoc => saveRecordTypeLoc typeLoc
  | VisitTemplateSpecializationTypeLoc typeLoc => saveTemplateSpecializationTypeLoc typeLoc
  | VisitTemplateTypeParmTypeLoc typeLoc => saveTemplateTypeParmTypeLoc typeLoc
  | VisitTypedefTypeLoc typeLoc => saveTypedefTypeLoc typeLoc
  | VisitUsingTypeLoc typeLoc => saveUsingTypeLoc typeLoc
  | TraverseNestedNameSpecifierLoc nameSpecLoc => saveNestedNameSpecifierLoc nameSpecLoc
  | TraverseConstructorInitializerMember fieldDecl loc => saveFieldReference fieldDecl loc
  end.

(** *** Emission *)
Definition emit_symbolInfo (symbol : SymbolNameRef) (symInfo : SymbolInformation)
    (scipDocument : Document) : Document :=
  add_symbol (si_set_symbol (ref_value symbol) symInfo) scipDocument.

(** What is emitted is moved out of the indexer. *)
Definition tu_emitDocumentOccurrencesAndSymbols (this : TuIndexer) (deterministic : bool)
    (fileId : FileID) (scipDocument : Document) : TuIndexer * Document :=
  match documentMap this !! fileId with
  | None => (this, scipDocument)
  | Some doc =>
      let scipDocument := foldl (fun d occ => add_occurrence occ d) scipDocument (pd_occurrences doc) in
      let scipDocument :=
        extractTransform_map SymbolNameRef_cmp (iterate (symbolInfos doc)) deterministic
          (fun d symbol symInfo => emit_symbolInfo symbol symInfo d) scipDocument in
      (set_documentMap
         (<[fileId := mkPartialDocument (map (fun _ => empty_occurrence) (pd_occurrences doc)) ∅]>
            (documentMap this)) this,
       scipDocument)
  end.

Definition tu_emitExternalSymbols (this : TuIndexer) (deterministic : bool) (indexShard : Index)
    : TuIndexer * Index :=
  let indexShard :=
    extractTransform_map SymbolNameRef_cmp (iterate (tu_externalSymbols this)) deterministic
      (fun i symbol symbolInfo => add_external_symbol (si_set_symbol (ref_value symbol) symbolInfo) i)
      indexShard in
  (set_tu_externalSymbols ∅ this, indexShard).

Definition tu_emitForwardDeclarations (this : TuIndexer) (deterministic : bool)
    (forwardDeclIndex : ForwardDeclIndex) : result (TuIndexer * ForwardDeclIndex) :=
  '(m, forwardDeclIndex) ← fwd_emit (forwardDeclarations this) deterministic forwardDeclIndex;
  Ok (set_forwardDeclarations m this, forwardDeclIndex).
End TuIndexer.
