(* ===== verification/TuInvariants.v ===== *)
(** * Invariants of indexing

    Whatever the visitor calls: the indexer's documents, external symbols and forward
    declarations stay well-formed, the file metadata map is not changed, and the
    recursion over contexts never runs out of fuel. *)
From S2P Require Import Prelude Worklist CppString Ordering Paths PackageMaps IdPaths Symbols.
From S2P Require Import ScipMessages IndexBuilder Clang Formatter QualifiedNames MacroIndexer TuAst.
From S2P Require Import NameResolver TuIndexer.

(** ** Operations that keep an invariant *)
Definition fails_well {A} (m : result A) : Prop := m <> Err OutOfFuel.

Lemma fails_well_Ok {A} (a : A) : fails_well (Ok a).
Proof. done. Qed.
Lemma fails_well_ENFORCE `{BuildMode} b what : fails_well (ENFORCE b what).
Proof. unfold fails_well, ENFORCE, ENFORCE_NO_TIMER. by destruct debugMode, b. Qed.
Lemma fails_well_optional {A} (o : option A) : fails_well (optional_value o).
Proof. by destruct o. Qed.
Lemma fails_well_bind {A B} (m : result A) (k : A -> result B) :
  fails_well m -> (forall a, fails_well (k a)) -> fails_well (m ≫= k).
Proof. destruct m as [a|e]; [intros _ Hk; apply Hk|]. intros Hm _ He. by injection He as ->. Qed.
Lemma fails_well_fmap {A B} (f : A -> B) (m : result A) : fails_well m -> fails_well (f <$> m).
Proof. destruct m as [a|e]; [done|]. intros Hm He. by injection He as ->. Qed.

Section Safe.
Context {S : Type} (I : S -> Prop) (R : S -> S -> Prop) `{!PreOrder R}.

(** From a state in [I] the operation ends in a related state in [I], or fails for a
    reason of the program. *)
Definition safe {A} (m : ST S A) : Prop := forall s, I s ->
  match m s with Ok (_, s') => I s' /\ R s s' | Err e => e <> OutOfFuel end.

Lemma safe_ret {A} (a : A) : safe (mret a).
Proof. intros s Hs. split; [done|reflexivity]. Qed.
Lemma safe_gets {A} (f : S -> A) : safe (st_gets f).
Proof. intros s Hs. split; [done|reflexivity]. Qed.
Lemma safe_lift {A} (m : result A) : fails_well m -> safe (st_lift m).
Proof.
  intros Hm s Hs. unfold st_lift. destruct m; [by split|]. simpl. intros ->. by apply Hm.
Qed.
Lemma safe_modify f : (forall s, I s -> I (f s) /\ R s (f s)) -> safe (st_modify f).
Proof. intros Hf s Hs. by apply Hf. Qed.
Lemma safe_bind {A B} (m : ST S A) (k : A -> ST S B) :
  safe m -> (forall a, safe (k a)) -> safe (m ≫= k).
Proof.
  intros Hm Hk s Hs. rewrite ST_bind_unfold. specialize (Hm s Hs). destruct (m s) as [[a s1]|e]; [|done].
  destruct Hm as [H1 R1]. specialize (Hk a s1 H1). destruct (k a s1) as [[b s2]|e]; [|done].
  destruct Hk as [H2 R2]. split; [done|by etrans].
Qed.
Lemma safe_optional {A B} (o : option A) (k : A -> ST S (option B)) :
  (forall a, safe (k a)) -> safe (st_optional o k).
Proof. destruct o; [intros Hk; apply Hk|intros _; apply safe_ret]. Qed.
End Safe.

Create HintDb safe discriminated.
#[export] Hint Resolve fails_well_Ok fails_well_ENFORCE fails_well_optional : safe.
#[export] Hint Extern 2 (fails_well (Err _)) => (unfold fails_well; discriminate) : safe.

(** Takes an operation apart. *)
Ltac safe_step :=
  match goal with
  | |- fails_well (_ ≫= _) => apply fails_well_bind; [|intros]
  | |- fails_well (_ <$> _) => apply fails_well_fmap
  | |- safe _ _ (_ ≫= _) => apply safe_bind; [apply _| |intros]
  | |- safe _ _ (mret _) => apply safe_ret; apply _
  | |- safe _ _ (st_gets _) => apply safe_gets; apply _
  | |- safe _ _ (st_lift _) => apply safe_lift; [apply _|]
  | |- safe _ _ (st_optional _ _) => apply safe_optional; [apply _|intros]
  | |- context [match ?x with _ => _ end] => destruct x eqn:?
  end.
Ltac safe_auto := repeat (cbv zeta; first [solve [eauto with safe]|safe_step]); eauto with safe.

(** ** The formatter *)
Section FormatterSafe.
Context `{BM : BuildMode, AR : AbslReplace, CF : ClangFileID}.
Context {SM : ClangSourceManager} {CA : ClangAst} {CL : ClangAstLaws}.
Context `{TH : TextHash}.

Definition same_files (f f' : SymbolFormatter) : Prop :=
  sfm_fileMetadataMap f' = sfm_fileMetadataMap f.
#[global] Instance same_files_preorder : PreOrder same_files.
Proof. split; [done|]. intros x y z H1 H2. unfold same_files in *. congruence. Qed.

Abbreviation fsafe m := (safe (fun _ => True) same_files m) (only parsing).

Lemma fsafe_modify f :
  (forall s, sfm_fileMetadataMap (f s) = sfm_fileMetadataMap s) -> fsafe (st_modify f).
Proof. intros Hf. apply safe_modify. intros s _. split; [done|apply Hf]. Qed.

Lemma foldM_fails_well {A T} (f : T -> A -> result T) l s :
  (forall s x, fails_well (f s x)) -> fails_well (foldM f s l).
Proof.
  intros Hf. revert s. induction l as [|x l IH]; intros s; [done|]. cbn [foldM].
  apply fails_well_bind; [apply Hf|intros; apply IH].
Qed.

Lemma descriptor_fails_well d out : fails_well (DescriptorBuilder_formatTo d out).
Proof. unfold DescriptorBuilder_formatTo. safe_auto. Qed.
#[local] Hint Resolve descriptor_fails_well : safe.

Lemma format_fails_well sb : fails_well (format sb).
Proof.
  unfold format, SymbolBuilder_formatTo. apply fails_well_fmap, foldM_fails_well. safe_auto.
Qed.
Lemma formatContextual_fails_well c d : fails_well (formatContextual c d).
Proof. unfold formatContextual, SymbolBuilder_formatContextual. safe_auto. Qed.
#[local] Hint Resolve format_fails_well formatContextual_fails_well : safe.

Lemma formatIn_safe c d : fsafe (formatIn c d).
Proof. unfold formatIn. safe_auto. Qed.
#[local] Hint Resolve formatIn_safe : safe.

Lemma cache_insert_safe `{Countable K} (get : SymbolFormatter -> gmap K SymbolNameRef) set k s what :
  (forall m st, sfm_fileMetadataMap (set m st) = sfm_fileMetadataMap st) ->
  fsafe (cache_insert get set k s what).
Proof. intros Hset. unfold cache_insert. safe_auto. by apply fsafe_modify. Qed.

Lemma next_counter_safe get set f :
  (forall m st, sfm_fileMetadataMap (set m st) = sfm_fileMetadataMap st) ->
  fsafe (next_counter get set f).
Proof. intros Hset. unfold next_counter. safe_auto. by apply fsafe_modify. Qed.

Lemma cached_safe `{Countable K} (get : SymbolFormatter -> gmap K SymbolNameRef) set k m :
  (forall m st, sfm_fileMetadataMap (set m st) = sfm_fileMetadataMap st) ->
  fsafe m -> fsafe (cached get set k m).
Proof. intros Hset Hm. unfold cached. safe_auto. by apply cache_insert_safe. Qed.

Lemma getSymbolCached_safe d m : fsafe m -> fsafe (getSymbolCached d m).
Proof. intros. by apply cached_safe. Qed.
Lemma getSymbolCached_loc_safe d l m : fsafe m -> fsafe (getSymbolCached_loc d l m).
Proof. intros. by apply cached_safe. Qed.

Lemma getLocationBasedSymbolPrefix_safe l : fsafe (getLocationBasedSymbolPrefix l).
Proof.
  unfold getLocationBasedSymbolPrefix. destruct (negb _); [safe_auto|].
  apply getSymbolCached_loc_safe. safe_auto.
Qed.
#[local] Hint Resolve getLocationBasedSymbolPrefix_safe : safe.

Section Contexts.
Variable rec : Decl -> SourceLocation -> ST SymbolFormatter (option SymbolNameRef).

Lemma getNamespaceSymbolPrefix_safe_ d l :
  (forall l, fsafe (rec (getDeclContext d) l)) -> fsafe (getNamespaceSymbolPrefix_ rec d l).
Proof.
  intros Hrec. unfold getNamespaceSymbolPrefix_. apply getSymbolCached_loc_safe. safe_auto.
Qed.
Lemma getTagSymbol_safe_ d : (forall l, fsafe (rec (getDeclContext d) l)) -> fsafe (getTagSymbol_ rec d).
Proof.
  intros Hrec. unfold getTagSymbol_. apply getSymbolCached_safe. safe_auto.
  by apply next_counter_safe.
Qed.
Lemma getFunctionSymbol_safe_ d :
  (forall l, fsafe (rec (getDeclContext d) l)) -> fsafe (getFunctionSymbol_ rec d).
Proof. intros Hrec. unfold getFunctionSymbol_. apply getSymbolCached_safe. safe_auto. Qed.
End Contexts.

Lemma getContextSymbol_fuel_safe n d l : (nesting d < n)%nat -> fsafe (getContextSymbol_fuel n d l).
Proof.
  revert d l. induction n as [|n IH]; intros d l Hn; [lia|]. cbn [getContextSymbol_fuel].
  assert (isa TranslationUnitDecl d = false ->
    forall l, fsafe (getContextSymbol_fuel n (getDeclContext d) l)) as Hrec.
  { intros Ht l'. apply IH. pose proof (nesting_context d Ht). lia. }
  unfold getContextSymbol_. cbv zeta.
  destruct (isa NamespaceDecl d) eqn:EN.
  { apply getNamespaceSymbolPrefix_safe_, Hrec. by apply (isa_not NamespaceDecl). }
  destruct (isa TagDecl d) eqn:ET.
  { apply getTagSymbol_safe_, Hrec. by apply isa_tag_not. }
  destruct (isa TranslationUnitDecl d || isa ExternCContextDecl d) eqn:EU; [safe_auto|].
  destruct (isa FunctionDecl d) eqn:EF; [|safe_auto].
  apply getFunctionSymbol_safe_, Hrec. by apply orb_false_iff in EU as [? _].
Qed.

Lemma getContextSymbol_safe d l : fsafe (getContextSymbol d l).
Proof. apply getContextSymbol_fuel_safe. lia. Qed.
#[local] Hint Resolve getContextSymbol_safe : safe.

Lemma getTagSymbol_safe d : fsafe (getTagSymbol d).
Proof. apply getTagSymbol_safe_. safe_auto. Qed.
Lemma getFunctionSymbol_safe d : fsafe (getFunctionSymbol d).
Proof. apply getFunctionSymbol_safe_. safe_auto. Qed.
Lemma getNamespaceSymbol_safe d : fsafe (getNamespaceSymbol d).
Proof. apply getNamespaceSymbolPrefix_safe_. safe_auto. Qed.
Lemma inContext_safe d desc : fsafe (inContext d desc).
Proof. unfold inContext. safe_auto. Qed.
#[local] Hint Resolve getTagSymbol_safe getFunctionSymbol_safe getNamespaceSymbol_safe inContext_safe : safe.

Lemma getNextLocalSymbol_safe d : fsafe (getNextLocalSymbol d).
Proof.
  unfold getNextLocalSymbol. destruct (declNameIsEmpty d); [safe_auto|].
  apply getSymbolCached_safe. safe_auto. by apply next_counter_safe.
Qed.
Lemma getEnumConstantSymbol_safe d : fsafe (getEnumConstantSymbol d).
Proof. unfold getEnumConstantSymbol, getEnumSymbol. apply getSymbolCached_safe. safe_auto. Qed.
Lemma getFieldSymbol_safe d : fsafe (getFieldSymbol d).
Proof.
  unfold getFieldSymbol. destruct (declNameIsEmpty d); [safe_auto|].
  apply getSymbolCached_safe. safe_auto.
Qed.
Lemma getTypedefNameSymbol_safe d : fsafe (getTypedefNameSymbol d).
Proof. apply getSymbolCached_safe. safe_auto. Qed.

(** A type alias is not a type alias template: two rounds are enough. *)
Lemma usingShadowSuffix_fails_well d : fails_well (usingShadowSuffix 2 d).
Proof.
  cbn [usingShadowSuffix].
  repeat match goal with |- fails_well (if ?b then Ok _ else _) => destruct b; [done|] end.
  destruct (isa TypeAliasTemplateDecl d) eqn:E; [|done].
  destruct (isa_templated d) as (_ & _ & Ht & _). specialize (Ht E).
  rewrite (isa_not TypedefNameDecl TypeAliasTemplateDecl (getTemplatedDecl d)) //.
  repeat match goal with |- fails_well (if ?b then Ok _ else _) => destruct b; [done|] end. done.
Qed.
#[local] Hint Resolve usingShadowSuffix_fails_well : safe.

Lemma getUsingShadowSymbol_safe d : fsafe (getUsingShadowSymbol d).
Proof.
  unfold getUsingShadowSymbol. destruct (declNameIsEmpty d); [safe_auto|].
  apply getSymbolCached_safe. safe_auto.
Qed.
#[local] Hint Resolve getNextLocalSymbol_safe getEnumConstantSymbol_safe getFieldSymbol_safe
  getTypedefNameSymbol_safe getUsingShadowSymbol_safe : safe.

Lemma getVarSymbol_safe d : fsafe (getVarSymbol d).
Proof.
  unfold getVarSymbol, getLocalVarOrParmSymbol.
  destruct (isLocalVarDeclOrParm d && negb (isLocalExternDecl d)); [safe_auto|].
  destruct (declNameIsEmpty d); [safe_auto|]. apply getSymbolCached_safe. safe_auto.
Qed.
#[local] Hint Resolve getVarSymbol_safe : safe.

Lemma getNamedDeclSymbol_safe d : fsafe (getNamedDeclSymbol d).
Proof.
  unfold getNamedDeclSymbol, FOR_EACH_DECL_TO_BE_INDEXED. cbn [dispatch].
  unfold getBindingSymbol, getClassTemplateSymbol, getRecordSymbol, getEnumSymbol,
    getFunctionTemplateSymbol, getNonTypeTemplateParmSymbol, getTemplateTemplateParmSymbol,
    getTemplateTypeParmSymbol, getTypeAliasTemplateSymbol, getUsingSymbol, getVarTemplateSymbol.
  safe_auto.
Qed.

Lemma getMacroSymbol_safe l : fsafe (getMacroSymbol l).
Proof. unfold getMacroSymbol. safe_auto. by apply cache_insert_safe. Qed.
Lemma getFileSymbol_safe md : fsafe (getFileSymbol md).
Proof. unfold getFileSymbol. safe_auto. by apply cache_insert_safe. Qed.
End FormatterSafe.

#[export] Hint Resolve getTagSymbol_safe getFunctionSymbol_safe getNamespaceSymbol_safe
  getNextLocalSymbol_safe getEnumConstantSymbol_safe getFieldSymbol_safe getTypedefNameSymbol_safe
  getUsingShadowSymbol_safe getVarSymbol_safe getNamedDeclSymbol_safe getMacroSymbol_safe
  getFileSymbol_safe : safe.

(** ** The indexer *)
Section TuSafe.
Context `{BM : BuildMode, AR : AbslReplace, CF : ClangFileID}.
Context {SM : ClangSourceManager} {CA : ClangAst} {CL : ClangAstLaws} {CT : ClangTuAst}.
Context `{AS : AbslStrings, U8 : Utf8, AE : AbslEmplace, TH : TextHash, SE : ScipEnums}.
Context `{LP : LlvmPath}.

Definition is_definition (o : Occurrence) : Prop :=
  Z.land (symbol_roles o) SymbolRole_Definition = SymbolRole_Definition.

(** Every symbol that has information is defined in the document. *)
Record doc_ok (doc : PartialDocument) : Prop := {
  doc_ranges o : o ∈ pd_occurrences doc -> range_wf (range o);
  doc_defined s i : symbolInfos doc !! s = Some i ->
    si_documentation i <> []
    /\ exists o, o ∈ pd_occurrences doc /\ occ_symbol o = ref_value s /\ is_definition o;
}.

Definition tu_stableFileId (this : TuIndexer) (f : FileID) : option StableFileId :=
  getStableFileId (sfm_fileMetadataMap (symbolFormatter this)) f.

(** A path of the project, of a file that is to be indexed. *)
Definition indexed_path (this : TuIndexer) (p : RootRelativePathRef) : Prop :=
  exists f sf, f ∈ fileIdsToBeIndexed this /\ tu_stableFileId this f = Some sf
    /\ isInProject sf = true /\ sf_path sf = p.

Record tu_ok (this : TuIndexer) : Prop := {
  ok_document f doc : documentMap this !! f = Some doc -> f ∈ fileIdsToBeIndexed this /\ doc_ok doc;
  ok_external s i : tu_externalSymbols this !! s = Some i -> si_documentation i <> [];
  ok_forward s v p r : forwardDeclarations this !! s = Some v -> (p, r) ∈ ranges v ->
    indexed_path this p;
  ok_forward_nonempty s v : forwardDeclarations this !! s = Some v -> ranges v <> [];
}.

(** What indexing does not change. *)
Definition same_env (this this' : TuIndexer) : Prop :=
  fileIdsToBeIndexed this' = fileIdsToBeIndexed this
  /\ sfm_fileMetadataMap (symbolFormatter this') = sfm_fileMetadataMap (symbolFormatter this).
#[global] Instance same_env_preorder : PreOrder same_env.
Proof. split; [done|]. intros x y z [H1 H2] [H3 H4]. split; congruence. Qed.

Abbreviation tsafe m := (safe tu_ok same_env m) (only parsing).

Lemma indexed_path_env this this' p : same_env this this' -> indexed_path this p -> indexed_path this' p.
Proof.
  intros [E1 E2] (f & sf & H1 & H2 & H3). exists f, sf. unfold tu_stableFileId in *.
  by rewrite E1 E2.
Qed.

Lemma formatter_safe {A} (m : ST SymbolFormatter A) :
  safe (fun _ => True) same_files m -> tsafe (formatter m).
Proof.
  intros Hm this [H1 H2 H3 H4]. unfold formatter. specialize (Hm (symbolFormatter this) I).
  destruct (m (symbolFormatter this)) as [[a f]|]; [|done]. destruct Hm as [_ Hf].
  assert (same_env this (set_symbolFormatter f this)) as He by by split.
  split; [|done]. split; [done..| |done]. intros s v p r Hv Hp.
  eapply indexed_path_env; [exact He|by eapply H3].
Qed.

Lemma tryResolveMember_fails_well r type info :
  fails_well (tryResolveMember r type info).
Proof.
  unfold tryResolveMember, MemberLookupKey_new. safe_auto.
  generalize (∅ : gset CType) as seen. generalize ([] : list Decl) as rs. generalize [c] as st.
  generalize MAX_ITERATIONS as n. induction n as [|n IH]; intros st rs seen; destruct st; try done.
  cbn [worklist]. destruct (bool_decide _); [apply IH|].
  apply fails_well_bind; [|intros; apply IH]. unfold lookup_in_type. safe_auto.
Qed.

Lemma tu_tryResolveMember_safe type info : tsafe (tu_tryResolveMember type info).
Proof.
  intros this [H1 H2 H3 H4]. unfold tu_tryResolveMember.
  pose proof (tryResolveMember_fails_well (approximateNameResolver this) type info) as Hf.
  destruct (tryResolveMember _ _ _) as [[ds r]|e]; simpl; [|by intros ->].
  split; [|done]. by split.
Qed.

Lemma fromNonEmpty_spec r :
  match fromNonEmpty r with
  | Ok (_, f) => f = getFileID (getBegin r)
  | Err e => e <> OutOfFuel
  end.
Proof.
  assert (fails_well (fromNonEmpty r)) as Hf by (unfold fromNonEmpty; safe_auto).
  destruct (fromNonEmpty r) as [[rg f]|e] eqn:E; [|by intros ->].
  unfold fromNonEmpty in E. inv_ok. done.
Qed.

Lemma getTokenExpansionRange_spec l :
  match getTokenExpansionRange l with Ok (_, f) => f = getFileID l | Err e => e <> OutOfFuel end.
Proof.
  unfold getTokenExpansionRange.
  pose proof (fails_well_ENFORCE (0 <? MeasureTokenLength l) "tokenLength > 0") as He.
  destruct (ENFORCE _ _) as [[]|e]; [|by intros [= ->]]. simpl. apply fromNonEmpty_spec.
Qed.

Lemma addTo_range_wf' r : range_wf (FileLocalSourceRange_addTo r []).
Proof. apply addTo_range_wf. Qed.

(** A document with one more occurrence. *)
Lemma add_occurrence_ok doc s rg roles :
  doc_ok doc ->
  doc_ok (mkPartialDocument
    (pd_occurrences doc ++ [occ_set_symbol_roles roles (occ_set_symbol s
       (occ_set_range (FileLocalSourceRange_addTo rg []) empty_occurrence))]) (symbolInfos doc)).
Proof.
  intros [H1 H2]. split; simpl.
  - intros o [?| ->%list_elem_of_singleton]%elem_of_app; [by apply H1|apply addTo_range_wf].
  - intros s' i Hi. destruct (H2 s' i Hi) as (Hd & o & Ho & ?). split; [done|]. exists o.
    split; [apply elem_of_app; by left|done].
Qed.

Lemma default_doc_ok this f :
  tu_ok this -> doc_ok (default PartialDocument_default (documentMap this !! f)).
Proof.
  intros Hok. destruct (documentMap this !! f) as [doc|] eqn:E; simpl; [by eapply ok_document|].
  split; simpl; [by intros o ?%elem_of_nil|]. intros s i. by rewrite lookup_empty.
Qed.

Lemma set_documentMap_ok this f doc :
  tu_ok this -> f ∈ fileIdsToBeIndexed this -> doc_ok doc ->
  tu_ok (set_documentMap (<[f := doc]> (documentMap this)) this)
  /\ same_env this (set_documentMap (<[f := doc]> (documentMap this)) this).
Proof.
  intros [H1 H2 H3 H4] Hf Hdoc. split; [|done]. split; [|done..]. intros f' d. simpl.
  rewrite lookup_insert_Some. intros [[<- <-]|[_ ?]]; [done|by apply H1].
Qed.

Lemma saveOccurrenceImpl_spec s rg f roles this :
  tu_ok this -> f ∈ fileIdsToBeIndexed this ->
  exists this', saveOccurrenceImpl s rg f roles this = Ok (f, this')
    /\ tu_ok this' /\ same_env this this'
    /\ exists doc o, documentMap this' !! f = Some doc /\ o ∈ pd_occurrences doc
         /\ occ_symbol o = ref_value s /\ symbol_roles o = roles.
Proof.
  intros Hok Hf. unfold saveOccurrenceImpl. rewrite ST_bind_unfold /st_modify.
  destruct (set_documentMap_ok this f _ Hok Hf (add_occurrence_ok _ (ref_value s) rg roles
    (default_doc_ok this f Hok))) as [H1 H2].
  eexists. split; [done|]. split; [exact H1|]. split; [exact H2|].
  eexists _, _. split; [simpl; apply lookup_insert_eq|].
  split; [apply elem_of_app; right; by apply list_elem_of_singleton|done].
Qed.

Lemma saveOccurrence_spec s l roles this :
  tu_ok this -> getFileID l ∈ fileIdsToBeIndexed this ->
  match saveOccurrence s l roles this with
  | Ok (f, this') => tu_ok this' /\ same_env this this' /\ f = getFileID l
      /\ exists doc o, documentMap this' !! f = Some doc /\ o ∈ pd_occurrences doc
           /\ occ_symbol o = ref_value s /\ symbol_roles o = roles
  | Err e => e <> OutOfFuel
  end.
Proof.
  intros Hok Hl. unfold saveOccurrence. rewrite ST_bind_unfold /st_lift.
  pose proof (getTokenExpansionRange_spec l) as Hr.
  destruct (getTokenExpansionRange l) as [[rg f]|e]; [|done]. subst f. rewrite bind_Ok.
  cbv beta iota.
  destruct (saveOccurrenceImpl_spec s rg (getFileID l) roles this Hok Hl) as (this' & -> & H1 & H2 & H3).
  done.
Qed.

Lemma land_lor_r a b : Z.land (Z.lor a b) b = b.
Proof. apply Z.bits_inj'. intros n _. rewrite Z.land_spec Z.lor_spec. by destruct (Z.testbit a n), (Z.testbit b n). Qed.

(** A definition: the occurrence, then the information. *)
Lemma saveDefined_safe s l roles info this :
  tu_ok this -> getFileID l ∈ fileIdsToBeIndexed this ->
  (forall i, info = Some i -> si_documentation i <> []) ->
  match (doc ← saveOccurrence s l (Z.lor roles SymbolRole_Definition);
         if_some info (fun i => emplace_symbolInfo doc s i)) this with
  | Ok (_, this') => tu_ok this' /\ same_env this this'
  | Err e => e <> OutOfFuel
  end.
Proof.
  intros Hok Hl Hinfo. rewrite ST_bind_unfold.
  pose proof (saveOccurrence_spec s l (Z.lor roles SymbolRole_Definition) this Hok Hl) as Hs.
  destruct (saveOccurrence _ _ _ this) as [[f this']|]; [|done].
  destruct Hs as (H1 & H2 & -> & doc & o & Hdoc & Ho & Hos & Hor).
  destruct info as [i|]; simpl; [|done]. rewrite Hdoc. simpl.
  destruct (symbolInfos doc !! s) eqn:Es; [done|].
  destruct (ok_document _ H1 _ _ Hdoc) as [Hf [D1 D2]].
  destruct (set_documentMap_ok this' (getFileID l)
    (mkPartialDocument (pd_occurrences doc) (<[s:=i]> (symbolInfos doc))) H1 Hf) as [H3 H4].
  { split; [exact D1|]. intros s' i'. simpl. rewrite lookup_insert_Some.
    intros [[<- <-]|[_ Hi]]; [|by apply D2]. split; [by apply Hinfo|]. exists o.
    split_and!; [done..|]. unfold is_definition. rewrite Hor. apply land_lor_r. }
  split; [done|by etrans].
Qed.

Lemma saveExternalSymbol_safe s i : si_documentation i <> [] -> tsafe (saveExternalSymbol s i).
Proof.
  intros Hi. apply safe_modify. intros this [H1 H2 H3 H4].
  assert (forall s i', si_documentation i' <> [] ->
    tu_ok (set_tu_externalSymbols (<[s:=i']> (tu_externalSymbols this)) this)) as Hins.
  { intros s' i' Hi'. split; [done| |done..]. intros s'' i''. simpl.
    rewrite lookup_insert_Some. intros [[_ <-]|[_ ?]]; [done|by eapply H2]. }
  destruct (tu_externalSymbols this !! s) as [old|] eqn:E; [|by split; [apply Hins|]].
  case_bool_decide as Ho; [|done]. by destruct (H2 s old).
Qed.

Lemma saveDefinition_safe s l info roles : tsafe (saveDefinition s l info roles).
Proof.
  intros this Hok. unfold saveDefinition. rewrite ST_bind_unfold {1}/shouldIndex {1}/st_gets.
  case_bool_decide as Hin; simpl; [|by split].
  rewrite ST_bind_unfold {1}/stableFileIdOf {1}/st_gets.
  destruct (getStableFileId _ _) as [sf|]; simpl; [|by split].
  set (info' := match info with Some _ => _ | None => _ end).
  assert (forall i, info' = Some i -> si_documentation i <> []) as Hi.
  { unfold info'. destruct info as [i0|]; [|done]. case_bool_decide; intros i [= <-]; [|done].
    simpl. by destruct (si_documentation i0). }
  destruct (isInProject sf); [by apply saveDefined_safe|].
  destruct info' as [i|]; simpl; [|by split]. by apply saveExternalSymbol_safe; [apply Hi|].
Qed.

(** Recording a forward declaration in an indexed file of the project. *)
Lemma fwd_insert_ok this s c sf rg f :
  tu_ok this -> f ∈ fileIdsToBeIndexed this -> tu_stableFileId this f = Some sf ->
  isInProject sf = true ->
  tu_ok (set_forwardDeclarations (fwd_insert (forwardDeclarations this) s c (sf_path sf) rg) this).
Proof.
  intros [H1 H2 H3 H4] Hf Hsf Hp. split; [done|done| |].
  - intros s' v p r. simpl. unfold fwd_insert. rewrite lookup_insert_Some.
    intros [[<- <-]|[_ Hl]]; [|by eapply H3]. simpl. rewrite elem_of_app.
    intros [Hin|[= -> ->]%list_elem_of_singleton]; [|by exists f, sf].
    destruct (forwardDeclarations this !! s) as [v|] eqn:E; simpl in Hin; [by eapply H3|].
    by apply elem_of_nil in Hin.
  - intros s' v. simpl. unfold fwd_insert. rewrite lookup_insert_Some.
    intros [[<- <-]|[_ Hl]]; [|by eapply H4]. simpl. by intros [_ ?]%app_eq_nil.
Qed.

Lemma saveForwardDeclaration_safe s l c : tsafe (saveForwardDeclaration s l c).
Proof.
  intros this Hok. unfold saveForwardDeclaration. rewrite ST_bind_unfold {1}/st_lift.
  pose proof (getTokenExpansionRange_spec (getExpansionLoc l)) as Hr.
  destruct (getTokenExpansionRange _) as [[rg f]|]; [|done]. subst f. simpl.
  rewrite ST_bind_unfold {1}/shouldIndex {1}/st_gets.
  case_bool_decide as Hin; simpl; [|by split].
  rewrite ST_bind_unfold {1}/stableFileIdOf {1}/st_gets.
  destruct (getStableFileId _ _) as [sf|] eqn:Esf; simpl; [|by split].
  destruct (isInProject sf) eqn:Ep; [|by split]. split; [|done]. by eapply fwd_insert_ok.
Qed.

Lemma saveReference_safe s l d roles : tsafe (saveReference s l d roles).
Proof.
  intros this Hok. unfold saveReference. rewrite ST_bind_unfold {1}/shouldIndex {1}/st_gets.
  case_bool_decide as Hin; simpl; [|by split].
  rewrite ST_bind_unfold {1}/stableFileIdOf {1}/st_gets.
  destruct (getStableFileId _ _) as [sf|] eqn:Esf; simpl; [|by split].
  destruct (isInProject sf) eqn:Ep; [|by split]. rewrite ST_bind_unfold {1}/st_lift.
  pose proof (fails_well_ENFORCE (Z.land roles SymbolRole_Definition =? 0) "use saveDefinition instead") as He.
  destruct (ENFORCE _ _) as [[]|e]; simpl; [|by intros ->].
  assert (match (saveOccurrence s (getExpansionLoc l) roles ≫= fun _ => mret ()) this with
    | Ok (_, s') => tu_ok s' /\ same_env this s' | Err e => e <> OutOfFuel end) as Hocc.
  { rewrite ST_bind_unfold.
    pose proof (saveOccurrence_spec s (getExpansionLoc l) roles this Hok Hin) as Hs.
    destruct (saveOccurrence _ _ _ this) as [[f this']|]; [|done]. by destruct Hs as (? & ? & _). }
  destruct d as [d|]; [|exact Hocc]. destruct (RefersToForwardDecl_check d); [|exact Hocc].
  rewrite ST_bind_unfold {1}/st_lift.
  pose proof (getTokenExpansionRange_spec (getExpansionLoc l)) as Hr.
  destruct (getTokenExpansionRange _) as [[rg f]|]; [|done]. simpl. split; [|done].
  by eapply fwd_insert_ok.
Qed.

Lemma saveReference__safe s l : tsafe (saveReference_ s l).
Proof. apply saveReference_safe. Qed.
Lemma saveDefinition__safe s l info : tsafe (saveDefinition_ s l info).
Proof. apply saveDefinition_safe. Qed.
Lemma if_some_safe {A} (o : option A) k : (forall a, tsafe (k a)) -> tsafe (if_some o k).
Proof. destruct o; [intros Hk; apply Hk|]. intros _. apply safe_ret. apply _. Qed.
Lemma push_bases_fails_well d : fails_well (push_bases d).
Proof. apply foldM_fails_well. intros s b. unfold baseRecordDecl. safe_auto. Qed.

#[local] Hint Resolve saveReference_safe saveReference__safe saveDefinition__safe
  saveForwardDeclaration_safe saveExternalSymbol_safe push_bases_fails_well
  tu_tryResolveMember_safe : safe.

Ltac tu_step :=
  match goal with
  | |- safe tu_ok same_env (if_some _ _) => apply if_some_safe; intros
  | |- safe tu_ok same_env (formatter _) => apply formatter_safe
  end.
Ltac tu_auto :=
  repeat (cbv zeta; first [solve [eauto with safe]|tu_step|safe_step]); eauto with safe.

Lemma saveOccurrenceImpl_safe s rg f roles this :
  tu_ok this -> f ∈ fileIdsToBeIndexed this ->
  match (saveOccurrenceImpl s rg f roles ;; mret ()) this with
  | Ok (_, this') => tu_ok this' /\ same_env this this'
  | Err e => e <> OutOfFuel
  end.
Proof.
  intros Hok Hf. rewrite ST_bind_unfold.
  by destruct (saveOccurrenceImpl_spec s rg f roles this Hok Hf) as (this' & -> & ? & ? & _).
Qed.

Lemma saveSyntheticFileDefinition_safe f md this :
  tu_ok this -> f ∈ fileIdsToBeIndexed this ->
  match saveSyntheticFileDefinition f md this with
  | Ok (_, this') => tu_ok this' /\ same_env this this'
  | Err e => e <> OutOfFuel
  end.
Proof.
  intros Hok Hf. unfold saveSyntheticFileDefinition. destruct (_ || _); [by split|].
  rewrite ST_bind_unfold. pose proof (formatter_safe (getFileSymbol md)) as Hs.
  specialize (Hs (getFileSymbol_safe md) this Hok).
  destruct (formatter _ this) as [[s this1]|]; [|done]. destruct Hs as [H1 H2].
  destruct (0 <? _).
  - pose proof (saveDefinition__safe s (getLocForStartOfFile f)) as Hd.
    match goal with |- match saveDefinition_ _ _ ?i _ with _ => _ end => specialize (Hd i this1 H1) end.
    destruct (saveDefinition_ _ _ _ this1) as [[[] this2]|]; [|done].
    destruct Hd. split; [done|by etrans].
  - pose proof (saveOccurrenceImpl_safe s (makeEmpty (getLocForStartOfFile f)) f
      SymbolRole_Definition this1 H1) as Ho.
    rewrite (proj1 H2) in Ho. specialize (Ho Hf).
    match type of Ho with match ?m with _ => _ end => destruct m as [[[] this2]|] end; [|done].
    destruct Ho. split; [done|by etrans].
Qed.

Lemma tu_saveInclude_safe r md : tsafe (tu_saveInclude r md).
Proof.
  unfold tu_saveInclude. destruct (isSynthetic _); [tu_auto|].
  apply safe_bind; [apply _|tu_auto|]. intros s this Hok. rewrite ST_bind_unfold {1}/st_lift.
  pose proof (fromNonEmpty_spec r) as Hr. destruct (fromNonEmpty r) as [[rg f]|]; [|done].
  rewrite bind_Ok. cbv beta iota. rewrite ST_bind_unfold {1}/shouldIndex {1}/st_gets.
  case_bool_decide as Hin; [|by split]. by apply saveOccurrenceImpl_safe.
Qed.

Lemma add_overridden_safe ms i : tsafe (add_overridden ms i).
Proof.
  revert i. induction ms as [|m ms IH]; intros i; cbn [add_overridden]; [tu_auto|].
  apply safe_bind; [apply _|tu_auto|]. intros o. apply IH.
Qed.
#[local] Hint Resolve add_overridden_safe tu_saveInclude_safe : safe.

Lemma add_bases_safe d i : tsafe (add_bases d i).
Proof.
  intros this Hok. unfold add_bases. destruct (isa CXXRecordDecl d); [|by split].
  pose proof (worklist_invariant (visit_base d)
    (fun st => tu_ok st.1 /\ same_env this st.1) (fun e => e <> OutOfFuel)
    MAX_ITERATIONS [d] ∅ (this, i)) as Hw.
  destruct (worklist _ _ _ _ _) as [[t i']|e]; simpl; apply Hw; try by split.
  all: clear -Hok CL; intros [t i'] x [Ht Hs]; unfold visit_base;
    destruct (bool_decide _); simpl.
  all: try (destruct (hasDefinition x); simpl; [|by split];
    pose proof (push_bases_fails_well x) as Hp; destruct (push_bases x); simpl; [by split|by intros ->]).
  all: pose proof (formatter_safe (getNamedDeclSymbol x) (getNamedDeclSymbol_safe x) t Ht) as Hf.
  all: destruct (formatter _ t) as [[o t1]|]; simpl; [destruct Hf as [H1 H2]|done].
  all: assert (same_env this t1) by by etrans.
  all: destruct (hasDefinition x); simpl; [|by split].
  all: pose proof (push_bases_fails_well x) as Hp; destruct (push_bases x); simpl; [by split|by intros ->].
Qed.
#[local] Hint Resolve add_bases_safe : safe.

Lemma trySaveTypeReference_safe t l : tsafe (trySaveTypeReference t l).
Proof. unfold trySaveTypeReference. tu_auto. Qed.
#[local] Hint Resolve trySaveTypeReference_safe : safe.

Lemma saveNestedNameSpecifierLoc_safe n : tsafe (saveNestedNameSpecifierLoc n).
Proof.
  induction n as [|[s l] n IH]; cbn [saveNestedNameSpecifierLoc]; [tu_auto|].
  apply safe_bind; [apply _|tu_auto|]. intros. apply IH.
Qed.

Lemma saveTagDecl_safe d : tsafe (saveTagDecl d).
Proof. unfold saveTagDecl. tu_auto. Qed.
Lemma saveUsingShadowDecl_safe d : tsafe (saveUsingShadowDecl d).
Proof. unfold saveUsingShadowDecl. tu_auto. Qed.
#[local] Hint Resolve saveTagDecl_safe saveUsingShadowDecl_safe : safe.
Lemma save_shadows_safe ds : tsafe (save_shadows ds).
Proof.
  induction ds as [|d ds IH]; cbn [save_shadows]; [tu_auto|].
  apply safe_bind; [apply _|tu_auto|]. intros. apply IH.
Qed.
Lemma save_unresolved_safe ds l n : tsafe (save_unresolved ds l n).
Proof.
  revert n. induction ds as [|[d|] ds IH]; intros n; cbn [save_unresolved]; [tu_auto| |apply IH].
  apply safe_bind; [apply _|tu_auto|]. intros [s|]; [|apply IH].
  apply safe_bind; [apply _|tu_auto|]. intros _. cbv zeta. destruct (_ =? _); [tu_auto|apply IH].
Qed.
Lemma save_members_safe ds l : tsafe (save_members ds l).
Proof.
  induction ds as [|d ds IH]; cbn [save_members]; [tu_auto|].
  apply safe_bind; [apply _|tu_auto|]. intros o. apply safe_bind; [apply _|tu_auto|]. intros. apply IH.
Qed.
#[local] Hint Resolve save_shadows_safe save_unresolved_safe save_members_safe
  saveNestedNameSpecifierLoc_safe : safe.

Lemma namespace_startLoc_fails_well d : fails_well (namespace_startLoc d).
Proof. unfold namespace_startLoc. safe_auto. Qed.
#[local] Hint Resolve namespace_startLoc_fails_well : safe.

Lemma saveDecl_safe kind d : tsafe (saveDecl kind d).
Proof.
  destruct kind; cbn [saveDecl]; try solve [tu_auto].
  all: unfold saveBindingDecl, getBindingSymbol, saveClassTemplateDecl, saveEnumConstantDecl,
    saveFieldDecl, saveFunctionDecl, saveFunctionTemplateDecl, saveNamespaceDecl,
    saveNonTypeTemplateParmDecl, saveTemplateTemplateParmDecl, saveTemplateTypeParmDecl,
    saveTemplateParm, saveTypeAliasTemplateDecl, saveTypedefNameDecl, saveUsingDecl, saveVarDecl,
    saveVarTemplateDecl; tu_auto.
Qed.

Lemma trySaveMember_safe t i : tsafe (trySaveMemberReferenceViaLookup t i).
Proof. unfold trySaveMemberReferenceViaLookup. tu_auto. Qed.
Lemma saveTagTypeLoc_safe t : tsafe (saveTagTypeLoc t).
Proof. unfold saveTagTypeLoc. tu_auto. Qed.
#[local] Hint Resolve saveDecl_safe trySaveMember_safe saveTagTypeLoc_safe : safe.

Lemma visit_safe event : tsafe (visit event).
Proof.
  destruct event; cbn [visit]; try solve [tu_auto].
  all: unfold saveCUDAKernelCallExpr, saveCXXConstructExpr, saveDeclRefExpr, saveMemberExpr,
    saveTemplateSpecializationTypeLoc, getRecordSymbol, getTemplateTemplateParmSymbol,
    saveTemplateTypeParmTypeLoc, getTemplateTypeParmSymbol, saveTypedefTypeLoc, saveUsingTypeLoc,
    saveFieldReference, saveUnresolvedLookupExpr; tu_auto.
Qed.
End TuSafe.
