(* ===== verification/AstConsumer.v ===== *)
(** * From a translation unit to its index

    AstConsumer.h/.cc: which files of a translation unit are indexed, the references
    that its includes make, and the index that is written after the AST has been
    visited.  The traversal of the AST is Clang's: the list of calls that it makes. *)
From S2P Require Import Prelude CppString Ordering Paths PackageMaps IdPaths Symbols ScipMessages.
From S2P Require Import IndexBuilder CommandLine Ipc Clang Formatter MacroIndexer Preprocessor.
From S2P Require Import TuAst NameResolver TuIndexer.

(** ** [absl::c_sort] with a comparison that can fail

    Every sorting algorithm compares two equivalent elements at some point, and gives
    the same result when there are none: the choice does not matter where the
    comparison fails on equivalent elements. *)
Section SortM.
Context {T : Type} (less : T -> T -> result bool).

Fixpoint insertM (x : T) (l : list T) : result (list T) :=
  match l with
  | [] => Ok [x]
  | y :: l' =>
      b ← less x y;
      if b then Ok (x :: l) else l' ← insertM x l'; Ok (y :: l')
  end.
Fixpoint c_sortM (l : list T) : result (list T) :=
  match l with
  | [] => Ok []
  | x :: l => l ← c_sortM l; insertM x l
  end.
End SortM.

Record IndexerAstConsumerOptions : Type := mkAstConsumerOptions {
  aco_projectRootPath : RootPath;
  aco_buildRootPath : RootPath;
  aco_deterministic : bool;
}.

Record TuIndexingOutput : Type := mkTuIndexingOutput {
  tuo_docsAndExternals : Index;
  tuo_forwardDecls : ForwardDeclIndex;
}.
Definition TuIndexingOutput_default : TuIndexingOutput := mkTuIndexingOutput (mkIndex [] []) [].

Section AstConsumer.
Context `{BM : BuildMode, AR : AbslReplace, LP : LlvmPath, FS : FileSystem, CF : ClangFileID}.
Context {SM : ClangSourceManager} {CA : ClangAst} {CT : ClangTuAst} {CM : ClangMacros}.
Context `{AS : AbslStrings, U8 : Utf8, AE : AbslEmplace, TH : TextHash, SE : ScipEnums}.
Context `{WH : WyHash, HI : HashIteration}.

(** ** [computeFileIdsToBeIndexed] *)

(** The main file, if its path is absolute. *)
Definition insert_main_file (fileMetadataMap : FileMetadataMap) (toBeIndexed : gset FileID)
    : result (FileMetadataMap * gset FileID) :=
  let mainFileId := getMainFileID in
  match getFileEntryForID mainFileId with
  | Some mainFileEntry =>
      optMainFileAbsPath ← tryFrom (tryGetRealPathName mainFileEntry);
      match optMainFileAbsPath with
      | Some mainFileAbsPath =>
          '(_, fileMetadataMap) ← insert fileMetadataMap mainFileId mainFileAbsPath;
          Ok (fileMetadataMap, {[mainFileId]} ∪ toBeIndexed)
      | None => Ok (fileMetadataMap, toBeIndexed)
      end
  | None => Ok (fileMetadataMap, toBeIndexed)
  end.

(** The loop over the files that the driver assigned. *)
Definition insert_assigned (clangIdLookupMap : ClangIdLookupMap) (toBeIndexed : gset FileID)
    (fileInfo : PreprocessedFileInfo) : result (gset FileID) :=
  absPathRef ← asRef (pfi_path fileInfo);
  match lookupMap_lookup clangIdLookupMap absPathRef (hashValue fileInfo) with
  | Some fileId => Ok ({[fileId]} ∪ toBeIndexed)
  | None => Ok toBeIndexed
  end.

Definition computeFileIdsToBeIndexed (emitIndexDetails : EmitIndexJobDetails)
    (clangIdLookupMap : ClangIdLookupMap) (fileMetadataMap : FileMetadataMap)
    (toBeIndexed : gset FileID) : result (FileMetadataMap * gset FileID) :=
  fileMetadataMap ← populate_files fileMetadataMap clangIdLookupMap;
  '(fileMetadataMap, toBeIndexed) ← insert_main_file fileMetadataMap toBeIndexed;
  toBeIndexed ← foldM (insert_assigned clangIdLookupMap) toBeIndexed
                  (filesToBeIndexed emitIndexDetails);
  Ok (fileMetadataMap, toBeIndexed).

(** ** [saveIncludeReferences] *)

(** The callback for an [#include]. *)
Definition save_include_reference (clangIdLookupMap : ClangIdLookupMap)
    (fileMetadataMap : FileMetadataMap) (tuIndexer : TuIndexer) (range : SourceRange)
    (importedFilePath : AbsolutePathRef) : result TuIndexer :=
  optRefFileId ← lookupAnyFileId clangIdLookupMap importedFilePath;
  match optRefFileId with
  | None => Ok tuIndexer
  | Some refFileId =>
      let fileMetadata := getFileMetadata fileMetadataMap refFileId in
      ENFORCE (bool_decide (is_Some fileMetadata)) "missing FileMetadata value for path" ;;
      fileMetadata ← optional_value fileMetadata;
      snd <$> tu_saveInclude range fileMetadata tuIndexer
  end.

Definition save_file_references (macroIndexer : MacroIndexer) (clangIdLookupMap : ClangIdLookupMap)
    (fileMetadataMap : FileMetadataMap) (tuIndexer : TuIndexer) (fileId : FileID)
    : result TuIndexer :=
  tuIndexer ←
    match getFileMetadata fileMetadataMap fileId with
    | Some fileMetadata => snd <$> saveSyntheticFileDefinition fileId fileMetadata tuIndexer
    | None => Ok tuIndexer
    end;
  forEachIncludeInFile macroIndexer fileId
    (save_include_reference clangIdLookupMap fileMetadataMap) tuIndexer.

Definition saveIncludeReferences (toBeIndexed : gset FileID) (macroIndexer : MacroIndexer)
    (clangIdLookupMap : ClangIdLookupMap) (fileMetadataMap : FileMetadataMap)
    (tuIndexer : TuIndexer) : result TuIndexer :=
  foldM (save_file_references macroIndexer clangIdLookupMap fileMetadataMap) tuIndexer
    (iterate_set (elements toBeIndexed)).

(** ** [writeIndex] *)

(** The files of the project among those that were indexed. *)
Definition indexedProjectFiles (fileMetadataMap : FileMetadataMap) (toBeIndexed : gset FileID)
    : list (RootRelativePathRef * FileID) :=
  flat_map (fun fileId =>
      match getStableFileId fileMetadataMap fileId with
      | Some stableFileId =>
          if isInProject stableFileId then [(sf_path stableFileId, fileId)] else []
      | None => []
      end) (iterate_set (elements toBeIndexed)).

Definition comparePaths (p1 p2 : RootRelativePathRef * FileID) : result bool :=
  let cmp := RootRelativePathRef_cmp p1.1 p2.1 in
  ENFORCE (negb (bool_decide (cmp = Eq))) "document with path is present 2+ times in index" ;;
  Ok (bool_decide (cmp = Lt)).

(** The state that the loop over the documents threads: the indexer with the
    formatter, the macros, and the index. *)
Definition write_document (deterministic : bool) (st : TuIndexer * MacroIndexer * Index)
    (file : RootRelativePathRef * FileID) : result (TuIndexer * MacroIndexer * Index) :=
  let '(tuIndexer, macroIndex, index) := st in
  let document := mkDocument Language_CPP (rel_value file.1) [] [] in
  '((macroIndex, document), tuIndexer) ←
    formatter (macro_emitDocumentOccurrencesAndSymbols macroIndex deterministic file.2 document)
      tuIndexer;
  let '(tuIndexer, document) :=
    tu_emitDocumentOccurrencesAndSymbols tuIndexer deterministic file.2 document in
  Ok (tuIndexer, macroIndex, mkIndex (documents index ++ [document]) (external_symbols index)).

Definition writeIndex (deterministic : bool) (fileMetadataMap : FileMetadataMap)
    (toBeIndexed : gset FileID) (tuIndexer : TuIndexer) (macroIndex : MacroIndexer)
    (out : TuIndexingOutput) : result (TuIndexer * MacroIndexer * TuIndexingOutput) :=
  let files := indexedProjectFiles fileMetadataMap toBeIndexed in
  files ← (if deterministic then c_sortM comparePaths files else Ok files);
  '(tuIndexer, macroIndex, index) ←
    foldM (write_document deterministic) (tuIndexer, macroIndex, tuo_docsAndExternals out) files;
  let '(tuIndexer, index) := tu_emitExternalSymbols tuIndexer deterministic index in
  '(tuIndexer, fwd) ← tu_emitForwardDeclarations tuIndexer deterministic (tuo_forwardDecls out);
  '((macroIndex, index), tuIndexer) ←
    formatter (macro_emitExternalSymbols macroIndex deterministic index) tuIndexer;
  Ok (tuIndexer, macroIndex, mkTuIndexingOutput index fwd).

(** ** [HandleTranslationUnit]

    The worker's callback works on a state of its own. *)
Definition WorkerCallback (W : Type) : Type :=
  SemanticAnalysisJobResult -> EmitIndexJobDetails -> W -> result (bool * EmitIndexJobDetails * W).

(** The calls that [TraverseAST] makes. *)
Definition TraverseAST (events : list AstEvent) (tuIndexer : TuIndexer) : result TuIndexer :=
  foldM (fun tuIndexer event => snd <$> visit event tuIndexer) tuIndexer events.

(** What follows when the callback has said that the index should be emitted. *)
Definition indexTranslationUnit (options : IndexerAstConsumerOptions) (packageMap : PackageMap)
    (clangIdLookupMap : ClangIdLookupMap) (macroIndexer : MacroIndexer)
    (emitIndexDetails : EmitIndexJobDetails) (events : list AstEvent) (out : TuIndexingOutput)
    : result (PackageMap * TuIndexingOutput) :=
  let fileMetadataMap :=
    mkFileMetadataMap [] ∅ (aco_projectRootPath options) (aco_buildRootPath options) packageMap in
  '(fileMetadataMap, toBeIndexed) ←
    computeFileIdsToBeIndexed emitIndexDetails clangIdLookupMap fileMetadataMap ∅;
  let toBeIndexed := {[getMainFileID]} ∪ toBeIndexed in
  let tuIndexer := TuIndexer_new toBeIndexed (SymbolFormatter_new fileMetadataMap) in
  tuIndexer ← saveIncludeReferences toBeIndexed macroIndexer clangIdLookupMap fileMetadataMap tuIndexer;
  tuIndexer ← TraverseAST events tuIndexer;
  '(_, _, out) ← writeIndex (aco_deterministic options) fileMetadataMap toBeIndexed tuIndexer
                   macroIndexer out;
  Ok (fm_packageMap fileMetadataMap, out).

Definition HandleTranslationUnit {W} (options : IndexerAstConsumerOptions)
    (getEmitIndexDetails : WorkerCallback W) (preprocessorWrapper : IndexerPreprocessorWrapper)
    (packageMap : PackageMap) (events : list AstEvent) (out : TuIndexingOutput) (w : W)
    : result (IndexerPreprocessorWrapper * PackageMap * TuIndexingOutput * W) :=
  '(preprocessorWrapper, semaResult, clangIdLookupMap, macroIndexer) ←
    flushState preprocessorWrapper (mkSemanticAnalysisJobResult [] []) ∅;
  '(shouldEmitIndex, emitIndexDetails, w) ←
    getEmitIndexDetails semaResult EmitIndexJobDetails_default w;
  if negb shouldEmitIndex then Ok (preprocessorWrapper, packageMap, out, w)
  else
    '(packageMap, out) ← indexTranslationUnit options packageMap clangIdLookupMap macroIndexer
                           emitIndexDetails events out;
    Ok (preprocessorWrapper, packageMap, out, w).
End AstConsumer.
