(* ===== verification/ShardWellFormed.v ===== *)
(** * The shard of a translation unit is well-formed

    The index that [IndexerAstConsumer::HandleTranslationUnit] writes, for whatever the
    preprocessor and the traversal of the AST reported: what the merging of the shards
    relies on. *)
From S2P Require Import Prelude Worklist CppString Ordering Paths PackageMaps IdPaths Symbols.
From S2P Require Import ScipMessages IndexBuilder CommandLine Ipc Clang Formatter QualifiedNames.
From S2P Require Import FormatterRefinement MacroIndexer Preprocessor TuAst NameResolver TuIndexer.
From S2P Require Import TuInvariants AstConsumer.

(** ** Results *)

(** A result in [P], or a failure of the program. *)
Definition ends_in {A} (P : A -> Prop) (m : result A) : Prop :=
  match m with Ok a => P a | Err e => e <> OutOfFuel end.

Lemma ends_bind {A B} (P : A -> Prop) (Q : B -> Prop) (m : result A) (k : A -> result B) :
  ends_in P m -> (forall a, P a -> ends_in Q (k a)) -> ends_in Q (m ≫= k).
Proof. destruct m as [a|e]; simpl; [|done]. intros HP Hk. by apply Hk. Qed.
Lemma ends_fmap {A B} (Q : B -> Prop) (f : A -> B) (m : result A) :
  ends_in (fun a => Q (f a)) m -> ends_in Q (f <$> m).
Proof. by destruct m. Qed.
Lemma ends_mono {A} (P Q : A -> Prop) (m : result A) :
  ends_in P m -> (forall a, P a -> Q a) -> ends_in Q m.
Proof. destruct m; simpl; auto. Qed.
Lemma ends_fails {A} (m : result A) : fails_well m <-> ends_in (fun a => m = Ok a) m.
Proof. unfold fails_well. destruct m as [|e]; simpl; [done|]. split; [by intros H ->; apply H|]. by intros H [= ->]. Qed.
Lemma ends_foldM {A S} (P : S -> Prop) (f : S -> A -> result S) l s :
  (forall t x, x ∈ l -> P t -> ends_in P (f t x)) -> P s -> ends_in P (foldM f s l).
Proof.
  revert s. induction l as [|x l IH]; intros s Hf Hs; [done|]. cbn [foldM].
  apply (ends_bind P); [apply Hf; [by left|done]|]. intros t Ht. apply IH; [|done].
  intros u y Hy. apply Hf. by right.
Qed.

(** An invariant that knows what has been visited. *)
Lemma ends_foldM_done {A S} (P : list A -> S -> Prop) (f : S -> A -> result S) l s :
  (forall d x r t, l = d ++ x :: r -> P d t -> ends_in (P (d ++ [x])) (f t x)) ->
  P [] s -> ends_in (P l) (foldM f s l).
Proof.
  intros Hf. assert (forall d r t, l = d ++ r -> P d t -> ends_in (P l) (foldM f t r)) as H.
  { intros d r. revert d. induction r as [|x r IH]; intros d t -> Hd; cbn [foldM].
    - by rewrite app_nil_r.
    - eapply ends_bind; [by apply (Hf d x r)|]. intros t' Ht. apply (IH (d ++ [x])); [|done].
      by rewrite -app_assoc. }
  by apply (H [] l).
Qed.

(** ** [absl::c_sort] *)
Section SortM.
Context {T : Type} (less : T -> T -> result bool) (before : T -> T -> Prop) `{!Transitive before}.

Lemma insertM_ends x l :
  (forall x y, ends_in (fun b => if b then before x y else before y x) (less x y)) ->
  StronglySorted before l ->
  ends_in (fun l' => l' ≡ₚ x :: l /\ StronglySorted before l') (insertM less x l).
Proof.
  intros Hless. induction l as [|y l IH]; intros Hl; cbn [insertM].
  { simpl. split; [done|]. by repeat constructor. }
  apply StronglySorted_inv in Hl as [Hl Hy].
  apply (ends_bind _ _ _ _ (Hless x y)). intros [] Hb.
  - simpl. split; [done|]. constructor; [by constructor|]. constructor; [done|].
    eapply Forall_impl; [exact Hy|]. intros z Hz. by etrans.
  - apply (ends_bind _ _ _ _ (IH Hl)). intros l' [HP Hs]. simpl. split.
    + rewrite HP. constructor.
    + constructor; [done|]. rewrite HP. by constructor.
Qed.

Lemma c_sortM_ends l :
  (forall x y, ends_in (fun b => if b then before x y else before y x) (less x y)) ->
  ends_in (fun l' => l' ≡ₚ l /\ StronglySorted before l') (c_sortM less l).
Proof.
  intros Hless. induction l as [|x l IH]; cbn [c_sortM].
  { simpl. split; [done|constructor]. }
  apply (ends_bind _ _ _ _ IH). intros l' [HP Hs].
  eapply ends_mono; [by apply insertM_ends|]. intros l'' [HP' ?]. split; [by rewrite HP' HP|done].
Qed.
End SortM.

(** ** Files and documents *)
Section Shards.
Context `{BM : BuildMode, AR : AbslReplace, LP : LlvmPath, FS : FileSystem, CF : ClangFileID}.
Context {SM : ClangSourceManager} {CA : ClangAst} {CL : ClangAstLaws} {CT : ClangTuAst}.
Context {CM : ClangMacros}.
Context `{AS : AbslStrings, U8 : Utf8, AE : AbslEmplace, TH : TextHash, SE : ScipEnums}.
Context `{HI : HashIteration, HL : !HashIterationLaws}.

(** Every range can be compared, and every symbol is documented and defined here. *)
Record document_wf (d : Document) : Prop := {
  dwf_ranges o : o ∈ occurrences d -> range_wf (range o);
  dwf_defined i : i ∈ symbols d ->
    si_documentation i <> []
    /\ exists o, o ∈ occurrences d /\ occ_symbol o = si_symbol i /\ is_definition o;
}.

(** A file of the project that is to be indexed. *)
Definition project_file (fm : FileMetadataMap) (ids : gset FileID)
    (file : RootRelativePathRef * FileID) : Prop :=
  file.2 ∈ ids /\ exists sf, getStableFileId fm file.2 = Some sf /\ isInProject sf = true
    /\ sf_path sf = file.1.

(** In debug builds, the first path is strictly before the second one. *)
Definition file_before (f1 f2 : RootRelativePathRef * FileID) : Prop :=
  match RootRelativePathRef_cmp f1.1 f2.1 with
  | Lt => True
  | Eq => debugMode = false
  | Gt => False
  end.

#[export] Instance file_before_transitive : Transitive file_before.
Proof.
  intros x y z. unfold file_before.
  destruct (RootRelativePathRef_cmp x.1 y.1) eqn:E1; [| |done].
  - intros ?. by rewrite (cmp_eq_exact (cmp:=RootRelativePathRef_cmp) _ _ E1).
  - intros _. destruct (RootRelativePathRef_cmp y.1 z.1) eqn:E2; [| |done]; intros _.
    + by rewrite -(cmp_eq_exact (cmp:=RootRelativePathRef_cmp) _ _ E2) E1.
    + by rewrite (cmp_lt_trans _ _ _ E1 E2).
Qed.

Lemma comparePaths_ends f1 f2 :
  ends_in (fun b : bool => if b then file_before f1 f2 else file_before f2 f1) (comparePaths f1 f2).
Proof.
  unfold comparePaths, file_before. rewrite (cmp_antisym (cmp:=RootRelativePathRef_cmp) f1.1 f2.1).
  destruct (RootRelativePathRef_cmp f1.1 f2.1); simpl; [|by rewrite ENFORCE_true..].
  unfold ENFORCE, ENFORCE_NO_TIMER. by destruct debugMode.
Qed.

Lemma elem_of_indexedProjectFiles fm ids file :
  file ∈ indexedProjectFiles fm ids <-> project_file fm ids file.
Proof.
  unfold indexedProjectFiles, project_file. rewrite list_elem_of_In in_flat_map.
  setoid_rewrite <-list_elem_of_In. setoid_rewrite iterate_set_entries.
  setoid_rewrite elem_of_elements. destruct file as [p f]. simpl. split.
  - intros (f' & Hf & Hin). destruct (getStableFileId fm f') as [sf|] eqn:E; [|by apply elem_of_nil in Hin].
    destruct (isInProject sf) eqn:Ep; [|by apply elem_of_nil in Hin].
    apply list_elem_of_singleton in Hin as [= -> ->]. split; [done|]. by exists sf.
  - intros (Hf & sf & E & Ep & <-). exists f. split; [done|]. rewrite E Ep. by apply list_elem_of_singleton.
Qed.

Lemma indexedProjectFiles_NoDup fm ids : NoDup (indexedProjectFiles fm ids).*2.
Proof.
  unfold indexedProjectFiles.
  assert (NoDup (iterate_set (elements ids))) as Hnd
    by (rewrite iterate_set_entries; apply NoDup_elements).
  induction Hnd as [|f l Hf Hnd IH]; [constructor|]. cbn [flat_map]. rewrite fmap_app.
  apply NoDup_app. split_and!; [| |done].
  - destruct (getStableFileId fm f) as [sf|]; [|constructor].
    destruct (isInProject sf); [apply NoDup_singleton|constructor].
  - intros f' Hf' Hin. apply list_elem_of_fmap in Hin as ([p g] & -> & Hin). simpl in *.
    assert (f = g) as ->.
    { destruct (getStableFileId fm f) as [sf|]; [|by apply elem_of_nil in Hf'].
      destruct (isInProject sf); [|by apply elem_of_nil in Hf'].
      by apply list_elem_of_singleton in Hf' as ->. }
    apply Hf. rewrite list_elem_of_In in_flat_map in Hin. destruct Hin as (h & Hh & Hin).
    rewrite -list_elem_of_In in Hin. rewrite -list_elem_of_In in Hh.
    destruct (getStableFileId fm h) as [sf|]; [|by apply elem_of_nil in Hin].
    destruct (isInProject sf); [|by apply elem_of_nil in Hin].
    by apply list_elem_of_singleton in Hin as [= _ ->].
Qed.

(** ** The document of a file *)
Definition document_of (path : str) (d : Document) : Prop :=
  document_wf d /\ relative_path d = path /\ language d = Language_CPP.

Lemma document_wf_mono (d : Document) os infos :
  document_wf d -> (forall o, o ∈ os -> range_wf (range o)) ->
  (forall i, i ∈ infos -> si_documentation i <> []
     /\ exists o, o ∈ occurrences d ++ os /\ occ_symbol o = si_symbol i /\ is_definition o) ->
  document_wf (mkDocument (language d) (relative_path d) (occurrences d ++ os) (symbols d ++ infos)).
Proof.
  intros [H1 H2] Hos His. split; simpl.
  - intros o [?|?]%elem_of_app; [by apply H1|by apply Hos].
  - intros i [Hi|Hi]%elem_of_app; [|by apply His]. destruct (H2 i Hi) as (Hd & o & Ho & ?).
    split; [done|]. exists o. by rewrite elem_of_app; auto.
Qed.

(** The outcome of an operation with the formatter. *)
Definition outcome {A} (P : A -> Prop) (m : ST SymbolFormatter A) : Prop :=
  forall st, ends_in (fun r => P r.1 /\ same_files st r.2) (m st).

Lemma outcome_ret {A} (P : A -> Prop) a : P a -> outcome P (mret a).
Proof. intros HP st. simpl. by split. Qed.
Lemma outcome_bind {A B} (P : A -> Prop) (Q : B -> Prop) (m : ST SymbolFormatter A) k :
  outcome P m -> (forall a, P a -> outcome Q (k a)) -> outcome Q (m ≫= k).
Proof.
  intros Hm Hk st. specialize (Hm st). rewrite ST_bind_unfold.
  destruct (m st) as [[a st1]|e]; [|done]. destruct Hm as [Ha Hs].
  eapply ends_mono; [by apply Hk|]. intros [b st2] [? ?]. split; [done|]. by etrans.
Qed.
Lemma outcome_safe {A} (m : ST SymbolFormatter A) :
  safe (fun _ => True) same_files m -> outcome (fun _ => True) m.
Proof. intros Hm st. specialize (Hm st I). by destruct (m st) as [[a st1]|e]. Qed.

Lemma extractTransform_setM_outcome {T A} cmp (set : list T) det f (a : A) P :
  (forall t a, t ∈ set -> P a -> outcome P (f t a)) -> P a ->
  outcome P (extractTransform_setM cmp set det f a).
Proof.
  intros Hf Ha. unfold extractTransform_setM, extractTransform_set.
  assert (forall l, (forall t, t ∈ l -> t ∈ set) ->
    outcome P (foldl (fun m t => a ← m; f t a) (mret a) l)) as H.
  { intros l Hl. apply foldl_invariant; [|by apply outcome_ret]. intros m t Ht Hm.
    apply (outcome_bind P); [done|]. intros. apply Hf; [by apply Hl|done]. }
  destruct det; simpl; apply H; intros t; rewrite ?c_sort_Permutation iterate_set_entries; done.
Qed.

Lemma land_diag a : Z.land a a = a.
Proof. apply Z.land_diag. Qed.

Lemma emit_macro_occurrence_outcome path mo d :
  document_of path d -> outcome (document_of path) (emit_macro_occurrence mo d).
Proof.
  intros (Hd & Hp & Hl). unfold emit_macro_occurrence.
  apply (outcome_bind (fun o => range_wf (range o) /\ (role mo = Role_Definition -> is_definition o))).
  { unfold emitOccurrence. eapply outcome_bind; [apply outcome_safe, getMacroSymbol_safe|].
    intros s _. apply outcome_ret. split; [|intros ->].
    - destruct (role mo); apply addTo_range_wf.
    - unfold is_definition. apply Z.land_diag. }
  intros o [Hr Ho]. destruct (role mo).
  - apply (outcome_bind (fun _ => True)).
    { apply outcome_safe, safe_lift; [apply _|]. apply fails_well_ENFORCE. }
    intros _ _. apply outcome_ret. split; [|done].
    apply (document_wf_mono d [o] [_]); [done| |].
    + by intros o' ->%list_elem_of_singleton.
    + intros i ->%list_elem_of_singleton. split; [done|]. exists o. split_and!; [|done|by apply Ho].
      apply elem_of_app. right. by apply list_elem_of_singleton.
  - apply outcome_ret. split; [|done].
    pose proof (document_wf_mono d [o] [] Hd) as Hw. rewrite app_nil_r in Hw. apply Hw; [by intros o' ->%list_elem_of_singleton|by intros i ?%elem_of_nil].
Qed.

Lemma macro_document_outcome path mi det f d :
  document_of path d ->
  outcome (fun r => nonFileBasedMacros r.1 = nonFileBasedMacros mi /\ document_of path r.2)
    (macro_emitDocumentOccurrencesAndSymbols mi det f d).
Proof.
  intros Hd. unfold macro_emitDocumentOccurrencesAndSymbols. destruct (table mi !! f) as [set|].
  - eapply outcome_bind; [|intros d' Hd'; by apply outcome_ret].
    apply extractTransform_setM_outcome; [|done]. intros. by apply emit_macro_occurrence_outcome.
  - by apply outcome_ret.
Qed.

Lemma add_occurrences os d :
  foldl (fun d occ => add_occurrence occ d) d os
  = mkDocument (language d) (relative_path d) (occurrences d ++ os) (symbols d).
Proof.
  revert d. induction os as [|o os IH]; intros d; simpl; [by destruct d; rewrite app_nil_r|].
  by rewrite IH /= -app_assoc.
Qed.

Lemma tu_document_of path ti det f d :
  (forall doc, documentMap ti !! f = Some doc -> doc_ok doc) -> document_of path d ->
  document_of path (tu_emitDocumentOccurrencesAndSymbols ti det f d).2.
Proof.
  intros Hdoc Hd. unfold tu_emitDocumentOccurrencesAndSymbols.
  destruct (documentMap ti !! f) as [doc|]; [|done]. destruct (Hdoc doc eq_refl) as [H1 H2].
  cbn [snd]. rewrite extractTransform_map_foldl add_occurrences.
  set (d1 := mkDocument _ _ _ _).
  assert (document_of path d1) as Hd1.
  { destruct Hd as (Hd & Hp & Hl). split; [|done]. unfold d1.
    pose proof (document_wf_mono d (pd_occurrences doc) [] Hd) as Hw. rewrite app_nil_r in Hw.
    apply Hw; [done|by intros i ?%elem_of_nil]. }
  apply (foldl_invariant (fun d' => document_of path d' /\ occurrences d' = occurrences d1)); [|done].
  intros d' [s i] Hi%elem_of_extract_order [(Hd' & Hp & Hl) Ho]. destruct (H2 s i Hi) as (Hi1 & o & Hoo & Hos).
  split; [|done]. split; [|done].
  pose proof (document_wf_mono d' [] [si_set_symbol (ref_value s) i] Hd') as Hw.
  rewrite app_nil_r in Hw. apply Hw; [by intros o' ?%elem_of_nil|].
  intros i' ->%list_elem_of_singleton. split; [done|]. exists o. split; [|done].
  rewrite Ho. apply elem_of_app. by right.
Qed.

Lemma tu_document_env ti det f d :
  let ti' := (tu_emitDocumentOccurrencesAndSymbols ti det f d).1 in
  tu_externalSymbols ti' = tu_externalSymbols ti /\ forwardDeclarations ti' = forwardDeclarations ti
  /\ forall f', f' <> f -> documentMap ti' !! f' = documentMap ti !! f'.
Proof.
  unfold tu_emitDocumentOccurrencesAndSymbols. destruct (documentMap ti !! f) as [doc|]; [|done].
  split_and!; [done..|]. intros f' Hf. simpl. by rewrite lookup_insert_ne.
Qed.

(** ** The loop over the documents *)
Definition written (ti0 : TuIndexer) (mi0 : MacroIndexer) (files : list (RootRelativePathRef * FileID))
    (st : TuIndexer * MacroIndexer * Index) : Prop :=
  let '(ti, mi, index) := st in
  tu_externalSymbols ti = tu_externalSymbols ti0
  /\ forwardDeclarations ti = forwardDeclarations ti0
  /\ nonFileBasedMacros mi = nonFileBasedMacros mi0
  /\ (forall f, f ∉ files.*2 -> documentMap ti !! f = documentMap ti0 !! f)
  /\ external_symbols index = []
  /\ Forall2 (fun file d => document_of (rel_value file.1) d) files (documents index).

Lemma formatter_ends {A} (P : A -> Prop) (m : ST SymbolFormatter A) ti :
  outcome P m ->
  ends_in (fun r => P r.1 /\ exists f, r.2 = set_symbolFormatter f ti) (formatter m ti).
Proof.
  intros Hm. unfold formatter. specialize (Hm (symbolFormatter ti)).
  destruct (m (symbolFormatter ti)) as [[a f]|e]; [|done]. simpl in *.
  split; [by apply Hm|]. by exists f.
Qed.

Lemma empty_document_of path : document_of path (mkDocument Language_CPP path [] []).
Proof. split; [|done]. by split; intros ? ?%elem_of_nil. Qed.

Lemma write_document_ends det ti0 mi0 files file st :
  tu_ok ti0 -> file.2 ∉ files.*2 -> written ti0 mi0 files st ->
  ends_in (written ti0 mi0 (files ++ [file])) (write_document det st file).
Proof.
  intros Hok Hf. destruct st as [[ti mi] index]. intros (W1 & W2 & W3 & W4 & W5 & W6).
  unfold write_document.
  eapply ends_bind; [apply formatter_ends, macro_document_outcome, (empty_document_of (rel_value file.1))|].
  intros [[mi' d] ti'] [[Hmi Hd] [fm Hti]]. cbn [fst snd] in *. subst ti'. cbv beta iota.
  set (ti' := set_symbolFormatter fm ti).
  assert (forall doc, documentMap ti' !! file.2 = Some doc -> doc_ok doc) as Hdoc.
  { intros doc. simpl. rewrite (W4 _ Hf). intros Hl. by eapply ok_document. }
  pose proof (tu_document_of _ ti' det file.2 d Hdoc Hd) as Hd'.
  pose proof (tu_document_env ti' det file.2 d) as (E1 & E2 & E3).
  destruct (tu_emitDocumentOccurrencesAndSymbols ti' det file.2 d) as [ti2 d2]. simpl in *.
  split_and!; [by rewrite E1|by rewrite E2|by rewrite Hmi| |done|].
  - intros f'. rewrite fmap_app elem_of_app. intros Hn. rewrite E3; [|by apply W4; tauto].
    intros ->. apply Hn. right. by apply list_elem_of_singleton.
  - apply Forall2_app; [done|]. by constructor.
Qed.

Lemma write_documents_ends det ti0 mi0 files :
  tu_ok ti0 -> NoDup files.*2 ->
  ends_in (written ti0 mi0 files) (foldM (write_document det) (ti0, mi0, mkIndex [] []) files).
Proof.
  intros Hok Hnd. apply ends_foldM_done; [|split_and!; [done..|by constructor]].
  intros d x r t -> Ht. apply write_document_ends; [done| |done]. rewrite fmap_app in Hnd.
  apply NoDup_app in Hnd as (_ & Hn & _). intros Hx. apply (Hn _ Hx). by left.
Qed.

(** ** What follows the documents *)
Definition documented_externals (ti : TuIndexer) (det : bool) : list SymbolInformation :=
  map (fun kv => si_set_symbol (ref_value kv.1) kv.2)
    (extract_order SymbolNameRef_cmp (iterate (tu_externalSymbols ti)) det).

Lemma tu_externals_written ti det index :
  (tu_emitExternalSymbols ti det index).2
  = mkIndex (documents index) (external_symbols index ++ documented_externals ti det).
Proof.
  unfold tu_emitExternalSymbols, documented_externals. cbn [snd]. rewrite extractTransform_map_foldl.
  generalize (extract_order SymbolNameRef_cmp (iterate (tu_externalSymbols ti)) det).
  intros l. revert index. induction l as [|kv l IH]; intros index; simpl.
  - rewrite app_nil_r. by destruct index.
  - by rewrite IH /= -app_assoc.
Qed.

Lemma macro_externals_outcome mi det index :
  outcome (fun r => exists ms, r.2 = mkIndex (documents index) (external_symbols index ++ ms)
                      /\ (nonFileBasedMacros mi = [] -> ms = []))
    (macro_emitExternalSymbols mi det index).
Proof.
  unfold macro_emitExternalSymbols.
  apply (outcome_bind (fun _ => True)); [by apply outcome_safe, safe_lift; [apply _|apply fails_well_ENFORCE]|].
  intros _ _. apply (outcome_bind (fun i => exists ms,
    i = mkIndex (documents index) (external_symbols index ++ ms)
    /\ (nonFileBasedMacros mi = [] -> ms = []))); [|intros i Hi; apply outcome_ret; exact Hi].
  apply extractTransform_setM_outcome.
  - intros m i Hm (ms & -> & Hms). unfold emit_nonFile_macro, nonFile_emitSymbolInformation.
    apply (outcome_bind (fun _ => True)).
    { apply (outcome_bind (fun _ => True)); [apply outcome_safe, getMacroSymbol_safe|].
      intros s _. by apply outcome_ret. }
    intros i _. apply outcome_ret. exists (ms ++ [i]). cbn. split; [by rewrite app_assoc|].
    intros E. rewrite E in Hm. by apply elem_of_nil in Hm.
  - exists []. rewrite app_nil_r. by destruct index.
Qed.

(** A forward declaration with references in files of the project. *)
Definition forward_decl_ok (paths : list str) (fd : ForwardDecl) : Prop :=
  fd_references fd <> []
  /\ Forall (fun r => range_wf (ref_range r) /\ ref_relative_path r ∈ paths) (fd_references fd).

Lemma fwd_emit_ends (m : ForwardDeclMap) det paths :
  (forall s v, m !! s = Some v -> ranges v <> []) ->
  (forall s v p r, m !! s = Some v -> (p, r) ∈ ranges v -> rel_value p ∈ paths) ->
  ends_in (fun r => Forall (forward_decl_ok paths) r.2) (fwd_emit m det []).
Proof.
  intros Hne Hp. unfold fwd_emit. rewrite extractTransform_map_foldl.
  apply (ends_bind (Forall (forward_decl_ok paths))); [|done].
  apply (foldl_invariant (ends_in (Forall (forward_decl_ok paths)))); [|by constructor].
  intros t [s v] Hv%elem_of_extract_order Ht. apply (ends_bind _ _ _ _ Ht). intros index Hi.
  unfold emit_forward_decl. eapply ends_bind; [apply ends_fails, fails_well_ENFORCE|]. intros _ _.
  eapply ends_bind; [apply ends_fails, fails_well_optional|]. intros suffix _.
  apply Forall_app. split; [done|]. apply Forall_singleton. split; cbn.
  - intros E%map_eq_nil. by eapply Hne.
  - apply Forall_forall. intros r (pr & <- & Hr)%list_elem_of_In%in_map_iff. cbn.
    split; [apply addTo_range_wf|]. destruct pr as [p rg]. eapply Hp; [done|]. by apply list_elem_of_In.
Qed.

Lemma tu_forwards_ends ti det paths :
  (forall s v, forwardDeclarations ti !! s = Some v -> ranges v <> []) ->
  (forall s v p r, forwardDeclarations ti !! s = Some v -> (p, r) ∈ ranges v -> rel_value p ∈ paths) ->
  ends_in (fun r => Forall (forward_decl_ok paths) r.2) (tu_emitForwardDeclarations ti det []).
Proof.
  intros Hne Hp. unfold tu_emitForwardDeclarations.
  eapply ends_bind; [by apply fwd_emit_ends|]. by intros [m fwd] Hr.
Qed.

(** ** [writeIndex] *)

(** What the driver may rely on: one document per indexed file of the project, ordered
    by path in deterministic mode; documented external symbols, apart from the macros
    without a file; forward declarations with references in these documents. *)
Record shard_wf (fm : FileMetadataMap) (ids : gset FileID) (deterministic : bool)
    (mi : MacroIndexer) (out : TuIndexingOutput) : Prop := {
  shard_files : exists files,
    (forall file, file ∈ files <-> project_file fm ids file)
    /\ NoDup files.*2
    /\ (deterministic = true -> StronglySorted file_before files)
    /\ Forall2 (fun file d => document_of (rel_value file.1) d) files
         (documents (tuo_docsAndExternals out))
    /\ Forall (forward_decl_ok (map (fun file => rel_value file.1) files)) (tuo_forwardDecls out);
  shard_externals : exists infos macros,
    external_symbols (tuo_docsAndExternals out) = infos ++ macros
    /\ Forall (fun i => si_documentation i <> []) infos
    /\ (nonFileBasedMacros mi = [] -> macros = []);
}.

Lemma sorted_files_ends det fm ids :
  ends_in (fun files => files ≡ₚ indexedProjectFiles fm ids
             /\ (det = true -> StronglySorted file_before files))
    (if det then c_sortM comparePaths (indexedProjectFiles fm ids)
     else Ok (indexedProjectFiles fm ids)).
Proof.
  destruct det; [|done]. eapply ends_mono; [apply (c_sortM_ends _ file_before), comparePaths_ends|].
  by intros files [? ?].
Qed.

Lemma writeIndex_ends det ti mi :
  tu_ok ti ->
  let fm := sfm_fileMetadataMap (symbolFormatter ti) in
  ends_in (fun r => shard_wf fm (fileIdsToBeIndexed ti) det mi r.2)
    (writeIndex det fm (fileIdsToBeIndexed ti) ti mi TuIndexingOutput_default).
Proof.
  intros Hok fm. unfold writeIndex.
  eapply ends_bind; [apply sorted_files_ends|]. intros files [HP Hsorted].
  assert (forall file, file ∈ files <-> project_file fm (fileIdsToBeIndexed ti) file) as Hfiles.
  { intros file. rewrite HP. apply elem_of_indexedProjectFiles. }
  assert (NoDup files.*2) as Hnd by (rewrite HP; apply indexedProjectFiles_NoDup).
  eapply ends_bind; [by apply write_documents_ends|].
  intros [[ti1 mi1] index] (W1 & W2 & W3 & _ & W5 & W6). cbv beta iota.
  pose proof (tu_externals_written ti1 det index) as He.
  destruct (tu_emitExternalSymbols ti1 det index) as [ti2 index2] eqn:E2. cbn [snd] in He.
  assert (forwardDeclarations ti2 = forwardDeclarations ti) as Hfwd.
  { unfold tu_emitExternalSymbols in E2. injection E2 as <- _. by rewrite -W2. }
  eapply ends_bind.
  { apply (tu_forwards_ends ti2 det (map (fun file => rel_value file.1) files)); rewrite Hfwd.
    - by eapply ok_forward_nonempty.
    - intros s v q r Hv Hin. destruct (ok_forward _ Hok _ _ _ _ Hv Hin) as (f & sf & Hf & Hsf & Hpr & <-).
      apply list_elem_of_fmap. exists (sf_path sf, f). split; [done|]. apply Hfiles.
      split; [done|]. by exists sf. }
  intros [ti3 fwd] Hw. cbv beta iota.
  eapply ends_bind; [apply formatter_ends, macro_externals_outcome|].
  intros [[mi2 index3] ti4] [(ms & Hi & Hms) _]. cbn [fst snd] in *. cbv beta iota. subst index2 index3.
  split; cbn.
  - by exists files.
  - exists (documented_externals ti1 det), ms. rewrite W5 W3 in Hms |- *. split_and!; [done| |done].
    apply Forall_forall. intros i (kv & -> & Hkv)%list_elem_of_fmap. cbn.
    destruct kv as [k v]. apply elem_of_extract_order in Hkv. rewrite W1 in Hkv.
    by eapply ok_external.
Qed.

(** ** What comes before *)
Lemma tryFrom_fails_well p : fails_well (tryFrom p).
Proof. unfold tryFrom, AbsolutePathRef_new. safe_auto. Qed.
#[local] Hint Resolve tryFrom_fails_well : safe.
Lemma asRef_fails_well p : fails_well (asRef p).
Proof. unfold asRef. safe_auto. Qed.
Lemma RootRelativePathRef_new_fails_well v k : fails_well (RootRelativePathRef_new v k).
Proof. unfold RootRelativePathRef_new. safe_auto. Qed.
#[local] Hint Resolve asRef_fails_well RootRelativePathRef_new_fails_well : safe.

(** The bound of the loop over the parents is reached as an access out of range. *)
Lemma lookup_loop_fails_well m it l n : fails_well (lookup_loop m it l n).
Proof.
  revert it l. induction n as [|n IH]; intros [it|] l; cbn [lookup_loop]; try done.
  unfold prefix_of_path. safe_auto.
Qed.
Lemma lookup_fails_well pm p : fails_well (lookup pm p).
Proof.
  pose proof lookup_loop_fails_well. unfold lookup. safe_auto.
Qed.
Lemma tryMakeRelative_fails_well r p : fails_well (tryMakeRelative r p).
Proof. unfold tryMakeRelative. safe_auto. Qed.
#[local] Hint Resolve lookup_fails_well tryMakeRelative_fails_well : safe.

Lemma insertRelPath_fails_well fm f p o r b : fails_well (insertRelPath fm f p o r b).
Proof. unfold insertRelPath. safe_auto. Qed.
Lemma insertSynthetic_fails_well fm f p o : fails_well (insertSynthetic fm f p o).
Proof.
  unfold insertSynthetic, RootRelativePath_new, RootRelativePath_asRef. cbv zeta.
  apply fails_well_bind; [auto with safe|intros]. apply fails_well_bind; [by destruct (fileName _)|intros].
  safe_auto.
Qed.
#[local] Hint Resolve insertRelPath_fails_well insertSynthetic_fails_well : safe.

Lemma insert_fails_well fm f p : fails_well (insert fm f p).
Proof.
  unfold insert, insertInProjectOrSynthetic, makeAbsoluteAllowKindMismatch, AbsolutePath_new.
  safe_auto.
Qed.
#[local] Hint Resolve insert_fails_well : safe.
Lemma computeFileIds_fails_well details m fm ids : fails_well (computeFileIdsToBeIndexed details m fm ids).
Proof.
  unfold computeFileIdsToBeIndexed, populate_files, forEachPathAndHash, insert_main_file.
  apply fails_well_bind.
  - apply foldM_fails_well. intros. apply fails_well_bind; [auto with safe|]. intros.
    apply foldM_fails_well. intros. safe_auto.
  - intros fm'. apply fails_well_bind; [safe_auto|]. intros [fm'' ids']. apply fails_well_bind; [|safe_auto].
    apply foldM_fails_well. unfold insert_assigned. intros. safe_auto.
Qed.

(** All metadata of the translation unit is in one of the documented cases. *)
Lemma insert_fm_inv fm f p b fm' : insert fm f p = Ok (b, fm') -> fm_inv fm -> fm_inv fm'.
Proof. intros (md & opt & pm & _ & Hi & _ & _ & Hc & _)%insert_inv. by eapply inserted_inv. Qed.

Lemma computeFileIds_inv details m fm ids fm' ids' :
  computeFileIdsToBeIndexed details m fm ids = Ok (fm', ids') -> fm_inv fm -> fm_inv fm'.
Proof.
  unfold computeFileIdsToBeIndexed. intros H Hfm.
  apply bind_Ok_inv in H as (fm1 & Hp & H). apply bind_Ok_inv in H as ([fm2 ids2] & Hm & H).
  apply bind_Ok_inv in H as (ids3 & _ & [= <- _]).
  assert (fm_inv fm1) as H1.
  { unfold populate_files, forEachPathAndHash in Hp. eapply (foldM_invariant fm_inv) in Hp; [exact Hp| |done].
    intros t kv t' _ Ht Hs. apply bind_Ok_inv in Hs as ([] & _ & Hs).
    eapply (foldM_invariant fm_inv) in Hs; [exact Hs| |done].
    intros u [h f] u' _ Hu Hi. apply bind_Ok_inv in Hi as ([b u2] & Hi & Hr).
    apply bind_Ok_inv in Hr as ([] & _ & [= <-]). by eapply insert_fm_inv. }
  unfold insert_main_file in Hm. destruct (getFileEntryForID _); [|by injection Hm as <- _].
  apply bind_Ok_inv in Hm as (o & _ & Hm). destruct o; [|by injection Hm as <- _].
  apply bind_Ok_inv in Hm as ([b fm3] & Hi & [= <- _]). by eapply insert_fm_inv.
Qed.

Lemma project_file_path fm ids file :
  fm_inv fm -> project_file fm ids file -> debugMode = true -> doc_path_ok (rel_value file.1).
Proof.
  intros Hfm (_ & sf & Hsf & Hp & <-) Hd. unfold getStableFileId in Hsf.
  destruct (fm_map fm !! file.2) as [md|] eqn:Emd; [|done]. injection Hsf as <-.
  destruct (Hfm _ _ Emd) as [_ _ Hok|info E|E]; [by apply Hok|congruence..].
Qed.

(** ** [saveIncludeReferences] and [TraverseAST] *)
Definition indexing (ti0 ti : TuIndexer) : Prop := tu_ok ti /\ same_env ti0 ti.

Lemma indexing_step {A} ti0 (m : ST TuIndexer A) ti :
  safe tu_ok same_env m -> indexing ti0 ti -> ends_in (indexing ti0) (snd <$> m ti).
Proof.
  intros Hm [Hok He]. specialize (Hm ti Hok). destruct (m ti) as [[a ti']|e]; [|done].
  destruct Hm. split; [done|by etrans].
Qed.

Lemma save_include_ends ti0 m fm ti r p :
  indexing ti0 ti -> ends_in (indexing ti0) (save_include_reference m fm ti r p).
Proof.
  intros Hti. unfold save_include_reference.
  eapply ends_bind; [apply ends_fails; unfold lookupAnyFileId; safe_auto|]. intros [f|] _; [|done].
  eapply ends_bind; [apply ends_fails, fails_well_ENFORCE|]. intros _ _.
  eapply ends_bind; [apply ends_fails, fails_well_optional|]. intros md _.
  apply indexing_step; [apply tu_saveInclude_safe|done].
Qed.

Lemma saveIncludeReferences_ends ti0 ids mi m fm ti :
  ids = fileIdsToBeIndexed ti0 -> indexing ti0 ti ->
  ends_in (indexing ti0) (saveIncludeReferences ids mi m fm ti).
Proof.
  intros -> Hti. apply ends_foldM; [|done]. intros t f Hf Ht.
  rewrite iterate_set_entries elem_of_elements in Hf. unfold save_file_references.
  apply (ends_bind (indexing ti0)).
  - destruct (getFileMetadata fm f) as [md|]; [|done]. destruct Ht as [Hok He].
    pose proof (saveSyntheticFileDefinition_safe f md t Hok) as Hs.
    destruct He as [E1 E2]. rewrite E1 in Hs. specialize (Hs Hf).
    destruct (saveSyntheticFileDefinition f md t) as [[[] t']|e]; [|done]. destruct Hs as [? [E3 E4]].
    split; [done|]. split; simpl; congruence.
  - intros t' Ht'. unfold forEachIncludeInFile. destruct (includeRanges mi !! f) as [rs|]; [|done].
    apply ends_foldM; [|done]. intros u [r p] _ Hu. by apply save_include_ends.
Qed.

Lemma TraverseAST_ends ti0 events ti :
  indexing ti0 ti -> ends_in (indexing ti0) (TraverseAST events ti).
Proof.
  intros Hti. apply ends_foldM; [|done]. intros t e _ Ht. apply indexing_step; [apply visit_safe|done].
Qed.

Lemma TuIndexer_new_ok ids f : tu_ok (TuIndexer_new ids f).
Proof.
  split; simpl.
  - intros f' d. by rewrite lookup_empty.
  - intros s i. by rewrite lookup_empty.
  - intros s v p r. by rewrite lookup_empty.
  - intros s v. by rewrite lookup_empty.
Qed.
(** ** From the files to the shard *)
Definition initial_files (options : IndexerAstConsumerOptions) (packageMap : PackageMap)
    : FileMetadataMap :=
  mkFileMetadataMap [] ∅ (aco_projectRootPath options) (aco_buildRootPath options) packageMap.

Lemma shard_paths_ok fm ids det mi out :
  fm_inv fm -> shard_wf fm ids det mi out ->
  debugMode = true -> Forall (fun d => doc_path_ok (relative_path d)) (documents (tuo_docsAndExternals out)).
Proof.
  intros Hfm [(files & Hfiles & _ & _ & Hd & _) _] Hdebug.
  assert (forall file, file ∈ files -> doc_path_ok (rel_value file.1)) as Hok
    by (intros file Hf%Hfiles; by eapply project_file_path).
  clear Hfiles. induction Hd as [|file d files ds (_ & Hp & _) _ IH]; constructor.
  - rewrite Hp. apply Hok. by left.
  - apply IH. intros f Hf. apply Hok. by right.
Qed.

Lemma indexTranslationUnit_ends options packageMap m mi details events :
  ends_in (fun r => exists fm ids,
      computeFileIdsToBeIndexed details m (initial_files options packageMap) ∅ = Ok (fm, ids)
      /\ r.1 = fm_packageMap fm
      /\ shard_wf fm ({[getMainFileID]} ∪ ids) (aco_deterministic options) mi r.2
      /\ (debugMode = true -> Forall (fun d => doc_path_ok (relative_path d)) (documents (tuo_docsAndExternals r.2))))
    (indexTranslationUnit options packageMap m mi details events TuIndexingOutput_default).
Proof.
  unfold indexTranslationUnit. cbv zeta.
  eapply ends_bind; [apply ends_fails, computeFileIds_fails_well|].
  intros [fm ids] Hids. cbv beta iota.
  set (ids' := {[getMainFileID]} ∪ ids).
  set (ti0 := TuIndexer_new ids' (SymbolFormatter_new fm)).
  assert (indexing ti0 ti0) as H0 by (split; [apply TuIndexer_new_ok|done]).
  eapply ends_bind; [by apply (saveIncludeReferences_ends ti0)|]. intros ti1 H1.
  eapply ends_bind; [by apply (TraverseAST_ends ti0)|]. intros ti2 [Hok [E1 E2]].
  pose proof (writeIndex_ends (aco_deterministic options) ti2 mi Hok) as Hw.
  cbv zeta in Hw. rewrite E1 E2 in Hw.
  eapply ends_bind; [exact Hw|]. intros [[ti3 mi3] out] Hout. cbv beta iota.
  exists fm, ids. split_and!; [done..|]. eapply shard_paths_ok; [|exact Hout].
  eapply computeFileIds_inv; [exact Hids|]. intros f md. cbn. by rewrite lookup_empty.
Qed.
End Shards.


(** ** A translation unit with a header *)
Definition demo_consumer : IndexerAstConsumerOptions := mkAstConsumerOptions demo_root demo_root true.
Definition demo_strings : AbslStrings := {|
  StripAsciiWhitespace s := s; StripPrefix s _ := s; StrContains _ _ := false |}.
Definition demo_utf8 : Utf8 := {| utf8_is_valid _ := true; utf8_replace_invalid s := s |}.
Definition demo_emplace : AbslEmplace := fun i => i.
Definition demo_ids : @ClangIdLookupMap demo_files :=
  @lookupMap_insert demo_files ∅ (mkAbsolutePathRef (lit "/p/b.h")) 5 2%N.
Definition demo_ast_events : list (@AstEvent demo_files demo_sm demo_ast demo_tuast) :=
  [@VisitDecl _ _ _ demo_tuast RecordDecl DC; @VisitDecl _ _ _ demo_tuast FunctionDecl DF;
   @VisitDecl _ _ _ demo_tuast RecordDecl DCfwd].
Definition demo_shard : result (PackageMap * TuIndexingOutput) :=
  @indexTranslationUnit true demo_replace posix_path demo_fs demo_files demo_sm demo_ast demo_tuast
    demo_macros demo_strings demo_utf8 demo_emplace demo_hash demo_enums tree_iteration demo_consumer
    (mkPackageMap ∅ ∅ demo_root false) demo_ids demo_macro_indexer
    (mkEmitIndexJobDetails [mkPreprocessedFileInfo (mkAbsolutePath (lit "/p/b.h")) 5])
    demo_ast_events TuIndexingOutput_default.
(** Two documents, with the macro, the file, the class and its method in one of them, and
    the forward declaration. *)
Definition demo_shard_ok : bool :=
  match demo_shard with
  | Ok (_, out) =>
      bool_decide (map (fun d => length (symbols d)) (documents (tuo_docsAndExternals out))
                   = [1; 4]%nat)
      && (length (tuo_forwardDecls out) =? 1)%nat
  | Err _ => false
  end.

