(* ===== verification/Planner.v ===== *)
(** * The file indexing planner

    [FileIndexingPlanner] (Driver.cc) decides which worker indexes which
    version (hash) of a file.  [saveSemaResult] takes the files a worker saw and
    appends to [filesToBeIndexed] the ones nobody was asked to index before;
    [isMultiplyIndexed] says, at merge time, whether a document was produced for
    more than one version of a file.  A reader of this file needs the messages
    of [Ipc] and the paths of [Paths]. *)
From S2P Require Import Prelude Ordering CppString Paths Json PackageMaps IdPaths.
From S2P Require Import CommandLine Compdb Ipc.

(** ** State and operations *)
Record FileIndexingPlanner : Type := mkFileIndexingPlanner {
  hashesSoFar : gmap AbsolutePath (gset HashValue);
  projectRootPath : RootPath
}.

Definition FileIndexingPlanner_new (root : RootPath) : FileIndexingPlanner :=
  mkFileIndexingPlanner ∅ root.

Inductive MultiplyIndexed : Type := MITrue | MIFalse | MIUnknown.
#[export] Instance MultiplyIndexed_eq_dec : EqDecision MultiplyIndexed.
Proof. solve_decision. Defined.

(** [hashesSoFar.insert({path, emptyHashSet})]. *)
Definition insert_path (m : gmap AbsolutePath (gset HashValue)) (path : AbsolutePath) :=
  match m !! path with Some _ => m | None => <[path := ∅]> m end.

(** [hashes.insert(hashValue)] through the reference into the map, and the
    [push_back] when it was inserted. *)
Definition insert_hash (path : AbsolutePath)
    (st : gmap AbsolutePath (gset HashValue) * list PreprocessedFileInfo) (h : HashValue) :=
  let '(m, filesToBeIndexed) := st in
  let hashes := default ∅ (m !! path) in
  if bool_decide (h ∈ hashes) then st
  else (<[path := {[h]} ∪ hashes]> m, filesToBeIndexed ++ [mkPreprocessedFileInfo path h]).

Section Planner.
Context `{BM : BuildMode, LP : LlvmPath}.

Definition save_illBehaved (st : gmap AbsolutePath (gset HashValue) * list PreprocessedFileInfo)
    (fileInfoMulti : PreprocessedFileInfoMulti) :=
  ENFORCE (1 <? Z.of_nat (length (hashValues fileInfoMulti))) "fileInfoMulti.hashValues.size() > 1" ;;
  let path := pfim_path fileInfoMulti in
  Ok (foldl (insert_hash path) (insert_path st.1 path, st.2) (hashValues fileInfoMulti)).

Definition save_wellBehaved (st : gmap AbsolutePath (gset HashValue) * list PreprocessedFileInfo)
    (fileInfo : PreprocessedFileInfo) :=
  let path := pfi_path fileInfo in
  insert_hash path (insert_path st.1 path, st.2) (hashValue fileInfo).

Definition saveSemaResult (this : FileIndexingPlanner) (semaResult : SemanticAnalysisJobResult)
    (filesToBeIndexed : list PreprocessedFileInfo)
    : result (FileIndexingPlanner * list PreprocessedFileInfo) :=
  st ← foldM save_illBehaved (hashesSoFar this, filesToBeIndexed) (illBehavedFiles semaResult);
  let '(m, out) := foldl save_wellBehaved st (wellBehavedFiles semaResult) in
  Ok (mkFileIndexingPlanner m (projectRootPath this), out).

Definition isMultiplyIndexed (this : FileIndexingPlanner) (relativePath : RootRelativePathRef)
    : result MultiplyIndexed :=
  absPath ← makeAbsolute (projectRootPath this) relativePath;
  match hashesSoFar this !! absPath with
  | None => Ok MIUnknown
  | Some hashes => Ok (if 1 <? Z.of_nat (size hashes) then MITrue else MIFalse)
  end.

(** [Driver::isMultiplyIndexedApproximate]; [badJobIds] collects the jobs whose
    shard names an unknown path. *)
Definition isMultiplyIndexedApproximate `{AS : AbslSplit} (planner : FileIndexingPlanner)
    (relativePath : str) (shardPath : AbsolutePathRef) (badJobIds : gset Z)
    : result (bool * gset Z) :=
  ref ← RootRelativePathRef_new relativePath Project;
  multiplyIndexed ← isMultiplyIndexed planner ref;
  match multiplyIndexed with
  | MITrue => Ok (true, badJobIds)
  | MIFalse => Ok (false, badJobIds)
  | MIUnknown =>
      Ok (true, match fileName (asStringView shardPath) with
                | Some optFileName =>
                    match tryParseJobId optFileName with
                    | Some jobId => {[jobId]} ∪ badJobIds
                    | None => badJobIds
                    end
                | None => badJobIds
                end)
  end.

(** ** What a result mentions *)
Definition mentions_multi (fi : PreprocessedFileInfoMulti) : list PreprocessedFileInfo :=
  map (mkPreprocessedFileInfo (pfim_path fi)) (hashValues fi).

Definition mentions (r : SemanticAnalysisJobResult) : list PreprocessedFileInfo :=
  concat (map mentions_multi (illBehavedFiles r)) ++ wellBehavedFiles r.

Definition SemaResult_wf (r : SemanticAnalysisJobResult) : Prop :=
  Forall (fun fi => (2 <= length (hashValues fi))%nat) (illBehavedFiles r).

(** The version of a file is known to the planner. *)
Definition recorded (m : gmap AbsolutePath (gset HashValue)) (i : PreprocessedFileInfo) : Prop :=
  exists hs, m !! pfi_path i = Some hs /\ hashValue i ∈ hs.

(** The state after some versions were offered: [new] are the ones appended. *)
Record offered (m : gmap AbsolutePath (gset HashValue)) (out l : list PreprocessedFileInfo)
    (st : gmap AbsolutePath (gset HashValue) * list PreprocessedFileInfo) : Prop := {
  off_new : exists new, st.2 = out ++ new /\ NoDup new
    /\ forall i, i ∈ new <-> i ∈ l /\ ~ recorded m i;
  off_recorded : forall i, recorded st.1 i <-> recorded m i \/ i ∈ l;
  off_dom : forall p, is_Some (st.1 !! p) <-> is_Some (m !! p) \/ exists i, i ∈ l /\ pfi_path i = p
}.

Lemma recorded_dec m i : recorded m i \/ ~ recorded m i.
Proof.
  unfold recorded. destruct (m !! pfi_path i) as [hs|] eqn:E; [|by right; intros (? & [=] & _)].
  destruct (decide (hashValue i ∈ hs)) as [Hh|Hh]; [left; eauto|right].
  by intros (? & [= <-] & ?).
Qed.

Lemma offered_nil m out : offered m out [] (m, out).
Proof.
  split; cbn.
  - exists []. rewrite app_nil_r. split_and!; [done|apply NoDup_nil_2|]. intros i.
    rewrite elem_of_nil. tauto.
  - intros i. rewrite elem_of_nil. tauto.
  - intros p. split; [tauto|]. intros [?|(i & Hi & _)]; [done|]. by apply elem_of_nil in Hi.
Qed.

Lemma insert_path_recorded m path i : recorded (insert_path m path) i <-> recorded m i.
Proof.
  unfold insert_path, recorded. destruct (m !! path) as [hs|] eqn:E; [done|].
  rewrite lookup_insert. case_decide as Hd; [subst|done]. rewrite E.
  split; [by intros (? & [= <-] & []%not_elem_of_empty)|by intros (? & [=] & _)].
Qed.

Lemma insert_path_dom m path p :
  is_Some (insert_path m path !! p) <-> is_Some (m !! p) \/ path = p.
Proof.
  unfold insert_path. destruct (m !! path) as [hs|] eqn:E.
  - split; [tauto|]. intros [?| <-]; [done|]. by eexists.
  - rewrite lookup_insert. case_decide as Hd; [|tauto]. split; [tauto|eauto].
Qed.

Lemma recorded_default m i : hashValue i ∈ default ∅ (m !! pfi_path i) <-> recorded m i.
Proof.
  unfold recorded. destruct (m !! pfi_path i) as [hs|]; cbn.
  - split; [eauto|by intros (? & [= <-] & ?)].
  - split; [by intros []%not_elem_of_empty|by intros (? & [=] & _)].
Qed.

Lemma add_recorded m path h i :
  recorded (<[path := {[h]} ∪ default ∅ (m !! path)]> m) i
  <-> recorded m i \/ i = mkPreprocessedFileInfo path h.
Proof.
  rewrite -!recorded_default lookup_insert. destruct i as [p hi]; cbn. case_decide as Hd; cbn.
  - subst p. rewrite elem_of_union elem_of_singleton. split; [intros [->|?]; auto|].
    intros [?|[= ->]]; auto.
  - split; [auto|]. intros [?|[= Hp _]]; [done|congruence].
Qed.

(** One version offered: the common step of both loops. *)
Lemma insert_hash_offered path m out l st h :
  offered m out l st ->
  offered m out (l ++ [mkPreprocessedFileInfo path h])
    (insert_hash path (insert_path st.1 path, st.2) h).
Proof.
  intros [(new & Hout & Hnd & Hnew) Hrec Hdom].
  set (i0 := mkPreprocessedFileInfo path h). unfold insert_hash.
  assert (h ∈ default ∅ (insert_path st.1 path !! path) <-> recorded st.1 i0) as Hmem.
  { rewrite -(insert_path_recorded st.1 path). exact (recorded_default _ i0). }
  assert (forall i, i ∈ l ++ [i0] <-> i ∈ l \/ i = i0) as Hl.
  { intros i. rewrite elem_of_app list_elem_of_singleton. done. }
  case_bool_decide as Hin.
  - apply Hmem in Hin. split; cbn [fst snd].
    + exists new. split_and!; [done..|]. intros i. rewrite Hnew Hl. split; [tauto|].
      intros [[?| ->] Hn]; [tauto|]. split; [|done]. apply Hrec in Hin. tauto.
    + intros i. rewrite insert_path_recorded Hrec Hl. split; [tauto|].
      intros [?|[?| ->]]; [tauto..|]. apply Hrec in Hin. tauto.
    + intros p. rewrite insert_path_dom Hdom. setoid_rewrite Hl. split.
      * intros [[?|(i & ? & ?)]|<-]; [tauto|right; eauto|right; by exists i0; eauto].
      * intros [?|(i & [?| ->] & ?)]; [tauto|left; right; eauto|by right].
  - assert (~ recorded st.1 i0) as Hni by (by rewrite -Hmem).
    assert (forall i, recorded (<[path := {[h]} ∪ default ∅ (insert_path st.1 path !! path)]>
              (insert_path st.1 path)) i <-> recorded st.1 i \/ i = i0) as Hrec'.
    { intros i. by rewrite add_recorded insert_path_recorded. }
    split; cbn [fst snd].
    + exists (new ++ [i0]). rewrite Hout -app_assoc. split_and!; [done| |].
      * apply NoDup_app. split_and!; [done| |apply NoDup_singleton].
        intros i Hi ->%list_elem_of_singleton. apply Hnew in Hi as [Hi _]. apply Hni, Hrec. by right.
      * intros i. rewrite elem_of_app list_elem_of_singleton Hnew Hl. split; [|tauto].
        intros [?| ->]; [tauto|]. split; [by right|]. intros Hr. apply Hni, Hrec. by left.
    + intros i. rewrite Hrec' Hrec Hl. tauto.
    + intros p. rewrite lookup_insert. setoid_rewrite Hl. case_decide as Hd.
      * subst p. split; [intros _; right; exists i0; eauto|eauto].
      * rewrite insert_path_dom Hdom. split.
        -- intros [[?|(i & ? & ?)]|?]; [tauto|right; eauto|done].
        -- intros [?|(i & [?| ->] & Hp)]; [tauto|left; right; eauto|by cbn in Hp].
Qed.

Lemma offered_app m out l1 l2 st1 st2 :
  offered m out l1 st1 -> offered st1.1 st1.2 l2 st2 -> offered m out (l1 ++ l2) st2.
Proof.
  intros [(n1 & E1 & Hnd1 & Hn1) Hr1 Hd1] [(n2 & E2 & Hnd2 & Hn2) Hr2 Hd2]. split.
  - exists (n1 ++ n2). rewrite E2 E1 -app_assoc. split_and!; [done| |].
    + apply NoDup_app. split_and!; [done| |done]. intros i Hi Hi2. apply Hn2 in Hi2 as [_ Hi2].
      apply Hi2, Hr1. right. by apply Hn1.
    + intros i. rewrite !elem_of_app Hn1 Hn2 Hr1. destruct (recorded_dec m i); [tauto|].
      destruct (decide (i ∈ l1)); tauto.
  - intros i. rewrite Hr2 Hr1 elem_of_app. tauto.
  - intros p. rewrite Hd2 Hd1. setoid_rewrite elem_of_app. split.
    + intros [[?|(i & ? & ?)]|(i & ? & ?)]; eauto.
    + intros [?|(i & [?|?] & ?)]; eauto.
Qed.

(** Both loops of [saveSemaResult]. *)
Lemma save_illBehaved_offered m out l st fi :
  offered m out l st -> (2 <= length (hashValues fi))%nat ->
  exists st', save_illBehaved st fi = Ok st' /\ offered m out (l ++ mentions_multi fi) st'.
Proof.
  intros Hst Hlen. unfold save_illBehaved. rewrite ENFORCE_pass; [by apply Z.ltb_lt; lia|].
  eexists. split; [done|]. unfold mentions_multi.
  assert (forall hs st l, offered m out l st -> is_Some (st.1 !! pfim_path fi) ->
    offered m out (l ++ map (mkPreprocessedFileInfo (pfim_path fi)) hs)
      (foldl (insert_hash (pfim_path fi)) st hs)) as Hloop.
  { clear. induction hs as [|h hs IH]; intros st l Hst Hp; cbn; [by rewrite app_nil_r|].
    assert (st = (insert_path st.1 (pfim_path fi), st.2)) as Est.
    { destruct st as [m' o], Hp as [x Hp]. unfold insert_path; cbn in *. by rewrite Hp. }
    rewrite (app_assoc l [_]). apply IH.
    - rewrite {1}Est. by apply insert_hash_offered.
    - destruct st as [m' o]. cbn in *. case_bool_decide; cbn; [done|]. rewrite lookup_insert_eq. eauto. }
  destruct (hashValues fi) as [|h hs]; [cbn in Hlen; lia|]. cbn [foldl map].
  rewrite (app_assoc l [_]). apply Hloop; [by apply insert_hash_offered|].
  unfold insert_hash. case_bool_decide; cbn [fst]; [|rewrite lookup_insert_eq; eauto].
  apply insert_path_dom. by right.
Qed.

Lemma save_wellBehaved_offered m out l st fi :
  offered m out l st -> offered m out (l ++ [fi]) (save_wellBehaved st fi).
Proof. destruct fi as [p h]. apply insert_hash_offered. Qed.

Lemma saveSemaResult_offered this r out :
  SemaResult_wf r ->
  exists this' out', saveSemaResult this r out = Ok (this', out')
    /\ projectRootPath this' = projectRootPath this
    /\ offered (hashesSoFar this) out (mentions r) (hashesSoFar this', out').
Proof.
  intros Hwf. unfold saveSemaResult, mentions.
  assert (forall ill st l, Forall (fun fi => (2 <= length (hashValues fi))%nat) ill ->
    offered (hashesSoFar this) out l st ->
    exists st', foldM save_illBehaved st ill = Ok st'
      /\ offered (hashesSoFar this) out (l ++ concat (map mentions_multi ill)) st') as Hill.
  { clear r Hwf. induction ill as [|fi ill IH]; intros st l Hwf Hst; cbn [foldM map concat].
    - rewrite app_nil_r. eauto.
    - inversion Hwf; subst. destruct (save_illBehaved_offered _ _ _ _ fi Hst) as (st' & -> & Hst'); [done|].
      rewrite bind_Ok app_assoc. by apply IH. }
  assert (forall well st l, offered (hashesSoFar this) out l st ->
    offered (hashesSoFar this) out (l ++ well) (foldl save_wellBehaved st well)) as Hwell.
  { clear. induction well as [|fi well IH]; intros st l Hst; cbn [foldl]; [by rewrite app_nil_r|].
    rewrite (app_assoc l [fi]). apply IH. by apply save_wellBehaved_offered. }
  destruct (Hill _ _ [] Hwf (offered_nil _ _)) as (st & -> & Hst). rewrite bind_Ok.
  apply (Hwell (wellBehavedFiles r)) in Hst. destruct (foldl _ _ _) as [m o]. eauto.
Qed.

(** ** Sequences of results

    The driver calls [saveSemaResult] once per result that it accepts, with an
    empty vector each time. *)
Fixpoint save_all (this : FileIndexingPlanner) (rs : list SemanticAnalysisJobResult)
    : result (FileIndexingPlanner * list (list PreprocessedFileInfo)) :=
  match rs with
  | [] => Ok (this, [])
  | r :: rs =>
      '(this, out) ← saveSemaResult this r [];
      '(this, outs) ← save_all this rs;
      Ok (this, out :: outs)
  end.

Definition all_mentions (rs : list SemanticAnalysisJobResult) : list PreprocessedFileInfo :=
  concat (map mentions rs).

Lemma save_all_spec rs : forall this, Forall SemaResult_wf rs ->
  exists this' outs, save_all this rs = Ok (this', outs)
    /\ projectRootPath this' = projectRootPath this
    /\ length outs = length rs
    /\ offered (hashesSoFar this) [] (all_mentions rs) (hashesSoFar this', concat outs)
    /\ forall k out i, outs !! k = Some out ->
         i ∈ out <-> (exists r, rs !! k = Some r /\ i ∈ mentions r)
                     /\ ~ recorded (hashesSoFar this) i /\ i ∉ all_mentions (take k rs).
Proof.
  induction rs as [|r rs IH]; intros this Hwf; cbn [save_all].
  { exists this, []. split_and!; [done..| |done]. apply (offered_nil _ []). }
  inversion Hwf; subst.
  destruct (saveSemaResult_offered this r []) as (t1 & o1 & -> & Hroot1 & Ho1); [done|]. rewrite bind_Ok.
  destruct (IH t1) as (t2 & outs & -> & Hroot2 & Hlen & Ho2 & Hk); [done|]. rewrite bind_Ok.
  exists t2, (o1 :: outs). split_and!; [done|congruence|cbn; congruence| |].
  - unfold all_mentions; cbn [map concat].
    apply (offered_app _ _ _ _ (hashesSoFar t1, o1)); [done|]. cbn [fst snd].
    destruct Ho2 as [(new & E & ? & ?) ? ?]. cbn in E. subst new. split; [|done..]. eauto.
  - destruct Ho1 as [(new & E & Hnd & Hnew) Hrec _]. cbn in E. subst new. intros [|k] out i; cbn.
    + intros [= <-]. rewrite Hnew. split.
      * intros [Hi Hn]. split_and!; [eauto|done|apply not_elem_of_nil].
      * intros ((? & [= <-] & ?) & ? & _). done.
    + intros Ho. rewrite (Hk k out i Ho). cbn [take lookup]. unfold all_mentions; cbn [map concat].
      rewrite Hrec elem_of_app. tauto.
Qed.

(** The number of versions of a file is the size of its set of hashes. *)
Lemma size_two_iff (X : gset HashValue) :
  1 < Z.of_nat (size X) <-> exists h1 h2, h1 ∈ X /\ h2 ∈ X /\ h1 <> h2.
Proof.
  split.
  - intros Hs. destruct (set_choose_L X) as [h1 H1]; [intros ->; rewrite size_empty in Hs; lia|].
    destruct (set_choose_L (X ∖ {[h1]})) as [h2 H2].
    { intros E. assert (X ⊆ {[h1]}) as Hsub.
      { intros x Hx. apply elem_of_singleton. destruct (decide (x = h1)); [done|].
        exfalso. apply (not_elem_of_empty (C:=gset HashValue) x). rewrite -E. apply elem_of_difference. by rewrite elem_of_singleton. } apply subseteq_size in Hsub.
      rewrite size_singleton in Hsub. lia. }
    apply elem_of_difference in H2 as [? Hn]. exists h1, h2. split_and!; [done..|].
    intros ->. by apply Hn, elem_of_singleton.
  - intros (h1 & h2 & H1 & H2 & Hne).
    assert (size ({[h1; h2]} : gset HashValue) <= size X)%nat as Hsub by (apply subseteq_size; intros x [->%elem_of_singleton| ->%elem_of_singleton]%elem_of_union; done).
    rewrite size_union in Hsub; [by intros x ->%elem_of_singleton ?%elem_of_singleton|]. rewrite !size_singleton in Hsub. lia.
Qed.

(** What an answer of [isMultiplyIndexed] says about the versions mentioned. *)
Definition answer_ok (ms : list PreprocessedFileInfo) (abs : AbsolutePath) (v : MultiplyIndexed) : Prop :=
  match v with
  | MITrue => exists h1 h2, h1 <> h2 /\ mkPreprocessedFileInfo abs h1 ∈ ms /\ mkPreprocessedFileInfo abs h2 ∈ ms
  | MIFalse => exists h, forall h', mkPreprocessedFileInfo abs h' ∈ ms <-> h' = h
  | MIUnknown => forall h, mkPreprocessedFileInfo abs h ∉ ms
  end.

Lemma isMultiplyIndexed_answer this out ms rel abs :
  offered ∅ [] ms (hashesSoFar this, out) -> makeAbsolute (projectRootPath this) rel = Ok abs ->
  exists v, isMultiplyIndexed this rel = Ok v /\ answer_ok ms abs v.
Proof.
  intros [_ Hrec Hdom] Habs. unfold isMultiplyIndexed. rewrite Habs bind_Ok.
  assert (forall h, mkPreprocessedFileInfo abs h ∈ ms <-> h ∈ default ∅ (hashesSoFar this !! abs)) as Hm.
  { intros h. rewrite (recorded_default _ (mkPreprocessedFileInfo abs h)) Hrec. split; [tauto|].
    intros [(? & [=] & _)|?]; done. }
  destruct (hashesSoFar this !! abs) as [hs|] eqn:Ehs; cbn in Hm; eexists; (split; [done|]); cbn.
  - destruct (Z.ltb_spec 1 (Z.of_nat (size hs))) as [Hs|Hs]; cbn.
    + apply size_two_iff in Hs as (h1 & h2 & ? & ? & ?). exists h1, h2. by rewrite !Hm.
    + destruct (proj1 (Hdom abs)) as [[? [=]]|([p h] & Hi & Hp)]; [by rewrite Ehs|].
      cbn in Hp. subst p. exists h. intros h'. split; [|by intros ->]. intros Hh'.
      destruct (decide (h' = h)) as [|Hne]; [done|]. exfalso. assert (1 < Z.of_nat (size hs)); [|lia].
      apply size_two_iff. exists h', h. by rewrite -!Hm.
  - intros h Hh%Hm. by apply not_elem_of_empty in Hh.
Qed.

(** C15. The planner hands out every version of every file exactly once, to the
    first job whose result mentions it: over any sequence of well-formed
    results [saveSemaResult] succeeds, the lists it produces contain no version
    twice and together contain exactly the versions mentioned, and the [k]-th
    list contains the versions result [k] mentions and no earlier result does.
    Afterwards [isMultiplyIndexed] answers [True] exactly for the paths of which
    two versions were mentioned, [Unknown] exactly for the paths that were never
    mentioned, and [False] for the rest. *)
Theorem planner_exactly_once (root : RootPath) (rs : list SemanticAnalysisJobResult) :
  Forall SemaResult_wf rs ->
  exists this outs,
    save_all (FileIndexingPlanner_new root) rs = Ok (this, outs)
    /\ length outs = length rs
    /\ NoDup (concat outs)
    /\ (forall i, i ∈ concat outs <-> i ∈ all_mentions rs)
    /\ (forall k out i, outs !! k = Some out ->
         i ∈ out <-> (exists r, rs !! k = Some r /\ i ∈ mentions r) /\ i ∉ all_mentions (take k rs))
    /\ (forall rel abs, makeAbsolute root rel = Ok abs ->
         exists v, isMultiplyIndexed this rel = Ok v /\ answer_ok (all_mentions rs) abs v).
Proof.
  intros Hwf. destruct (save_all_spec rs (FileIndexingPlanner_new root) Hwf)
    as (this & outs & -> & Hroot & Hlen & Hoff & Hk).
  exists this, outs. pose proof Hoff as [(new & E & Hnd & Hnew) Hrec Hdom]. cbn in E; subst new.
  assert (forall i, ~ recorded ∅ i) as Hnone by (intros i (? & [=] & _)).
  split_and!; [done..| | |].
  - intros i. rewrite Hnew. split; [tauto|]. split; [done|apply Hnone].
  - intros k out i Ho. rewrite (Hk k out i Ho). split; [tauto|].
    intros [? ?]. split_and!; [done|apply Hnone|done].
  - intros rel abs Habs. apply (isMultiplyIndexed_answer _ (concat outs)); [done|]. by rewrite Hroot.
Qed.

(** A document is merged as it is ([false]) only when exactly one version of its
    file was ever planned; jobs are reported as bad only for files no result
    mentioned. *)
Theorem isMultiplyIndexedApproximate_sound `{AS : AbslSplit} (root : RootPath)
    (rs : list SemanticAnalysisJobResult) this outs (relativePath : str) shard bad ref abs :
  Forall SemaResult_wf rs -> save_all (FileIndexingPlanner_new root) rs = Ok (this, outs) ->
  RootRelativePathRef_new relativePath Project = Ok ref -> makeAbsolute root ref = Ok abs ->
  exists b bad', isMultiplyIndexedApproximate this relativePath shard bad = Ok (b, bad')
    /\ (b = false <-> exists h, forall h', mkPreprocessedFileInfo abs h' ∈ all_mentions rs <-> h' = h)
    /\ (bad' <> bad -> b = true /\ forall h, mkPreprocessedFileInfo abs h ∉ all_mentions rs).
Proof.
  intros Hwf Hsave Href Habs.
  destruct (save_all_spec rs (FileIndexingPlanner_new root) Hwf) as (t & o & Hs & Hroot & _ & Hoff & _).
  rewrite Hsave in Hs. injection Hs as <- <-.
  destruct (isMultiplyIndexed_answer this (concat outs) (all_mentions rs) ref abs) as (v & Hv & Hans);
    [done|by rewrite Hroot|].
  unfold isMultiplyIndexedApproximate. rewrite Href bind_Ok Hv bind_Ok.
  destruct v; do 2 eexists; (split; [done|]); cbn in Hans.
  - split; [|done]. split; [done|]. destruct Hans as (h1 & h2 & Hne & H1 & H2).
    intros (h & Hh). apply Hh in H1, H2. congruence.
  - split; [done|done].
  - split; [|done]. split; [done|]. intros (h & Hh). by destruct (Hans h); apply Hh.
Qed.
End Planner.

(** ** Concrete inputs *)
Definition demo_path (s : string) : AbsolutePath := mkAbsolutePath (lit s).
Definition demo_sema_results : list SemanticAnalysisJobResult :=
  [mkSemanticAnalysisJobResult [mkPreprocessedFileInfo (demo_path "/p/a.c") 1;
                                mkPreprocessedFileInfo (demo_path "/p/a.h") 2]
     [mkPreprocessedFileInfoMulti (demo_path "/p/x.inc") [3; 4]];
   mkSemanticAnalysisJobResult [mkPreprocessedFileInfo (demo_path "/p/b.c") 5;
                                mkPreprocessedFileInfo (demo_path "/p/a.h") 6;
                                mkPreprocessedFileInfo (demo_path "/p/x.inc") 4] []].

Example demo_plan :
  match @save_all true (FileIndexingPlanner_new (mkRootPath (demo_path "/p") Project)) demo_sema_results with
  | Ok (_, outs) => outs = [[mkPreprocessedFileInfo (demo_path "/p/x.inc") 3;
                             mkPreprocessedFileInfo (demo_path "/p/x.inc") 4;
                             mkPreprocessedFileInfo (demo_path "/p/a.c") 1;
                             mkPreprocessedFileInfo (demo_path "/p/a.h") 2];
                            [mkPreprocessedFileInfo (demo_path "/p/b.c") 5;
                             mkPreprocessedFileInfo (demo_path "/p/a.h") 6]]
  | Err _ => False
  end.
Proof. by vm_compute. Qed.

Lemma planner_exactly_once_witness :
  exists this outs,
    @save_all true (FileIndexingPlanner_new (mkRootPath (demo_path "/p") Project)) demo_sema_results = Ok (this, outs)
    /\ NoDup (concat outs)
    /\ exists v, @isMultiplyIndexed true posix_path this (mkRootRelativePathRef (lit "a.h") Project) = Ok v
                 /\ answer_ok (all_mentions demo_sema_results) (demo_path "/p/a.h") v.
Proof.
  destruct (@planner_exactly_once true posix_path (mkRootPath (demo_path "/p") Project) demo_sema_results)
    as (this & outs & H & _ & Hnd & _ & _ & Hq).
  - repeat constructor.
  - exists this, outs. split; [exact H|]. split; [exact Hnd|]. apply Hq. by vm_compute.
Defined.
