(* ===== verification/Worker.v ===== *)
(** * The worker

    Worker.h/.cc: a worker takes requests from its queue, runs Clang on the command of
    each translation unit, answers with what semantic analysis found, waits for the
    files that it has to index, writes its shards and answers again.

    What reaches the worker through its queue is a list, one element per call of
    [timedReceive]; when it is exhausted the calls time out.  What Clang does for a
    command line is a parameter: the frontend actions that it runs, each with the calls
    of its preprocessor and of its traversal of the AST. *)
From S2P Require Import Prelude CppString Ordering Paths Json PackageMaps IdPaths Symbols ScipMessages.
From S2P Require Import IndexBuilder CommandLine Compdb Toolchains CompdbParser Ipc CliOptions Clang.
From S2P Require Import Formatter MacroIndexer Preprocessor TuAst NameResolver TuIndexer AstConsumer.

Record PreprocessorHistoryRecordingOptions : Type := mkRecordingOptions {
  filterRegex : str;
  preprocessorHistoryLogPath : str;
  preferRelativePaths : bool;
  rec_rootPath : str;
}.

Inductive WorkerMode : Type := Mode_Ipc | Mode_Compdb | Mode_Testing.
#[export] Instance WorkerMode_eq_dec : EqDecision WorkerMode.
Proof. solve_decision. Defined.

Record WorkerOptions : Type := mkWorkerOptions {
  wo_projectRootPath : RootPath;
  mode : WorkerMode;
  wo_ipcOptions : IpcOptions;
  wo_compdbPath : str;
  wo_indexOutputPath : str;
  wo_statsFilePath : str;
  wo_packageMapPath : str;
  wo_showCompilerDiagnostics : bool;
  wo_showProgress : bool;
  wo_logLevel : Z;
  wo_deterministic : bool;
  wo_measureStatistics : bool;
  recordingOptions : PreprocessorHistoryRecordingOptions;
  wo_temporaryOutputDir : str;
  workerFault : str;
}.

Definition WorkerOptions_fromCliOptions `{BuildMode, LlvmPath, ProcessEnv} (cliOptions : CliOptions)
    : result WorkerOptions :=
  projectRoot ← AbsolutePath_new current_path;
  let projectRootPath := mkRootPath projectRoot Project in
  '(mode, ipcOptions, compdbPath, indexOutputPath, statsFilePath) ←
    (if bool_decide (workerMode cliOptions = lit "ipc") then
       Ok (Mode_Ipc, CliOptions_ipcOptions cliOptions, [], [], [])
     else if bool_decide (workerMode cliOptions = lit "compdb") then
       Ok (Mode_Compdb, mkIpcOptions 0 0 [] 0, cli_compdbPath cliOptions,
           cli_indexOutputPath cliOptions, cli_statsFilePath cliOptions)
     else
       ENFORCE (bool_decide (workerMode cliOptions = lit "testing"))
         "cliOptions.workerMode == testing" ;;
       Ok (Mode_Testing, mkIpcOptions 0 0 [] 0, [], [], []));
  Ok (mkWorkerOptions projectRootPath mode ipcOptions compdbPath indexOutputPath statsFilePath
        (cli_packageMapPath cliOptions) (cli_showCompilerDiagnostics cliOptions)
        (cli_showProgress cliOptions) (cli_logLevel cliOptions) (cli_deterministic cliOptions)
        (cli_measureStatistics cliOptions)
        (mkRecordingOptions (cli_preprocessorRecordHistoryFilterRegex cliOptions)
           (cli_preprocessorHistoryLogPath cliOptions) false [])
        (cli_temporaryOutputDir cliOptions) (cli_workerFault cliOptions)).

Inductive ReceiveStatus : Type := DriverTimeout | MalformedMessage | Status_Shutdown | OK.
#[export] Instance ReceiveStatus_eq_dec : EqDecision ReceiveStatus.
Proof. solve_decision. Defined.

(** An element of the queue: what one call of [timedReceive] yields. *)
Abbreviation Incoming := (IndexJobRequest + ReceiveError)%type (only parsing).

(** What passes through the queues, in the order in which it does. *)
Inductive Message : Type := Received (m : IndexJobRequest + ReceiveError) | Sent (response : IndexJobResponse).

Record Worker : Type := mkWorker {
  w_options : WorkerOptions;
  w_packageMap : PackageMap;
  messageQueues : option MessageQueuePair;
  compileCommands : list CommandObject;
  commandIndex : nat;
  w_recorder : option PreprocessorHistoryRecorder;
  w_statistics : IndexingStatistics;
  inbox : list Incoming;
  messages_log : list Message;
  w_files : list (str * FileContent);
  w_history : list PreprocessorHistory;
}.
Definition set_w_packageMap pm w := mkWorker (w_options w) pm (messageQueues w) (compileCommands w)
  (commandIndex w) (w_recorder w) (w_statistics w) (inbox w) (messages_log w) (w_files w) (w_history w).
Definition set_commandIndex i w := mkWorker (w_options w) (w_packageMap w) (messageQueues w)
  (compileCommands w) i (w_recorder w) (w_statistics w) (inbox w) (messages_log w) (w_files w) (w_history w).
Definition set_w_statistics s w := mkWorker (w_options w) (w_packageMap w) (messageQueues w)
  (compileCommands w) (commandIndex w) (w_recorder w) s (inbox w) (messages_log w) (w_files w) (w_history w).
Definition set_inbox i w := mkWorker (w_options w) (w_packageMap w) (messageQueues w)
  (compileCommands w) (commandIndex w) (w_recorder w) (w_statistics w) i (messages_log w) (w_files w)
  (w_history w).
Definition log_message (m : Message) w := mkWorker (w_options w) (w_packageMap w) (messageQueues w)
  (compileCommands w) (commandIndex w) (w_recorder w) (w_statistics w) (inbox w)
  (messages_log w ++ [m]) (w_files w) (w_history w).
Definition set_w_files f w := mkWorker (w_options w) (w_packageMap w) (messageQueues w)
  (compileCommands w) (commandIndex w) (w_recorder w) (w_statistics w) (inbox w) (messages_log w) f
  (w_history w).
Definition set_w_history h w := mkWorker (w_options w) (w_packageMap w) (messageQueues w)
  (compileCommands w) (commandIndex w) (w_recorder w) (w_statistics w) (inbox w) (messages_log w)
  (w_files w) h.

Definition ipcOptions (this : Worker) : IpcOptions := wo_ipcOptions (w_options this).

(** ** The constructor *)
Definition recorder_path (preferRelativePaths : bool) (rootPath sref : str) : str :=
  if preferRelativePaths && starts_with rootPath sref then drop (length rootPath) sref else sref.

Definition Worker_recorder `{BuildMode, RegexValid, ProcessEnv}
    (recordingOptions : PreprocessorHistoryRecordingOptions)
    : result (option PreprocessorHistoryRecorder) :=
  filter ← HeaderFilter_new (filterRegex recordingOptions);
  if isIdentity filter then Ok None
  else
    let path := preprocessorHistoryLogPath recordingOptions in
    ENFORCE (negb (bool_decide (path = []))) "!preprocessorHistoryLogPath.empty()" ;;
    if open_fails path then Err (Exit 1)
    else Ok (Some (mkRecorder filter (recorder_path (preferRelativePaths recordingOptions)
                                        (rec_rootPath recordingOptions)))).

Definition SIZE_MAX : Z := 2 ^ 64 - 1.

(** The part of the constructor that depends on the mode; boost's exceptions leave it. *)
Definition Worker_inputs `{BuildMode, LlvmPath, FileSystem, ProcessRunner, AbslStrings,
      Cleaner.LlvmRegex, RegexEscape, CommandLine.Parser.WindowsTokenizer, RapidJson, StdFile}
    (uninitialised : Z) (options : WorkerOptions) (qs : gmap str BoostQueue)
    : result (option MessageQueuePair * list CommandObject + interprocess_exception) :=
  match mode options with
  | Mode_Ipc =>
      Ok (match forWorker qs (wo_ipcOptions options) with
          | inl queuePair => inl (Some queuePair, [])
          | inr e => inr e
          end)
  | Mode_Compdb =>
      compdbFile ← openAndExitOnErrors uninitialised (wo_compdbPath options)
                     (mkValidationOptions true true);
      parseOptions ← ParseOptions_create SIZE_MAX false;
      let parser := initialize (ResumableParser_default parseOptions) compdbFile parseOptions in
      '(_, commands) ← parseMore parser [];
      Ok (inl (None, commands))
  | Mode_Testing => Ok (inl (None, []))
  end.

Definition Worker_new `{BuildMode, LlvmPath, FileSystem, ProcessRunner, AbslStrings, AbslSplit,
      Cleaner.LlvmRegex, RegexEscape, RegexValid, CommandLine.Parser.WindowsTokenizer, RapidJson, StdFile, ProcessEnv,
      JL : JsonLib, !JsonParser}
    (uninitialised : Z) (options : WorkerOptions) (qs : gmap str BoostQueue) (incoming : list Incoming)
    : result (Worker + interprocess_exception) :=
  packageMap ← PackageMap_new (wo_projectRootPath options) (wo_packageMapPath options)
                 (bool_decide (mode options = Mode_Testing));
  inputs ← Worker_inputs uninitialised options qs;
  match inputs with
  | inr e => Ok (inr e)
  | inl (queuePair, commands) =>
      recorder ← Worker_recorder (recordingOptions options);
      Ok (inl (mkWorker options packageMap queuePair commands 0 recorder (mkIndexingStatistics 0)
                 incoming [] [] []))
  end.

(** ** What Clang does for a command line *)

(** The calls of the preprocessor. *)
Inductive PPEvent `{ClangSourceManager, !ClangMacros} : Type :=
| OnFileChanged (sourceLoc : SourceLocation) (reason : FileChangeReason) (previousFileId : FileID)
| OnMacroDefined (macroNameToken : Token) (macroDirective : option (option MacroInfo))
| OnMacroReferenced (macroNameToken : Token) (macroDefinition : MacroDefinition)
| OnInclusionDirective (fileNameRange : SourceRange) (optFileEntry : option FileEntry).

(** A frontend action: its view of the sources, the calls of its preprocessor, whether
    the semantic analysis ended, and the calls of the traversal. *)
Record FrontendRun `{CF : ClangFileID} : Type := mkFrontendRun {
  run_sm : ClangSourceManager;
  run_ast : @ClangAst CF run_sm;
  run_tuast : @ClangTuAst CF run_sm run_ast;
  run_macros : @ClangMacros CF run_sm;
  run_pp : list (@PPEvent CF run_sm run_macros);
  run_handled : bool;
  run_events : list (@AstEvent CF run_sm run_ast run_tuast);
}.

(** [clang::tooling::ToolInvocation] in a working directory. *)
Class ClangTooling `{CF : ClangFileID} : Type :=
  ToolInvocation : str -> list str -> list FrontendRun.

(** The time that indexing a translation unit takes, and what an uninitialised local
    variable holds. *)
Class WorkerMachine : Type := {
  elapsed_micros : JobId -> Z;
  uninitialised_status : ReceiveStatus;
  worker_send_fails : IndexJobResponse -> bool;
}.

Section Worker.
Context `{BM : BuildMode, AR : AbslReplace, LP : LlvmPath, FS : FileSystem, CF : ClangFileID}.
Context `{AS : AbslStrings, U8 : Utf8, AE : AbslEmplace, TH : TextHash, SE : ScipEnums}.
Context `{WH : WyHash, RX : Cleaner.LlvmRegex, HI : HashIteration, PE : ProcessEnv}.
Context {TL : ClangTooling} {WM : WorkerMachine}.

Abbreviation WM_ A := (ST Worker A) (only parsing).

Definition pp_call {SM : ClangSourceManager} {CM : ClangMacros} (this : IndexerPreprocessorWrapper)
    (event : PPEvent) : result IndexerPreprocessorWrapper :=
  match event with
  | OnFileChanged loc reason f => FileChanged this loc reason f
  | OnMacroDefined tok info => MacroDefined this tok info
  | OnMacroReferenced tok def => MacroReferenced this tok def
  | OnInclusionDirective r entry => InclusionDirective this r entry
  end.

(** [IndexerFrontendAction]: the preprocessor's callbacks and the consumer of the AST
    of one action.  [L] are the locals that the callback refers to. *)
Definition run_action {L} (preprocessorOptions : IndexerPreprocessorOptions)
    (astConsumerOptions : IndexerAstConsumerOptions) (callback : WorkerCallback (Worker * L))
    (st : Worker * L * TuIndexingOutput) (run : FrontendRun)
    : result (Worker * L * TuIndexingOutput) :=
  let '(this, locals, out) := st in
  wrapper ← foldM (@pp_call (run_sm run) (run_macros run))
              (@IndexerPreprocessorWrapper_new CF (run_sm run) (run_macros run) preprocessorOptions)
              (run_pp run);
  if run_handled run then
    '(wrapper, packageMap, out, (this, locals)) ←
      @HandleTranslationUnit BM AR LP FS CF (run_sm run) (run_ast run) (run_tuast run)
        (run_macros run) AS U8 AE TH SE WH HI (Worker * L) astConsumerOptions callback
        wrapper (w_packageMap this) (run_events run) out (this, locals);
    Ok (set_w_history (w_history this ++ yamlStream wrapper) (set_w_packageMap packageMap this),
        locals, out)
  else Ok (set_w_history (w_history this ++ yamlStream wrapper) this, locals, out).

Definition clang_arguments (command : CommandObject) : list str :=
  arguments command ++ [lit "-fsyntax-only"; lit "-Wno-everything"; lit "-working-directory";
                        workingDirectory command; lit "-ferror-limit=0"].

Definition processTranslationUnit {L} (job : SemanticAnalysisJobDetails)
    (workerCallback : WorkerCallback (Worker * L)) (locals : L) (tuIndexingOutput : TuIndexingOutput)
    : WM_ (L * TuIndexingOutput) := fun this =>
  optPathRef ← tryFrom (workingDirectory (command job));
  ENFORCE (bool_decide (is_Some optPathRef)) "optPathRef.has_value()" ;;
  pathRef ← optional_value optPathRef;
  let buildRootPath := mkRootPath (AbsolutePath_ofRef pathRef) Build in
  let options := w_options this in
  let preprocessorOptions :=
    mkPreprocessorOptions (wo_projectRootPath options) (w_recorder this) (wo_deterministic options) in
  let astConsumerOptions :=
    mkAstConsumerOptions (wo_projectRootPath options) buildRootPath (wo_deterministic options) in
  '(this, locals, out) ←
    foldM (run_action preprocessorOptions astConsumerOptions workerCallback)
      (this, locals, tuIndexingOutput)
      (ToolInvocation (workingDirectory (command job)) (clang_arguments (command job)));
  Ok (locals, out, this).

(** ** Output *)
Definition emitIndex (message : FileContent) (outputPath : str) : WM_ unit := fun this =>
  if open_fails outputPath then Err (Exit 1)
  else Ok ((), set_w_files (w_files this ++ [(outputPath, message)]) this).

Definition sendResult (requestId : JobId) (result : IndexJobResult) : WM_ unit := fun this =>
  ENFORCE (bool_decide (mode (w_options this) = Mode_Ipc)) "this->options.mode == WorkerMode::Ipc" ;;
  _ ← optional_value (messageQueues this);
  let response := mkIndexJobResponse (workerId (ipcOptions this)) requestId result in
  if worker_send_fails response then Err (Exit 1)
  else Ok ((), log_message (Sent response) this).

(** ** Requests *)

(** [triggerFaultIfApplicable]: a crash ends the process with a signal; sleeping and
    spinning take time and change nothing. *)
Definition triggerFaultIfApplicable : WM_ unit := fun this =>
  let fault := workerFault (w_options this) in
  if bool_decide (fault = []) then Ok ((), this)
  else if bool_decide (fault = lit "crash") then Err (Exit 139)
  else if bool_decide (fault = lit "sleep") then Ok ((), this)
  else if bool_decide (fault = lit "spin") then Ok ((), this)
  else Err (Exit 1).

(** One call of [timedReceive]. *)
Definition receive (this : Worker) : Incoming * Worker :=
  match inbox this with
  | [] => (inr TimeoutError, this)
  | m :: ms => (m, log_message (Received m) (set_inbox ms this))
  end.

(** [request] is a parameter that is assigned to. *)
Definition waitForRequest (request : IndexJobRequest) : WM_ (ReceiveStatus * IndexJobRequest) :=
  fun this =>
  if bool_decide (mode (w_options this) = Mode_Compdb) then
    match compileCommands this !! commandIndex this with
    | None => Ok ((Status_Shutdown, request), this)
    | Some command =>
        let id := newTask (wrap32 (Z.of_nat (commandIndex this))) in
        let job := mkIndexJob SemanticAnalysis (mkSemanticAnalysisJobDetails command)
                     EmitIndexJobDetails_default in
        Ok ((OK, mkIndexJobRequest id job), set_commandIndex (S (commandIndex this)) this)
    end
  else
    ENFORCE (bool_decide (mode (w_options this) = Mode_Ipc)) "this->options.mode == WorkerMode::Ipc" ;;
    _ ← optional_value (messageQueues this);
    match receive this with
    | (inr TimeoutError, this) => Ok ((DriverTimeout, request), this)
    | (inr ParseError, this) | (inr FromJsonError, this) => Ok ((MalformedMessage, request), this)
    | (inl request, this) =>
        if bool_decide (request_id request = Shutdown) then Ok ((Status_Shutdown, request), this)
        else '(_, this) ← triggerFaultIfApplicable this; Ok ((OK, request), this)
    end.

Definition sendRequestAndReceive (semaRequestId : JobId) (semaResult : SemanticAnalysisJobResult)
    (emitIndexRequest : IndexJobRequest) : WM_ (ReceiveStatus * IndexJobRequest) :=
  sendResult semaRequestId (mkIndexJobResult SemanticAnalysis semaResult EmitIndexJobResult_default) ;;
  '(status, emitIndexRequest) ← waitForRequest emitIndexRequest;
  if negb (bool_decide (status = OK)) then mret (status, emitIndexRequest)
  else if bool_decide (request_id emitIndexRequest = Shutdown) then st_lift (Err (Exit 1))
  else mret (status, emitIndexRequest).

(** The locals of [processTranslationUnitAndRespond] that its callback assigns to. *)
Record Locals : Type := mkLocals {
  innerStatus : ReceiveStatus;
  emitIndexRequestId : JobId;
  callbackInvoked : Z;
}.
Definition Locals_initial : Locals := mkLocals uninitialised_status JobId_default 0.

Definition IndexJob_default : IndexJob :=
  mkIndexJob SemanticAnalysis SemanticAnalysisJobDetails_default EmitIndexJobDetails_default.
Definition IndexJobRequest_default : IndexJobRequest := mkIndexJobRequest JobId_default IndexJob_default.

(** The files of the result of semantic analysis, as in Compdb mode. *)
Definition all_files (semaResult : SemanticAnalysisJobResult) : list PreprocessedFileInfo :=
  wellBehavedFiles semaResult
  ++ flat_map (fun m => map (mkPreprocessedFileInfo (pfim_path m)) (hashValues m))
       (illBehavedFiles semaResult).

Definition callback (semaRequestId : JobId) : WorkerCallback (Worker * Locals) :=
  fun semaResult emitIndexDetails '(this, locals) =>
  let locals := mkLocals (innerStatus locals) (emitIndexRequestId locals)
                  (wrap32 (callbackInvoked locals + 1)) in
  if bool_decide (mode (w_options this) = Mode_Compdb) then
    Ok (true, mkEmitIndexJobDetails (filesToBeIndexed emitIndexDetails ++ all_files semaResult),
        (this, locals))
  else
    '((status, emitIndexRequest), this) ←
      sendRequestAndReceive semaRequestId semaResult IndexJobRequest_default this;
    let locals := mkLocals status (emitIndexRequestId locals) (callbackInvoked locals) in
    if negb (bool_decide (status = OK)) then Ok (false, emitIndexDetails, (this, locals))
    else
      ENFORCE (bool_decide (job_kind (request_job emitIndexRequest) = EmitIndex))
        "expected EmitIndex request" ;;
      Ok (true, job_emitIndex (request_job emitIndexRequest),
          (this, mkLocals status (request_id emitIndexRequest) (callbackInvoked locals))).

(** ** Writing the shards *)
Definition emit_stats (tuMainFilePath : str) : WM_ unit := fun this =>
  let path := wo_statsFilePath (w_options this) in
  if bool_decide (path = []) then Ok ((), this)
  else
    files ← emitAll [mkStatsEntry tuMainFilePath (w_statistics this)] path (w_files this);
    Ok ((), set_w_files files this).

Definition emit_compdb (tuMainFilePath : str) (time : Z) (out : TuIndexingOutput)
    : WM_ ReceiveStatus :=
  outputPath ← st_gets (fun this => wo_indexOutputPath (w_options this));
  emitIndex (IndexFile (tuo_docsAndExternals out)) outputPath ;;
  st_modify (set_w_statistics (mkIndexingStatistics time)) ;;
  emit_stats tuMainFilePath ;;
  mret OK.

(** The two paths, and their suffixes. *)
Definition docs_path (this : Worker) (id : JobId) : str :=
  path_append (wo_temporaryOutputDir (w_options this))
    (prefix (taskId id) (workerId (ipcOptions this))) ++ lit "-docs_and_externals.shard.scip".
Definition forward_path (this : Worker) (id : JobId) : str :=
  path_append (wo_temporaryOutputDir (w_options this))
    (prefix (taskId id) (workerId (ipcOptions this))) ++ lit "-forward_decls.shard.scip".

Definition emit_shards (emitIndexRequestId : JobId) (time : Z) (out : TuIndexingOutput)
    : WM_ ReceiveStatus :=
  docsAndExternalsOutputPath ← st_gets (fun this => docs_path this emitIndexRequestId);
  forwardDeclsOutputPath ← st_gets (fun this => forward_path this emitIndexRequestId);
  emitIndex (IndexFile (tuo_docsAndExternals out)) docsAndExternalsOutputPath ;;
  emitIndex (ForwardDeclFile (tuo_forwardDecls out)) forwardDeclsOutputPath ;;
  st_modify (set_w_statistics (mkIndexingStatistics time)) ;;
  statistics ← st_gets w_statistics;
  docs ← st_lift (AbsolutePath_new docsAndExternalsOutputPath);
  fwd ← st_lift (AbsolutePath_new forwardDeclsOutputPath);
  sendResult emitIndexRequestId
    (mkIndexJobResult EmitIndex SemanticAnalysisJobResult_default
       (mkEmitIndexJobResult statistics (mkShardPaths docs fwd))) ;;
  mret OK.

(** When no action got to the callback, an empty result is sent instead. *)
Definition respond_without_analysis (semaRequestId : JobId) (locals : Locals) : WM_ Locals :=
  if callbackInvoked locals =? 0 then
    '(status, emitIndexRequest) ←
      sendRequestAndReceive semaRequestId SemanticAnalysisJobResult_default IndexJobRequest_default;
    mret (mkLocals status (request_id emitIndexRequest) (callbackInvoked locals))
  else
    st_lift (ENFORCE (callbackInvoked locals =? 1) "callbackInvoked == 1") ;;
    mret locals.

Definition processTranslationUnitAndRespond (semanticAnalysisRequest : IndexJobRequest)
    : WM_ ReceiveStatus :=
  let semaRequestId := request_id semanticAnalysisRequest in
  let semaDetails := job_semanticAnalysis (request_job semanticAnalysisRequest) in
  '(locals, out) ← processTranslationUnit semaDetails (callback semaRequestId) Locals_initial
                     TuIndexingOutput_default;
  locals ← respond_without_analysis semaRequestId locals;
  if negb (bool_decide (innerStatus locals = OK)) then mret (innerStatus locals)
  else
    options ← st_gets w_options;
    let time := wrap64 (elapsed_micros semaRequestId) in
    if bool_decide (mode options = Mode_Compdb) then
      emit_compdb (filePath (command semaDetails)) time out
    else emit_shards (emitIndexRequestId locals) time out.

(** ** [run]

    One round of the loop; [true] when the loop goes on. *)
Definition run_round : WM_ bool :=
  '(status, request) ← waitForRequest IndexJobRequest_default;
  match status with
  | Status_Shutdown | DriverTimeout => mret false
  | MalformedMessage => mret true
  | OK =>
      st_lift (ENFORCE (bool_decide (job_kind (request_job request) = SemanticAnalysis))
                 "request.job.kind == IndexJob::Kind::SemanticAnalysis") ;;
      status ← processTranslationUnitAndRespond request;
      match status with
      | Status_Shutdown | DriverTimeout => mret false
      | MalformedMessage | OK => mret true
      end
  end.

Fixpoint worker_loop (fuel : nat) : WM_ unit :=
  match fuel with
  | O => fun _ => Err OutOfFuel
  | S fuel =>
      continue ← run_round;
      if (continue : bool) then worker_loop fuel else mret ()
  end.

(** Every round takes a message or a command. *)
Definition Worker_run : WM_ unit := fun this =>
  (st_lift (ENFORCE (negb (bool_decide (mode (w_options this) = Mode_Testing)))
              "tests typically call method individually") ;;
   worker_loop (S (length (inbox this) + (length (compileCommands this) - commandIndex this)))) this.
End Worker.

(** ** [workerMain]: the exit status, and the worker that ran *)
Definition workerMain `{BM : BuildMode, AR : AbslReplace, LP : LlvmPath, FS : FileSystem, CF : ClangFileID,
      AS : AbslStrings, U8 : Utf8, AE : AbslEmplace, TH : TextHash, SE : ScipEnums,
      WH : WyHash, RX : Cleaner.LlvmRegex, HI : HashIteration, PE : ProcessEnv, !ClangTooling,
      !WorkerMachine, ProcessRunner, AbslSplit, RegexEscape, RegexValid,
      CommandLine.Parser.WindowsTokenizer, RapidJson, StdFile, JL : JsonLib, !JsonParser}
    (uninitialised : Z) (cliOptions : CliOptions) (qs : gmap str BoostQueue) (incoming : list Incoming)
    : result (Z * option Worker) :=
  options ← WorkerOptions_fromCliOptions cliOptions;
  worker ← Worker_new uninitialised options qs incoming;
  match worker with
  | inr _ => Ok (1, None)
  | inl worker => '(_, worker) ← Worker_run worker; Ok (0, Some worker)
  end.
