(* ===== verification/WorkerProtocol.v ===== *)
(** * The worker keeps to the protocol

    Whatever Clang does, a worker answers the requests that it takes from its queue one
    by one and in order, with the ids that they have, and every shard that it announces
    has been written before and is well-formed. *)
From S2P Require Import Prelude CppString Ordering Paths Json PackageMaps IdPaths Symbols ScipMessages.
From S2P Require Import IndexBuilder CommandLine Compdb Toolchains CompdbParser Ipc CliOptions Clang.
From S2P Require Import Formatter QualifiedNames FormatterRefinement MacroIndexer Preprocessor TuAst.
From S2P Require Import NameResolver TuIndexer TuInvariants AstConsumer ShardWellFormed Planner Worker.

(** ** The protocol, on the messages *)
Inductive phase : Type := AtSemanticAnalysis | AtEmitIndex.

(** What passes: a message that is taken, an answer. *)
Inductive Event : Type := Got (m : IndexJobRequest + ReceiveError) | Answered (id : JobId) (kind : Kind).

(** What happens when the given messages arrive: a request for semantic analysis is
    answered, then the request for its index; a message that cannot be read starts over;
    the shutdown message and a timeout end it. *)
Fixpoint serve (st : phase) (ms : list (IndexJobRequest + ReceiveError)) : list Event :=
  match ms with
  | [] => []
  | m :: ms =>
      Got m ::
      match m with
      | inr TimeoutError => []
      | inr _ => serve AtSemanticAnalysis ms
      | inl request =>
          if bool_decide (request_id request = Shutdown) then []
          else
            match st with
            | AtSemanticAnalysis => Answered (request_id request) SemanticAnalysis :: serve AtEmitIndex ms
            | AtEmitIndex => Answered (request_id request) EmitIndex :: serve AtSemanticAnalysis ms
            end
      end
  end.

Definition event (m : Message) : Event :=
  match m with
  | Received m => Got m
  | Sent r => Answered (response_jobId r) (result_kind (response_result r))
  end.

(** What one call of [waitForRequest] takes. *)
Inductive took : list (IndexJobRequest + ReceiveError) -> ReceiveStatus -> IndexJobRequest
    -> list (IndexJobRequest + ReceiveError) -> list Message -> Prop :=
| took_nothing r : took [] DriverTimeout r [] []
| took_timeout r ms : took (inr TimeoutError :: ms) DriverTimeout r ms [Received (inr TimeoutError)]
| took_malformed e r ms : e <> TimeoutError -> took (inr e :: ms) MalformedMessage r ms [Received (inr e)]
| took_shutdown r ms : request_id r = Shutdown -> took (inl r :: ms) Status_Shutdown r ms [Received (inl r)]
| took_request r ms : request_id r <> Shutdown -> took (inl r :: ms) OK r ms [Received (inl r)].

Lemma took_serve st ms status r ms' new :
  took ms status r ms' new ->
  serve st ms = map event new ++ match status with
    | DriverTimeout | Status_Shutdown => []
    | MalformedMessage => serve AtSemanticAnalysis ms'
    | OK => match st with
        | AtSemanticAnalysis => Answered (request_id r) SemanticAnalysis :: serve AtEmitIndex ms'
        | AtEmitIndex => Answered (request_id r) EmitIndex :: serve AtSemanticAnalysis ms' end
    end.
Proof.
  destruct 1; simpl; [done|done|by destruct e|by rewrite bool_decide_true|by rewrite bool_decide_false].
Qed.

Lemma took_length ms status r ms' new :
  took ms status r ms' new -> (length ms' <= length ms)%nat
    /\ (status = OK \/ status = MalformedMessage -> length ms' < length ms)%nat.
Proof. destruct 1; simpl; split; try lia; intros [?|?]; done. Qed.

(** ** The preprocessor never runs out of fuel *)
Section PreprocessorSafe.
Context `{BM : BuildMode, WH : WyHash, LP : LlvmPath, RX : Cleaner.LlvmRegex, CF : ClangFileID}.
Context {SM : ClangSourceManager} {CM : ClangMacros} `{HI : HashIteration}.

Lemma ENFORCE_result_fails_well e what : fails_well e -> fails_well (ENFORCE_result e what).
Proof. intros He. unfold ENFORCE_result. destruct debugMode; [|done]. safe_auto. Qed.
Lemma isTopValid_fails_well s : fails_well (isTopValid s).
Proof. unfold isTopValid. safe_auto. Qed.
#[local] Hint Resolve isTopValid_fails_well ENFORCE_result_fails_well fails_well_fmap : safe.

Lemma MIX_INTO_HASH_fails_well s v p c : (forall u, fails_well (p u)) -> fails_well (MIX_INTO_HASH s v p c).
Proof. intros Hp. unfold MIX_INTO_HASH, topHash, mixWithContext. safe_auto. Qed.
Lemma pathKey_fails_well this f : fails_well (pathKeyForHistory this f).
Proof. unfold pathKeyForHistory. safe_auto. Qed.
#[local] Hint Resolve MIX_INTO_HASH_fails_well pathKey_fails_well : safe.

Lemma enterFile_fails_well this l : fails_well (enterFile this l).
Proof. unfold enterFile. safe_auto. Qed.
Lemma finish_header_fails_well this i : fails_well (finish_header this i).
Proof. unfold finish_header. safe_auto. Qed.
#[local] Hint Resolve finish_header_fails_well : safe.
Lemma exitFile_fails_well this f : fails_well (exitFile this f).
Proof. unfold exitFile, exitFileImpl, tryPopValid, popInvalid. safe_auto. Qed.
#[local] Hint Resolve enterFile_fails_well exitFile_fails_well : safe.

Lemma FileLocalMacroOccurrence_new_fails_well t i r : fails_well (FileLocalMacroOccurrence_new t i r).
Proof. unfold FileLocalMacroOccurrence_new, fromNonEmpty. safe_auto. Qed.
#[local] Hint Resolve FileLocalMacroOccurrence_new_fails_well : safe.
Lemma macro_saveOccurrence_fails_well this f t i r : fails_well (macro_saveOccurrence this f t i r).
Proof. unfold macro_saveOccurrence. safe_auto. Qed.
#[local] Hint Resolve macro_saveOccurrence_fails_well tryFrom_fails_well : safe.

Lemma pp_call_fails_well this e : fails_well (pp_call this e).
Proof.
  destruct e; cbn [pp_call]; unfold FileChanged, MacroDefined, MacroReferenced, InclusionDirective,
    macro_saveDefinition, macro_saveReference; safe_auto.
Qed.

Lemma flushState_fails_well this res m : fails_well (flushState this res m).
Proof.
  unfold flushState, collect_finished, forEachPathAndHash.
  apply fails_well_bind; [auto with safe|]. intros this'. apply fails_well_bind.
  - apply fails_well_fmap, foldM_fails_well. intros st e. unfold collect_step, getAbsPath. safe_auto.
  - intros m'. apply fails_well_bind; [|safe_auto]. apply foldM_fails_well. intros s x.
    unfold classify_path. safe_auto.
Qed.

(** An ill-behaved file has more than one hash. *)
Lemma collect_finished_wf this m : collect_finished this ∅ = Ok m -> lookupMap_wf m.
Proof.
  unfold collect_finished. intros H. apply fmap_Ok_inv in H as ([m' w] & H & <-).
  eapply (foldM_invariant (fun st => lookupMap_wf st.1)) in H; [exact H| |by intros ? ?; rewrite lookup_empty].
  intros [m1 w1] [f h] st' _ Hwf Hs. unfold collect_step in Hs. apply bind_Ok_inv in Hs as ([o w2] & _ & Hs).
  destruct o; injection Hs as <-; [by apply lookupMap_insert_wf|done].
Qed.

Lemma flushState_SemaResult_wf `{HL : !HashIterationLaws} this this' res m mi :
  flushState this (mkSemanticAnalysisJobResult [] []) ∅ = Ok (this', res, m, mi) -> SemaResult_wf res.
Proof.
  unfold flushState. intros H. apply bind_Ok_inv in H as (w & _ & H). cbv zeta in H.
  apply bind_Ok_inv in H as (m1 & Hm & H). apply bind_Ok_inv in H as (res1 & Hf & H). injection H as _ <- _ _.
  assert (SemaResult_wf res1) as H1.
  { unfold forEachPathAndHash in Hf. eapply (foldM_invariant SemaResult_wf) in Hf; [exact Hf| |by constructor].
    intros r [p hs] r' Hin Hr Hs. apply bind_Ok_inv in Hs as ([] & _ & Hs). cbn [fst snd] in Hs.
    assert (hs <> ∅) as Hne.
    { apply iterate_elem_of in Hin. by eapply (collect_finished_wf _ _ Hm). }
    unfold classify_path in Hs. destruct (size hs =? 1)%nat eqn:Es; [by injection Hs as <-|].
    apply bind_Ok_inv in Hs as ([] & _ & [= <-]). apply Forall_app. split; [done|]. constructor; [|done].
    cbn [hashValues]. rewrite length_map (Permutation_length (iterate_entries hs)). apply Nat.eqb_neq in Es.
    apply map_size_non_empty_iff in Hne. rewrite length_map_to_list. lia. }
  destruct (ppo_deterministic _); [|done]. unfold SemaResult_wf. cbn [illBehavedFiles].
  by rewrite c_sort_Permutation.
Qed.
End PreprocessorSafe.

(** ** Shards *)
Section Shards.
Context `{SE : ScipEnums, BM : BuildMode, LP : LlvmPath}.

Definition shard_ok (docs : Index) (fwd : list ForwardDecl) : Prop :=
  Forall document_wf (documents docs)
  /\ (debugMode = true -> Forall (fun d => doc_path_ok (relative_path d)) (documents docs))
  /\ Forall (fun fd => fd_references fd <> [] /\ ForwardDecl_wf fd) fwd.

Lemma shard_ok_default : shard_ok (tuo_docsAndExternals TuIndexingOutput_default)
  (tuo_forwardDecls TuIndexingOutput_default).
Proof. by split. Qed.

Lemma shard_wf_ok `{ClangFileID, !ClangSourceManager, !ClangMacros} fm ids det mi out :
  shard_wf fm ids det mi out ->
  (debugMode = true -> Forall (fun d => doc_path_ok (relative_path d)) (documents (tuo_docsAndExternals out))) ->
  shard_ok (tuo_docsAndExternals out) (tuo_forwardDecls out).
Proof.
  intros [(files & _ & _ & _ & Hd & Hf) _] Hp. split_and!; [|done|].
  - clear Hf Hp. induction Hd as [|f d fs ds Hfd _ IH]; constructor; [by destruct Hfd|done].
  - eapply Forall_impl; [exact Hf|]. intros fd [Hne Hr]. split; [done|].
    eapply Forall_impl; [exact Hr|]. by intros r [? _].
Qed.

(** What a worker writes: half a shard, or statistics. *)
Definition written_ok (file : str * FileContent) : Prop :=
  match file.2 with
  | IndexFile docs => shard_ok docs []
  | ForwardDeclFile fwd => shard_ok (mkIndex [] []) fwd
  | StatsFile _ => True
  end.

Definition wrote (files files' : list (str * FileContent)) : Prop :=
  exists new, files' = files ++ new /\ Forall written_ok new.
#[export] Instance wrote_preorder : PreOrder wrote.
Proof.
  split; [intros fs; exists []; by rewrite app_nil_r|].
  intros x y z (n1 & -> & H1) (n2 & -> & H2). exists (n1 ++ n2). rewrite app_assoc. split; [done|].
  by apply Forall_app.
Qed.

(** The shards that a response announces are files, named after the task and the worker,
    and well-formed. *)
Definition announced (w : Worker) (files : list (str * FileContent)) (r : IndexJobResponse) : Prop :=
  result_kind (response_result r) = EmitIndex ->
  let paths := shardPaths (result_emitIndex (response_result r)) in
  asStringRef (docsAndExternals paths) = docs_path w (response_jobId r)
  /\ asStringRef (forwardDecls paths) = forward_path w (response_jobId r)
  /\ exists docs fwd,
    (asStringRef (docsAndExternals paths), IndexFile docs) ∈ files
    /\ (asStringRef (forwardDecls paths), ForwardDeclFile fwd) ∈ files
    /\ shard_ok docs fwd.

(** What the worker [w] sends, when it has written [files]. *)
Definition genuine (w : Worker) (files : list (str * FileContent)) (m : Message) : Prop :=
  match m with
  | Received _ => True
  | Sent r => response_workerId r = workerId (ipcOptions w)
      /\ SemaResult_wf (result_semanticAnalysis (response_result r))
      /\ announced w files r
  end.

Lemma genuine_mono w w' files files' m :
  w_options w' = w_options w -> wrote files files' -> genuine w' files m -> genuine w files' m.
Proof.
  intros Ho (k & -> & _). destruct m as [|r]; [done|]. unfold genuine, announced, docs_path, forward_path, ipcOptions.
  rewrite Ho. intros (Hw & Hs & Ha). split_and!; [done..|]. intros Hk.
  destruct (Ha Hk) as (H1 & H2 & docs & fwd & H3 & H4 & H5). split_and!; [done..|].
  exists docs, fwd. rewrite !elem_of_app. auto.
Qed.
End Shards.

(** ** The steps of the worker *)
Section WorkerSteps.
Context `{BM : BuildMode, AR : AbslReplace, LP : LlvmPath, FS : FileSystem, CF : ClangFileID}.
Context `{AS : AbslStrings, U8 : Utf8, AE : AbslEmplace, TH : TextHash, SE : ScipEnums}.
Context `{WH : WyHash, RX : Cleaner.LlvmRegex, HI : HashIteration, HL : !HashIterationLaws}.
Context `{PE : ProcessEnv} {TL : ClangTooling} {WM : WorkerMachine}.

(** What a worker never changes. *)
Definition frame (w w' : Worker) : Prop :=
  w_options w' = w_options w /\ messageQueues w' = messageQueues w
  /\ compileCommands w' = compileCommands w /\ commandIndex w' = commandIndex w.
#[export] Instance frame_preorder : PreOrder frame.
Proof.
  split; [done|]. intros x y z (?&?&?&?) (?&?&?&?). unfold frame. split_and!; congruence.
Qed.

(** A step that neither takes nor sends a message nor writes a file. *)
Definition quiet (w w' : Worker) : Prop :=
  frame w w' /\ inbox w' = inbox w /\ messages_log w' = messages_log w /\ w_files w' = w_files w.

Lemma waitForRequest_ends request w :
  mode (w_options w) = Mode_Ipc ->
  ends_in (fun '((status, r), w') => frame w w' /\ w_files w' = w_files w
             /\ exists new, messages_log w' = messages_log w ++ new /\ took (inbox w) status r (inbox w') new) (waitForRequest request w).
Proof.
  intros Hm. unfold waitForRequest. rewrite Hm (bool_decide_true (Mode_Ipc = Mode_Ipc)) //.
  rewrite bool_decide_false //.
  eapply ends_bind; [apply ends_fails, fails_well_ENFORCE|]. intros _ _.
  eapply ends_bind; [apply ends_fails, fails_well_optional|]. intros _ _.
  assert (forall w' status r new, frame w w' -> w_files w' = w_files w ->
    messages_log w' = messages_log w ++ new -> took (inbox w) status r (inbox w') new ->
    frame w w' /\ w_files w' = w_files w
      /\ exists new, messages_log w' = messages_log w ++ new /\ took (inbox w) status r (inbox w') new) as Hi by eauto 6.
  unfold receive. destruct (inbox w) as [|[r|e] ms] eqn:Ei.
  - apply (Hi _ _ _ []); [done..|by rewrite app_nil_r|]. rewrite Ei. constructor.
  - case_bool_decide as Hs; [eapply Hi; try done; by constructor|].
    unfold triggerFaultIfApplicable. cbv zeta.
    repeat (case_bool_decide; [by first [discriminate|eapply Hi; try done; by constructor]|]). done.
  - destruct e; (eapply Hi; try done; by constructor).
Qed.

Lemma sendResult_ends id result w :
  ends_in (fun '(_, w') => frame w w' /\ inbox w' = inbox w /\ w_files w' = w_files w
             /\ exists r, messages_log w' = messages_log w ++ [Sent r] /\ response_jobId r = id
                  /\ response_result r = result /\ response_workerId r = workerId (ipcOptions w))
    (sendResult id result w).
Proof.
  unfold sendResult.
  eapply ends_bind; [apply ends_fails, fails_well_ENFORCE|]. intros _ _.
  eapply ends_bind; [apply ends_fails, fails_well_optional|]. intros _ _. cbv zeta.
  destruct (worker_send_fails _); [done|]. split_and!; [done..|]. eexists. done.
Qed.

Lemma emitIndex_ends content path w :
  ends_in (fun '(_, w') => frame w w' /\ inbox w' = inbox w /\ messages_log w' = messages_log w
             /\ w_files w' = w_files w ++ [(path, content)]) (emitIndex content path w).
Proof. unfold emitIndex. by destruct (open_fails path). Qed.

(** A request that is answered, and then the wait for the next one. *)
Definition exchanged (id : JobId) (w w' : Worker) (status : ReceiveStatus) (r : IndexJobRequest) : Prop :=
  frame w w' /\ w_files w' = w_files w
  /\ exists resp new, messages_log w' = messages_log w ++ Sent resp :: new
       /\ event (Sent resp) = Answered id SemanticAnalysis /\ genuine w (w_files w) (Sent resp)
       /\ took (inbox w) status r (inbox w') new.

Lemma exchanged_quiet_l id w w1 w' status r : quiet w w1 -> exchanged id w1 w' status r -> exchanged id w w' status r.
Proof.
  intros (F1 & I1 & O1 & W1) (F & W & resp & new & O & A & G & T).
  split; [by etrans|]. split; [congruence|]. exists resp, new. rewrite I1 in T. rewrite O1 in O. rewrite W1 in G.
  split_and!; [done..| |done]. eapply genuine_mono; [apply (proj1 F1)|done|exact G].
Qed.
Lemma exchanged_quiet_r id w w1 w' status r : exchanged id w w1 status r -> quiet w1 w' -> exchanged id w w' status r.
Proof.
  intros (F & W & resp & new & O & A & G & T) (F1 & I1 & O1 & W1).
  split; [by etrans|]. split; [congruence|]. exists resp, new. rewrite I1 O1. by split_and!.
Qed.

Lemma sendRequestAndReceive_ends id res request w :
  mode (w_options w) = Mode_Ipc -> SemaResult_wf res ->
  ends_in (fun '((status, r), w') => exchanged id w w' status r)
    (sendRequestAndReceive id res request w).
Proof.
  intros Hm Hres. unfold sendRequestAndReceive. rewrite ST_bind_unfold.
  pose proof (sendResult_ends id (mkIndexJobResult SemanticAnalysis res EmitIndexJobResult_default) w) as Hs.
  destruct (sendResult _ _ w) as [[[] w1]|e]; [|done]. destruct Hs as (F1 & I1 & W1 & resp & O1 & A1 & A2 & A3).
  rewrite ST_bind_unfold. assert (mode (w_options w1) = Mode_Ipc) as Hm1 by (by rewrite (proj1 F1)).
  pose proof (waitForRequest_ends request w1 Hm1) as Hw.
  destruct (waitForRequest request w1) as [[[status r] w2]|e]; [|done].
  destruct Hw as (F2 & W2 & new & O2 & T).
  assert (exchanged id w w2 status r) as He.
  { split; [by etrans|]. split; [congruence|]. exists resp, new. rewrite O2 O1 -I1 -app_assoc. split_and!; [done| | |done].
    - unfold event. by rewrite A1 A2.
    - split_and!; [done|by rewrite A2|]. intros Hk. by rewrite A2 in Hk. }
  destruct (negb _); [exact He|]. case_bool_decide; [done|exact He].
Qed.

(** ** The callback *)
Definition called (id : JobId) (w : Worker) (n : Z) (w' : Worker) (l' : Locals) : Prop :=
  callbackInvoked l' = wrap32 (n + 1)
  /\ exists r, exchanged id w w' (innerStatus l') r
       /\ (innerStatus l' = OK -> emitIndexRequestId l' = request_id r).

Lemma callback_ends id res details w l :
  mode (w_options w) = Mode_Ipc -> SemaResult_wf res ->
  ends_in (fun '(_, (w', l')) => called id w (callbackInvoked l) w' l') (callback id res details (w, l)).
Proof.
  intros Hm Hres. unfold callback. cbv zeta. rewrite Hm bool_decide_false //.
  eapply ends_bind; [by apply (sendRequestAndReceive_ends id res IndexJobRequest_default)|].
  intros [[status r] w'] He. cbv beta iota.
  case_bool_decide as Hs; simpl.
  - eapply ends_bind; [apply ends_fails, fails_well_ENFORCE|]. intros _ _.
    split; [done|]. by exists r.
  - split; [done|]. exists r. split; [done|]. simpl. intros ->. done.
Qed.

(** ** Taking an operation apart *)
Lemma ends_st_bind {S A B} (P : A * S -> Prop) (Q : B * S -> Prop) (m : ST S A) k s :
  ends_in P (m s) -> (forall a s', P (a, s') -> ends_in Q (k a s')) -> ends_in Q ((m ≫= k) s).
Proof. rewrite ST_bind_unfold. destruct (m s) as [[a s']|e]; simpl; auto. Qed.
Lemma ends_st_lift {S A} (m : result A) (s : S) :
  fails_well m -> ends_in (fun '(a, s') => m = Ok a /\ s' = s) (st_lift m s).
Proof. unfold st_lift, fails_well. destruct m as [a|e]; simpl; [done|]. by intros H ->. Qed.
Lemma ends_st_gets {S A} (f : S -> A) (s : S) :
  ends_in (fun '(a, s') => a = f s /\ s' = s) (st_gets f s).
Proof. done. Qed.
Lemma ends_st_modify {S} (f : S -> S) (s : S) : ends_in (fun '(_, s') => s' = f s) (st_modify f s).
Proof. done. Qed.

Lemma AbsolutePath_new_fails_well p : fails_well (AbsolutePath_new p).
Proof. unfold AbsolutePath_new. pose proof tryFrom_fails_well. safe_auto. Qed.
Lemma AbsolutePath_new_value p q : AbsolutePath_new p = Ok q -> asStringRef q = p.
Proof. unfold AbsolutePath_new. intros H. by inv_ok. Qed.

(** ** Actions *)
Variable id : JobId.

Lemma run_action_quiet pp ast w l out run :
  run_handled run = false ->
  ends_in (fun '(w', l', out') => quiet w w' /\ l' = l /\ out' = out)
    (run_action pp ast (callback id) (w, l, out) run).
Proof.
  intros Hr. unfold run_action. rewrite Hr.
  eapply ends_bind; [|intros wrapper _; done].
  apply ends_fails, foldM_fails_well. intros. apply pp_call_fails_well.
Qed.

Lemma run_action_called pp ast w l run :
  mode (w_options w) = Mode_Ipc -> run_handled run = true ->
  @ClangAstLaws CF (run_sm run) (run_ast run) ->
  ends_in (fun '(w', l', out') => called id w (callbackInvoked l) w' l'
      /\ shard_ok (tuo_docsAndExternals out') (tuo_forwardDecls out'))
    (run_action pp ast (callback id) (w, l, TuIndexingOutput_default) run).
Proof.
  intros Hm Hr HC. unfold run_action. rewrite Hr.
  eapply ends_bind; [apply ends_fails, foldM_fails_well; intros; apply pp_call_fails_well|].
  intros wrapper _. unfold HandleTranslationUnit.
  eapply (ends_bind (fun r : _ * PackageMap * TuIndexingOutput * (Worker * Locals) =>
    called id w (callbackInvoked l) r.2.1 r.2.2
    /\ shard_ok (tuo_docsAndExternals r.1.2) (tuo_forwardDecls r.1.2))).
  - eapply ends_bind; [apply ends_fails, flushState_fails_well|]. intros [[[wr res] m] mi] Hflush.
    cbv beta iota. apply flushState_SemaResult_wf in Hflush.
    eapply ends_bind; [by apply callback_ends|]. intros [[should details] [w1 l1]] Hc. cbv beta iota.
    destruct (negb should); [split; [done|apply shard_ok_default]|].
    eapply ends_bind; [apply (indexTranslationUnit_ends (SM := run_sm run) (CA := run_ast run)
      (CT := run_tuast run) (CM := run_macros run))|].
    intros [pm out] (fm & ids & _ & _ & Hw & Hp). split; [done|]. by eapply shard_wf_ok.
  - intros [[[wr pm] out] [w1 l1]] [Hc Hs]. cbv beta iota. simpl in *. split; [|done].
    destruct Hc as [H1 (r & He & H2)]. split; [done|]. by exists r.
Qed.

(** Any number of actions, of which at most one gets to the callback. *)
Definition acted (w : Worker) (l : Locals) (st : Worker * Locals * TuIndexingOutput) : Prop :=
  let '(w', l', out) := st in
  shard_ok (tuo_docsAndExternals out) (tuo_forwardDecls out)
  /\ (quiet w w' /\ l' = l \/ called id w (callbackInvoked l) w' l').

Lemma run_actions_quiet pp ast runs w l out :
  filter run_handled runs = [] ->
  ends_in (fun '(w', l', out') => quiet w w' /\ l' = l /\ out' = out)
    (foldM (run_action pp ast (callback id)) (w, l, out) runs).
Proof.
  revert w. induction runs as [|run runs IH]; intros w Hf; cbn [foldM]; [done|].
  rewrite filter_cons in Hf. destruct (decide (run_handled run)) as [|Hr]; [done|].
  eapply ends_bind; [apply run_action_quiet; by destruct (run_handled run)|].
  intros [[w1 l1] out1] (Hq & -> & ->). eapply ends_mono; [by apply IH|].
  intros [[w2 l2] out2] (Hq2 & -> & ->). split; [|done].
  destruct Hq as (F1 & I1 & O1 & W1), Hq2 as (F2 & I2 & O2 & W2). split; [by etrans|].
  split_and!; congruence.
Qed.

Lemma called_quiet_l w w1 n w' l' : quiet w w1 -> called id w1 n w' l' -> called id w n w' l'.
Proof. intros Hq [H1 (r & He & H2)]. split; [done|]. exists r. split; [by eapply exchanged_quiet_l|done]. Qed.
Lemma called_quiet_r w n w1 w' l' : called id w n w1 l' -> quiet w1 w' -> called id w n w' l'.
Proof. intros [H1 (r & He & H2)] Hq. split; [done|]. exists r. split; [by eapply exchanged_quiet_r|done]. Qed.

Lemma run_actions_ends pp ast runs w l :
  mode (w_options w) = Mode_Ipc -> (length (filter run_handled runs) <= 1)%nat ->
  (forall run, run ∈ runs -> @ClangAstLaws CF (run_sm run) (run_ast run)) ->
  ends_in (acted w l) (foldM (run_action pp ast (callback id)) (w, l, TuIndexingOutput_default) runs).
Proof.
  revert w. induction runs as [|run runs IH]; intros w Hm Hlen HC; cbn [foldM].
  { split; [apply shard_ok_default|]. by left. }
  rewrite filter_cons in Hlen. destruct (decide (run_handled run)) as [Hr|Hr].
  - eapply ends_bind; [apply run_action_called; [done|by destruct (run_handled run)|by apply HC; left]|].
    intros [[w1 l1] out1] [Hc Hs]. eapply ends_mono.
    { apply run_actions_quiet. simpl in Hlen. apply length_zero_iff_nil. lia. }
    intros [[w2 l2] out2] (Hq & -> & ->). split; [done|]. right. by eapply called_quiet_r.
  - eapply ends_bind; [apply run_action_quiet; by destruct (run_handled run)|].
    intros [[w1 l1] out1] (Hq & -> & ->).
    eapply ends_mono; [apply IH; [by rewrite (proj1 (proj1 Hq))|done|intros; apply HC; by right]|].
    intros [[w2 l2] out2] [Hs [[Hq2 ->]|Hc]]; (split; [done|]).
    + left. split; [|done]. destruct Hq as (F1 & I1 & O1 & W1), Hq2 as (F2 & I2 & O2 & W2).
      split; [by etrans|]. split_and!; congruence.
    + right. by eapply called_quiet_l.
Qed.

(** ** A translation unit *)
Definition tooling_ok : Prop := forall dir args,
  (length (filter run_handled (ToolInvocation dir args)) <= 1)%nat
  /\ forall run, run ∈ ToolInvocation dir args -> @ClangAstLaws CF (run_sm run) (run_ast run).

Lemma processTranslationUnit_ends job w l :
  mode (w_options w) = Mode_Ipc -> tooling_ok ->
  ends_in (fun '((l', out), w') => acted w l (w', l', out))
    (processTranslationUnit job (callback id) l TuIndexingOutput_default w).
Proof.
  intros Hm HT. unfold processTranslationUnit.
  eapply ends_bind; [apply ends_fails, tryFrom_fails_well|]. intros o _.
  eapply ends_bind; [apply ends_fails, fails_well_ENFORCE|]. intros _ _.
  eapply ends_bind; [apply ends_fails, fails_well_optional|]. intros p _. cbv zeta.
  destruct (HT (workingDirectory (command job)) (clang_arguments (command job))) as [Hlen HC].
  eapply ends_bind; [by apply run_actions_ends|]. by intros [[w1 l1] out1].
Qed.

(** After the answer to the request for semantic analysis. *)
Definition analysed (w w' : Worker) (l' : Locals) : Prop :=
  exists r, exchanged id w w' (innerStatus l') r
    /\ (innerStatus l' = OK -> emitIndexRequestId l' = request_id r).

Lemma respond_ends w w1 l1 out :
  mode (w_options w) = Mode_Ipc -> acted w Locals_initial (w1, l1, out) ->
  ends_in (fun '(l', w') => analysed w w' l') (respond_without_analysis id l1 w1).
Proof.
  intros Hm [_ [[Hq ->]|[Hn (r & He & Hr)]]]; unfold respond_without_analysis.
  - cbn [callbackInvoked Locals_initial]. rewrite (Z.eqb_refl 0) ST_bind_unfold.
    assert (mode (w_options w1) = Mode_Ipc) as Hm1 by (by rewrite (proj1 (proj1 Hq))).
    pose proof (sendRequestAndReceive_ends id SemanticAnalysisJobResult_default IndexJobRequest_default
      w1 Hm1 ltac:(by constructor)) as Hs.
    destruct (sendRequestAndReceive _ _ _ w1) as [[[status r] w2]|e]; [|done].
    exists r. split; [by eapply exchanged_quiet_l|done].
  - rewrite Hn. change (wrap32 (callbackInvoked Locals_initial + 1)) with 1. cbn [Z.eqb].
    eapply ends_st_bind; [apply ends_st_lift, fails_well_ENFORCE|]. intros [] w' [_ ->]. by exists r.
Qed.

Lemma emit_shards_ends eid time out w :
  mode (w_options w) = Mode_Ipc -> shard_ok (tuo_docsAndExternals out) (tuo_forwardDecls out) ->
  ends_in (fun '(status, w') => status = OK /\ frame w w' /\ inbox w' = inbox w
      /\ wrote (w_files w) (w_files w')
      /\ exists r, messages_log w' = messages_log w ++ [Sent r] /\ event (Sent r) = Answered eid EmitIndex
           /\ genuine w (w_files w') (Sent r))
    (emit_shards eid time out w).
Proof.
  intros Hm Hok. unfold emit_shards.
  eapply ends_st_bind; [apply (ends_st_gets (fun this => docs_path this eid))|]. intros p1 ? [-> ->].
  eapply ends_st_bind; [apply (ends_st_gets (fun this => forward_path this eid))|]. intros p2 ? [-> ->].
  set (p1 := docs_path w eid). set (p2 := forward_path w eid).
  eapply ends_st_bind; [apply emitIndex_ends|]. intros [] w1 (F1 & I1 & O1 & W1).
  eapply ends_st_bind; [apply emitIndex_ends|]. intros [] w2 (F2 & I2 & O2 & W2).
  eapply ends_st_bind; [apply ends_st_modify|]. intros [] w3 E3.
  assert (frame w2 w3 /\ inbox w3 = inbox w2 /\ messages_log w3 = messages_log w2 /\ w_files w3 = w_files w2)
    as (F3 & I3 & O3 & W3) by by rewrite E3.
  eapply ends_st_bind; [apply ends_st_gets|]. intros stats ? [_ ->].
  eapply ends_st_bind; [apply ends_st_lift, AbsolutePath_new_fails_well|]. intros docs ? [Hd ->].
  eapply ends_st_bind; [apply ends_st_lift, AbsolutePath_new_fails_well|]. intros fwd ? [Hf ->].
  eapply ends_st_bind; [apply sendResult_ends|].
  intros [] w4 (F4 & I4 & W4 & r & O4 & A1 & A2 & A3). split; [done|].
  assert (w_files w4 = w_files w ++ [(p1, IndexFile (tuo_docsAndExternals out));
                                     (p2, ForwardDeclFile (tuo_forwardDecls out))]) as EW.
  { by rewrite W4 W3 W2 W1 -app_assoc. }
  assert (frame w w3) as F by (by do 2 etrans; [done..|]).
  split; [by etrans|]. split; [congruence|]. split.
  { rewrite EW. eexists. split; [done|]. destruct Hok as (H1 & H2 & H3).
    apply Forall_cons. split; [by split_and!|]. apply Forall_singleton. by split_and!. }
  exists r. rewrite O4 O3 O2 O1. split; [done|]. split; [by rewrite /event A1 A2|].
  split; [rewrite A3; by rewrite /ipcOptions (proj1 F)|]. split; [rewrite A2; by constructor|].
  intros _. rewrite A1 A2. cbv zeta. cbn [result_emitIndex shardPaths docsAndExternals forwardDecls].
  rewrite (AbsolutePath_new_value _ _ Hd) (AbsolutePath_new_value _ _ Hf) EW. split_and!; [done..|].
  exists (tuo_docsAndExternals out), (tuo_forwardDecls out). rewrite !elem_of_app !elem_of_cons.
  split_and!; [tauto..|done].
Qed.
End WorkerSteps.

(** ** The loop *)
Section WorkerLoop.
Context `{BM : BuildMode, AR : AbslReplace, LP : LlvmPath, FS : FileSystem, CF : ClangFileID}.
Context `{AS : AbslStrings, U8 : Utf8, AE : AbslEmplace, TH : TextHash, SE : ScipEnums}.
Context `{WH : WyHash, RX : Cleaner.LlvmRegex, HI : HashIteration, HL : !HashIterationLaws}.
Context `{PE : ProcessEnv} {TL : ClangTooling} {WM : WorkerMachine}.
Hypothesis tooling : tooling_ok.

(** From [w] to [w'] exactly the events [due] happened, and [rest] is still due. *)
Definition serving (w w' : Worker) (due rest : list Event) : Prop :=
  frame w w' /\ (length (inbox w') <= length (inbox w))%nat /\ wrote (w_files w) (w_files w')
  /\ exists new, messages_log w' = messages_log w ++ new /\ due = map event new ++ rest
       /\ Forall (genuine w (w_files w')) new.

Lemma serving_trans w1 w2 w3 due rest rest' :
  serving w1 w2 due rest -> serving w2 w3 rest rest' -> serving w1 w3 due rest'.
Proof.
  intros (F1 & L1 & W1 & n1 & O1 & -> & A1) (F2 & L2 & W2 & n2 & O2 & -> & A2).
  split_and!; [by etrans|lia|by etrans|]. exists (n1 ++ n2).
  rewrite O2 O1 map_app !app_assoc. split_and!; [done..|]. apply Forall_app. split.
  - eapply Forall_impl; [exact A1|]. intros m. by apply genuine_mono.
  - eapply Forall_impl; [exact A2|]. intros m. by apply genuine_mono; [apply (proj1 F1)|].
Qed.

(** What [waitForRequest] takes. *)
Lemma took_serving st w w' status r new :
  frame w w' -> w_files w' = w_files w -> messages_log w' = messages_log w ++ new ->
  took (inbox w) status r (inbox w') new ->
  serving w w' (serve st (inbox w))
    match status with
    | DriverTimeout | Status_Shutdown => []
    | MalformedMessage => serve AtSemanticAnalysis (inbox w')
    | OK => match st with
        | AtSemanticAnalysis => Answered (request_id r) SemanticAnalysis :: serve AtEmitIndex (inbox w')
        | AtEmitIndex => Answered (request_id r) EmitIndex :: serve AtSemanticAnalysis (inbox w') end
    end.
Proof.
  intros F W O T. split; [done|]. split; [by apply (took_length _ _ _ _ _ T)|]. split; [by rewrite W|].
  exists new. split; [done|]. split; [by apply took_serve|]. by destruct T; repeat constructor.
Qed.

(** An exchange: the answer, and what is taken. *)
Lemma exchanged_serving id w w' status r :
  exchanged id w w' status r ->
  serving w w' (Answered id SemanticAnalysis :: serve AtEmitIndex (inbox w))
    match status with
    | DriverTimeout | Status_Shutdown => []
    | MalformedMessage => serve AtSemanticAnalysis (inbox w')
    | OK => Answered (request_id r) EmitIndex :: serve AtSemanticAnalysis (inbox w')
    end.
Proof.
  intros (F & W & resp & new & O & A & G & T).
  split; [done|]. split; [by apply (took_length _ _ _ _ _ T)|]. split; [by rewrite W|].
  exists (Sent resp :: new). split; [done|]. split.
  - cbn [map app]. rewrite A. f_equal. by apply (took_serve AtEmitIndex _ _ _ _ _ T).
  - constructor; [by rewrite W|]. by destruct T; repeat constructor.
Qed.

Definition goes_on (status : ReceiveStatus) : bool :=
  match status with OK | MalformedMessage => true | _ => false end.

Lemma processTranslationUnitAndRespond_ends request w :
  mode (w_options w) = Mode_Ipc ->
  ends_in (fun '(status, w') => serving w w'
      (Answered (request_id request) SemanticAnalysis :: serve AtEmitIndex (inbox w))
      (if goes_on status then serve AtSemanticAnalysis (inbox w') else []))
    (processTranslationUnitAndRespond request w).
Proof.
  intros Hm. unfold processTranslationUnitAndRespond. cbv zeta.
  eapply ends_st_bind; [by apply processTranslationUnit_ends|]. intros [l1 out] w1 Ha. cbv beta iota.
  pose proof (proj1 Ha) as Hok.
  eapply ends_st_bind; [by apply (respond_ends _ w w1 l1 out)|]. intros l2 w2 (r & He & Hr).
  pose proof (proj1 He) as F. apply exchanged_serving in He.
  case_bool_decide as Hst; simpl.
  - eapply ends_st_bind; [apply ends_st_gets|]. intros opts ? [-> ->].
    assert (mode (w_options w2) = Mode_Ipc) as Hm2 by (by rewrite (proj1 F)).
    rewrite Hm2 bool_decide_false // (Hr Hst). rewrite Hst in He.
    eapply ends_mono; [by apply emit_shards_ends|]. intros [status w3] (-> & F3 & I3 & W3 & r3 & O3 & A3 & N3).
    eapply serving_trans; [exact He|]. cbn [goes_on]. split_and!; [done|by rewrite I3|done|].
    exists [Sent r3]. cbn [map app]. rewrite A3 I3. split_and!; [done..|]. by apply Forall_singleton.
  - by destruct (innerStatus l2).
Qed.

Lemma run_round_ends w :
  mode (w_options w) = Mode_Ipc ->
  ends_in (fun '(b, w') => serving w w' (serve AtSemanticAnalysis (inbox w))
      (if b : bool then serve AtSemanticAnalysis (inbox w') else [])
      /\ (b = true -> length (inbox w') < length (inbox w))%nat) (run_round w).
Proof.
  intros Hm. unfold run_round.
  eapply ends_st_bind; [by apply waitForRequest_ends|]. intros [status r] w1 (F & W & new & O & T).
  pose proof (took_serving AtSemanticAnalysis _ _ _ _ _ F W O T) as Hs.
  destruct (took_length _ _ _ _ _ T) as [HL1 HL2].
  destruct status; cbv beta iota.
  1, 3: by split.
  - by split; [|auto].
  - eapply ends_st_bind; [apply ends_st_lift, fails_well_ENFORCE|]. intros [] ? [_ ->].
    assert (mode (w_options w1) = Mode_Ipc) as Hm1 by (by rewrite (proj1 F)).
    eapply ends_st_bind; [by apply processTranslationUnitAndRespond_ends|].
    intros status w2 Hsv. pose proof Hsv as (_ & L2 & _).
    assert (length (inbox w1) < length (inbox w))%nat by auto.
    pose proof (serving_trans _ _ _ _ _ _ Hs Hsv) as Hsv'.
    destruct status; (split; [exact Hsv'|simpl; intros; lia || done]).
Qed.

Lemma worker_loop_ends n w :
  mode (w_options w) = Mode_Ipc -> (length (inbox w) < n)%nat ->
  ends_in (fun '(_, w') => serving w w' (serve AtSemanticAnalysis (inbox w)) []) (worker_loop n w).
Proof.
  revert w. induction n as [|n IH]; intros w Hm Hn; [lia|]. cbn [worker_loop].
  eapply ends_st_bind; [by apply run_round_ends|]. intros [] w1 [Hs Hlt]; [|done].
  assert (mode (w_options w1) = Mode_Ipc) as Hm1 by (by rewrite (proj1 (proj1 Hs))).
  specialize (Hlt eq_refl).
  eapply ends_mono; [apply IH; [done|lia]|]. intros [[] w2] Hs2. by eapply serving_trans.
Qed.

Lemma Worker_run_serves this : mode (w_options this) = Mode_Ipc ->
  ends_in (fun '(_, this') => exists new,
      messages_log this' = messages_log this ++ new
      /\ map event new = serve AtSemanticAnalysis (inbox this)
      /\ wrote (w_files this) (w_files this')
      /\ Forall (genuine this (w_files this')) new)
    (Worker_run this).
Proof.
  intros Hm. unfold Worker_run.
  eapply ends_st_bind; [apply ends_st_lift, fails_well_ENFORCE|]. intros [] ? [_ ->].
  eapply ends_mono; [apply worker_loop_ends; [done..|lia]|].
  intros [[] this'] (_ & _ & HW & new & HO & HA & HN). exists new.
  rewrite app_nil_r in HA. by split_and!.
Qed.
End WorkerLoop.

(** ** Compdb mode *)
Section Compdb.
Context `{BM : BuildMode, AR : AbslReplace, LP : LlvmPath, FS : FileSystem, CF : ClangFileID}.
Context `{AS : AbslStrings, U8 : Utf8, AE : AbslEmplace, TH : TextHash, SE : ScipEnums}.
Context `{WH : WyHash, RX : Cleaner.LlvmRegex, HI : HashIteration}.
Context `{PE : ProcessEnv} {TL : ClangTooling} {WM : WorkerMachine}.

(** The status is not assigned, and nothing is written. *)
Definition unassigned (w : Worker) (st : Worker * Locals) : Prop :=
  w_options st.1 = w_options w /\ messageQueues st.1 = messageQueues w
  /\ w_files st.1 = w_files w /\ innerStatus st.2 = uninitialised_status.

Lemma run_action_unassigned id pp ast w st run st' :
  mode (w_options w) = Mode_Compdb -> unassigned w st.1 ->
  run_action pp ast (callback id) st run = Ok st' -> unassigned w st'.1.
Proof.
  intros Hm. destruct st as [[w1 l1] out]. intros (H1 & H2 & H3 & H4) Hrun. simpl in *.
  unfold run_action in Hrun. apply bind_Ok_inv in Hrun as (wr & _ & Hrun).
  destruct (run_handled run); [|by injection Hrun as <-].
  apply bind_Ok_inv in Hrun as ([[[wr' pm] out'] [w2 l2]] & Hh & Hrun). injection Hrun as <-.
  unfold HandleTranslationUnit in Hh. apply bind_Ok_inv in Hh as ([[[wr2 res] m] mi] & _ & Hh).
  unfold callback in Hh. rewrite H1 Hm bool_decide_true // in Hh. simpl in Hh.
  apply bind_Ok_inv in Hh as ([pm' out2] & _ & Hh). by injection Hh as <- <- <- <- <-.
Qed.

Lemma respond_unassigned id w st l' w' :
  mode (w_options w) = Mode_Compdb -> messageQueues w = None -> unassigned w st ->
  respond_without_analysis id st.2 st.1 = Ok (l', w') -> l' = st.2 /\ w' = st.1.
Proof.
  intros Hm Hq (H1 & H2 & _). unfold respond_without_analysis. destruct (callbackInvoked st.2 =? 0).
  - intros ((status & r) & w1 & Hs & _)%ST_bind_inv. unfold sendRequestAndReceive in Hs.
    apply ST_bind_inv in Hs as ([] & w2 & Hs & _). unfold sendResult in Hs.
    apply bind_Ok_inv in Hs as (u & _ & Hs). by rewrite H2 Hq in Hs.
  - intros (u & w1 & [_ ->]%st_lift_inv & [= <- <-])%ST_bind_inv. done.
Qed.
End Compdb.

(** ** Properties *)


(** C37. In Compdb mode the status of the callback is a local variable that is never
    assigned: unless the memory happens to hold [OK], a translation unit that was
    indexed successfully leaves no index behind. *)
Theorem compdb_mode_writes_nothing
    `{BM : BuildMode, AR : AbslReplace, LP : LlvmPath, FS : FileSystem, CF : ClangFileID}
    `{AS : AbslStrings, U8 : Utf8, AE : AbslEmplace, TH : TextHash, SE : ScipEnums}
    `{WH : WyHash, RX : Cleaner.LlvmRegex, HI : HashIteration}
    `{PE : ProcessEnv} {TL : ClangTooling} {WM : WorkerMachine}
    (request : IndexJobRequest) (this this' : Worker) (status : ReceiveStatus) :
  mode (w_options this) = Mode_Compdb -> messageQueues this = None ->
  uninitialised_status <> OK ->
  processTranslationUnitAndRespond request this = Ok (status, this') ->
  status = uninitialised_status /\ w_files this' = w_files this.
Proof.
  intros Hm Hq Hu Hrun. unfold processTranslationUnitAndRespond in Hrun. cbv zeta in Hrun.
  apply ST_bind_inv in Hrun as ([l1 out] & w1 & Hp & Hrun).
  assert (unassigned this (w1, l1)) as H1.
  { unfold processTranslationUnit in Hp. do 3 apply bind_Ok_inv in Hp as (? & _ & Hp).
    cbv zeta in Hp. apply bind_Ok_inv in Hp as ([[w2 l2] out2] & Hf & Hp). injection Hp as <- <- <-.
    eapply (foldM_invariant (fun st => unassigned this st.1)) in Hf; [exact Hf| |done].
    intros st run st' _ Hst Ha. by eapply run_action_unassigned. }
  apply ST_bind_inv in Hrun as (l2 & w2 & Hr & Hrun).
  destruct (respond_unassigned _ this (w1, l1) l2 w2 Hm Hq H1 Hr) as [-> ->].
  destruct H1 as (_ & _ & HW & HS). simpl in *.
  rewrite HS bool_decide_false // in Hrun. by injection Hrun as <- <-.
Qed.

(** ** A worker that indexes one translation unit *)
Definition demo_process : ProcessEnv := {|
  current_path := lit "/p"; temp_directory_path := lit "/tmp"; open_fails _ := false;
  create_directories_fails _ := false |}.
Definition demo_machine : WorkerMachine := {|
  elapsed_micros _ := 1000; uninitialised_status := DriverTimeout; worker_send_fails _ := false |}.
Definition demo_action : @FrontendRun demo_files :=
  @mkFrontendRun demo_files demo_sm demo_ast demo_tuast demo_macros
    [@OnFileChanged demo_files demo_sm demo_macros 10101 EnterFile 1%N] true demo_ast_events.
Definition demo_tooling : @ClangTooling demo_files := fun _ _ => [demo_action].
Definition demo_wyhash : WyHash := fun key seed =>
  foldl (fun h c => (h * 31 + Z.of_N (N_of_ascii c) + 7) mod 2 ^ 64) seed key.
Definition demo_no_regex : Cleaner.LlvmRegex := fun _ _ => false.

Definition demo_worker_options (m : WorkerMode) : WorkerOptions :=
  mkWorkerOptions demo_root m (mkIpcOptions 4096 10 (lit "d") 3) [] (lit "/p/index.scip") [] [] false false 0
    true false (mkRecordingOptions [] [] false []) (lit "/tmp") [].
Definition demo_queue (n : str) : JsonIpcQueue := mkJsonIpcQueue n OpenOnly 4096 0.
Definition demo_request : IndexJobRequest :=
  mkIndexJobRequest (newTask 7) (mkIndexJob SemanticAnalysis
    (mkSemanticAnalysisJobDetails (mkCommandObject 7 (lit "/p") (lit "a.cc") [lit "cc"; lit "a.cc"]))
    EmitIndexJobDetails_default).
Definition demo_emit_request : IndexJobRequest :=
  mkIndexJobRequest (nextSubtask (newTask 7)) (mkIndexJob EmitIndex
    SemanticAnalysisJobDetails_default EmitIndexJobDetails_default).
Definition demo_worker : Worker :=
  mkWorker (demo_worker_options Mode_Ipc) (mkPackageMap ∅ ∅ demo_root false)
    (Some (mkMessageQueuePair (demo_queue (lit "a")) (demo_queue (lit "b")))) [] 0 None
    (mkIndexingStatistics 0)
    [inr ParseError; inl demo_request; inl demo_emit_request; inl (mkIndexJobRequest Shutdown IndexJob_default)]
    [] [] [].
Definition demo_compdb_worker : Worker :=
  mkWorker (demo_worker_options Mode_Compdb) (mkPackageMap ∅ ∅ demo_root false) None
    [command (job_semanticAnalysis (request_job demo_request))] 0 None (mkIndexingStatistics 0) [] [] [] [].

Definition demo_worker_run : result (unit * Worker) :=
  @Worker_run true demo_replace posix_path demo_fs demo_files demo_strings demo_utf8 demo_emplace
    demo_hash demo_enums demo_wyhash demo_no_regex tree_iteration demo_process demo_tooling demo_machine
    demo_worker.
Definition demo_compdb_run : result (ReceiveStatus * Worker) :=
  @processTranslationUnitAndRespond true demo_replace posix_path demo_fs demo_files demo_strings
    demo_utf8 demo_emplace demo_hash demo_enums demo_wyhash demo_no_regex tree_iteration demo_process
    demo_tooling demo_machine demo_request demo_compdb_worker.

Lemma demo_tooling_ok : @tooling_ok demo_files demo_tooling.
Proof.
  intros dir args. split; [simpl; lia|]. intros run ->%list_elem_of_singleton. exact demo_ast_laws.
Qed.


Lemma compdb_mode_writes_nothing_witness :
  is_ok demo_compdb_run = true
  /\ forall status this', demo_compdb_run = Ok (status, this') ->
       status = DriverTimeout /\ w_files this' = [].
Proof.
  split; [vm_compute; reflexivity|]. intros status this' Hrun.
  apply (@compdb_mode_writes_nothing true demo_replace posix_path demo_fs demo_files demo_strings
    demo_utf8 demo_emplace demo_hash demo_enums demo_wyhash demo_no_regex tree_iteration demo_process
    demo_tooling demo_machine demo_request demo_compdb_worker this' status).
  - reflexivity.
  - reflexivity.
  - discriminate.
  - exact Hrun.
Defined.
