(* ===== verification/Scheduler.v ===== *)
(** * The scheduler

    [Scheduler] (Driver.cc) keeps the worker processes and the jobs: which
    workers are idle, busy or stopped, and which jobs are pending, in progress
    or possibly lost.  Every operation is a function on the state; callbacks
    that start or kill processes are function arguments, and the clock that
    [markWorkerBusy] reads is an argument.  [ConsumeOnce] (RAII.h) guards the id
    of a worker that was claimed.

    Worker ids are indexes into [workers], natural numbers here. *)
From S2P Require Import Prelude Ordering CppString Paths Json PackageMaps IdPaths.
From S2P Require Import CommandLine Compdb Ipc.

(** ** [ConsumeOnce] *)
Record ConsumeOnce (T : Type) : Type := mkConsumeOnce { value : T; consumed : bool; movedOut : bool }.
Arguments mkConsumeOnce {T}.
Arguments value {T}.
Arguments consumed {T}.
Arguments movedOut {T}.

Definition ConsumeOnce_new {T} (value : T) : ConsumeOnce T := mkConsumeOnce value false false.
(** The move constructor: the new object and what is left of [old]. *)
Definition ConsumeOnce_move {T} (old : ConsumeOnce T) : ConsumeOnce T * ConsumeOnce T :=
  (mkConsumeOnce (value old) (consumed old) (movedOut old), mkConsumeOnce (value old) (consumed old) true).
Definition isUnconsumed {T} (this : ConsumeOnce T) : bool := negb (movedOut this) && negb (consumed this).

Section ConsumeOnce.
Context `{BM : BuildMode} {T : Type}.

Definition ConsumeOnce_destroy (this : ConsumeOnce T) : result unit :=
  if movedOut this then Ok () else ENFORCE (consumed this) "forgot to call getValueAndConsume".

Definition getValueAndConsume (this : ConsumeOnce T) : result (T * ConsumeOnce T) :=
  ENFORCE (negb (movedOut this)) "use after move" ;;
  ENFORCE (negb (consumed this)) "trying to consume worker guard twice" ;;
  Ok (value this, mkConsumeOnce (value this) true (movedOut this)).

Definition getValueNonConsuming (this : ConsumeOnce T) : result T :=
  ENFORCE (negb (movedOut this)) "use after move" ;;
  ENFORCE (negb (consumed this)) "trying to access id for consumed guard" ;;
  Ok (value this).
End ConsumeOnce.

(** ** State *)
Abbreviation Instant := Z (only parsing).
Abbreviation ToBeScheduledWorkerId := (ConsumeOnce nat) (only parsing).

Inductive Status : Type := Busy | Idle | Stopped.
#[export] Instance Status_eq_dec : EqDecision Status.
Proof. solve_decision. Defined.

Record WorkerInfo (Process : Type) : Type := mkWorkerInfo {
  status : Status;
  processHandle : Process;
  startTime : Instant;
  currentlyProcessing : option JobId
}.
Arguments mkWorkerInfo {Process}.
Arguments status {Process}.
Arguments processHandle {Process}.
Arguments startTime {Process}.
Arguments currentlyProcessing {Process}.

Definition WorkerInfo_new {Process} (newWorker : Process) : WorkerInfo Process :=
  mkWorkerInfo Idle newWorker 0 None.

Record TrackedIndexJob : Type := mkTrackedIndexJob { job : IndexJob; assignedWorker : option nat }.

Record Scheduler (Process : Type) : Type := mkScheduler {
  workers : list (WorkerInfo Process);
  idleWorkers : list nat;
  stoppedWorkers : list nat;
  allJobList : gmap JobId TrackedIndexJob;
  pendingJobs : list JobId;
  wipJobs : gset JobId;
  maybeErroredJobs : gset JobId
}.
Arguments mkScheduler {Process}.
Arguments workers {Process}.
Arguments idleWorkers {Process}.
Arguments stoppedWorkers {Process}.
Arguments allJobList {Process}.
Arguments pendingJobs {Process}.
Arguments wipJobs {Process}.
Arguments maybeErroredJobs {Process}.

(** What [allJobList\[jobId\]] inserts for a missing key: a value-initialised
    job, whose kind is the first enumerator. *)
Definition TrackedIndexJob_default : TrackedIndexJob :=
  mkTrackedIndexJob (mkIndexJob SemanticAnalysis SemanticAnalysisJobDetails_default EmitIndexJobDetails_default) None.

Section Operations.
Context `{BM : BuildMode} {Process : Type}.


Definition Scheduler_new : Scheduler Process := mkScheduler [] [] [] ∅ [] ∅ ∅.

Definition set_workers (this : Scheduler Process) ws : Scheduler Process := mkScheduler ws (idleWorkers this) (stoppedWorkers this)
  (allJobList this) (pendingJobs this) (wipJobs this) (maybeErroredJobs this).
Definition set_idle (this : Scheduler Process) l : Scheduler Process := mkScheduler (workers this) l (stoppedWorkers this)
  (allJobList this) (pendingJobs this) (wipJobs this) (maybeErroredJobs this).
Definition set_stopped (this : Scheduler Process) l : Scheduler Process := mkScheduler (workers this) (idleWorkers this) l
  (allJobList this) (pendingJobs this) (wipJobs this) (maybeErroredJobs this).
Definition set_jobs (this : Scheduler Process) m : Scheduler Process := mkScheduler (workers this) (idleWorkers this) (stoppedWorkers this)
  m (pendingJobs this) (wipJobs this) (maybeErroredJobs this).
Definition set_pending (this : Scheduler Process) l : Scheduler Process := mkScheduler (workers this) (idleWorkers this) (stoppedWorkers this)
  (allJobList this) l (wipJobs this) (maybeErroredJobs this).
Definition set_wip (this : Scheduler Process) X : Scheduler Process := mkScheduler (workers this) (idleWorkers this) (stoppedWorkers this)
  (allJobList this) (pendingJobs this) X (maybeErroredJobs this).
Definition set_errored (this : Scheduler Process) X : Scheduler Process := mkScheduler (workers this) (idleWorkers this) (stoppedWorkers this)
  (allJobList this) (pendingJobs this) (wipJobs this) X.

(** [allJobList.emplace]: an existing entry stays. *)
Definition jobs_emplace (m : gmap JobId TrackedIndexJob) (jobId : JobId) (t : TrackedIndexJob) :=
  match m !! jobId with Some _ => (m, false) | None => (<[jobId := t]> m, true) end.

Definition checkInvariants (this : Scheduler Process) : result unit :=
  ENFORCE (bool_decide (size (wipJobs this) + length (idleWorkers this) + length (stoppedWorkers this)
                        = length (workers this))%nat)
    "wipJobs.size() + idleWorkers.size() + stoppedWorkers.size() != workers.size()".

Definition initializeWorkers (this : Scheduler Process) (numWorkers : nat) (spawn : nat -> Process) : result (Scheduler Process) :=
  let this := set_workers this [] in
  let this := foldl (fun this workerId =>
    set_idle (set_workers this (workers this ++ [WorkerInfo_new (spawn workerId)]))
      (idleWorkers this ++ [workerId])) this (seq 0 numWorkers) in
  checkInvariants this ;; Ok this.

(** The text [logJobSkip] logs. *)
Definition main_file_extensions : list str := [lit ".c"; lit ".cc"; lit ".cxx"; lit ".cpp"].
Definition logJobSkip (this : Scheduler Process) (jobId : JobId) : result str :=
  match allJobList this !! jobId with
  | None => ENFORCE false "it != this->allJobList.end()" ;; Err OutOfRange
  | Some it =>
      let job := job it in
      match job_kind job with
      | SemanticAnalysis =>
          Ok (lit "running semantic analysis for '"
              ++ filePath (command (job_semanticAnalysis job)) ++ lit "'")
      | EmitIndex =>
          match List.find (fun fileInfo =>
                  existsb (fun e => ends_with e (asStringRef (pfi_path fileInfo))) main_file_extensions)
                (filesToBeIndexed (job_emitIndex job)) with
          | Some fileInfo => Ok (lit "emitting an index for '" ++ asStringRef (pfi_path fileInfo) ++ lit "'")
          | None => Ok (lit "emitting a shard")
          end
      end
  end.

Definition terminateRunningWorker (this : Scheduler Process) (workerId : nat) (terminateAndRespawn : Process -> Process)
    : result (Scheduler Process) :=
  workerInfo ← vector_at (workers this) workerId;
  oldJobId ← optional_value (currentlyProcessing workerInfo);
  let erased := bool_decide (oldJobId ∈ wipJobs this) in
  let this := set_wip this (wipJobs this ∖ {[oldJobId]}) in
  let this := set_errored this ({[oldJobId]} ∪ maybeErroredJobs this) in
  ENFORCE erased "worker was processing the job, but the job was not marked WIP" ;;
  logJobSkip this oldJobId ;;
  let newHandle := terminateAndRespawn (processHandle workerInfo) in
  let this := set_workers this (<[workerId := WorkerInfo_new newHandle]> (workers this)) in
  let this := set_idle this (idleWorkers this ++ [workerId]) in
  checkInvariants this ;;
  Ok this.

(** One iteration of the loop over all workers. *)
Definition terminate_if_long_running (startedBefore : Instant)
    (terminateAndRespawn : Process -> nat -> Process) (this : Scheduler Process) (workerId : nat) : result (Scheduler Process) :=
  workerInfo ← vector_at (workers this) workerId;
  match status workerInfo with
  | Idle | Stopped => Ok this
  | Busy =>
      if startTime workerInfo <? startedBefore
      then terminateRunningWorker this workerId (fun p => terminateAndRespawn p workerId)
      else Ok this
  end.

Definition terminateLongRunningWorkersAndRespawn (this : Scheduler Process) (startedBefore : Instant)
    (terminateAndRespawn : Process -> nat -> Process) : result (Scheduler Process) :=
  checkInvariants this ;;
  foldM (terminate_if_long_running startedBefore terminateAndRespawn) this
    (seq 0 (length (workers this))).

(** [cmdObject.index] is narrowed to the 32 bits of a task id. *)
Definition queueSemaTask (this : Scheduler Process) (cmdObject : CommandObject) : result (Scheduler Process) :=
  let jobId := newTask (wrap32 (index cmdObject)) in
  let job := mkIndexJob SemanticAnalysis (mkSemanticAnalysisJobDetails cmdObject) EmitIndexJobDetails_default in
  let '(m, inserted) := jobs_emplace (allJobList this) jobId (mkTrackedIndexJob job None) in
  let this := set_jobs this m in
  ENFORCE inserted "expected jobId to be added for the first time" ;;
  Ok (set_pending this (pendingJobs this ++ [jobId])).

(** *** Workers *)
Definition markWorkerIdle (this : Scheduler Process) (workerId : nat) : result (Scheduler Process) :=
  workerInfo ← vector_at (workers this) workerId;
  ENFORCE (bool_decide (is_Some (currentlyProcessing workerInfo))) "workerInfo.currentlyProcessing.has_value()" ;;
  ENFORCE (bool_decide (status workerInfo = Busy)) "workerInfo.status == WorkerInfo::Status::Busy" ;;
  let this := set_workers this (<[workerId :=
    mkWorkerInfo Idle (processHandle workerInfo) (startTime workerInfo) None]> (workers this)) in
  Ok (set_idle this (workerId :: idleWorkers this)).

Definition markWorkerBusy (this : Scheduler Process) (workerId : ToBeScheduledWorkerId) (newJobId : JobId) (now : Instant)
    : result (Scheduler Process * ToBeScheduledWorkerId) :=
  '(id, workerId) ← getValueAndConsume workerId;
  nextWorkerInfo ← vector_at (workers this) id;
  ENFORCE (bool_decide (status nextWorkerInfo = Idle)) "nextWorkerInfo.status == WorkerInfo::Status::Idle" ;;
  ENFORCE (negb (bool_decide (is_Some (currentlyProcessing nextWorkerInfo))))
    "!nextWorkerInfo.currentlyProcessing.has_value()" ;;
  Ok (set_workers this (<[id :=
        mkWorkerInfo Busy (processHandle nextWorkerInfo) now (Some newJobId)]> (workers this)), workerId).

Definition markWorkerStopped (this : Scheduler Process) (workerId : nat) : result (Scheduler Process) :=
  workerInfo ← vector_at (workers this) workerId;
  ENFORCE (negb (bool_decide (is_Some (currentlyProcessing workerInfo)))) "shutting down a working worker" ;;
  ENFORCE (bool_decide (status workerInfo = Idle)) "workerInfo.status == WorkerInfo::Status::Idle" ;;
  let this := set_workers this (<[workerId := mkWorkerInfo Stopped (processHandle workerInfo)
    (startTime workerInfo) (currentlyProcessing workerInfo)]> (workers this)) in
  Ok (set_stopped this (stoppedWorkers this ++ [workerId])).

Definition claimIdleWorker (this : Scheduler Process) : result (Scheduler Process * ToBeScheduledWorkerId) :=
  ENFORCE (negb (bool_decide (idleWorkers this = []))) "!this->idleWorkers.empty()" ;;
  match idleWorkers this with
  | [] => Err OutOfRange
  | workerId :: idle => Ok (set_idle this idle, ConsumeOnce_new workerId)
  end.

(** *** Assigning jobs *)
Definition scheduleJobOnWorker (this : Scheduler Process) (workerId : ToBeScheduledWorkerId) (jobId : JobId) (now : Instant)
    : result (Scheduler Process * ToBeScheduledWorkerId * IndexJobRequest) :=
  id ← getValueNonConsuming workerId;
  ENFORCE (negb (bool_decide (id ∈ idleWorkers this))) "the worker is not idle" ;;
  ENFORCE (bool_decide (jobId ∈ wipJobs this)) "should've marked job WIP before scheduling" ;;
  bareWorkerId ← getValueNonConsuming workerId;
  '(this, workerId) ← markWorkerBusy this workerId jobId now;
  match allJobList this !! jobId with
  | None => ENFORCE false "trying to assign unknown job" ;; Err OutOfRange
  | Some it =>
      ENFORCE (negb (bool_decide (is_Some (assignedWorker it)))) "job was marked as assigned earlier" ;;
      let it := mkTrackedIndexJob (job it) (Some bareWorkerId) in
      Ok (set_jobs this (<[jobId := it]> (allJobList this)), workerId, mkIndexJobRequest jobId (job it))
  end.

(** [workerId.id] of a [LatestIdleWorkerId]. *)
Definition createSubtaskAndScheduleOnWorker (this : Scheduler Process) (workerId : nat) (previousId : JobId) (job : IndexJob)
    (now : Instant) : result (Scheduler Process * IndexJobRequest) :=
  let jobId := nextSubtask previousId in
  let this := set_jobs this (jobs_emplace (allJobList this) jobId (mkTrackedIndexJob job None)).1 in
  let this := set_wip this ({[jobId]} ∪ wipJobs this) in
  ENFORCE (negb (bool_decide (idleWorkers this = []))) "!this->idleWorkers.empty()" ;;
  match idleWorkers this with
  | [] => Err OutOfRange
  | front :: idle =>
      ENFORCE (bool_decide (front = workerId)) "this->idleWorkers.front() == workerId.id" ;;
      let this := set_idle this idle in
      '(this, guard, request) ← scheduleJobOnWorker this (ConsumeOnce_new workerId) jobId now;
      ConsumeOnce_destroy guard ;;
      Ok (this, request)
  end.

Definition checkAssignedWorker (this : Scheduler Process) (jobId : JobId) (workerId : nat) : result unit :=
  match allJobList this !! jobId with
  | None => ENFORCE false "missing entry for job in allJobList" ;; Err OutOfRange
  | Some it =>
      if bool_decide (assignedWorker it = Some workerId) then Ok ()
      else if bool_decide (is_Some (assignedWorker it))
      then ENFORCE_OR_WARN false "job was assigned to another worker" ;; Ok ()
      else ENFORCE_OR_WARN false "job was assigned no worker" ;; Ok ()
  end.

Definition descheduleJobDueToSendError (this : Scheduler Process) (workerId : nat) (jobId : JobId) : result (Scheduler Process) :=
  checkAssignedWorker this jobId workerId ;;
  this ← markWorkerIdle this workerId;
  let erased := bool_decide (jobId ∈ wipJobs this) in
  let this := set_wip this (wipJobs this ∖ {[jobId]}) in
  ENFORCE erased "job should've been marked WIP" ;;
  Ok this.

(** The first check uses [operator\[\]] on the map of jobs, in debug builds. *)
Definition check_response_kind (this : Scheduler Process) (jobId : JobId) (responseKind : Kind) : result (Scheduler Process) :=
  if debugMode then
    let this := set_jobs this (jobs_emplace (allJobList this) jobId TrackedIndexJob_default).1 in
    match allJobList this !! jobId with
    | Some it =>
        ENFORCE (bool_decide (job_kind (job it) = responseKind))
          "this->allJobList[jobId].job.kind == responseKind" ;; Ok this
    | None => Err OutOfRange
    end
  else Ok this.

(** The result is the id in the [LatestIdleWorkerId], if any. *)
Definition markCompleted (this : Scheduler Process) (workerId : nat) (jobId : JobId) (responseKind : Kind)
    : result (Scheduler Process * option nat) :=
  this ← check_response_kind this jobId responseKind;
  checkAssignedWorker this jobId workerId ;;
  workerInfo ← vector_at (workers this) workerId;
  if bool_decide (currentlyProcessing workerInfo = Some jobId) then
    this ← markWorkerIdle this workerId;
    let erased := bool_decide (jobId ∈ wipJobs this) in
    let this := set_wip this (wipJobs this ∖ {[jobId]}) in
    ENFORCE erased "received response for job not marked WIP" ;;
    Ok (this, Some workerId)
  else
    let erased := bool_decide (jobId ∈ maybeErroredJobs this) in
    let this := set_errored this (maybeErroredJobs this ∖ {[jobId]}) in
    ENFORCE erased "expected job to be in maybeErroredJobs" ;;
    Ok (this, None).

Definition numErroredJobs (this : Scheduler Process) : nat := size (maybeErroredJobs this).

Definition getTuPath (this : Scheduler Process) (jobId : JobId) : result str :=
  match allJobList this !! jobId with
  | None => ENFORCE false "it != this->allJobList.end()" ;; Err OutOfRange
  | Some it =>
      ENFORCE (bool_decide (job_kind (job it) = SemanticAnalysis)) "job.kind == SemanticAnalysis" ;;
      Ok (filePath (command (job_semanticAnalysis (job it))))
  end.
End Operations.

(** ** The invariant

    [busy] lists the busy workers with their jobs.  Every worker is in exactly
    one of the three lists and its record agrees; the jobs in progress are the
    ones of the busy workers; pending jobs are unassigned semantic analyses;
    jobs that are neither pending nor in progress have been assigned. *)
Definition worker_is {Process} (s : Scheduler Process) (w : nat) (st : Status) (j : option JobId) : Prop :=
  exists wi, workers s !! w = Some wi /\ status wi = st /\ currentlyProcessing wi = j.

(** The jobs of a kind have the ids of that kind, and an indexing job exists
    only after the analysis it belongs to was assigned and answered. *)
Definition job_wf {Process} (s : Scheduler Process) (j : JobId) (t : TrackedIndexJob) : Prop :=
  match job_kind (job t) with
  | SemanticAnalysis => subtaskId j = 0
  | EmitIndex => subtaskId j = 1 /\ newTask (taskId j) ∉ pendingJobs s /\ newTask (taskId j) ∉ wipJobs s
                 /\ is_Some (allJobList s !! newTask (taskId j))
  end.

Record Inv {Process} (s : Scheduler Process) (busy : list (nat * JobId)) : Prop := {
  inv_partition : busy.*1 ++ idleWorkers s ++ stoppedWorkers s ≡ₚ seq 0 (length (workers s));
  inv_busy : forall w j, (w, j) ∈ busy -> worker_is s w Busy (Some j);
  inv_idle : forall w, w ∈ idleWorkers s -> worker_is s w Idle None;
  inv_stopped : forall w, w ∈ stoppedWorkers s -> worker_is s w Stopped None;
  inv_wip : forall j, j ∈ wipJobs s <-> j ∈ busy.*2;
  inv_wip_nodup : NoDup busy.*2;
  inv_assigned : forall w j, (w, j) ∈ busy -> exists t, allJobList s !! j = Some t /\ assignedWorker t = Some w;
  inv_pending_nodup : NoDup (pendingJobs s);
  inv_pending : forall j, j ∈ pendingJobs s ->
    exists t, allJobList s !! j = Some t /\ assignedWorker t = None /\ job_kind (job t) = SemanticAnalysis;
  inv_errored : forall j, j ∈ maybeErroredJobs s -> j ∉ wipJobs s
    /\ exists t w, allJobList s !! j = Some t /\ assignedWorker t = Some w;
  inv_unassigned : forall j t, allJobList s !! j = Some t ->
    match assignedWorker t with None => j ∈ pendingJobs s | Some w => (w < length (workers s))%nat end;
  inv_jobs : forall j t, allJobList s !! j = Some t -> job_wf s j t
}.

Section Invariant.
Context `{BM : BuildMode} {Process : Type}.
Implicit Types (s : Scheduler Process) (busy : list (nat * JobId)).

Lemma Inv_perm s busy busy' : busy ≡ₚ busy' -> Inv s busy -> Inv s busy'.
Proof.
  intros Hp []. split; try done.
  - by rewrite -Hp.
  - intros w j. rewrite -Hp. auto.
  - intros j. by rewrite -Hp.
  - by rewrite -Hp.
  - intros w j. rewrite -Hp. auto.
Qed.

Lemma ENFORCE_decide P `{Decision P} what : P -> ENFORCE (bool_decide P) what = Ok ().
Proof. intros HP. by apply ENFORCE_pass, bool_decide_eq_true. Qed.

Lemma ENFORCE_not P `{Decision P} what : ~ P -> ENFORCE (negb (bool_decide P)) what = Ok ().
Proof. intros HP. apply ENFORCE_pass. by rewrite bool_decide_eq_false_2. Qed.

(** A worker is in one place only. *)
Lemma Inv_nodup s busy : Inv s busy -> NoDup (busy.*1 ++ idleWorkers s ++ stoppedWorkers s).
Proof. intros []. rewrite inv_partition0. apply NoDup_seq. Qed.

Lemma Inv_size s busy : Inv s busy ->
  (size (wipJobs s) + length (idleWorkers s) + length (stoppedWorkers s) = length (workers s))%nat.
Proof.
  intros H. pose proof (Permutation_length (inv_partition s busy H)) as Hl.
  rewrite !length_app length_fmap length_seq in Hl.
  assert (wipJobs s = list_to_set busy.*2) as ->.
  { apply set_eq. intros j. by rewrite elem_of_list_to_set (inv_wip s busy H). }
  rewrite size_list_to_set; [apply (inv_wip_nodup s busy H)|]. rewrite length_fmap. lia.
Qed.

Lemma checkInvariants_ok s busy : Inv s busy -> checkInvariants s = Ok ().
Proof. intros H. apply ENFORCE_pass, bool_decide_eq_true. by apply (Inv_size s busy). Qed.

Lemma Inv_split s busy j : Inv s busy -> j ∈ wipJobs s ->
  exists w busy', busy ≡ₚ (w, j) :: busy' /\ Inv s ((w, j) :: busy').
Proof.
  intros H Hj. apply (inv_wip s busy H), list_elem_of_fmap in Hj as ([w j'] & -> & Hin).
  apply list_elem_of_split in Hin as (l1 & l2 & ->). exists w, (l1 ++ l2).
  assert (l1 ++ (w, j') :: l2 ≡ₚ (w, j') :: (l1 ++ l2)) as Hp by (symmetry; apply Permutation_middle).
  split; [done|]. by apply (Inv_perm _ _ _ Hp).
Qed.

Lemma worker_is_unique s w st j st' j' : worker_is s w st j -> worker_is s w st' j' -> st = st' /\ j = j'.
Proof. intros (wi & H1 & <- & <-) (wi' & H2 & <- & <-). rewrite H1 in H2. by injection H2 as <-. Qed.

Lemma worker_is_workers s s' w st j : workers s' = workers s -> worker_is s w st j -> worker_is s' w st j.
Proof. unfold worker_is. by intros ->. Qed.

Lemma worker_is_insert_ne s w w' wi st j : w <> w' ->
  worker_is (set_workers s (<[w := wi]> (workers s))) w' st j <-> worker_is s w' st j.
Proof. intros Hne. unfold worker_is. cbn. by rewrite list_lookup_insert_ne. Qed.

Lemma worker_is_insert s w wi wi0 : workers s !! w = Some wi0 ->
  worker_is (set_workers s (<[w := wi]> (workers s))) w (status wi) (currentlyProcessing wi).
Proof.
  intros Hw. exists wi. split_and!; [|done..]. cbn. apply list_lookup_insert_eq. by eapply lookup_lt_Some.
Qed.

(** Membership in one list excludes the others. *)
Lemma Inv_busy_not_idle s busy w j : Inv s busy -> (w, j) ∈ busy -> w ∉ idleWorkers s /\ w ∉ stoppedWorkers s.
Proof.
  intros H Hb. pose proof (inv_busy s busy H w j Hb) as Hw. split; intros Hi.
  - by destruct (worker_is_unique _ _ _ _ _ _ Hw (inv_idle s busy H w Hi)).
  - by destruct (worker_is_unique _ _ _ _ _ _ Hw (inv_stopped s busy H w Hi)).
Qed.

Lemma Inv_wip_assigned s busy j : Inv s busy -> j ∈ wipJobs s ->
  exists t w, allJobList s !! j = Some t /\ assignedWorker t = Some w.
Proof.
  intros H Hj. apply (inv_wip s busy H), list_elem_of_fmap in Hj as ([w j'] & -> & Hin).
  destruct (inv_assigned s busy H w j' Hin) as (t & ? & ?). eauto.
Qed.

Lemma Inv_unassigned_free s busy j : Inv s busy ->
  (forall t, allJobList s !! j = Some t -> assignedWorker t = None) ->
  j ∉ wipJobs s /\ j ∉ maybeErroredJobs s.
Proof.
  intros H Hj. split.
  - intros (t & w & Ht & Hw)%(Inv_wip_assigned s busy j H). apply Hj in Ht. congruence.
  - intros (_ & t & w & Ht & Hw)%(inv_errored s busy H). apply Hj in Ht. congruence.
Qed.

(** *** A worker gets a job

    The state after the front worker [w] got job [j]; [p] is what is left of
    the pending jobs. *)
Definition started s (w : nat) (wi : WorkerInfo Process) (j : JobId) (jb : IndexJob) (now : Instant)
    (idle : list nat) (p : list JobId) : Scheduler Process :=
  mkScheduler (<[w := mkWorkerInfo Busy (processHandle wi) now (Some j)]> (workers s)) idle
    (stoppedWorkers s) (<[j := mkTrackedIndexJob jb (Some w)]> (allJobList s)) p
    ({[j]} ∪ wipJobs s) (maybeErroredJobs s).

Lemma Inv_started s busy w wi j jb now idle p :
  Inv s busy -> idleWorkers s = w :: idle -> workers s !! w = Some wi ->
  match allJobList s !! j with
  | Some t => assignedWorker t = None /\ job t = jb
  | None => True end ->
  NoDup p -> (forall x, x ∈ p <-> x ∈ pendingJobs s /\ x <> j) ->
  job_wf (started s w wi j jb now idle p) j (mkTrackedIndexJob jb (Some w)) ->
  Inv (started s w wi j jb now idle p) ((w, j) :: busy).
Proof.
  intros H Hidle Hw Hj Hndp Hp Hwf.
  destruct (Inv_unassigned_free s busy j H) as [Hjw Hje].
  { intros t Ht. rewrite Ht in Hj. tauto. }
  pose proof (Inv_nodup s busy H) as Hnd. rewrite Hidle in Hnd.
  assert (w ∉ busy.*1 /\ w ∉ idle ++ stoppedWorkers s) as [Hwb Hwi].
  { apply NoDup_app in Hnd as (_ & Hd & Hnd). split.
    - intros Hin. apply (Hd w Hin). by left.
    - by apply NoDup_cons in Hnd as [Hn _]. }
  assert (forall w' st oj, w' <> w -> worker_is s w' st oj -> worker_is (started s w wi j jb now idle p) w' st oj) as Hne.
  { intros w' st oj Hn Hi. apply (worker_is_workers (set_workers s (<[w := mkWorkerInfo Busy (processHandle wi) now (Some j)]>
      (workers s)))); [done|]. by apply worker_is_insert_ne. }
  split; cbn [started workers idleWorkers stoppedWorkers allJobList pendingJobs wipJobs maybeErroredJobs].
  - rewrite length_insert -(inv_partition s busy H) Hidle fmap_cons /=. by rewrite -!Permutation_middle.
  - intros w' j' [[= -> ->]|Hin]%elem_of_cons.
    + exact (worker_is_insert s w (mkWorkerInfo Busy (processHandle wi) now (Some j)) wi Hw).
    + apply Hne; [|by apply (inv_busy s busy H)]. intros ->. apply Hwb, list_elem_of_fmap. by exists (w, j').
  - intros w' Hin. apply Hne; [|apply (inv_idle s busy H); rewrite Hidle; by right].
    intros ->. apply Hwi, elem_of_app. by left.
  - intros w' Hin. apply Hne; [|by apply (inv_stopped s busy H)]. intros ->. apply Hwi, elem_of_app. by right.
  - intros x. rewrite elem_of_union elem_of_singleton (inv_wip s busy H) fmap_cons elem_of_cons. done.
  - rewrite fmap_cons. apply NoDup_cons. split; [by rewrite -(inv_wip s busy H)|apply (inv_wip_nodup s busy H)].
  - intros w' j' [[= -> ->]|Hin]%elem_of_cons; [rewrite lookup_insert_eq; by eexists|].
    rewrite lookup_insert_ne; [|by apply (inv_assigned s busy H)].
    intros ->. apply Hjw, (inv_wip s busy H), list_elem_of_fmap. by exists (w', j').
  - done.
  - intros x [Hx Hxj]%Hp. rewrite lookup_insert_ne //. by apply (inv_pending s busy H).
  - intros x Hx. pose proof (inv_errored s busy H x Hx) as [? ?].
    assert (x <> j) by congruence. rewrite lookup_insert_ne //. split; [|done].
    rewrite elem_of_union elem_of_singleton. tauto.
  - intros x t. rewrite length_insert lookup_insert. case_decide as Hd.
    + intros [= <-]. cbn. by eapply lookup_lt_Some.
    + intros Ht. pose proof (inv_unassigned s busy H x t Ht). destruct (assignedWorker t); [done|].
      by apply Hp.
  - intros x t. rewrite lookup_insert. case_decide as Hd; [by intros [= <-]; subst|].
    intros Ht. pose proof (inv_jobs s busy H x t Ht) as Hx. unfold job_wf in *. destruct (job_kind (job t)); [done|].
    destruct Hx as (? & Hx1 & Hx2 & Hx3).
    cbn [started pendingJobs wipJobs allJobList]. split_and!; [done| | |].
    + by intros [? _]%Hp.
    + intros [E%elem_of_singleton|?]%elem_of_union; [|done]. rewrite E in Hx1 Hx3.
      destruct Hx3 as [t3 Ht3]. rewrite Ht3 in Hj.
      destruct Hj as [Hj _]. pose proof (inv_unassigned s busy H _ t3 Ht3) as Hu. by rewrite Hj in Hu.
    + rewrite lookup_insert. case_decide; [by eexists|done].
Qed.

(** *** A worker loses its job

    The common shape of completing a job, taking it back and killing the
    worker. *)
Definition released s (w : nat) (j : JobId) (wi : WorkerInfo Process) (idle : list nat) (errored : gset JobId)
    : Scheduler Process :=
  mkScheduler (<[w := wi]> (workers s)) idle (stoppedWorkers s) (allJobList s) (pendingJobs s)
    (wipJobs s ∖ {[j]}) errored.

Lemma Inv_released s busy w j wi idle errored :
  Inv s ((w, j) :: busy) -> status wi = Idle -> currentlyProcessing wi = None ->
  idle ≡ₚ w :: idleWorkers s ->
  (forall x, x ∈ errored -> x ∈ maybeErroredJobs s \/ x = j) ->
  Inv (released s w j wi idle errored) busy.
Proof.
  intros H Hst Hcp Hidle Herr.
  destruct (inv_busy _ _ H w j) as (wi0 & Hw & _); [by left|].
  pose proof (Inv_nodup _ _ H) as Hnd. rewrite fmap_cons /= in Hnd. apply NoDup_cons in Hnd as [Hwn Hnd].
  pose proof (inv_wip_nodup _ _ H) as Hnj. rewrite fmap_cons /= in Hnj. apply NoDup_cons in Hnj as [Hjn Hnj].
  assert (forall w' st oj, w' ∈ busy.*1 ++ idleWorkers s ++ stoppedWorkers s -> worker_is s w' st oj ->
    worker_is (released s w j wi idle errored) w' st oj) as Hne.
  { intros w' st oj Hn Hi. apply (worker_is_workers (set_workers s (<[w := wi]> (workers s)))); [done|].
    apply worker_is_insert_ne; [by intros ->|done]. }
  assert (forall w' j', (w', j') ∈ busy -> w' ∈ busy.*1 /\ j' ∈ busy.*2) as Hfst.
  { intros w' j' Hin. split; apply list_elem_of_fmap; by exists (w', j'). }
  split; cbn [released workers idleWorkers stoppedWorkers allJobList pendingJobs wipJobs maybeErroredJobs].
  - rewrite length_insert -(inv_partition _ _ H) Hidle fmap_cons /=. by rewrite -Permutation_middle.
  - intros w' j' Hin. apply Hne; [apply elem_of_app; left; by eapply Hfst|]. apply (inv_busy _ _ H). by right.
  - intros w' Hw'. rewrite Hidle in Hw'. apply elem_of_cons in Hw' as [->|Hin].
    + rewrite -Hst -Hcp. exact (worker_is_insert s w wi wi0 Hw).
    + apply Hne; [rewrite !elem_of_app; tauto|by apply (inv_idle _ _ H)].
  - intros w' Hin. apply Hne; [rewrite !elem_of_app; tauto|by apply (inv_stopped _ _ H)].
  - intros x. rewrite elem_of_difference elem_of_singleton (inv_wip _ _ H) fmap_cons elem_of_cons. cbn.
    split; [tauto|]. intros Hx. split; [by right|]. by intros ->.
  - done.
  - intros w' j' Hin. apply (inv_assigned _ _ H). by right.
  - apply (inv_pending_nodup _ _ H).
  - apply (inv_pending _ _ H).
  - intros x [Hx| ->]%Herr.
    + destruct (inv_errored _ _ H x Hx) as [? ?]. split; [|done]. rewrite elem_of_difference. tauto.
    + split; [rewrite elem_of_difference elem_of_singleton; tauto|].
      destruct (inv_assigned _ _ H w j) as (t & ? & ?); [by left|]. eauto.
  - intros x t Ht. rewrite length_insert. by apply (inv_unassigned _ _ H).
  - intros x t Ht. pose proof (inv_jobs _ _ H x t Ht) as Hx. unfold job_wf in *. destruct (job_kind (job t)); [done|].
    cbn [released pendingJobs wipJobs allJobList]. rewrite elem_of_difference. tauto.
Qed.

(** *** The operations *)
Lemma Inv_init n spawn :
  exists s, initializeWorkers (Process:=Process) Scheduler_new n spawn = Ok s /\ Inv s []
    /\ idleWorkers s = seq 0 n /\ length (workers s) = n /\ allJobList s = ∅
    /\ pendingJobs s = [] /\ maybeErroredJobs s = ∅.
Proof.
  set (s := mkScheduler (map (fun w => WorkerInfo_new (spawn w)) (seq 0 n)) (seq 0 n) [] ∅ [] ∅ ∅).
  assert (Inv s []) as HI.
  { split; cbn; try done.
    - by rewrite app_nil_r length_map length_seq.
    - intros w j Hin. by apply elem_of_nil in Hin.
    - intros w Hw. apply elem_of_seq in Hw. exists (WorkerInfo_new (spawn w)). split_and!; [|done..]. cbn.
      rewrite list_lookup_fmap lookup_seq_lt //. lia.
    - intros w Hin. by apply elem_of_nil in Hin.
    - intros j. rewrite elem_of_nil. split; [by intros []%not_elem_of_empty|done].
    - apply NoDup_nil_2.
    - intros w j Hin. by apply elem_of_nil in Hin.
    - apply NoDup_nil_2.
    - intros j Hin. by apply elem_of_nil in Hin. }
  exists s. unfold initializeWorkers.
  assert (forall l s0, foldl (fun this workerId =>
      set_idle (set_workers this (workers this ++ [WorkerInfo_new (spawn workerId)]))
        (idleWorkers this ++ [workerId])) s0 l =
    set_idle (set_workers s0 (workers s0 ++ map (fun w => WorkerInfo_new (spawn w)) l)) (idleWorkers s0 ++ l)) as ->.
  { clear. induction l as [|w l IH]; intros s0; cbn [foldl map].
    - rewrite !app_nil_r. by destruct s0.
    - rewrite IH. cbn. by rewrite -!app_assoc. }
  cbn. rewrite (checkInvariants_ok s []) //. cbn. split_and!; try done. by rewrite length_map length_seq.
Qed.

Lemma logJobSkip_ok s busy j : Inv s busy -> is_Some (allJobList s !! j) -> exists msg, logJobSkip s j = Ok msg.
Proof.
  intros H [t Ht]. unfold logJobSkip. rewrite Ht. destruct (job_kind _); [by eexists|].
  destruct (List.find _ _); by eexists.
Qed.

Lemma logJobSkip_jobs s s' j : allJobList s' = allJobList s -> logJobSkip s' j = logJobSkip s j.
Proof. unfold logJobSkip. by intros ->. Qed.

Lemma terminateRunningWorker_ok s busy w j f :
  Inv s ((w, j) :: busy) ->
  exists wi, workers s !! w = Some wi
    /\ let s' := released s w j (WorkerInfo_new (f (processHandle wi))) (idleWorkers s ++ [w])
                   ({[j]} ∪ maybeErroredJobs s) in
       terminateRunningWorker s w f = Ok s' /\ Inv s' busy.
Proof.
  intros H. destruct (inv_busy _ _ H w j) as (wi & Hw & Hst & Hcp); [by left|].
  exists wi. split; [done|]. intros s'.
  assert (Inv s' busy) as HI.
  { apply Inv_released; [done..| |].
    - by rewrite Permutation_app_comm.
    - intros x. rewrite elem_of_union elem_of_singleton. tauto. }
  split; [|done]. unfold terminateRunningWorker, vector_at. rewrite Hw bind_Ok Hcp. cbn [optional_value].
  rewrite bind_Ok ENFORCE_pass; [apply bool_decide_eq_true, (inv_wip _ _ H); by left|].
  rewrite bind_Ok. destruct (logJobSkip_ok s _ j H) as [msg Hmsg].
  { destruct (inv_assigned _ _ H w j) as (t & Ht & _); [by left|]. by eexists. }
  rewrite (logJobSkip_jobs s) // Hmsg bind_Ok. by rewrite (checkInvariants_ok s' busy).
Qed.

Lemma queueSemaTask_ok s busy cmd :
  Inv s busy -> allJobList s !! newTask (wrap32 (index cmd)) = None ->
  exists s', queueSemaTask s cmd = Ok s' /\ Inv s' busy
    /\ pendingJobs s' = pendingJobs s ++ [newTask (wrap32 (index cmd))]
    /\ allJobList s' = <[newTask (wrap32 (index cmd)) := mkTrackedIndexJob (mkIndexJob SemanticAnalysis
         (mkSemanticAnalysisJobDetails cmd) EmitIndexJobDetails_default) None]> (allJobList s)
    /\ workers s' = workers s /\ idleWorkers s' = idleWorkers s /\ stoppedWorkers s' = stoppedWorkers s
    /\ wipJobs s' = wipJobs s /\ maybeErroredJobs s' = maybeErroredJobs s.
Proof.
  intros H Hnew. unfold queueSemaTask, jobs_emplace. rewrite Hnew ENFORCE_true bind_Ok.
  set (j := newTask _) in *. eexists. split; [done|]. split; [|done].
  assert (forall x t, allJobList s !! x = Some t -> x <> j) as Hne by (intros x t Hx ->; congruence).
  split; cbn; try apply H.
  - intros w x Hx. destruct (inv_assigned _ _ H w x Hx) as (t & Ht & ?). exists t.
    rewrite lookup_insert_ne; [by apply not_eq_sym, (Hne _ t)|done].
  - apply NoDup_app. split_and!; [apply H| |apply NoDup_singleton].
    intros x (t & Ht & _)%(inv_pending _ _ H) ->%list_elem_of_singleton. congruence.
  - intros x [Hx| ->%list_elem_of_singleton]%elem_of_app; [|rewrite lookup_insert_eq; by eexists].
    destruct (inv_pending _ _ H x Hx) as (t & Ht & ?). exists t.
    rewrite lookup_insert_ne; [by apply not_eq_sym, (Hne _ t)|done].
  - intros x Hx. destruct (inv_errored _ _ H x Hx) as (? & t & w & Ht & ?). split; [done|]. exists t, w.
    rewrite lookup_insert_ne; [by apply not_eq_sym, (Hne _ t)|done].
  - intros x t. rewrite lookup_insert. case_decide as Hd.
    + intros [= <-]. cbn. apply elem_of_app. right. by apply list_elem_of_singleton.
    + intros Ht. pose proof (inv_unassigned _ _ H x t Ht). destruct (assignedWorker t); [done|].
      apply elem_of_app. by left.
  - intros x t. rewrite lookup_insert. case_decide; [intros [= <-]; by subst|].
    intros Ht. pose proof (inv_jobs _ _ H x t Ht) as Hx. unfold job_wf in *. destruct (job_kind _); [done|].
    destruct Hx as (? & ? & ? & [t3 Ht3]). cbn. rewrite elem_of_app list_elem_of_singleton. split_and!; [done| |done|].
    + intros [?|E]; [done|]. by apply (Hne _ t3 Ht3).
    + rewrite lookup_insert_ne; [by apply not_eq_sym, (Hne _ t3)|by eexists].
Qed.

(** [scheduleJobOnWorker] does not need the whole invariant. *)
Lemma scheduleJobOnWorker_ok s w wi j t now :
  workers s !! w = Some wi -> status wi = Idle -> currentlyProcessing wi = None ->
  w ∉ idleWorkers s -> j ∈ wipJobs s -> allJobList s !! j = Some t -> assignedWorker t = None ->
  scheduleJobOnWorker s (ConsumeOnce_new w) j now =
    Ok (set_jobs (set_workers s (<[w := mkWorkerInfo Busy (processHandle wi) now (Some j)]> (workers s)))
          (<[j := mkTrackedIndexJob (job t) (Some w)]> (allJobList s)),
        mkConsumeOnce w true false, mkIndexJobRequest j (job t)).
Proof.
  intros Hw Hst Hcp Hidle Hj Ht Has. unfold scheduleJobOnWorker, getValueNonConsuming.
  cbn [ConsumeOnce_new movedOut consumed value negb].
  rewrite !ENFORCE_true !bind_Ok ENFORCE_not // bind_Ok ENFORCE_decide // bind_Ok.
  unfold markWorkerBusy, getValueAndConsume, vector_at. cbn [ConsumeOnce_new movedOut consumed value negb].
  rewrite !ENFORCE_true !bind_Ok Hw bind_Ok ENFORCE_decide // bind_Ok ENFORCE_not; [rewrite Hcp; by intros []|].
  rewrite !bind_Ok. cbn [set_workers allJobList]. rewrite Ht ENFORCE_not; [rewrite Has; by intros []|].
  done.
Qed.

(** The next pending job is claimed for the front worker and scheduled, as in
    [assignJobsToIdleWorkers]. *)
Lemma schedule_pending_ok s busy w idle j p now :
  Inv s busy -> idleWorkers s = w :: idle -> pendingJobs s = j :: p ->
  exists wi t,
    workers s !! w = Some wi /\ allJobList s !! j = Some t /\ job_kind (job t) = SemanticAnalysis
    /\ assignedWorker t = None /\ j ∉ wipJobs s
    /\ let s' := started s w wi j (job t) now idle p in
       Inv s' ((w, j) :: busy)
       /\ scheduleJobOnWorker (set_idle (set_wip (set_pending s p) ({[j]} ∪ wipJobs s)) idle)
            (ConsumeOnce_new w) j now = Ok (s', mkConsumeOnce w true false, mkIndexJobRequest j (job t)).
Proof.
  intros H Hidle Hpend.
  destruct (inv_idle _ _ H w) as (wi & Hw & Hst & Hcp); [rewrite Hidle; by left|].
  destruct (inv_pending _ _ H j) as (t & Ht & Has & Hk); [rewrite Hpend; by left|].
  pose proof (inv_pending_nodup _ _ H) as Hnd. rewrite Hpend in Hnd. apply NoDup_cons in Hnd as [Hjp Hnd].
  destruct (Inv_unassigned_free s busy j H) as [Hjw _]; [intros t'; rewrite Ht; by intros [= <-]|].
  pose proof (Inv_nodup _ _ H) as Hndw. rewrite Hidle in Hndw.
  apply NoDup_app in Hndw as (_ & _ & Hndw). apply NoDup_app in Hndw as (Hndw & _).
  apply NoDup_cons in Hndw as [Hwi _].
  exists wi, t. do 5 (split; [done|]). intros s'. split.
  - apply Inv_started; try done; [by rewrite Ht| |].
    + intros x. rewrite Hpend elem_of_cons. split; [|tauto]. intros Hx. split; [tauto|]. by intros ->.
    + pose proof (inv_jobs _ _ H j t Ht) as Hwf. unfold job_wf in *. cbn. by rewrite Hk in Hwf |- *.
  - rewrite (scheduleJobOnWorker_ok _ w wi j t now) //. cbn. set_solver.
Qed.

Lemma checkAssignedWorker_ok s j w t :
  allJobList s !! j = Some t -> assignedWorker t = Some w -> checkAssignedWorker s j w = Ok ().
Proof. intros Ht Has. unfold checkAssignedWorker. by rewrite Ht bool_decide_eq_true_2. Qed.

Lemma markWorkerIdle_ok s w wi j :
  workers s !! w = Some wi -> status wi = Busy -> currentlyProcessing wi = Some j ->
  markWorkerIdle s w =
    Ok (set_idle (set_workers s (<[w := mkWorkerInfo Idle (processHandle wi) (startTime wi) None]> (workers s)))
          (w :: idleWorkers s)).
Proof.
  intros Hw Hst Hcp. unfold markWorkerIdle, vector_at.
  rewrite Hw bind_Ok (ENFORCE_decide (is_Some _)); [rewrite Hcp; by eexists|].
  by rewrite bind_Ok ENFORCE_decide.
Qed.

(** A job that could not be sent is taken back; nobody will work on it. *)
Lemma descheduleJobDueToSendError_ok s busy w j :
  Inv s ((w, j) :: busy) ->
  exists wi, workers s !! w = Some wi
    /\ let s' := released s w j (mkWorkerInfo Idle (processHandle wi) (startTime wi) None)
                   (w :: idleWorkers s) (maybeErroredJobs s) in
       descheduleJobDueToSendError s w j = Ok s' /\ Inv s' busy.
Proof.
  intros H. destruct (inv_busy _ _ H w j) as (wi & Hw & Hst & Hcp); [by left|].
  destruct (inv_assigned _ _ H w j) as (t & Ht & Has); [by left|].
  exists wi. split; [done|]. intros s'. split; [|apply Inv_released; [done..|tauto]].
  unfold descheduleJobDueToSendError. rewrite (checkAssignedWorker_ok s j w t) // bind_Ok.
  rewrite (markWorkerIdle_ok s w wi j) // bind_Ok ENFORCE_decide //. apply (inv_wip _ _ H). by left.
Qed.

Lemma check_response_kind_ok s j t :
  allJobList s !! j = Some t -> check_response_kind s j (job_kind (job t)) = Ok s.
Proof.
  intros Ht. unfold check_response_kind, jobs_emplace. destruct debugMode; [|done]. rewrite Ht. cbn [fst set_jobs allJobList].
  rewrite Ht ENFORCE_decide // bind_Ok. by destruct s.
Qed.

Lemma Inv_processing_wip s busy w wi j :
  Inv s busy -> workers s !! w = Some wi -> currentlyProcessing wi = Some j -> j ∈ wipJobs s.
Proof.
  intros H Hw Hj. assert (w ∈ seq 0 (length (workers s))) as Hin.
  { apply elem_of_seq. apply lookup_lt_Some in Hw. lia. }
  rewrite -(inv_partition _ _ H) !elem_of_app in Hin. destruct Hin as [Hin|[Hin|Hin]].
  - apply list_elem_of_fmap in Hin as ([w' j'] & -> & Hin).
    destruct (inv_busy _ _ H _ _ Hin) as (wi' & Hw' & _ & Hj'). cbn in *. simplify_eq.
    apply (inv_wip _ _ H), list_elem_of_fmap. by exists (w', j).
  - destruct (inv_idle _ _ H _ Hin) as (wi' & Hw' & _ & Hj'). congruence.
  - destruct (inv_stopped _ _ H _ Hin) as (wi' & Hw' & _ & Hj'). congruence.
Qed.

(** The result of the job a worker is processing. *)
Lemma markCompleted_current s busy w j t :
  Inv s ((w, j) :: busy) -> allJobList s !! j = Some t ->
  exists wi, workers s !! w = Some wi
    /\ let s' := released s w j (mkWorkerInfo Idle (processHandle wi) (startTime wi) None)
                   (w :: idleWorkers s) (maybeErroredJobs s) in
       markCompleted s w j (job_kind (job t)) = Ok (s', Some w) /\ Inv s' busy.
Proof.
  intros H Ht. destruct (inv_busy _ _ H w j) as (wi & Hw & Hst & Hcp); [by left|].
  destruct (inv_assigned _ _ H w j) as (t' & Ht' & Has); [by left|]. rewrite Ht in Ht'. injection Ht' as <-.
  exists wi. split; [done|]. intros s'. split; [|apply Inv_released; [done..|tauto]].
  unfold markCompleted. rewrite (check_response_kind_ok s j t) // bind_Ok.
  rewrite (checkAssignedWorker_ok s j w t) // bind_Ok.
  unfold vector_at. rewrite Hw bind_Ok Hcp bool_decide_eq_true_2 //.
  rewrite (markWorkerIdle_ok s w wi j) // bind_Ok ENFORCE_decide //. apply (inv_wip _ _ H). by left.
Qed.

(** Mail from the dead: the job was given up, its result arrives after all. *)
Lemma markCompleted_late s busy w j t :
  Inv s busy -> allJobList s !! j = Some t -> assignedWorker t = Some w -> j ∈ maybeErroredJobs s ->
  let s' := set_errored s (maybeErroredJobs s ∖ {[j]}) in
  markCompleted s w j (job_kind (job t)) = Ok (s', None) /\ Inv s' busy.
Proof.
  intros H Ht Has Hj s'. destruct (inv_errored _ _ H j Hj) as [Hjw _].
  pose proof (inv_unassigned _ _ H j t Ht) as Hw. rewrite Has in Hw.
  apply lookup_lt_is_Some in Hw as [wi Hw]. split.
  - unfold markCompleted. rewrite (check_response_kind_ok s j t) // bind_Ok.
    rewrite (checkAssignedWorker_ok s j w t) // bind_Ok.
    unfold vector_at. rewrite Hw bind_Ok bool_decide_eq_false_2.
    { intros Hcp. apply Hjw. by eapply Inv_processing_wip. }
    by rewrite ENFORCE_decide.
  - split; try apply H. cbn. intros x. rewrite elem_of_difference. intros [Hx _]. by apply (inv_errored _ _ H).
Qed.

(** After a semantic analysis was completed by [w], its worker gets the job
    that emits the index. *)
Lemma createSubtask_ok s busy w idle taskId jb now :
  Inv s busy -> idleWorkers s = w :: idle -> job_kind jb = EmitIndex ->
  allJobList s !! mkJobId taskId 1 = None -> is_Some (allJobList s !! newTask taskId) ->
  newTask taskId ∉ pendingJobs s -> newTask taskId ∉ wipJobs s ->
  exists wi, workers s !! w = Some wi
    /\ let s' := started s w wi (mkJobId taskId 1) jb now idle (pendingJobs s) in
       createSubtaskAndScheduleOnWorker s w (newTask taskId) jb now = Ok (s', mkIndexJobRequest (mkJobId taskId 1) jb)
       /\ Inv s' ((w, mkJobId taskId 1) :: busy).
Proof.
  intros H Hidle Hk Hnew Hsome Hp Hwip.
  destruct (inv_idle _ _ H w) as (wi & Hw & Hst & Hcp); [rewrite Hidle; by left|].
  exists wi. split; [done|]. intros s'. pose proof (Inv_nodup _ _ H) as Hndw. rewrite Hidle in Hndw.
  apply NoDup_app in Hndw as (_ & _ & Hndw). apply NoDup_app in Hndw as (Hndw & _).
  apply NoDup_cons in Hndw as [Hwi _].
  assert (mkJobId taskId 1 ∉ pendingJobs s) as Hnp.
  { intros (t & Ht & _)%(inv_pending _ _ H). congruence. }
  split.
  - unfold createSubtaskAndScheduleOnWorker, jobs_emplace. change (nextSubtask (newTask taskId)) with (mkJobId taskId 1).
    rewrite Hnew. cbn [fst set_wip set_jobs idleWorkers]. rewrite Hidle ENFORCE_not // bind_Ok ENFORCE_decide // bind_Ok.
    rewrite (scheduleJobOnWorker_ok _ w wi (mkJobId taskId 1) (mkTrackedIndexJob jb None) now) //; cbn.
    + set_solver.
    + by rewrite lookup_insert_eq.
    + unfold ConsumeOnce_destroy. cbn. rewrite ENFORCE_true bind_Ok. unfold s', started. cbn.
      by rewrite insert_insert_eq.
  - apply Inv_started; try done.
    + by rewrite Hnew.
    + apply H.
    + intros x. split; [|tauto]. intros Hx. split; [done|]. by intros ->.
    + unfold job_wf. cbn. rewrite Hk. cbn. split_and!; [done..| |].
      * rewrite elem_of_union elem_of_singleton. by intros [[=]|?].
      * rewrite lookup_insert_ne //.
Qed.

(** *** Timeouts *)
Definition late (startedBefore : Instant) s (w : nat) : Prop :=
  exists wi, workers s !! w = Some wi /\ startTime wi < startedBefore.

Lemma late_dec before s w : late before s w \/ ~ late before s w.
Proof.
  unfold late. destruct (workers s !! w) as [wi|]; [|right; by intros (? & [=] & _)].
  destruct (decide (startTime wi < before)); [left; eauto|right; intros (? & [= <-] & ?); done].
Qed.

Lemma Inv_status_busy s busy w wi :
  Inv s busy -> workers s !! w = Some wi -> status wi = Busy -> exists j, (w, j) ∈ busy.
Proof.
  intros H Hw Hst. assert (w ∈ seq 0 (length (workers s))) as Hin.
  { apply elem_of_seq. apply lookup_lt_Some in Hw. lia. }
  rewrite -(inv_partition _ _ H) !elem_of_app in Hin. destruct Hin as [Hin|[Hin|Hin]].
  - apply list_elem_of_fmap in Hin as ([w' j'] & -> & Hin). by exists j'.
  - destruct (inv_idle _ _ H _ Hin) as (wi' & Hw' & Hst' & _). congruence.
  - destruct (inv_stopped _ _ H _ Hin) as (wi' & Hw' & Hst' & _). congruence.
Qed.

Lemma Inv_busy_split s busy w j : Inv s busy -> (w, j) ∈ busy ->
  exists busy', busy ≡ₚ (w, j) :: busy' /\ Inv s ((w, j) :: busy').
Proof.
  intros H Hin. apply list_elem_of_split in Hin as (l1 & l2 & ->). exists (l1 ++ l2).
  assert (l1 ++ (w, j) :: l2 ≡ₚ (w, j) :: (l1 ++ l2)) as Hp by (symmetry; apply Permutation_middle).
  split; [done|]. by apply (Inv_perm _ _ _ Hp).
Qed.

Lemma Inv_neither_busy_nor_stopped s busy w :
  Inv s busy -> (w < length (workers s))%nat -> (forall j, (w, j) ∉ busy) -> w ∉ stoppedWorkers s ->
  worker_is s w Idle None.
Proof.
  intros H Hlt Hb Hs. assert (w ∈ seq 0 (length (workers s))) as Hin by (apply elem_of_seq; lia).
  rewrite -(inv_partition _ _ H) !elem_of_app in Hin. destruct Hin as [Hin|[Hin|Hin]]; [|by apply (inv_idle _ _ H)|done].
  apply list_elem_of_fmap in Hin as ([w' j] & -> & Hin). by apply Hb in Hin.
Qed.

(** What killing some late workers changes. *)
Record terminated (before : Instant) (l : list nat) s busy s' busy' : Prop := {
  tm_inv : Inv s' busy';
  tm_busy : forall w j, (w, j) ∈ busy' <-> (w, j) ∈ busy /\ ~ (w ∈ l /\ late before s w);
  tm_errored : forall x, x ∈ maybeErroredJobs s' <->
    x ∈ maybeErroredJobs s \/ exists w, w ∈ l /\ (w, x) ∈ busy /\ late before s w;
  tm_workers : forall w, ~ (w ∈ l /\ late before s w /\ exists j, (w, j) ∈ busy) -> workers s' !! w = workers s !! w;
  tm_length : length (workers s') = length (workers s);
  tm_jobs : allJobList s' = allJobList s;
  tm_pending : pendingJobs s' = pendingJobs s;
  tm_stopped : stoppedWorkers s' = stoppedWorkers s
}.

(** One worker. *)
Lemma terminate_if_long_running_ok before f s busy w :
  Inv s busy -> (w < length (workers s))%nat ->
  exists s' busy', terminate_if_long_running before f s w = Ok s' /\ terminated before [w] s busy s' busy'.
Proof.
  intros H Hlt. apply lookup_lt_is_Some in Hlt as [wi Hw].
  unfold terminate_if_long_running, vector_at. rewrite Hw bind_Ok.
  assert (~ late before s w \/ (forall j, (w, j) ∉ busy) -> terminated before [w] s busy s busy) as Hsame.
  { intros Hn. split; try done.
    - intros w' j. rewrite list_elem_of_singleton. split; [|tauto]. intros Hin. split; [done|].
      intros [-> Hl]. destruct Hn as [Hn|Hn]; [done|by destruct (Hn j)].
    - intros x. split; [tauto|]. intros [?|(w' & ->%list_elem_of_singleton & Hin & Hl)]; [done|].
      destruct Hn as [Hn|Hn]; [done|by destruct (Hn x)]. }
  destruct (status wi) eqn:Hst.
  - destruct (Z.ltb_spec (startTime wi) before) as [Hl|Hl].
    2: { exists s, busy. split; [done|]. apply Hsame. left. intros (wi' & Hw' & Hl'). simplify_eq. lia. }
    destruct (Inv_status_busy s busy w wi H Hw Hst) as [j Hin].
    destruct (Inv_busy_split s busy w j H Hin) as (busy' & Hp & H').
    destruct (terminateRunningWorker_ok s busy' w j (fun p => f p w) H') as (wi' & Hw' & Hok & HI).
    rewrite Hok. do 2 eexists. split; [done|]. simplify_eq.
    pose proof (inv_partition _ _ H') as Hpart. cbn in Hpart.
    assert (NoDup ((w, j) :: busy').*1) as Hnd.
    { pose proof (Inv_nodup _ _ H') as Hnd. by apply NoDup_app in Hnd as [Hnd _]. }
    cbn in Hnd. apply NoDup_cons in Hnd as [Hwb _].
    split; cbn; try done.
    + intros w' j'. rewrite Hp elem_of_cons list_elem_of_singleton. split.
      * intros Hin'. split; [by right|]. intros [-> _]. apply Hwb, list_elem_of_fmap. by exists (w, j').
      * intros [[[= -> ->]|?] Hn]; [|done]. destruct Hn. split; [done|]. by exists wi.
    + intros x. rewrite elem_of_union elem_of_singleton. setoid_rewrite Hp. split.
      * intros [->|?]; [|by left]. right. exists w. split_and!; [by apply list_elem_of_singleton|by left|by exists wi].
      * intros [?|(w' & ->%list_elem_of_singleton & [[= ->]|Hin']%elem_of_cons & _)]; [by right|by left|].
        destruct Hwb. apply list_elem_of_fmap. by exists (w, x).
    + intros w' Hn. rewrite list_lookup_insert_ne //. intros <-. apply Hn.
      split_and!; [by apply list_elem_of_singleton|by exists wi|by exists j].
    + by rewrite length_insert.
  - exists s, busy. split; [done|]. apply Hsame. right. intros j Hin.
    destruct (inv_busy _ _ H w j Hin) as (wi' & Hw' & Hst' & _). congruence.
  - exists s, busy. split; [done|]. apply Hsame. right. intros j Hin.
    destruct (inv_busy _ _ H w j Hin) as (wi' & Hw' & Hst' & _). congruence.
Qed.

Lemma late_workers before s s' w : workers s' !! w = workers s !! w -> late before s' w <-> late before s w.
Proof. unfold late. by intros ->. Qed.

Lemma terminated_cons before w l s busy s1 busy1 s2 busy2 :
  w ∉ l -> terminated before [w] s busy s1 busy1 -> terminated before l s1 busy1 s2 busy2 ->
  terminated before (w :: l) s busy s2 busy2.
Proof.
  intros Hwl H1 H2.
  assert (forall w', w' ∈ l -> late before s1 w' <-> late before s w') as Hlate.
  { intros w' Hw'. apply late_workers, (tm_workers _ _ _ _ _ _ H1). intros (->%list_elem_of_singleton & _). done. }
  split.
  - apply H2.
  - intros w' j. rewrite (tm_busy _ _ _ _ _ _ H2) (tm_busy _ _ _ _ _ _ H1) list_elem_of_singleton elem_of_cons.
    split.
    + intros [[? ?] Hn]. split; [done|]. intros [[->|?] ?]; [tauto|]. apply Hn. by rewrite Hlate.
    + intros [? Hn]. split_and!; [done| |]; [tauto|]. intros [? Hl]. apply Hn. rewrite Hlate // in Hl. tauto.
  - intros x. rewrite (tm_errored _ _ _ _ _ _ H2) (tm_errored _ _ _ _ _ _ H1).
    setoid_rewrite (fun w' => elem_of_cons l w' w). split.
    + intros [[?|(w' & ->%list_elem_of_singleton & ? & ?)]|(w' & ? & Hb & Hl)]; [by left|right; eauto|].
      right. exists w'. apply (tm_busy _ _ _ _ _ _ H1) in Hb as [? _]. rewrite Hlate // in Hl. auto.
    + intros [?|(w' & [->|Hin] & ? & Hl)]; [by do 2 left|left; right|right].
      * exists w. split_and!; [by apply list_elem_of_singleton|done..].
      * exists w'. split_and!; [done| |by rewrite Hlate]. apply (tm_busy _ _ _ _ _ _ H1).
        split; [done|]. by intros [->%list_elem_of_singleton _].
  - intros w' Hn. rewrite (tm_workers _ _ _ _ _ _ H2); [|rewrite (tm_workers _ _ _ _ _ _ H1) //].
    + intros (Hin & Hl & j & Hj). apply Hn. rewrite Hlate // in Hl. apply (tm_busy _ _ _ _ _ _ H1) in Hj as [? _].
      split_and!; [by right|done|by exists j].
    + intros (->%list_elem_of_singleton & Hl & Hj). apply Hn. split_and!; [by left|done..].
  - by rewrite (tm_length _ _ _ _ _ _ H2) (tm_length _ _ _ _ _ _ H1).
  - by rewrite (tm_jobs _ _ _ _ _ _ H2) (tm_jobs _ _ _ _ _ _ H1).
  - by rewrite (tm_pending _ _ _ _ _ _ H2) (tm_pending _ _ _ _ _ _ H1).
  - by rewrite (tm_stopped _ _ _ _ _ _ H2) (tm_stopped _ _ _ _ _ _ H1).
Qed.

Lemma terminateLongRunningWorkers_ok before f s busy :
  Inv s busy ->
  exists s' busy', terminateLongRunningWorkersAndRespawn s before f = Ok s'
    /\ terminated before (seq 0 (length (workers s))) s busy s' busy'.
Proof.
  intros H. unfold terminateLongRunningWorkersAndRespawn. rewrite (checkInvariants_ok s busy) // bind_Ok.
  assert (forall l s busy, Inv s busy -> NoDup l -> (forall w, w ∈ l -> (w < length (workers s))%nat) ->
    exists s' busy', foldM (terminate_if_long_running before f) s l = Ok s' /\ terminated before l s busy s' busy')
    as Hloop.
  { clear. induction l as [|w l IH]; intros s busy H Hnd Hl; cbn [foldM].
    - exists s, busy. split; [done|]. split; try done.
      + intros w j. rewrite elem_of_nil. tauto.
      + intros x. split; [tauto|]. intros [?|(w & []%not_elem_of_nil & _)]; done.
    - apply NoDup_cons in Hnd as [Hwl Hnd].
      destruct (terminate_if_long_running_ok before f s busy w H) as (s1 & busy1 & -> & H1); [apply Hl; by left|].
      rewrite bind_Ok. destruct (IH s1 busy1) as (s2 & busy2 & -> & H2); [apply H1|done| |].
      + intros w' Hw'. rewrite (tm_length _ _ _ _ _ _ H1). apply Hl. by right.
      + exists s2, busy2. split; [done|]. by eapply terminated_cons. }
  apply Hloop; [done|apply NoDup_seq|]. intros w Hw%elem_of_seq. lia.
Qed.

(** *** Stopping a worker that has nothing to do *)
Lemma markWorkerStopped_ok s busy w l :
  Inv s busy -> idleWorkers s = l ++ [w] ->
  exists s', markWorkerStopped (set_idle s l) w = Ok s' /\ Inv s' busy /\ idleWorkers s' = l
    /\ stoppedWorkers s' = stoppedWorkers s ++ [w] /\ allJobList s' = allJobList s
    /\ pendingJobs s' = pendingJobs s /\ wipJobs s' = wipJobs s /\ maybeErroredJobs s' = maybeErroredJobs s
    /\ length (workers s') = length (workers s)
    /\ forall w', w' <> w -> workers s' !! w' = workers s !! w'.
Proof.
  intros H Hidle. destruct (inv_idle _ _ H w) as (wi & Hw & Hst & Hcp).
  { rewrite Hidle. apply elem_of_app. right. by apply list_elem_of_singleton. }
  unfold markWorkerStopped, vector_at. cbn [set_idle workers]. rewrite Hw bind_Ok.
  rewrite (ENFORCE_not (is_Some _)); [rewrite Hcp; by intros []|]. rewrite bind_Ok ENFORCE_decide // bind_Ok.
  eexists. split; [done|]. cbn. split_and!; try done;
    [|by rewrite length_insert|by intros w' Hw'; rewrite list_lookup_insert_ne].
  pose proof (Inv_nodup _ _ H) as Hnd. rewrite Hidle in Hnd.
  assert (w ∉ busy.*1 ++ l ++ stoppedWorkers s) as Hwn.
  { assert (busy.*1 ++ (l ++ [w]) ++ stoppedWorkers s ≡ₚ w :: (busy.*1 ++ l ++ stoppedWorkers s)) as Hp.
    { rewrite -app_assoc /= -!Permutation_middle. done. }
    rewrite Hp in Hnd. by apply NoDup_cons in Hnd as [? _]. }
  assert (forall w' st oj, w' ∈ busy.*1 ++ l ++ stoppedWorkers s -> worker_is s w' st oj ->
    forall wi' idle stopped, worker_is (set_stopped (set_workers (set_idle s idle) (<[w := wi']> (workers s))) stopped) w' st oj) as Hne.
  { intros w' st oj Hin Hi wi' idle stopped.
    apply (worker_is_workers (set_workers s (<[w := wi']> (workers s)))); [done|].
    apply worker_is_insert_ne; [by intros ->|done]. }
  split; cbn; try apply H.
  - rewrite length_insert -(inv_partition _ _ H) Hidle. rewrite -!app_assoc. do 2 f_equiv. apply Permutation_app_comm.
  - intros w' j Hin. apply Hne; [|by apply (inv_busy _ _ H)].
    apply elem_of_app. left. apply list_elem_of_fmap. by exists (w', j).
  - intros w' Hin. apply Hne; [rewrite !elem_of_app; tauto|]. apply (inv_idle _ _ H). rewrite Hidle elem_of_app. tauto.
  - intros w' [Hin| ->%list_elem_of_singleton]%elem_of_app.
    + apply Hne; [rewrite !elem_of_app; tauto|by apply (inv_stopped _ _ H)].
    + eexists. split_and!; [cbn; apply list_lookup_insert_eq; by eapply lookup_lt_Some|done|done].
  - intros j t Ht. rewrite length_insert. by apply (inv_unassigned _ _ H).
Qed.
End Invariant.

(** ** The life of a job

    The abstract view of the scheduler: a job appears, pending if it is a semantic
    analysis and in progress if it is the indexing job that follows one; a pending
    job gets in progress; a job in progress is completed or given up; the result
    of a job given up may still arrive.  [Completed] is final. *)
Inductive Phase : Type := Pending | InProgress | GivenUp | Completed.

Inductive lifecycle : option Phase -> option Phase -> Prop :=
| lc_queue : lifecycle None (Some Pending)
| lc_subtask : lifecycle None (Some InProgress)
| lc_assign : lifecycle (Some Pending) (Some InProgress)
| lc_complete : lifecycle (Some InProgress) (Some Completed)
| lc_give_up : lifecycle (Some InProgress) (Some GivenUp)
| lc_late_mail : lifecycle (Some GivenUp) (Some Completed).

Definition phase {Process} (s : Scheduler Process) (j : JobId) : option Phase :=
  match allJobList s !! j with
  | None => None
  | Some _ => Some (
      if bool_decide (j ∈ pendingJobs s) then Pending
      else if bool_decide (j ∈ wipJobs s) then InProgress
      else if bool_decide (j ∈ maybeErroredJobs s) then GivenUp
      else Completed)
  end.

Definition evolves {Process} (s s' : Scheduler Process) : Prop := forall j, rtc lifecycle (phase s j) (phase s' j).

#[export] Instance evolves_preorder {Process} : PreOrder (evolves (Process:=Process)).
Proof.
  split.
  - intros s j. apply rtc_refl.
  - intros s1 s2 s3 H1 H2 j. transitivity (phase s2 j); [apply H1|apply H2].
Qed.

Section Lifecycle.
Context {Process : Type}.
Implicit Types (s : Scheduler Process) (busy : list (nat * JobId)).

(** The phase depends on four fields. *)
Lemma phase_same s s' j :
  allJobList s' !! j = allJobList s !! j -> (j ∈ pendingJobs s' <-> j ∈ pendingJobs s) ->
  (j ∈ wipJobs s' <-> j ∈ wipJobs s) -> (j ∈ maybeErroredJobs s' <-> j ∈ maybeErroredJobs s) ->
  phase s' j = phase s j.
Proof.
  intros E1 E2 E3 E4. unfold phase. rewrite E1.
  by rewrite (bool_decide_ext _ _ E2) (bool_decide_ext _ _ E3) (bool_decide_ext _ _ E4).
Qed.

Lemma phase_pending s busy j : Inv s busy -> j ∈ pendingJobs s -> phase s j = Some Pending.
Proof.
  intros H Hj. destruct (inv_pending _ _ H j Hj) as (t & Ht & _). unfold phase. by rewrite Ht bool_decide_eq_true_2.
Qed.

Lemma Inv_assigned_not_pending s busy j t w :
  Inv s busy -> allJobList s !! j = Some t -> assignedWorker t = Some w -> j ∉ pendingJobs s.
Proof. intros H Ht Hw (t' & Ht' & Hn & _)%(inv_pending _ _ H). congruence. Qed.

Lemma phase_wip s busy j : Inv s busy -> j ∈ wipJobs s -> phase s j = Some InProgress.
Proof.
  intros H Hj. destruct (Inv_wip_assigned _ _ _ H Hj) as (t & w & Ht & Hw). unfold phase. rewrite Ht.
  rewrite bool_decide_eq_false_2; [by eapply Inv_assigned_not_pending|]. by rewrite bool_decide_eq_true_2.
Qed.

Lemma phase_errored s busy j : Inv s busy -> j ∈ maybeErroredJobs s -> phase s j = Some GivenUp.
Proof.
  intros H Hj. destruct (inv_errored _ _ H j Hj) as (Hw & t & w & Ht & Has). unfold phase. rewrite Ht.
  rewrite bool_decide_eq_false_2; [by eapply Inv_assigned_not_pending|].
  rewrite bool_decide_eq_false_2 //. by rewrite bool_decide_eq_true_2.
Qed.

Lemma phase_rest s j t :
  allJobList s !! j = Some t -> j ∉ pendingJobs s -> j ∉ wipJobs s -> j ∉ maybeErroredJobs s ->
  phase s j = Some Completed.
Proof. intros Ht Hp Hw He. unfold phase. by rewrite Ht !bool_decide_eq_false_2. Qed.

Lemma evolves_started s busy w wi j jb now idle p :
  Inv s busy -> Inv (started s w wi j jb now idle p) ((w, j) :: busy) ->
  allJobList s !! j = None \/ j ∈ pendingJobs s -> (forall x, x <> j -> x ∈ p <-> x ∈ pendingJobs s) ->
  evolves s (started s w wi j jb now idle p).
Proof.
  intros H HI Hj Hp x. destruct (decide (x = j)) as [->|Hne].
  - rewrite (phase_wip _ _ _ HI); [cbn; set_solver|]. apply rtc_once.
    destruct Hj as [Hj|Hj]; [unfold phase; rewrite Hj; constructor|].
    rewrite (phase_pending s busy j H Hj). constructor.
  - rewrite (phase_same s (started s w wi j jb now idle p)); cbn; [by rewrite lookup_insert_ne|by apply Hp| |done|done].
    rewrite elem_of_union elem_of_singleton. tauto.
Qed.

Lemma evolves_released s busy w j wi idle errored :
  Inv s ((w, j) :: busy) -> Inv (released s w j wi idle errored) busy ->
  (forall x, x <> j -> x ∈ errored <-> x ∈ maybeErroredJobs s) ->
  evolves s (released s w j wi idle errored).
Proof.
  intros H HI He x. assert (j ∈ wipJobs s) as Hjw by (apply (inv_wip _ _ H); by left).
  destruct (decide (x = j)) as [->|Hne].
  - rewrite (phase_wip _ _ _ H Hjw). destruct (Inv_wip_assigned _ _ _ H Hjw) as (t & w' & Ht & Has).
    apply rtc_once. destruct (decide (j ∈ errored)) as [Hin|Hn].
    + rewrite (phase_errored _ _ _ HI Hin). constructor.
    + rewrite (phase_rest (released s w j wi idle errored) j t) //; cbn; [|set_solver|constructor].
      by eapply (Inv_assigned_not_pending s).
  - rewrite (phase_same s (released s w j wi idle errored)); cbn; [done|done| |by apply He|done].
    rewrite elem_of_difference elem_of_singleton. tauto.
Qed.

Lemma evolves_late s busy j :
  Inv s busy -> j ∈ maybeErroredJobs s -> evolves s (set_errored s (maybeErroredJobs s ∖ {[j]})).
Proof.
  intros H Hj x. destruct (decide (x = j)) as [->|Hne].
  - rewrite (phase_errored _ _ _ H Hj). destruct (inv_errored _ _ H j Hj) as (Hw & t & w & Ht & Has).
    rewrite (phase_rest _ j t) //; cbn; [by eapply Inv_assigned_not_pending|set_solver|]. apply rtc_once. constructor.
  - rewrite (phase_same s (set_errored s _)); cbn; [done|done|done| |done].
    rewrite elem_of_difference elem_of_singleton. tauto.
Qed.

Lemma evolves_terminated before l s busy s' busy' : Inv s busy -> terminated before l s busy s' busy' -> evolves s s'.
Proof.
  intros H T x. pose proof (tm_inv _ _ _ _ _ _ T) as HI.
  assert (x ∈ wipJobs s' -> x ∈ wipJobs s) as Hsub.
  { rewrite (inv_wip _ _ HI) (inv_wip _ _ H). intros ([w j] & -> & Hin)%list_elem_of_fmap.
    apply (tm_busy _ _ _ _ _ _ T) in Hin as [Hin _]. apply list_elem_of_fmap. by exists (w, j). }
  destruct (decide (x ∈ wipJobs s)) as [Hw|Hw].
  - rewrite (phase_wip _ _ _ H Hw). destruct (decide (x ∈ wipJobs s')) as [Hw'|Hw'].
    + by rewrite (phase_wip _ _ _ HI Hw').
    + rewrite (phase_errored _ _ x HI); [|apply rtc_once; constructor].
      apply (tm_errored _ _ _ _ _ _ T). right.
      apply (inv_wip _ _ H), list_elem_of_fmap in Hw as ([w j] & -> & Hin). exists w.
      destruct (decide (w ∈ l)) as [Hl|Hl].
      * destruct (late_dec before s w) as [?|Hn]; [done|]. destruct Hw'. apply (inv_wip _ _ HI), list_elem_of_fmap.
        exists (w, j). split; [done|]. apply (tm_busy _ _ _ _ _ _ T). tauto.
      * destruct Hw'. apply (inv_wip _ _ HI), list_elem_of_fmap.
        exists (w, j). split; [done|]. apply (tm_busy _ _ _ _ _ _ T). tauto.
  - rewrite (phase_same s s'); [by rewrite (tm_jobs _ _ _ _ _ _ T)|by rewrite (tm_pending _ _ _ _ _ _ T)|tauto| |done].
    rewrite (tm_errored _ _ _ _ _ _ T). split; [|tauto]. intros [?|(w & _ & Hin & _)]; [done|].
    destruct Hw. apply (inv_wip _ _ H), list_elem_of_fmap. by exists (w, x).
Qed.
End Lifecycle.

(** C16. A timeout check succeeds in every consistent state, keeps it consistent
    ([checkInvariants] holds) and gives up exactly the jobs of the workers that
    are over their time: these workers lose their job and are idle again under a
    new process, their jobs are marked as possibly errored, and every other
    worker, the job list, the queue and the stopped workers stay as they were. *)
Theorem timeouts_kill_exactly_late_workers `{BM : BuildMode} {Process : Type} (s : Scheduler Process) busy before f :
  Inv s busy ->
  exists s' busy', terminateLongRunningWorkersAndRespawn s before f = Ok s'
    /\ Inv s' busy' /\ checkInvariants s' = Ok ()
    /\ (forall w j, (w, j) ∈ busy' <-> (w, j) ∈ busy /\ ~ late before s w)
    /\ (forall w j, (w, j) ∈ busy -> late before s w -> worker_is s' w Idle None)
    /\ (forall x, x ∈ maybeErroredJobs s' <-> x ∈ maybeErroredJobs s \/ exists w, (w, x) ∈ busy /\ late before s w)
    /\ (forall w, (late before s w -> forall j, (w, j) ∉ busy) -> workers s' !! w = workers s !! w)
    /\ allJobList s' = allJobList s /\ pendingJobs s' = pendingJobs s /\ stoppedWorkers s' = stoppedWorkers s.
Proof.
  intros H. destruct (terminateLongRunningWorkers_ok before f s busy H) as (s' & busy' & Hok & T).
  assert (forall w, late before s w -> w ∈ seq 0 (length (workers s))) as Hin.
  { intros w (wi & Hw & _). apply elem_of_seq. apply lookup_lt_Some in Hw. lia. }
  exists s', busy'. split_and!; try apply T; try done.
  - apply (checkInvariants_ok _ busy'), T.
  - intros w j. rewrite (tm_busy _ _ _ _ _ _ T). specialize (Hin w). tauto.
  - intros w j Hj Hl. pose proof (tm_busy _ _ _ _ _ _ T w) as Hb.
    apply (Inv_neither_busy_nor_stopped s' busy'); [apply T| | |].
    + rewrite (tm_length _ _ _ _ _ _ T). destruct Hl as (wi & Hw & _). by eapply lookup_lt_Some.
    + intros j' [Hj' Hn]%Hb. apply Hn. split; [by apply Hin|done].
    + rewrite (tm_stopped _ _ _ _ _ _ T). by apply (Inv_busy_not_idle s busy w j).
  - intros x. rewrite (tm_errored _ _ _ _ _ _ T). split; intros [?|(w & ?)]; try (by left).
    + right. exists w. tauto.
    + right. exists w. split_and!; [by apply Hin; tauto|tauto|tauto].
  - intros w Hn. apply (tm_workers _ _ _ _ _ _ T). intros (_ & Hl & j & Hj). by apply (Hn Hl j).
Qed.

(** ** Concrete inputs: one worker, busy since 0 with task 7. *)
Lemma demo_busy_scheduler : exists s : Scheduler nat, Inv s [(0%nat, newTask 7)]
  /\ late 1 s 0 /\ length (workers s) = 1%nat.
Proof.
  destruct (@Inv_init true nat 1 (fun w => w)) as (s0 & _ & H0 & Hi0 & Hl0 & Hj0 & Hp0 & _).
  destruct (queueSemaTask_ok (BM:=true) s0 [] (mkCommandObject 7 [] [] []) H0) as
    (s1 & _ & H1 & Hp1 & _ & Hw1 & Hi1 & _); [by rewrite Hj0 lookup_empty|].
  rewrite Hp0 /= in Hp1. rewrite Hi0 /= in Hi1.
  destruct (schedule_pending_ok (BM:=true) s1 [] 0 [] (newTask 7) [] 0 H1 Hi1 Hp1)
    as (wi & t & Hw & _ & _ & _ & _ & HI & _).
  eexists. split; [exact HI|]. cbn. rewrite length_insert Hw1 Hl0. split; [|done].
  eexists. split; [cbn; apply list_lookup_insert_eq; rewrite Hw1 Hl0; lia|cbn; lia].
Qed.

Lemma timeouts_kill_exactly_late_workers_witness :
  exists s s' : Scheduler nat, terminateLongRunningWorkersAndRespawn (BM:=true) s 1 (fun p _ => p) = Ok s'
    /\ worker_is s 0 Busy (Some (newTask 7)) /\ worker_is s' 0 Idle None /\ newTask 7 ∈ maybeErroredJobs s'.
Proof.
  destruct demo_busy_scheduler as (s & H & Hl & _).
  destruct (@timeouts_kill_exactly_late_workers true nat s [(0%nat, newTask 7)] 1 (fun p _ => p) H)
    as (s' & busy' & Hok & _ & _ & _ & Hidle & Herr & _).
  exists s, s'. split; [exact Hok|]. split; [apply (inv_busy _ _ H); by left|].
  split; [apply (Hidle 0%nat (newTask 7)); [by left|exact Hl]|].
  apply Herr. right. exists 0%nat. split; [by left|exact Hl].
Defined.
