(* ===== verification/Driver.v ===== *)
(** * The driver

    [Driver] (Driver.cc) owns the scheduler, the planner, the queues and the
    parser of the compilation database.  Its run loop refills the jobs from the
    parser, hands them to idle workers, waits for results and kills workers that
    take too long.  The loop itself is
    [Scheduler::runJobsTillCompletionAndShutdownWorkers], whose callbacks are
    methods of the driver; it is modelled here, on the state of the driver.

    What the rest of the world does is explicit: a [Round] says, for one
    iteration of the loop, which messages arrive, which sends succeed and what
    the clocks show.  The queues are modelled by their histories: what was sent
    to which worker, and the results that were received.

    The parser is used through the interface [JobSource]; [CompdbParser] is
    shown to implement it. *)
From S2P Require Import Prelude Ordering CppString Paths Json PackageMaps IdPaths.
From S2P Require Import CommandLine Compdb Toolchains CompdbParser Ipc Planner Scheduler.

(** ** The source of jobs *)
Class JobSource (P : Type) : Type := parse_more : P -> result (P * list CommandObject).

Definition task_of (c : CommandObject) : JobId := newTask (wrap32 (index c)).

(** What the driver needs of it: as long as [source_inv p used] holds, asking for
    more succeeds, gives tasks that are new, and keeps it so; the ids fit; [source_size]
    bounds the number of tasks to come, and an empty answer is final. *)
Class JobSourceLaws (P : Type) `{JobSource P} : Type := {
  source_inv : P -> gset JobId -> Prop;
  source_size : P -> nat;
  parse_more_ok p used : source_inv p used ->
    exists p' cs, parse_more p = Ok (p', cs)
      /\ NoDup (map task_of cs) /\ (forall c, c ∈ cs -> task_of c ∉ used)
      /\ source_inv p' (used ∪ list_to_set (map task_of cs))
      /\ (source_size p' + length cs <= source_size p)%nat
      /\ (cs = [] -> source_size p' = 0%nat);
  source_ids p used j : source_inv p used -> j ∈ used -> uint32 (taskId j)
}.

(** ** State *)
Record DriverIpcOptions : Type := mkDriverIpcOptions {
  dio_ipcSizeHintBytes : Z;
  dio_receiveTimeout : Z
}.

Record DriverOptions : Type := mkDriverOptions {
  do_workerExecutablePath : AbsolutePath;
  projectRootPath_ : RootPath;
  do_compdbPath : AbsolutePath;
  do_indexOutputPath : AbsolutePath;
  statsFilePath : AbsolutePath;
  do_packageMapPath : AbsolutePath;
  do_showCompilerDiagnostics : bool;
  showProgress : bool;
  do_ipcOptions : DriverIpcOptions;
  numWorkers : nat;
  do_deterministic : bool;
  do_preprocessorRecordHistoryFilterRegex : str;
  do_supplementaryOutputDir : str;
  do_workerFault : str;
  do_isTesting : bool;
  do_noStacktrace : bool;
  do_temporaryOutputDir : str;
  deleteTemporaryOutputDir : bool;
  do_originalArgv : list str
}.
Definition receiveTimeout (this : DriverOptions) : Z := dio_receiveTimeout (do_ipcOptions this).

(** The histories of the queues. *)
Record MessageQueues : Type := mkMessageQueues {
  driverToWorker : list (nat * IndexJobRequest);
  workerToDriver : list IndexJobResponse
}.

Record Driver (Process P : Type) : Type := mkDriver {
  options : DriverOptions;
  driver_id : str;
  queues : MessageQueues;
  scheduler : Scheduler Process;
  planner : FileIndexingPlanner;
  allStatistics : list (JobId * IndexingStatistics);
  shardPaths_ : list ShardPaths;
  compdbCommandCount : nat;
  indexedSoFar : Z;
  compdbParser : P
}.
Arguments mkDriver {Process P}.
Arguments driver_id {Process P}.
Arguments compdbCommandCount {Process P}.
Arguments options {Process P}.
Arguments queues {Process P}.
Arguments scheduler {Process P}.
Arguments planner {Process P}.
Arguments allStatistics {Process P}.
Arguments shardPaths_ {Process P}.
Arguments indexedSoFar {Process P}.
Arguments compdbParser {Process P}.

(** ** The environment of one iteration *)
Inductive Received : Type :=
| RTimeout
| RMalformed
| RResponses (response : IndexJobResponse) (more : list IndexJobResponse).

Record Round (Process : Type) : Type := mkRound {
  received : Received;
  sendOk : nat -> IndexJobRequest -> bool;
  clock : JobId -> Instant;
  endOfRound : Instant;
  respawn : Process -> nat -> Process
}.
Arguments mkRound {Process}.
Arguments received {Process}.
Arguments sendOk {Process}.
Arguments clock {Process}.
Arguments endOfRound {Process}.
Arguments respawn {Process}.

Section Operations.
Context `{BM : BuildMode} {Process P : Type} `{JS : !JobSource P}.
Abbreviation Drv := (Driver Process P).

Definition set_scheduler (this : Drv) s : Drv := mkDriver (options this) (driver_id this) (queues this) s (planner this)
  (allStatistics this) (shardPaths_ this) (compdbCommandCount this) (indexedSoFar this) (compdbParser this).
Definition set_planner (this : Drv) p : Drv := mkDriver (options this) (driver_id this) (queues this) (scheduler this) p
  (allStatistics this) (shardPaths_ this) (compdbCommandCount this) (indexedSoFar this) (compdbParser this).
Definition set_parser (this : Drv) p : Drv := mkDriver (options this) (driver_id this) (queues this) (scheduler this) (planner this)
  (allStatistics this) (shardPaths_ this) (compdbCommandCount this) (indexedSoFar this) p.
Definition set_results (this : Drv) stats shards n : Drv := mkDriver (options this) (driver_id this) (queues this)
  (scheduler this) (planner this) stats shards (compdbCommandCount this) n (compdbParser this).

(** A message that was accepted by the queue of worker [w]; a result taken out. *)
Definition log_sent (this : Drv) (w : nat) (req : IndexJobRequest) : Drv :=
  mkDriver (options this) (driver_id this) (mkMessageQueues (driverToWorker (queues this) ++ [(w, req)]) (workerToDriver (queues this)))
    (scheduler this) (planner this) (allStatistics this) (shardPaths_ this) (compdbCommandCount this) (indexedSoFar this) (compdbParser this).
Definition log_received (this : Drv) (r : IndexJobResponse) : Drv :=
  mkDriver (options this) (driver_id this) (mkMessageQueues (driverToWorker (queues this)) (workerToDriver (queues this) ++ [r]))
    (scheduler this) (planner this) (allStatistics this) (shardPaths_ this) (compdbCommandCount this) (indexedSoFar this) (compdbParser this).

Definition refillJobs (this : Drv) : result (Drv * nat) :=
  '(parser, commands) ← parse_more (compdbParser this);
  s ← foldM queueSemaTask (scheduler this) commands;
  Ok (set_scheduler (set_parser this parser) s, length commands).

(** The result says whether the job was sent. *)
Definition tryAssignJobToWorker (env : Round Process) (this : Drv) (workerId : ConsumeOnce nat) (jobId : JobId)
    : result (Drv * ConsumeOnce nat * bool) :=
  bareWorkerId ← getValueNonConsuming workerId;
  '(s, workerId, request) ← scheduleJobOnWorker (scheduler this) workerId jobId (clock env jobId);
  if sendOk env bareWorkerId request
  then Ok (log_sent (set_scheduler this s) bareWorkerId request, workerId, true)
  else
    s ← descheduleJobDueToSendError s bareWorkerId jobId;
    Ok (set_scheduler this s, workerId, false).

(** The loop of [Scheduler::assignJobsToIdleWorkers]; each iteration takes one
    job from the queue. *)
Fixpoint assign_loop (env : Round Process) (fuel : nat) (this : Drv) : result Drv :=
  match idleWorkers (scheduler this), pendingJobs (scheduler this) with
  | _ :: _, nextJob :: pending =>
      match fuel with
      | O => Err OutOfFuel
      | S fuel =>
          let s := set_pending (scheduler this) pending in
          let inserted := negb (bool_decide (nextJob ∈ wipJobs s)) in
          let s := set_wip s ({[nextJob]} ∪ wipJobs s) in
          ENFORCE inserted "job from pendingJobs was not already WIP" ;;
          '(s, nextWorkerId) ← claimIdleWorker s;
          '(this, nextWorkerId, _) ← tryAssignJobToWorker env (set_scheduler this s) nextWorkerId nextJob;
          checkInvariants (scheduler this) ;;
          ConsumeOnce_destroy nextWorkerId ;;
          assign_loop env fuel this
      end
  | _, _ => Ok this
  end.

Definition assignJobsToIdleWorkers (env : Round Process) (this : Drv) : result Drv :=
  ENFORCE (0 <? length (idleWorkers (scheduler this)))%nat "no idle workers" ;;
  ENFORCE (0 <? length (pendingJobs (scheduler this)))%nat "no pending jobs" ;;
  assign_loop env (length (pendingJobs (scheduler this))) this.

(** *** Stopping workers *)
Definition shutdown_request : IndexJobRequest := mkIndexJobRequest Shutdown (job TrackedIndexJob_default).

Definition shutdownWorker (env : Round Process) (this : Drv) (workerId : nat) : result Drv :=
  let sent := sendOk env workerId shutdown_request in
  ENFORCE sent "shutdown messages are tiny and shouldn't fail to send" ;;
  Ok (if sent then log_sent this workerId shutdown_request else this).

(** The lambda [shutdownIdleWorkers]: from the back of the idle workers. *)
Fixpoint shutdown_loop (env : Round Process) (fuel : nat) (this : Drv) : result Drv :=
  match last (idleWorkers (scheduler this)) with
  | None => Ok this
  | Some workerId =>
      match fuel with
      | O => Err OutOfFuel
      | S fuel =>
          s ← markWorkerStopped (set_idle (scheduler this) (removelast (idleWorkers (scheduler this)))) workerId;
          this ← shutdownWorker env (set_scheduler this s) workerId;
          shutdown_loop env fuel this
      end
  end.
Definition shutdownIdleWorkers (env : Round Process) (this : Drv) : result Drv :=
  shutdown_loop env (length (idleWorkers (scheduler this))) this.

(** *** Results *)
Definition processWorkerResponse (env : Round Process) (this : Drv) (response : IndexJobResponse) : result Drv :=
  '(s, optLatestIdleWorkerId) ← markCompleted (scheduler this) (Z.to_nat (response_workerId response))
    (response_jobId response) (result_kind (response_result response));
  let this := set_scheduler this s in
  match optLatestIdleWorkerId with
  | None => Ok this
  | Some workerId =>
      match result_kind (response_result response) with
      | SemanticAnalysis =>
          '(pl, filesToBeIndexed) ← saveSemaResult (planner this)
            (result_semanticAnalysis (response_result response)) [];
          let this := set_planner this pl in
          '(s, newRequest) ← createSubtaskAndScheduleOnWorker (scheduler this) workerId (response_jobId response)
            (mkIndexJob EmitIndex SemanticAnalysisJobDetails_default (mkEmitIndexJobDetails filesToBeIndexed))
            (clock env (nextSubtask (response_jobId response)));
          if sendOk env workerId newRequest
          then Ok (log_sent (set_scheduler this s) workerId newRequest)
          else
            s ← descheduleJobDueToSendError s workerId (request_id newRequest);
            s ← terminateRunningWorker s workerId (fun p => respawn env p workerId);
            Ok (set_scheduler this s)
      | EmitIndex =>
          let r := result_emitIndex (response_result response) in
          let stats := if bool_decide (asStringRef (statsFilePath (options this)) = []) then allStatistics this
                       else allStatistics this ++ [(response_jobId response, statistics r)] in
          let this := set_results this stats (shardPaths_ this ++ [shardPaths r]) (wrap32 (indexedSoFar this + 1)) in
          (if showProgress (options this)
           then getTuPath (scheduler this) (newTask (taskId (response_jobId response))) ;; Ok ()
           else Ok ()) ;;
          Ok this
      end
  end.

Definition receive_and_process (env : Round Process) (this : Drv) (response : IndexJobResponse) : result Drv :=
  processWorkerResponse env (log_received this response) response.

Definition processOneOrMoreJobResults (env : Round Process) (this : Drv) : result Drv :=
  this ← match received env with
         | RTimeout | RMalformed => Ok this
         | RResponses response more =>
             this ← receive_and_process env this response;
             foldM (receive_and_process env) this more
         end;
  s ← terminateLongRunningWorkersAndRespawn (scheduler this)
        (endOfRound env - receiveTimeout (options this)) (respawn env);
  Ok (set_scheduler this s).

(** *** The run loop *)
Inductive Outcome : Type :=
| Finished (this : Drv) (refillCount : nat)
| Waiting (this : Drv) (refillCount : nat).

(** An iteration up to the call of [processOneOrMoreJobResults]; only when
    something is pending or in progress. *)
Definition refill_if_needed (this : Drv) (refillCount : nat) : result (Drv * nat) :=
  if bool_decide (pendingJobs (scheduler this) = []) && negb (Nat.eqb refillCount 0) then
    '(this, refillCount) ← refillJobs this;
    ENFORCE (Nat.eqb refillCount (length (pendingJobs (scheduler this)))) "refillCount == this->pendingJobs.size()" ;;
    Ok (this, refillCount)
  else Ok (this, refillCount).

Definition use_idle_workers (env : Round Process) (this : Drv) : result Drv :=
  if negb (bool_decide (idleWorkers (scheduler this) = [])) then
    if bool_decide (pendingJobs (scheduler this) = []) then shutdownIdleWorkers env this
    else assignJobsToIdleWorkers env this
  else Ok this.

Definition iteration (env : Round Process) (this : Drv) (refillCount : nat) : result (Drv * nat) :=
  '(this, refillCount) ← refill_if_needed this refillCount;
  this ← use_idle_workers env this;
  ENFORCE (negb (bool_decide (wipJobs (scheduler this) = ∅))) "!this->wipJobs.empty()" ;;
  this ← processOneOrMoreJobResults env this;
  Ok (this, refillCount).

(** The loop runs as long as there are [rounds]: the real one waits. *)
Fixpoint run_loop (last_round : Round Process) (rounds : list (Round Process)) (this : Drv) (refillCount : nat)
    : result Outcome :=
  checkInvariants (scheduler this) ;;
  if bool_decide (pendingJobs (scheduler this) = []) && bool_decide (wipJobs (scheduler this) = ∅) then
    this ← shutdownIdleWorkers last_round this;
    Ok (Finished this refillCount)
  else
    match rounds with
    | [] => Ok (Waiting this refillCount)
    | env :: rounds =>
        '(this, refillCount) ← iteration env this refillCount;
        run_loop last_round rounds this refillCount
    end.

(** [last_round] supplies the results of the final shutdown messages. *)
Definition runJobsTillCompletionAndShutdownWorkers (last_round : Round Process) (rounds : list (Round Process))
    (this : Drv) : result Outcome :=
  checkInvariants (scheduler this) ;;
  '(this, refillCount) ← refillJobs this;
  if Nat.eqb refillCount 0 then Err (Exit 1)
  else
    ENFORCE (Nat.eqb (length (pendingJobs (scheduler this))) refillCount) "this->pendingJobs.size() == refillCount" ;;
    outcome ← run_loop last_round rounds this refillCount;
    match outcome with
    | Waiting _ _ => Ok outcome
    | Finished this _ =>
        checkInvariants (scheduler this) ;;
        ENFORCE (Nat.eqb (length (idleWorkers (scheduler this))) 0) "this->idleWorkers.size() == 0" ;;
        ENFORCE (Nat.eqb (length (stoppedWorkers (scheduler this))) (length (workers (scheduler this))))
          "all workers should be stopped after jobs have been completed" ;;
        Ok outcome
    end.
End Operations.

(** ** The invariant of a run

    [answered] are the jobs whose results were received.  Every job that was
    assigned was sent to its worker, and is then answered, in progress or given
    up; what was sent is what the job list says; tasks the parser will deliver
    are new. *)
Section Invariant.
Context `{BM : BuildMode} {Process P : Type} `{JS : !JobSource P, JL : !JobSourceLaws P}.
Implicit Types (d : Driver Process P) (busy : list (nat * JobId)).

Definition sent d : list (nat * IndexJobRequest) := driverToWorker (queues d).
Definition answered d : list JobId := map response_jobId (workerToDriver (queues d)).

Record DInv d busy : Prop := {
  di_inv : Inv (scheduler d) busy;
  di_answered_nodup : NoDup (answered d);
  di_answered j : j ∈ answered d -> j ∉ wipJobs (scheduler d) /\ j ∉ maybeErroredJobs (scheduler d)
    /\ exists t w, allJobList (scheduler d) !! j = Some t /\ assignedWorker t = Some w;
  di_sent w req : (w, req) ∈ sent d -> request_id req <> Shutdown ->
    exists t, allJobList (scheduler d) !! request_id req = Some t /\ job t = request_job req
      /\ assignedWorker t = Some w;
  di_fate j t w : allJobList (scheduler d) !! j = Some t -> assignedWorker t = Some w ->
    (exists req, (w, req) ∈ sent d /\ request_id req = j)
    /\ (j ∈ answered d \/ j ∈ wipJobs (scheduler d) \/ j ∈ maybeErroredJobs (scheduler d));
  di_source : exists used, source_inv (compdbParser d) used
    /\ forall j t, allJobList (scheduler d) !! j = Some t -> newTask (taskId j) ∈ used;
  di_indexed : indexedSoFar d = wrap32 (Z.of_nat (length (shardPaths_ d)))
}.

(** *** How much work is left

    A semantic analysis still needs two results, the emission of an index one;
    so does every task to come. *)
Definition weight (j : JobId) : nat := (if (subtaskId j =? 0)%Z then 2 else 1)%nat.
Definition weights (l : list JobId) : nat := sum_list (weight <$> l).
Definition work_left d busy : nat :=
  (2 * source_size (compdbParser d) + 2 * length (pendingJobs (scheduler d)) + weights busy.*2)%nat.

Lemma weights_cons j l : weights (j :: l) = (weight j + weights l)%nat.
Proof. done. Qed.

Lemma weights_perm l1 l2 : l1 ≡ₚ l2 -> weights l1 = weights l2.
Proof. induction 1; rewrite ?weights_cons; try lia. Qed.

Lemma weights_submseteq l1 l2 : l1 ⊆+ l2 -> (weights l1 <= weights l2)%nat.
Proof. induction 1; rewrite ?weights_cons; try lia. Qed.

Lemma weight_pos j : (1 <= weight j)%nat.
Proof. unfold weight. destruct (_ =? _); lia. Qed.

(** *** Steps of the scheduler seen from the driver *)
Lemma DInv_perm d busy busy' : busy ≡ₚ busy' -> DInv d busy -> DInv d busy'.
Proof. intros Hp []. split; try done. by apply (Inv_perm _ busy). Qed.

(** A job is given to the front worker and sent. *)
Lemma DInv_start d busy w wi j jb now idle p :
  let s' := started (scheduler d) w wi j jb now idle p in
  DInv d busy -> Inv s' ((w, j) :: busy) ->
  (forall t, allJobList (scheduler d) !! j = Some t -> assignedWorker t = None) ->
  is_Some (allJobList (scheduler d) !! newTask (taskId j)) ->
  DInv (log_sent (set_scheduler d s') w (mkIndexJobRequest j jb)) ((w, j) :: busy).
Proof.
  intros s' H HI Hj [tt Htt].
  destruct (Inv_unassigned_free _ _ j (di_inv _ _ H) Hj) as [Hjw Hje].
  assert (j ∉ answered d) as Hja.
  { intros (_ & _ & t & w' & Ht & Has)%(di_answered _ _ H). apply Hj in Ht. congruence. }
  split; cbn; try (by apply H); try done.
  - intros x Hx. assert (x <> j) by (by intros ->). destruct (di_answered _ _ H x Hx) as (? & ? & ?).
    rewrite lookup_insert_ne // elem_of_union elem_of_singleton. tauto.
  - intros w' req [Hin| [= -> ->]%list_elem_of_singleton]%elem_of_app Hs.
    + destruct (di_sent _ _ H w' req Hin Hs) as (t & Ht & Hjob & Has).
      rewrite lookup_insert_ne; [|by exists t]. intros E. rewrite -E in Ht. apply Hj in Ht. congruence.
    + cbn. rewrite lookup_insert_eq. by eexists.
  - intros x t w'. rewrite lookup_insert. case_decide as Hd.
    + intros [= <-] [= <-]. subst x. split; [|right; left; by apply elem_of_union; left; apply elem_of_singleton].
      exists (mkIndexJobRequest j jb). split; [|done]. apply elem_of_app. right. by apply list_elem_of_singleton.
    + intros Ht Has. destruct (di_fate _ _ H x t w' Ht Has) as ((req & Hin & Hid) & Hf). split.
      * exists req. split; [|done]. apply elem_of_app. by left.
      * rewrite elem_of_union. tauto.
  - destruct (di_source _ _ H) as (used & Hs & Hu). exists used. split; [done|].
    intros x t. rewrite lookup_insert. case_decide as Hd; [|apply Hu]. intros _. subst x. by apply Hu in Htt.
Qed.

(** A result is received for the job a worker is processing. *)
Lemma DInv_accept d busy w j wi r :
  let s' := released (scheduler d) w j wi (w :: idleWorkers (scheduler d)) (maybeErroredJobs (scheduler d)) in
  DInv d ((w, j) :: busy) -> Inv s' busy -> response_jobId r = j ->
  DInv (set_scheduler (log_received d r) s') busy.
Proof.
  intros s' H HI <-. set (j := response_jobId r) in *.
  assert (j ∈ wipJobs (scheduler d)) as Hjw by (apply (inv_wip _ _ (di_inv _ _ H)); by left).
  assert (answered (set_scheduler (log_received d r) s') = answered d ++ [j]) as Ea.
  { unfold answered. cbn. by rewrite map_app. }
  split; rewrite ?Ea; cbn; try (by apply H); try done.
  - apply NoDup_app. split_and!; [apply H| |apply NoDup_singleton].
    intros x Hx ->%list_elem_of_singleton. by apply (di_answered _ _ H) in Hx as [? _].
  - intros x [Hx| ->%list_elem_of_singleton]%elem_of_app.
    + destruct (di_answered _ _ H x Hx) as (? & ? & ?). rewrite elem_of_difference. tauto.
    + rewrite elem_of_difference elem_of_singleton. split_and!; [tauto| |].
      * intros Hx. by apply (inv_errored _ _ (di_inv _ _ H)) in Hx as [? _].
      * by apply (Inv_wip_assigned _ _ _ (di_inv _ _ H)).
  - intros x t w' Ht Has. destruct (di_fate _ _ H x t w' Ht Has) as (Hs & Hf). split; [done|].
    rewrite elem_of_app list_elem_of_singleton elem_of_difference elem_of_singleton.
    destruct (decide (x = j)); tauto.
Qed.

(** A result is received for a job that was given up. *)
Lemma DInv_late d busy r :
  let j := response_jobId r in
  let s' := set_errored (scheduler d) (maybeErroredJobs (scheduler d) ∖ {[j]}) in
  DInv d busy -> Inv s' busy -> j ∈ maybeErroredJobs (scheduler d) ->
  DInv (set_scheduler (log_received d r) s') busy.
Proof.
  intros j s' H HI Hj.
  assert (answered (set_scheduler (log_received d r) s') = answered d ++ [j]) as Ea.
  { unfold answered. cbn. by rewrite map_app. }
  split; rewrite ?Ea; cbn; try (by apply H); try done.
  - apply NoDup_app. split_and!; [apply H| |apply NoDup_singleton].
    intros x Hx ->%list_elem_of_singleton. by apply (di_answered _ _ H) in Hx as (_ & ? & _).
  - destruct (inv_errored _ _ (di_inv _ _ H) j Hj) as [Hjw Hja].
    intros x [Hx| ->%list_elem_of_singleton]%elem_of_app; rewrite elem_of_difference elem_of_singleton; [|tauto].
    destruct (di_answered _ _ H x Hx) as (? & ? & ?). tauto.
  - intros x t w' Ht Has. destruct (di_fate _ _ H x t w' Ht Has) as (Hs & Hf). split; [done|].
    rewrite elem_of_app list_elem_of_singleton elem_of_difference elem_of_singleton.
    destruct (decide (x = j)); tauto.
Qed.

(** Late workers are killed. *)
Lemma DInv_terminated before l d busy s' busy' :
  DInv d busy -> terminated before l (scheduler d) busy s' busy' -> DInv (set_scheduler d s') busy'.
Proof.
  intros H T. pose proof (tm_inv _ _ _ _ _ _ T) as HI.
  assert (forall x, x ∈ wipJobs s' <-> x ∈ busy'.*2) as Hwip' by apply HI.
  assert (forall x, x ∈ wipJobs s' -> x ∈ wipJobs (scheduler d)) as Hwip.
  { intros x. rewrite Hwip' (inv_wip _ _ (di_inv _ _ H)). intros ([w j] & -> & Hin)%list_elem_of_fmap.
    apply (tm_busy _ _ _ _ _ _ T) in Hin as [Hin _]. apply list_elem_of_fmap. by exists (w, j). }
  assert (forall x, x ∈ maybeErroredJobs s' -> x ∈ maybeErroredJobs (scheduler d) \/ x ∈ wipJobs (scheduler d)) as Herr.
  { intros x [?|(w & _ & Hin & _)]%(tm_errored _ _ _ _ _ _ T); [by left|right].
    apply (inv_wip _ _ (di_inv _ _ H)), list_elem_of_fmap. by exists (w, x). }
  split; cbn; try (by apply H); rewrite ?(tm_jobs _ _ _ _ _ _ T); try (by apply H); try done.
  - intros x Hx. destruct (di_answered _ _ H x Hx) as (H1 & H2 & H3). split_and!; [by intros ?%Hwip| |done].
    intros [?|?]%Herr; done.
  - intros x t w Ht Has. destruct (di_fate _ _ H x t w Ht Has) as (Hs & Hf). split; [done|].
    destruct Hf as [?|[Hx|Hx]]; [by left| |right; right; apply (tm_errored _ _ _ _ _ _ T); by left].
    right. apply (inv_wip _ _ (di_inv _ _ H)), list_elem_of_fmap in Hx as ([w' j] & -> & Hin).
    destruct (decide ((w', j) ∈ busy')) as [Hb|Hb].
    + left. apply Hwip', list_elem_of_fmap. by exists (w', j).
    + right. apply (tm_errored _ _ _ _ _ _ T). right. exists w'.
      destruct (decide (w' ∈ l)) as [Hl|Hl].
      * split_and!; [done..|]. destruct (late_dec before (scheduler d) w') as [?|Hn]; [done|].
        destruct Hb. apply (tm_busy _ _ _ _ _ _ T). tauto.
      * destruct Hb. apply (tm_busy _ _ _ _ _ _ T). tauto.
Qed.

(** *** The operations of the driver *)
Definition sends_ok (env : Round Process) : Prop := forall w req, sendOk env w req = true.

(** What no operation of an iteration touches, and how it moves jobs. *)
Definition same_frame d d' : Prop :=
  options d' = options d /\ length (workers (scheduler d')) = length (workers (scheduler d))
  /\ evolves (scheduler d) (scheduler d').

Lemma same_frame_trans d1 d2 d3 : same_frame d1 d2 -> same_frame d2 d3 -> same_frame d1 d3.
Proof.
  intros (? & ? & ?) (? & ? & ?). split_and!; [congruence..|]. by transitivity (scheduler d2).
Qed.

Lemma same_frame_refl d : same_frame d d.
Proof. done. Qed.

Lemma DInv_unassigned d busy : DInv d busy -> busy = [] <-> wipJobs (scheduler d) = ∅.
Proof.
  intros H. split.
  - intros ->. apply set_eq. intros x. rewrite (inv_wip _ _ (di_inv _ _ H)). cbn.
    rewrite elem_of_nil. split; [done|by intros []%not_elem_of_empty].
  - intros E. destruct busy as [|[w j] busy]; [done|]. exfalso. apply (not_elem_of_empty (C:=gset JobId) j).
    rewrite -E. apply (inv_wip _ _ (di_inv _ _ H)). by left.
Qed.

Lemma queue_all_ok cs : forall d busy (used : gset JobId),
  DInv d busy -> NoDup (map task_of cs) -> (forall c, c ∈ cs -> task_of c ∉ used) ->
  (forall j t, allJobList (scheduler d) !! j = Some t -> newTask (taskId j) ∈ used) ->
  exists s, foldM queueSemaTask (scheduler d) cs = Ok s /\ Inv s busy
    /\ pendingJobs s = pendingJobs (scheduler d) ++ map task_of cs
    /\ workers s = workers (scheduler d) /\ idleWorkers s = idleWorkers (scheduler d)
    /\ stoppedWorkers s = stoppedWorkers (scheduler d) /\ wipJobs s = wipJobs (scheduler d)
    /\ maybeErroredJobs s = maybeErroredJobs (scheduler d)
    /\ (forall j t, allJobList (scheduler d) !! j = Some t -> allJobList s !! j = Some t)
    /\ (forall j t, allJobList s !! j = Some t -> allJobList (scheduler d) !! j = Some t
         \/ (j ∈ map task_of cs /\ assignedWorker t = None)).
Proof.
  intros d busy used H. apply di_inv in H. revert H. generalize (scheduler d). clear d.
  revert used. induction cs as [|c cs IH]; intros used s H Hnd Hnew Hu; cbn [foldM map].
  { exists s. rewrite app_nil_r. split_and!; try done. by left. }
  cbn in Hnd. apply NoDup_cons in Hnd as [Hc Hnd].
  assert (allJobList s !! task_of c = None) as Hnone.
  { destruct (allJobList s !! task_of c) as [t|] eqn:E; [|done]. apply Hu in E. by destruct (Hnew c); [left|]. }
  destruct (queueSemaTask_ok s busy c H Hnone) as (s1 & -> & H1 & Hp1 & Hj1 & E1 & E2 & E3 & E4 & E5).
  rewrite bind_Ok. destruct (IH (used ∪ {[task_of c]}) s1 H1 Hnd)
    as (s2 & -> & H2 & Hp2 & F1 & F2 & F3 & F4 & F5 & Hin & Hout).
  { intros c' Hc'. rewrite elem_of_union elem_of_singleton. intros [Hin|E]; [by apply (Hnew c'); [right|]|].
    apply Hc. rewrite -E. apply list_elem_of_fmap. by exists c'. }
  { intros j t. rewrite Hj1 lookup_insert elem_of_union elem_of_singleton. case_decide as Hd.
    - intros _. right. by subst j.
    - intros Ht. left. by eapply Hu. }
  exists s2. split_and!; try congruence; try done.
  - by rewrite Hp2 Hp1 -app_assoc.
  - intros j t Ht. apply Hin. rewrite Hj1 lookup_insert_ne //. intros <-. unfold task_of in Hnone. congruence.
  - intros j t Ht. destruct (Hout j t Ht) as [Ht'|[? ?]]; [|right; split; [by right|done]].
    rewrite Hj1 lookup_insert in Ht'. case_decide as Hd; [|by left]. right. injection Ht' as <-.
    subst j. split; [by left|done].
Qed.

Lemma refillJobs_ok d busy :
  DInv d busy ->
  exists d' n, refillJobs d = Ok (d', n) /\ DInv d' busy
    /\ length (pendingJobs (scheduler d')) = (length (pendingJobs (scheduler d)) + n)%nat
    /\ (work_left d' busy <= work_left d busy)%nat
    /\ (n = 0%nat -> source_size (compdbParser d') = 0%nat)
    /\ same_frame d d' /\ idleWorkers (scheduler d') = idleWorkers (scheduler d)
    /\ stoppedWorkers (scheduler d') = stoppedWorkers (scheduler d)
    /\ (n <= source_size (compdbParser d))%nat.
Proof.
  intros H. destruct (di_source _ _ H) as (used & Hs & Hu).
  destruct (parse_more_ok _ _ Hs) as (p' & cs & Hp & Hnd & Hnew & Hs' & Hsize & Hend).
  destruct (queue_all_ok cs d busy used H Hnd Hnew Hu)
    as (s & Hq & HI & Hpend & F1 & F2 & F3 & F4 & F5 & Hin & Hout).
  unfold refillJobs. rewrite Hp bind_Ok Hq bind_Ok. do 2 eexists. split; [done|].
  assert (length (pendingJobs s) = (length (pendingJobs (scheduler d)) + length cs)%nat) as Hl.
  { by rewrite Hpend length_app length_map. }
  split_and!; cbn; try done; [|unfold work_left; cbn; lia|by intros ->%nil_length_inv; apply Hend| |lia].
  2: { split_and!; cbn; [done|by rewrite F1|]. intros x. destruct (allJobList (scheduler d) !! x) as [t|] eqn:Ex.
    - rewrite (phase_same (scheduler d) s); [by rewrite Ex; apply Hin| |by rewrite F4|by rewrite F5|done].
      rewrite Hpend elem_of_app. split; [|tauto]. intros [?|Hx]; [done|]. exfalso.
      apply list_elem_of_fmap in Hx as (c & -> & Hc). apply (Hnew c Hc). by apply Hu in Ex.
    - unfold phase at 1. rewrite Ex. destruct (allJobList s !! x) as [t|] eqn:Ex'; [|by unfold phase; rewrite Ex'].
      destruct (Hout x t Ex') as [?|[Hx _]]; [congruence|].
      rewrite (phase_pending s busy x HI); [rewrite Hpend elem_of_app; by right|]. apply rtc_once. constructor. }
  split; cbn; try (by apply H); rewrite ?F4 ?F5; try done.
  - intros j Hj. destruct (di_answered _ _ H j Hj) as (? & ? & t & w & Ht & Has). split_and!; [done..|].
    exists t, w. split; [by apply Hin|done].
  - intros w req Hreq Hne. destruct (di_sent _ _ H w req Hreq Hne) as (t & Ht & ?). exists t.
    split; [by apply Hin|done].
  - intros j t w Ht Has. destruct (Hout j t Ht) as [Ht'|[_ ?]]; [|congruence]. by apply (di_fate _ _ H j t w).
  - eexists. split; [exact Hs'|]. intros j t Ht. rewrite elem_of_union elem_of_list_to_set.
    destruct (Hout j t Ht) as [Ht'|[Hj _]]; [left; by eapply Hu|right].
    apply list_elem_of_fmap in Hj as (c & -> & Hc). apply list_elem_of_fmap. by exists c.
Qed.

(** *** Assigning *)
Lemma weight_pending (s : Scheduler Process) busy j : Inv s busy -> j ∈ pendingJobs s -> weight j = 2%nat /\ newTask (taskId j) = j.
Proof.
  intros H (t & Ht & _ & Hk)%(inv_pending _ _ H). pose proof (inv_jobs _ _ H j t Ht) as Hwf.
  unfold job_wf in Hwf. rewrite Hk in Hwf. unfold weight. rewrite Hwf. split; [done|]. destruct j. by cbn in *; subst.
Qed.

(** What a worker sees of the driver: its record changes when something is sent to it. *)
Record handed d d' (w : nat) (req : IndexJobRequest) (st : Status) (j : option JobId) : Prop := {
  hd_idle : worker_is (scheduler d) w Idle None;
  hd_record : worker_is (scheduler d') w st j;
  hd_others w' : w' <> w -> workers (scheduler d') !! w' = workers (scheduler d) !! w';
  hd_sent : sent d' = sent d ++ [(w, req)];
  hd_answered : answered d' = answered d
}.
Inductive hands d d' : Prop :=
| hands_job w req : handed d d' w req Busy (Some (request_id req)) -> request_id req <> Shutdown ->
    job_kind (request_job req) = SemanticAnalysis ->
    (forall m, m ∈ sent d -> request_id m.2 <> request_id req) -> hands d d'
| hands_shutdown w : handed d d' w shutdown_request Stopped None -> hands d d'.

Lemma job_id_not_shutdown d busy j t : DInv d busy -> allJobList (scheduler d) !! j = Some t -> j <> Shutdown.
Proof.
  intros H Ht ->. pose proof (inv_jobs _ _ (di_inv _ _ H) _ t Ht) as Hwf. unfold job_wf in Hwf.
  destruct (job_kind (job t)); [discriminate Hwf|by destruct Hwf as [Hwf _]].
Qed.

Lemma assign_loop_ok env fuel : forall d busy,
  DInv d busy -> sends_ok env -> (length (pendingJobs (scheduler d)) <= fuel)%nat ->
  exists d' busy', assign_loop env fuel d = Ok d' /\ DInv d' busy'
    /\ work_left d' busy' = work_left d busy /\ same_frame d d'
    /\ stoppedWorkers (scheduler d') = stoppedWorkers (scheduler d)
    /\ compdbParser d' = compdbParser d
    /\ (busy <> [] \/ (idleWorkers (scheduler d) <> [] /\ pendingJobs (scheduler d) <> []) -> busy' <> [])
    /\ rtc hands d d'.
Proof.
  assert (forall d busy (Q : Prop), DInv d busy -> ~ Q ->
    exists d' busy', Ok d = Ok d' /\ DInv d' busy'
    /\ work_left d' busy' = work_left d busy /\ same_frame d d'
    /\ stoppedWorkers (scheduler d') = stoppedWorkers (scheduler d)
    /\ compdbParser d' = compdbParser d
    /\ (busy <> [] \/ Q -> busy' <> []) /\ rtc hands d d') as Hdone.
  { intros d busy Q H Hor. exists d, busy. split_and!; try done. tauto. }
  induction fuel as [|fuel IH]; intros d busy H Hsend Hfuel; cbn [assign_loop];
    (destruct (idleWorkers (scheduler d)) as [|w idle] eqn:Hidle; [by apply Hdone; [|intros [? _]]|]);
    (destruct (pendingJobs (scheduler d)) as [|j p] eqn:Hpend; [by apply Hdone; [|intros [_ ?]]|]);
    [cbn in Hfuel; lia|].
  destruct (schedule_pending_ok _ busy w idle j p (clock env j) (di_inv _ _ H) Hidle Hpend)
    as (wi & t & Hw & Ht & Hk & Has & Hjw & HI & Hsched).
  cbn [set_pending wipJobs]. rewrite bool_decide_eq_false_2 //. cbn [negb]. rewrite ENFORCE_true bind_Ok.
  unfold claimIdleWorker. cbn [set_wip set_pending idleWorkers]. rewrite Hidle ENFORCE_not // !bind_Ok.
  unfold tryAssignJobToWorker. cbn [set_scheduler scheduler].
  unfold getValueNonConsuming. cbn [ConsumeOnce_new movedOut consumed value negb]. rewrite !ENFORCE_true !bind_Ok.
  change (mkConsumeOnce w false false) with (ConsumeOnce_new w). rewrite Hsched bind_Ok Hsend !bind_Ok.
  destruct (weight_pending _ busy j (di_inv _ _ H)) as [Hwt Hnt]; [rewrite Hpend; by left|].
  pose proof (DInv_start d busy w wi j (job t) (clock env j) idle p H HI) as H1.
  cbn [log_sent scheduler set_scheduler]. rewrite (checkInvariants_ok _ _ HI) bind_Ok.
  unfold ConsumeOnce_destroy. cbn [movedOut consumed]. rewrite ENFORCE_true bind_Ok.
  destruct (IH (log_sent (set_scheduler d (started (scheduler d) w wi j (job t) (clock env j) idle p)) w
    (mkIndexJobRequest j (job t))) ((w, j) :: busy)) as (d' & busy' & Hok & H' & Hwork & Hframe & Hstop & Hparse & Hne & Hrtc).
  { apply H1; [rewrite Ht; by intros ? [= <-]|rewrite Hnt Ht; by eexists]. }
  { done. } { cbn in Hfuel |- *. lia. }
  exists d', busy'. split_and!; [exact Hok|done| | |done|done|by intros _; apply Hne; left|].
  3: { eapply rtc_l; [|exact Hrtc]. apply hands_job with (w := w) (req := mkIndexJobRequest j (job t)); [|exact (job_id_not_shutdown d busy j t H Ht)|done|].
    2: { intros [w' req'] Hin E. cbn in E. pose proof (job_id_not_shutdown d busy j t H Ht) as Hns. rewrite -E in Hns.
      destruct (di_sent _ _ H w' req' Hin Hns) as (t' & Ht' & _ & Has'). rewrite E in Ht'. congruence. }
    split; cbn; try done.
    - apply (inv_idle _ _ (di_inv _ _ H)). rewrite Hidle. by left.
    - exists (mkWorkerInfo Busy (processHandle wi) (clock env j) (Some j)). split_and!; [|done|done]. cbn.
      apply list_lookup_insert_eq. by eapply lookup_lt_Some.
    - intros w' Hne'. by rewrite list_lookup_insert_ne. }
  2: { eapply same_frame_trans; [|exact Hframe]. split_and!; [done|cbn; by rewrite length_insert|]. cbn.
    apply (evolves_started _ busy); [apply H|done|right; rewrite Hpend; by left|].
    intros x Hx. rewrite Hpend elem_of_cons. tauto. }
  rewrite Hwork. unfold work_left. cbn [log_sent set_scheduler scheduler compdbParser started pendingJobs].
  rewrite fmap_cons weights_cons Hpend. cbn [snd length]. rewrite Hwt. lia.
Qed.

(** *** Stopping idle workers *)
Lemma DInv_stop d busy s w :
  DInv d busy -> Inv s busy -> allJobList s = allJobList (scheduler d) ->
  wipJobs s = wipJobs (scheduler d) -> maybeErroredJobs s = maybeErroredJobs (scheduler d) ->
  DInv (log_sent (set_scheduler d s) w shutdown_request) busy.
Proof.
  intros H HI Ej Ew Ee. split; cbn; rewrite ?Ej ?Ew ?Ee; try done; try (by apply H).
  - intros w' req [Hin| [= -> ->]%list_elem_of_singleton]%elem_of_app Hne; [by apply (di_sent _ _ H)|done].
  - intros j t w' Ht Has. destruct (di_fate _ _ H j t w' Ht Has) as ((req & Hin & Hid) & Hf). split; [|done].
    exists req. split; [|done]. apply elem_of_app. by left.
Qed.

Lemma shutdown_loop_ok env fuel : forall d busy,
  DInv d busy -> sends_ok env -> (length (idleWorkers (scheduler d)) <= fuel)%nat ->
  exists d', shutdown_loop env fuel d = Ok d' /\ DInv d' busy /\ idleWorkers (scheduler d') = []
    /\ (length (stoppedWorkers (scheduler d')) =
        length (stoppedWorkers (scheduler d)) + length (idleWorkers (scheduler d)))%nat
    /\ pendingJobs (scheduler d') = pendingJobs (scheduler d) /\ same_frame d d'
    /\ compdbParser d' = compdbParser d /\ allJobList (scheduler d') = allJobList (scheduler d)
    /\ maybeErroredJobs (scheduler d') = maybeErroredJobs (scheduler d)
    /\ shardPaths_ d' = shardPaths_ d /\ workerToDriver (queues d') = workerToDriver (queues d)
    /\ indexedSoFar d' = indexedSoFar d /\ rtc hands d d'.
Proof.
  induction fuel as [|fuel IH]; intros d busy H Hsend Hfuel; cbn [shutdown_loop].
  { apply Nat.le_0_r, nil_length_inv in Hfuel. rewrite Hfuel. cbn. exists d. rewrite Hfuel.
    split_and!; try done. }
  destruct (last (idleWorkers (scheduler d))) as [w|] eqn:Hlast.
  2: { apply last_None in Hlast. rewrite Hlast. exists d. split_and!; try done. }
  apply last_Some in Hlast as [l Hl]. rewrite Hl removelast_last.
  destruct (markWorkerStopped_ok _ busy w l (di_inv _ _ H) Hl) as
    (s & -> & HI & Hi & Hst & Ej & Ep & Ew & Ee & Elen & Eo).
  rewrite bind_Ok. unfold shutdownWorker. rewrite Hsend ENFORCE_true !bind_Ok.
  destruct (IH (log_sent (set_scheduler d s) w shutdown_request) busy) as
    (d' & -> & H' & Hi' & Hst' & Hp' & Hf' & Hc' & Hj' & He' & Hs' & Hr' & Hx' & Hrtc).
  { by apply DInv_stop. } { done. } { cbn. rewrite Hl length_app in Hfuel. rewrite Hi. cbn in Hfuel. lia. }
  exists d'. cbn in Hst', Hp', Hf', Hc', Hj', He', Hs', Hr', Hx'. split_and!; try done; try congruence.
  - rewrite Hst' Hi Hst !length_app. cbn. lia.
  - eapply same_frame_trans; [|exact Hf']. split_and!; [done|done|]. cbn. intros x.
    rewrite (phase_same (scheduler d) s); by rewrite ?Ej ?Ep ?Ew ?Ee.
  - eapply rtc_l; [|exact Hrtc]. apply hands_shutdown with (w := w). split; cbn; try done.
    + apply (inv_idle _ _ (di_inv _ _ H)). rewrite Hl elem_of_app list_elem_of_singleton. by right.
    + apply (inv_stopped _ _ HI). rewrite Hst elem_of_app list_elem_of_singleton. by right.
Qed.

Lemma shutdownIdleWorkers_ok env d busy :
  DInv d busy -> sends_ok env ->
  exists d', shutdownIdleWorkers env d = Ok d' /\ DInv d' busy /\ idleWorkers (scheduler d') = []
    /\ (length (stoppedWorkers (scheduler d')) =
        length (stoppedWorkers (scheduler d)) + length (idleWorkers (scheduler d)))%nat
    /\ pendingJobs (scheduler d') = pendingJobs (scheduler d) /\ same_frame d d'
    /\ compdbParser d' = compdbParser d /\ allJobList (scheduler d') = allJobList (scheduler d)
    /\ maybeErroredJobs (scheduler d') = maybeErroredJobs (scheduler d)
    /\ shardPaths_ d' = shardPaths_ d /\ workerToDriver (queues d') = workerToDriver (queues d)
    /\ indexedSoFar d' = indexedSoFar d /\ rtc hands d d'.
Proof. intros H Hs. by apply shutdown_loop_ok. Qed.

(** *** Results

    What a worker may send: an answer to a request it was sent, of the kind of
    the request, once. *)
Definition legal d (r : IndexJobResponse) : Prop :=
  exists w req, response_workerId r = Z.of_nat w /\ (w, req) ∈ sent d
    /\ request_id req = response_jobId r /\ request_id req <> Shutdown
    /\ job_kind (request_job req) = result_kind (response_result r)
    /\ response_jobId r ∉ answered d
    /\ SemaResult_wf (result_semanticAnalysis (response_result r)).

Lemma getTuPath_ok (s : Scheduler Process) busy i :
  Inv s busy -> is_Some (allJobList s !! newTask i) -> exists p, getTuPath s (newTask i) = Ok p.
Proof.
  intros H [t Ht]. pose proof (inv_jobs _ _ H _ t Ht) as Hwf. unfold getTuPath. rewrite Ht ENFORCE_decide.
  - unfold job_wf in Hwf. destruct (job_kind (job t)); [done|]. by destruct Hwf as [[=] _].
  - rewrite bind_Ok. by eexists.
Qed.

(** The second jobs of tasks, and the shards that came of them. *)
Definition emit_jobs (s : Scheduler Process) : gset JobId := filter (fun j => subtaskId j <> 0) (dom (allJobList s)).
Definition counted d : nat := (size (emit_jobs (scheduler d)) + length (shardPaths_ d))%nat.

(** What a worker sees of a result: one that arrives in time is followed by the request
    for the index, or the worker gets idle; any other changes nothing for the workers. *)
Definition settles d r d' : Prop :=
  answered d' = answered d ++ [response_jobId r]
  /\ counted d' = (if bool_decide (response_jobId r ∈ wipJobs (scheduler d)) then S (counted d) else counted d)
  /\ if bool_decide (response_jobId r ∈ wipJobs (scheduler d)) then
       exists w, response_workerId r = Z.of_nat w
         /\ worker_is (scheduler d) w Busy (Some (response_jobId r))
         /\ (forall w', w' <> w -> workers (scheduler d') !! w' = workers (scheduler d) !! w')
         /\ match result_kind (response_result r) with
            | SemanticAnalysis => exists req, sent d' = sent d ++ [(w, req)]
                /\ job_kind (request_job req) = EmitIndex /\ request_id req <> Shutdown
                /\ (forall m, m ∈ sent d -> request_id m.2 <> request_id req)
                /\ worker_is (scheduler d') w Busy (Some (request_id req))
            | EmitIndex => sent d' = sent d /\ worker_is (scheduler d') w Idle None
            end
     else sent d' = sent d /\ workers (scheduler d') = workers (scheduler d).

(** A result that arrives in time makes progress; any other only clears the
    mark of a job given up. *)
Definition response_effect env d r d' busy busy' : Prop :=
  DInv d' busy' /\ same_frame d d' /\ stoppedWorkers (scheduler d') = stoppedWorkers (scheduler d)
  /\ pendingJobs (scheduler d') = pendingJobs (scheduler d) /\ compdbParser d' = compdbParser d
  /\ processWorkerResponse env (log_received d r) r = Ok d'
  /\ settles d r d'
  /\ if bool_decide (response_jobId r ∈ wipJobs (scheduler d))
     then S (work_left d' busy') = work_left d busy
     else busy' = busy.

Lemma counted_emit d d' j t :
  subtaskId j <> 0 -> allJobList (scheduler d) !! j = None ->
  allJobList (scheduler d') = <[j := t]> (allJobList (scheduler d)) -> shardPaths_ d' = shardPaths_ d ->
  counted d' = S (counted d).
Proof.
  intros Hj Hn E Es. unfold counted, emit_jobs. rewrite Es E dom_insert_L filter_union_L filter_singleton_L decide_True //.
  rewrite size_union; [|by rewrite size_singleton].
  apply disjoint_singleton_l. rewrite elem_of_filter elem_of_dom Hn. by intros [_ [? ?]].
Qed.

Lemma emit_response_ok env d busy w r t :
  DInv d ((w, response_jobId r) :: busy) -> response_workerId r = Z.of_nat w ->
  allJobList (scheduler d) !! response_jobId r = Some t ->
  result_kind (response_result r) = EmitIndex -> job_kind (job t) = EmitIndex ->
  exists d', response_effect env d r d' ((w, response_jobId r) :: busy) busy.
Proof.
  intros H Hw Ht Hkr Hkt. set (j := response_jobId r) in *.
  destruct (markCompleted_current _ busy w j t (di_inv _ _ H) Ht) as (wi & Hwi & Hmc & HI).
  rewrite Hkt in Hmc.
  pose proof (inv_jobs _ _ (di_inv _ _ H) j t Ht) as Hwf. unfold job_wf in Hwf. rewrite Hkt in Hwf.
  destruct Hwf as (Hsub & _ & _ & Htask).
  assert (j ∈ wipJobs (scheduler d)) as Hjw by (apply (inv_wip _ _ (di_inv _ _ H)); by left).
  pose proof (DInv_accept d busy w j _ r H HI eq_refl) as H1.
  set (s' := released _ _ _ _ _ _) in *.
  set (stats := if bool_decide (asStringRef (statsFilePath (options d)) = []) then allStatistics d
                else allStatistics d ++ [(j, statistics (result_emitIndex (response_result r)))]).
  exists (set_results (set_scheduler (log_received d r) s') stats
    (shardPaths_ d ++ [shardPaths (result_emitIndex (response_result r))]) (wrap32 (indexedSoFar d + 1))).
  unfold response_effect. split_and!; try done.
  - split; cbn; try (by apply H1). rewrite (di_indexed _ _ H) length_app Nat2Z.inj_add. apply Zplus_mod_idemp_l.
  - split_and!; [done|cbn; by rewrite length_insert|]. cbn. by apply (evolves_released _ busy); [apply H|..].
  - unfold processWorkerResponse. cbn [log_received scheduler]. rewrite Hkr Hw Nat2Z.id Hmc bind_Ok.
    cbn [options set_scheduler set_results scheduler]. change (options (log_received d r)) with (options d).
    destruct (showProgress (options d)); [|done].
    destruct (getTuPath_ok s' busy (taskId j) HI Htask) as [p Hp]. by rewrite Hp.
  - split; [by unfold answered; cbn; rewrite map_app|]. rewrite bool_decide_eq_true_2 // Hkr.
    split.
    { unfold counted. cbn [set_results shardPaths_ scheduler set_scheduler]. rewrite length_app. cbn [length].
      change (emit_jobs s') with (emit_jobs (scheduler d)). lia. }
    exists w. split_and!; [done|apply (inv_busy _ _ (di_inv _ _ H)); by left| |done|].
    + intros w' Hne. cbn. by rewrite list_lookup_insert_ne.
    + apply (inv_idle _ _ HI). by left.
  - rewrite bool_decide_eq_true_2 //. unfold work_left. cbn [set_results set_scheduler scheduler compdbParser log_received
      s' released pendingJobs]. rewrite fmap_cons weights_cons. cbn [snd]. unfold weight at 1. rewrite Hsub. cbn. lia.
Qed.

Lemma DInv_planner d busy pl : DInv d busy -> DInv (set_planner d pl) busy.
Proof. intros []. by split. Qed.

(** The scheduler's part of a semantic analysis that was finished in time. *)
Lemma sema_prefix (env : Round Process) d busy w r t :
  let j := response_jobId r in let i := taskId j in
  DInv d ((w, j) :: busy) -> allJobList (scheduler d) !! j = Some t ->
  job_kind (job t) = SemanticAnalysis -> SemaResult_wf (result_semanticAnalysis (response_result r)) ->
  exists s1 files pl wi,
    markCompleted (scheduler d) w j SemanticAnalysis = Ok (s1, Some w)
    /\ saveSemaResult (planner d) (result_semanticAnalysis (response_result r)) [] = Ok (pl, files)
    /\ let jb := mkIndexJob EmitIndex SemanticAnalysisJobDetails_default (mkEmitIndexJobDetails files) in
       let s2 := started s1 w wi (mkJobId i 1) jb (clock env (nextSubtask j)) (idleWorkers (scheduler d))
                   (pendingJobs (scheduler d)) in
       createSubtaskAndScheduleOnWorker s1 w j jb (clock env (nextSubtask j)) = Ok (s2, mkIndexJobRequest (mkJobId i 1) jb)
       /\ Inv s2 ((w, mkJobId i 1) :: busy)
       /\ (exists wi0, workers (scheduler d) !! w = Some wi0
           /\ s1 = released (scheduler d) w j (mkWorkerInfo Idle (processHandle wi0) (startTime wi0) None)
                     (w :: idleWorkers (scheduler d)) (maybeErroredJobs (scheduler d))
           /\ Inv s1 busy /\ allJobList s1 !! mkJobId i 1 = None /\ j = newTask i).
Proof.
  intros j i H Ht Hkt Hres.
  destruct (markCompleted_current _ busy w j t (di_inv _ _ H) Ht) as (wi & Hwi & Hmc & HI).
  rewrite Hkt in Hmc. pose proof (inv_jobs _ _ (di_inv _ _ H) j t Ht) as Hwf. unfold job_wf in Hwf. rewrite Hkt in Hwf.
  assert (j ∈ wipJobs (scheduler d)) as Hjw by (apply (inv_wip _ _ (di_inv _ _ H)); by left).
  set (s1 := released _ _ _ _ _ _) in *.
  assert (j = newTask i) as Ei by (unfold i; clearbody j; destruct j; cbn in *; by subst).
  destruct (saveSemaResult_offered (planner d) (result_semanticAnalysis (response_result r)) [] Hres)
    as (pl & files & Hsave & _ & _).
  set (jb := mkIndexJob EmitIndex SemanticAnalysisJobDetails_default (mkEmitIndexJobDetails files)).
  assert (allJobList s1 !! mkJobId i 1 = None) as Hnew.
  { destruct (allJobList s1 !! mkJobId i 1) as [t1|] eqn:E; [|done].
    pose proof (inv_jobs _ _ (di_inv _ _ H) _ t1 E) as Hwf1. unfold job_wf in Hwf1. cbn in Hwf1.
    destruct (job_kind (job t1)); [done|]. destruct Hwf1 as (_ & _ & Hn & _). by rewrite -Ei in Hn. }
  destruct (createSubtask_ok s1 busy w (idleWorkers (scheduler d)) i jb (clock env (nextSubtask j)) HI)
    as (wi' & Hwi' & Hcreate & HI2); try done.
  { cbn. rewrite -Ei. by eexists. }
  { cbn. rewrite -Ei. intros (t' & Ht' & Has' & _)%(inv_pending _ _ (di_inv _ _ H)).
    destruct (Inv_wip_assigned _ _ _ (di_inv _ _ H) Hjw) as (t2 & w2 & ? & ?). congruence. }
  { cbn. rewrite -Ei elem_of_difference elem_of_singleton. tauto. }
  rewrite -Ei in Hcreate. exists s1, files, pl, wi'. split_and!; [done..|]. split_and!; [done..|]. by exists wi.
Qed.

Lemma sema_response_ok env d busy w r t :
  DInv d ((w, response_jobId r) :: busy) -> response_workerId r = Z.of_nat w -> sends_ok env ->
  allJobList (scheduler d) !! response_jobId r = Some t ->
  result_kind (response_result r) = SemanticAnalysis -> job_kind (job t) = SemanticAnalysis ->
  SemaResult_wf (result_semanticAnalysis (response_result r)) ->
  exists d' busy', response_effect env d r d' ((w, response_jobId r) :: busy) busy'.
Proof.
  intros H Hw Hsend Ht Hkr Hkt Hres.
  destruct (sema_prefix env d busy w r t H Ht Hkt Hres) as
    (s1 & files & pl & wi & Hmc & Hsave & Hcreate & HI2 & wi0 & Hwi0 & Hs1 & HI & Hnew & Ei).
  set (i := taskId (response_jobId r)) in *. set (jb := mkIndexJob EmitIndex _ _) in *.
  assert (response_jobId r ∈ wipJobs (scheduler d)) as Hjw by (apply (inv_wip _ _ (di_inv _ _ H)); by left).
  rewrite Hs1 in HI HI2. pose proof (DInv_accept d busy w _ _ r H HI eq_refl) as H1.
  pose proof (DInv_start (set_planner (set_scheduler (log_received d r) _) pl) busy w wi (mkJobId i 1) jb
    (clock env (nextSubtask (response_jobId r))) (idleWorkers (scheduler d)) (pendingJobs (scheduler d))
    (DInv_planner _ _ _ H1) HI2) as H2.
  eexists _, ((w, mkJobId i 1) :: busy). unfold response_effect. split; [apply H2|].
  { rewrite Hs1 in Hnew. cbn in Hnew |- *. intros t'. by rewrite Hnew. } { cbn. rewrite -Ei. by eexists. }
  split_and!; try done.
  - split_and!; [done|cbn; by rewrite !length_insert|]. cbn. etransitivity.
    + apply (evolves_released _ busy w (response_jobId r)); [apply H|exact HI|done].
    + rewrite Hs1 in Hnew. apply (evolves_started _ busy); [done|done|by left|done].
  - unfold processWorkerResponse. cbn [log_received scheduler]. rewrite Hkr Hw Nat2Z.id Hmc bind_Ok.
    cbn [set_scheduler planner]. rewrite Hsave bind_Ok. cbn [set_planner scheduler]. fold jb.
    rewrite Hcreate bind_Ok Hsend. by subst s1.
  - split; [by unfold answered; cbn; rewrite map_app|]. rewrite bool_decide_eq_true_2 // Hkr.
    split; [rewrite Hs1 in Hnew; by eapply (counted_emit _ _ (mkJobId i 1))|].
    exists w. split_and!; [done|apply (inv_busy _ _ (di_inv _ _ H)); by left| |].
    + intros w' Hne. cbn. by rewrite !list_lookup_insert_ne.
    + exists (mkIndexJobRequest (mkJobId i 1) jb). split_and!; [done|done| | |apply (inv_busy _ _ HI2); by left].
      * discriminate.
      * intros [w' req'] Hin E. cbn in E. destruct (di_sent _ _ H w' req' Hin) as (t' & Ht' & _); [by rewrite E|].
        rewrite E in Ht'. rewrite Hs1 in Hnew. cbn in Hnew. congruence.
  - rewrite bool_decide_eq_true_2 //. unfold work_left.
    cbn [log_sent set_planner set_scheduler scheduler compdbParser log_received started pendingJobs released].
    rewrite !fmap_cons !weights_cons. cbn [snd]. rewrite Ei. cbn. lia.
Qed.

Lemma late_response_ok env d busy w r t :
  DInv d busy -> response_workerId r = Z.of_nat w ->
  allJobList (scheduler d) !! response_jobId r = Some t -> assignedWorker t = Some w ->
  job_kind (job t) = result_kind (response_result r) ->
  response_jobId r ∈ maybeErroredJobs (scheduler d) ->
  response_effect env d r (set_scheduler (log_received d r)
    (set_errored (scheduler d) (maybeErroredJobs (scheduler d) ∖ {[response_jobId r]}))) busy busy.
Proof.
  intros H Hw Ht Has Hk Hj.
  destruct (markCompleted_late _ busy w _ t (di_inv _ _ H) Ht Has Hj) as [Hmc HI].
  unfold response_effect. split_and!; try done.
  - by apply DInv_late.
  - split_and!; [done..|]. cbn. by eapply evolves_late; [apply H|].
  - unfold processWorkerResponse. cbn [log_received scheduler]. rewrite Hw Nat2Z.id -Hk Hmc. done.
  - split; [by unfold answered; cbn; rewrite map_app|].
    rewrite bool_decide_eq_false_2 //. by apply (inv_errored _ _ (di_inv _ _ H)) in Hj as [? _].
  - rewrite bool_decide_eq_false_2 //. by apply (inv_errored _ _ (di_inv _ _ H)) in Hj as [? _].
Qed.

Lemma legal_response_ok env d busy r :
  DInv d busy -> sends_ok env -> legal d r ->
  exists d' busy0 busy', busy ≡ₚ busy0 /\ response_effect env d r d' busy0 busy'.
Proof.
  intros H Hsend (w & req & Hw & Hin & Hid & Hns & Hk & Hna & Hwf).
  destruct (di_sent _ _ H w req Hin Hns) as (t & Ht & Hjob & Has). rewrite Hid in Ht.
  destruct (di_fate _ _ H _ t w Ht Has) as (_ & Hf). rewrite -Hjob in Hk.
  destruct Hf as [?|[Hwip|Herr]]; [done| |].
  - destruct (Inv_split _ _ _ (di_inv _ _ H) Hwip) as (w' & busy1 & Hp & HI).
    apply (DInv_perm _ _ _ Hp) in H.
    destruct (inv_assigned _ _ HI w' (response_jobId r)) as (t' & Ht' & Has'); [by left|].
    assert (t' = t) as -> by congruence. assert (w' = w) as -> by congruence.
    destruct (result_kind (response_result r)) eqn:Hkr.
    + destruct (sema_response_ok env d busy1 w r t H Hw Hsend Ht Hkr Hk Hwf) as (d' & busy' & He). eauto.
    + destruct (emit_response_ok env d busy1 w r t H Hw Ht Hkr Hk) as (d' & He). eauto.
  - do 3 eexists. split; [done|]. by apply late_response_ok with (w := w) (t := t).
Qed.

Lemma work_left_perm d busy busy' : busy ≡ₚ busy' -> work_left d busy = work_left d busy'.
Proof. intros Hp. unfold work_left. f_equal. apply weights_perm. by rewrite Hp. Qed.

Fixpoint legal_responses (env : Round Process) d (rs : list IndexJobResponse) : Prop :=
  match rs with
  | [] => True
  | r :: rs => legal d r /\ forall d', receive_and_process env d r = Ok d' -> legal_responses env d' rs
  end.

(** What a stretch of the loop keeps, and how it bounds the work left. *)
Record advanced d busy d' busy' : Prop := {
  ad_inv : DInv d' busy';
  ad_frame : same_frame d d';
  ad_stopped : stoppedWorkers (scheduler d') = stoppedWorkers (scheduler d);
  ad_pending : pendingJobs (scheduler d') = pendingJobs (scheduler d);
  ad_parser : compdbParser d' = compdbParser d;
  ad_work : (work_left d' busy' <= work_left d busy)%nat
}.

Lemma advanced_refl d busy : DInv d busy -> advanced d busy d busy.
Proof. intros H. by split. Qed.

Lemma advanced_trans d1 b1 d2 b2 d3 b3 : advanced d1 b1 d2 b2 -> advanced d2 b2 d3 b3 -> advanced d1 b1 d3 b3.
Proof.
  intros [] []. split; [done| |congruence..|lia]. by eapply same_frame_trans.
Qed.

Lemma responses_ok env rs : forall d busy,
  DInv d busy -> sends_ok env -> legal_responses env d rs ->
  exists d' busy', foldM (receive_and_process env) d rs = Ok d' /\ advanced d busy d' busy'
    /\ (match rs with r :: _ => response_jobId r ∈ wipJobs (scheduler d) | [] => False end ->
        (work_left d' busy' < work_left d busy)%nat).
Proof.
  induction rs as [|r rs IH]; intros d busy H Hsend Hlegal; cbn [foldM].
  { exists d, busy. split_and!; [done|by apply advanced_refl|done]. }
  destruct Hlegal as [Hr Hrs].
  destruct (legal_response_ok env d busy r H Hsend Hr) as (d1 & busy0 & busy1 & Hp & H1 & F & Hst & Hpend & Hpar & Hok & _ & Hwork).
  assert (work_left d1 busy1 <= work_left d busy
    /\ (response_jobId r ∈ wipJobs (scheduler d) -> work_left d1 busy1 < work_left d busy))%nat as [Hle Hlt].
  { rewrite (work_left_perm d _ _ Hp). case_bool_decide as Hin.
    - lia.
    - subst busy1. unfold work_left. rewrite Hpend Hpar. split; [lia|done]. }
  unfold receive_and_process at 2. rewrite Hok bind_Ok.
  destruct (IH d1 busy1 H1 Hsend) as (d2 & busy2 & -> & Had & _); [by apply Hrs|].
  exists d2, busy2. split_and!; [done| |].
  - eapply advanced_trans; [|done]. by split.
  - intros Hin%Hlt. pose proof (ad_work _ _ _ _ Had). lia.
Qed.

(** *** Timeouts *)
Lemma terminated_work before l d busy s' busy' :
  DInv d busy -> terminated before l (scheduler d) busy s' busy' ->
  (work_left (set_scheduler d s') busy' <= work_left d busy)%nat
  /\ ((exists w j, w ∈ l /\ (w, j) ∈ busy /\ late before (scheduler d) w) ->
      work_left (set_scheduler d s') busy' < work_left d busy)%nat.
Proof.
  intros H T. pose proof (tm_inv _ _ _ _ _ _ T) as HI.
  assert (NoDup busy') as Hnd by (apply (NoDup_fmap_1 snd), HI).
  assert (forall b, NoDup b -> (forall x, x ∈ b -> x ∈ busy) -> (weights b.*2 <= weights busy.*2)%nat) as Hw.
  { intros b Hb Hsub. apply weights_submseteq. by apply fmap_submseteq, NoDup_submseteq. }
  assert (forall x, x ∈ busy' -> x ∈ busy) as Hsub.
  { intros [w j] Hx. by apply (tm_busy _ _ _ _ _ _ T) in Hx as [? _]. }
  unfold work_left. cbn [set_scheduler scheduler compdbParser]. rewrite (tm_pending _ _ _ _ _ _ T). split.
  - specialize (Hw busy' Hnd Hsub). lia.
  - intros (w & j & Hl & Hin & Hlate).
    assert ((w, j) ∉ busy') as Hn by (intros Hx; apply (tm_busy _ _ _ _ _ _ T) in Hx as [_ Hx]; tauto).
    specialize (Hw ((w, j) :: busy')). rewrite fmap_cons weights_cons in Hw. pose proof (weight_pos j).
    cbn [snd] in Hw. enough (weight j + weights busy'.*2 <= weights busy.*2)%nat by lia. apply Hw.
    + by constructor.
    + intros x [->|?]%elem_of_cons; auto.
Qed.

Definition legal_round (env : Round Process) d : Prop :=
  match received env with RResponses r more => legal_responses env d (r :: more) | _ => True end.

(** The round brings the run forward: the first result that arrives is for a job
    in progress; or nothing arrives and some worker is over its time. *)
Definition progress (env : Round Process) d : Prop :=
  match received env with
  | RResponses r _ => response_jobId r ∈ wipJobs (scheduler d)
  | _ => exists w wi, workers (scheduler d) !! w = Some wi /\ status wi = Busy
           /\ startTime wi < endOfRound env - receiveTimeout (options d)
  end.

Lemma processOneOrMoreJobResults_ok env d busy :
  DInv d busy -> sends_ok env -> legal_round env d ->
  exists d' busy', processOneOrMoreJobResults env d = Ok d' /\ advanced d busy d' busy'
    /\ (progress env d -> work_left d' busy' < work_left d busy)%nat.
Proof.
  intros H Hsend Hlegal. unfold processOneOrMoreJobResults, legal_round, progress in *.
  assert (forall d1 busy1, advanced d busy d1 busy1 ->
    exists s' busy', terminateLongRunningWorkersAndRespawn (scheduler d1)
        (endOfRound env - receiveTimeout (options d1)) (respawn env) = Ok s'
      /\ advanced d busy (set_scheduler d1 s') busy'
      /\ ((work_left d1 busy1 < work_left d busy)%nat
          \/ (exists w j, (w, j) ∈ busy1 /\ late (endOfRound env - receiveTimeout (options d1)) (scheduler d1) w) ->
          (work_left (set_scheduler d1 s') busy' < work_left d busy)%nat)) as Hend.
  { intros d1 busy1 A. pose proof (ad_inv _ _ _ _ A) as H1.
    destruct (terminateLongRunningWorkers_ok (endOfRound env - receiveTimeout (options d1)) (respawn env) _ busy1
      (di_inv _ _ H1)) as (s' & busy' & Hok & T). exists s', busy'. split; [done|].
    pose proof (terminated_work _ _ d1 busy1 s' busy' H1 T) as [Hle Hlt]. pose proof (ad_work _ _ _ _ A) as Hw. split.
    - eapply advanced_trans; [done|]. split; cbn; try done; try (by apply T).
      + by eapply DInv_terminated.
      + split_and!; [done|apply T|]. by eapply evolves_terminated; [apply H1|].
    - intros [?|(w & j & Hin & Hl)]; [lia|]. enough (work_left (set_scheduler d1 s') busy' < work_left d1 busy1)%nat by lia.
      apply Hlt. exists w, j. split_and!; [|done..]. apply elem_of_seq. destruct Hl as (wi & Hwi & _).
      apply lookup_lt_Some in Hwi. lia. }
  destruct (received env) as [| |r more].
  1, 2: destruct (Hend d busy (advanced_refl d busy H)) as (s' & busy' & Hok & A & Hlt);
    rewrite !bind_Ok Hok bind_Ok; do 2 eexists; (split; [done|]); (split; [done|]);
    intros (w & wi & Hw & Hst & Hl); apply Hlt; right;
    destruct (Inv_status_busy _ _ w wi (di_inv _ _ H) Hw Hst) as [j Hj]; exists w, j; split; [done|by exists wi].
  destruct (responses_ok env (r :: more) d busy H Hsend Hlegal) as (d1 & busy1 & Hf & A & Hlt1).
  cbn [foldM] in Hf. rewrite Hf bind_Ok.
  destruct (Hend d1 busy1 A) as (s' & busy' & Hok & A' & Hlt). rewrite Hok bind_Ok.
  do 2 eexists. split; [done|]. split; [done|]. intros Hin. apply Hlt. left. by apply Hlt1.
Qed.

(** *** One iteration of the loop *)
Record LoopInv d (refillCount : nat) : Prop := {
  li_exhausted : refillCount = 0%nat -> source_size (compdbParser d) = 0%nat;
  li_stopped : stoppedWorkers (scheduler d) <> [] -> pendingJobs (scheduler d) = [] /\ refillCount = 0%nat;
  li_workers : (0 < length (workers (scheduler d)))%nat
}.

Lemma refill_if_needed_ok d busy rc :
  DInv d busy -> LoopInv d rc ->
  exists d' rc', refill_if_needed d rc = Ok (d', rc') /\ DInv d' busy /\ LoopInv d' rc'
    /\ (work_left d' busy <= work_left d busy)%nat /\ same_frame d d'
    /\ (pendingJobs (scheduler d) <> [] -> pendingJobs (scheduler d') <> [])
    /\ (pendingJobs (scheduler d') = [] -> rc' = 0%nat).
Proof.
  intros H [Hex Hstop Hw]. unfold refill_if_needed. case_bool_decide as Hp; cbn [andb].
  2: { exists d, rc. by split_and!. }
  destruct (Nat.eqb_spec rc 0) as [->|Hrc]; cbn [negb].
  { exists d, 0%nat. by split_and!. }
  destruct (refillJobs_ok d busy H) as (d' & n & -> & H' & Hlen & Hwork & Hn & Hframe & Hi & Hs & _).
  rewrite bind_Ok. rewrite Hp in Hlen. cbn in Hlen.
  rewrite ENFORCE_pass; [by apply Nat.eqb_eq|]. rewrite bind_Ok. exists d', n. split_and!; try done.
  - split; [done| |by destruct Hframe as (_ & -> & _)]. rewrite Hs. by intros [_ ?]%Hstop.
  - intros E. by rewrite E in Hlen.
Qed.

Lemma use_idle_workers_ok env d busy rc :
  DInv d busy -> LoopInv d rc -> sends_ok env ->
  (pendingJobs (scheduler d) <> [] \/ busy <> []) -> (pendingJobs (scheduler d) = [] -> rc = 0%nat) ->
  exists d' busy', use_idle_workers env d = Ok d' /\ DInv d' busy' /\ LoopInv d' rc
    /\ (work_left d' busy' <= work_left d busy)%nat /\ same_frame d d' /\ busy' <> [] /\ rtc hands d d'.
Proof.
  intros H L Hsend Hne Hrc. pose proof L as [Hex Hstop Hw]. unfold use_idle_workers.
  case_bool_decide as Hidle; cbn [negb].
  { exists d, busy. split_and!; try done. intros ->.
    pose proof (inv_partition _ _ (di_inv _ _ H)) as Hp. rewrite Hidle /= in Hp.
    destruct Hne as [Hne|]; [|done]. apply Hne, Hstop. intros E. rewrite E in Hp.
    apply Permutation_length in Hp. rewrite length_seq /= in Hp. lia. }
  case_bool_decide as Hp.
  - destruct (shutdownIdleWorkers_ok env d busy H Hsend) as (d' & Hok & H' & _ & _ & Hp' & Hf & Hc & _ & _ & _ & _ & _ & Hh).
    exists d', busy. split_and!; try done.
    + split; [by rewrite Hc|by rewrite Hp' Hp; split; [|apply Hrc]|by destruct Hf as (_ & -> & _)].
    + unfold work_left. rewrite Hp' Hc. done.
    + by destruct Hne.
  - destruct (assign_loop_ok env (length (pendingJobs (scheduler d))) d busy H Hsend)
      as (d' & busy' & Hok & H' & Hwork & Hf & Hs & Hc & Hb & Hh); [done|].
    exists d', busy'. unfold assignJobsToIdleWorkers.
    rewrite ENFORCE_pass; [apply Nat.ltb_lt, Nat.neq_0_lt_0; by intros ?%nil_length_inv|].
    rewrite bind_Ok ENFORCE_pass; [apply Nat.ltb_lt, Nat.neq_0_lt_0; by intros ?%nil_length_inv|].
    rewrite bind_Ok. split_and!; try done; [|lia|apply Hb; by right].
    split; [by rewrite Hc|rewrite Hs; by intros [? _]%Hstop|by destruct Hf as (_ & -> & _)].
Qed.

(** The workers' side of an iteration is as it should be. *)
Definition legal_iteration (env : Round Process) d rc : Prop :=
  forall d1 rc1 d2, refill_if_needed d rc = Ok (d1, rc1) -> use_idle_workers env d1 = Ok d2 -> legal_round env d2.
Definition progress_iteration (env : Round Process) d rc : Prop :=
  forall d1 rc1 d2, refill_if_needed d rc = Ok (d1, rc1) -> use_idle_workers env d1 = Ok d2 -> progress env d2.

Lemma iteration_ok env d busy rc :
  DInv d busy -> LoopInv d rc -> sends_ok env -> legal_iteration env d rc ->
  (pendingJobs (scheduler d) <> [] \/ busy <> []) ->
  exists d' rc' busy', iteration env d rc = Ok (d', rc') /\ DInv d' busy' /\ LoopInv d' rc' /\ same_frame d d'
    /\ (work_left d' busy' <= work_left d busy)%nat
    /\ (progress_iteration env d rc -> work_left d' busy' < work_left d busy)%nat.
Proof.
  intros H L Hsend Hlegal Hne.
  destruct (refill_if_needed_ok d busy rc H L) as (d1 & rc1 & Hr & H1 & L1 & Hw1 & F1 & Hp1 & Hrc1).
  destruct (use_idle_workers_ok env d1 busy rc1 H1 L1 Hsend) as (d2 & busy2 & Hu & H2 & L2 & Hw2 & F2 & Hb2 & _); [|done|].
  { destruct Hne; [left|right]; auto. }
  destruct (processOneOrMoreJobResults_ok env d2 busy2 H2 Hsend) as (d3 & busy3 & Hpr & A & Hlt).
  { by eapply Hlegal. }
  exists d3, rc1, busy3. unfold iteration. rewrite Hr bind_Ok Hu bind_Ok ENFORCE_not.
  { by rewrite -(DInv_unassigned d2 busy2 H2). }
  rewrite bind_Ok Hpr bind_Ok. pose proof (ad_work _ _ _ _ A). split_and!; try done.
  - apply A.
  - destruct L2 as [Hex Hstop Hw]. split.
    + by rewrite (ad_parser _ _ _ _ A).
    + by rewrite (ad_stopped _ _ _ _ A) (ad_pending _ _ _ _ A).
    + by destruct (ad_frame _ _ _ _ A) as (_ & -> & _).
  - eapply same_frame_trans; [done|]. eapply same_frame_trans; [done|]. apply A.
  - lia.
  - intros Hpg. enough (work_left d3 busy3 < work_left d2 busy2)%nat by lia. apply Hlt. by eapply Hpg.
Qed.

(** *** The whole loop *)
Definition unfinished d : Prop := pendingJobs (scheduler d) <> [] \/ wipJobs (scheduler d) <> ∅.

Fixpoint legal_run (rounds : list (Round Process)) d rc : Prop :=
  match rounds with
  | [] => True
  | env :: rounds => unfinished d -> sends_ok env /\ legal_iteration env d rc
      /\ forall d' rc', iteration env d rc = Ok (d', rc') -> legal_run rounds d' rc'
  end.
Fixpoint progress_run (rounds : list (Round Process)) d rc : Prop :=
  match rounds with
  | [] => True
  | env :: rounds => unfinished d -> progress_iteration env d rc
      /\ forall d' rc', iteration env d rc = Ok (d', rc') -> progress_run rounds d' rc'
  end.

(** What is left when the loop ends. *)
Record finished d : Prop := {
  fin_stopped : idleWorkers (scheduler d) = [] /\ length (stoppedWorkers (scheduler d)) = length (workers (scheduler d))
    /\ forall w, (w < length (workers (scheduler d)))%nat -> worker_is (scheduler d) w Stopped None;
  fin_jobs : pendingJobs (scheduler d) = [] /\ wipJobs (scheduler d) = ∅;
  fin_fate : forall j t, allJobList (scheduler d) !! j = Some t ->
    (exists w req, (w, req) ∈ sent d /\ request_id req = j /\ assignedWorker t = Some w)
    /\ (j ∈ answered d <-> j ∉ maybeErroredJobs (scheduler d));
  fin_answers : NoDup (answered d) /\ forall j, j ∈ answered d -> is_Some (allJobList (scheduler d) !! j);
  fin_tasks : forall j, j ∈ answered d -> exists t,
    allJobList (scheduler d) !! newTask (taskId j) = Some t /\ job_kind (job t) = SemanticAnalysis;
  fin_ids : forall j, j ∈ answered d -> uint32 (taskId j);
  fin_indexed : indexedSoFar d = wrap32 (Z.of_nat (length (shardPaths_ d)))
}.

(** A job that exists belongs to a semantic analysis that exists. *)
Lemma Inv_task (s : Scheduler Process) busy j : Inv s busy -> is_Some (allJobList s !! j) ->
  exists t, allJobList s !! newTask (taskId j) = Some t /\ job_kind (job t) = SemanticAnalysis.
Proof.
  intros HI [t Ht]. pose proof (inv_jobs _ _ HI j t Ht) as Hwf. unfold job_wf in Hwf.
  destruct (job_kind (job t)) eqn:Ek.
  - exists t. split; [|done]. rewrite -Ht. f_equal. destruct j as [i k]. cbn in Hwf. by subst k.
  - destruct Hwf as (_ & _ & _ & [t' Ht']). exists t'. split; [done|].
    pose proof (inv_jobs _ _ HI _ _ Ht') as Hwf'. unfold job_wf in Hwf'.
    by destruct (job_kind (job t')); [|destruct Hwf'].
Qed.

Lemma DInv_finished d : DInv d [] -> idleWorkers (scheduler d) = [] -> pendingJobs (scheduler d) = [] -> finished d.
Proof.
  intros H Hi Hp. pose proof (inv_partition _ _ (di_inv _ _ H)) as Hpart. rewrite Hi /= in Hpart.
  assert (wipJobs (scheduler d) = ∅) as Hwip by by apply (DInv_unassigned d []).
  split; try by apply H.
  - split_and!; [done|by rewrite Hpart length_seq|]. intros w Hw. apply (inv_stopped _ _ (di_inv _ _ H)).
    rewrite Hpart. apply elem_of_seq. lia.
  - done.
  - intros j t Ht. pose proof (inv_unassigned _ _ (di_inv _ _ H) j t Ht) as Hu.
    destruct (assignedWorker t) as [w|] eqn:Has; [|by rewrite Hp in Hu; apply elem_of_nil in Hu].
    destruct (di_fate _ _ H j t w Ht Has) as ((req & Hreq & Hid) & Hf). split; [by exists w, req|].
    rewrite Hwip in Hf. split.
    + intros Ha. by apply (di_answered _ _ H).
    + intros Hn. destruct Hf as [?|[[]%not_elem_of_empty|?]]; done.
  - split; [apply H|]. intros j Hj. apply (di_answered _ _ H) in Hj as (_ & _ & t & w & ? & _). by eexists.
  - intros j Hj. apply (di_answered _ _ H) in Hj as (_ & _ & t & w & ? & _).
    apply (Inv_task _ [] _ (di_inv _ _ H)). by eexists.
  - intros j Hj. apply (di_answered _ _ H) in Hj as (_ & _ & t & w & Ht & _).
    destruct (di_source _ _ H) as (used & Hsrc & Hused). by apply (source_ids _ _ (newTask (taskId j)) Hsrc), (Hused j t).
Qed.

(** The loop never fails, keeps the invariant while it waits, and ends in a
    finished state; with progress in every round it ends. *)
Lemma run_loop_ok last_round : sends_ok last_round -> forall rounds d busy rc,
  DInv d busy -> LoopInv d rc -> legal_run rounds d rc ->
  exists outcome, run_loop last_round rounds d rc = Ok outcome
    /\ match outcome with
       | Finished d' rc' => DInv d' [] /\ idleWorkers (scheduler d') = [] /\ pendingJobs (scheduler d') = []
           /\ same_frame d d'
           /\ (rc' = 0%nat -> source_size (compdbParser d') = 0%nat)
       | Waiting d' rc' => (exists busy', DInv d' busy' /\ LoopInv d' rc'
           /\ (progress_run rounds d rc -> work_left d' busy' + length rounds <= work_left d busy)%nat)
           /\ same_frame d d' /\ (pendingJobs (scheduler d') <> [] \/ wipJobs (scheduler d') <> ∅)
       end.
Proof.
  intros Hlast. induction rounds as [|env rounds IH]; intros d busy rc H L Hlegal; cbn [run_loop];
    rewrite (checkInvariants_ok _ _ (di_inv _ _ H)) bind_Ok.
  all: case_bool_decide as Hp; cbn [andb].
  all: try (case_bool_decide as Hwip; [
    apply (DInv_unassigned d busy H) in Hwip; subst busy;
    destruct (shutdownIdleWorkers_ok last_round d [] H Hlast) as (d' & -> & H' & Hi & _ & Hp' & Hf & Hc & _);
    rewrite bind_Ok; eexists; split; [done|]; split_and!; [done|done|by rewrite Hp'|done|rewrite Hc; apply L] |]).
  1, 2: eexists; split; [done|]; split_and!; [exists busy; split_and!; [done|done|cbn; lia]|done|tauto].
  all: assert (unfinished d) as Hunf by (by left) || (by right).
  all: destruct (Hlegal Hunf) as (Hsend & Hiter & Hrest).
  all: destruct (iteration_ok env d busy rc H L Hsend Hiter) as (d1 & rc1 & busy1 & Hok & H1 & L1 & F1 & Hle & Hlt);
    [by (right; intros Hb; apply Hwip, (DInv_unassigned d busy H)) || by left|].
  all: rewrite Hok bind_Ok; destruct (IH d1 busy1 rc1 H1 L1) as (outcome & -> & Ho); [by apply Hrest|].
  all: exists outcome; split; [done|]; destruct outcome as [d2 rc2|d2 rc2].
  1, 3: destruct Ho as (? & ? & ? & ? & ?); split_and!; [done..|by eapply same_frame_trans|done].
  all: destruct Ho as ((busy2 & ? & ? & Hm) & ? & ?); split_and!; [|by eapply same_frame_trans|done].
  all: exists busy2; split_and!; [done|done|]; intros Hpr; destruct (Hpr Hunf) as [Hpg Hpgs]; specialize (Hlt Hpg);
    specialize (Hm (Hpgs _ _ Hok)); cbn [length]; lia.
Qed.

(** ** The properties of a run *)
Definition spawnWorkers (this : Driver Process P) (spawnWorker : nat -> Process) : result (Driver Process P) :=
  s ← initializeWorkers (scheduler this) (numWorkers (options this)) spawnWorker;
  Ok (set_scheduler this s).

(** The state before [spawnWorkers]: constructed, and the compilation database is open. *)
Definition Driver_opened (opts : DriverOptions) (id : str) (count : nat) (parser : P) : Driver Process P :=
  mkDriver opts id (mkMessageQueues [] []) Scheduler_new (FileIndexingPlanner_new (projectRootPath_ opts)) [] []
    count 0 parser.
Definition Driver_start (opts : DriverOptions) (id : str) (count : nat) (parser : P) (spawn : nat -> Process)
    : result (Driver Process P) := spawnWorkers (Driver_opened opts id count parser) spawn.

(** A run from the start: [refillJobs] once, then the rounds. *)
Definition legal_from_start (rounds : list (Round Process)) d : Prop :=
  forall d1 rc, refillJobs d = Ok (d1, rc) -> legal_run rounds d1 rc.
Definition progress_from_start (rounds : list (Round Process)) d : Prop :=
  forall d1 rc, refillJobs d = Ok (d1, rc) -> progress_run rounds d1 rc.

Lemma Driver_start_ok opts id count parser spawn :
  source_inv parser ∅ ->
  exists d, Driver_start opts id count parser spawn = Ok d /\ DInv d []
    /\ compdbParser d = parser /\ options d = opts /\ length (workers (scheduler d)) = numWorkers opts
    /\ pendingJobs (scheduler d) = [] /\ stoppedWorkers (scheduler d) = [].
Proof.
  intros Hsrc. destruct (Inv_init (Process:=Process) (numWorkers opts) spawn)
    as (s & Hs & HI & Hidle & Hlen & Hjobs & Hpend & Herr).
  unfold Driver_start, spawnWorkers, Driver_opened. cbn [scheduler options]. rewrite Hs bind_Ok. eexists. split; [done|].
  pose proof (Inv_size _ _ HI) as Hsize. pose proof (inv_partition _ _ HI) as Hpart.
  rewrite Hidle Hlen in Hpart. apply Permutation_length in Hpart.
  rewrite !length_app length_seq in Hpart. cbn in Hpart.
  split_and!; try done; [|apply nil_length_inv; cbn; lia].
  split; cbn; try done.
  - apply NoDup_nil_2.
  - intros j []%elem_of_nil.
  - intros w req []%elem_of_nil.
  - intros j t w. rewrite Hjobs lookup_empty. done.
  - exists ∅. split; [done|]. intros j t. by rewrite Hjobs lookup_empty.
Qed.

Lemma run_from_start last_round rounds opts id count parser spawn d :
  sends_ok last_round -> (0 < numWorkers opts)%nat -> source_inv parser ∅ ->
  Driver_start opts id count parser spawn = Ok d -> legal_from_start rounds d ->
  match runJobsTillCompletionAndShutdownWorkers last_round rounds d with
  | Ok (Finished d' rc) => finished d' /\ same_frame d d' /\ (rc = 0%nat -> source_size (compdbParser d') = 0%nat)
  | Ok (Waiting d' _) => (pendingJobs (scheduler d') <> [] \/ wipJobs (scheduler d') <> ∅)
      /\ (progress_from_start rounds d -> length rounds <= 2 * source_size parser)%nat
  | Err e => e = Exit 1 /\ exists d1, refillJobs d = Ok (d1, 0%nat)
  end.
Proof.
  intros Hlast Hn Hsrc Hd Hlegal.
  destruct (Driver_start_ok opts id count parser spawn Hsrc) as (d0 & Hd0 & H & Hpar & Hopt & Hlen & Hpend & Hstop).
  rewrite Hd in Hd0. injection Hd0 as <-. unfold runJobsTillCompletionAndShutdownWorkers.
  rewrite (checkInvariants_ok _ _ (di_inv _ _ H)) bind_Ok.
  destruct (refillJobs_ok d [] H) as (d1 & n & Hr & H1 & Hl1 & Hw1 & Hn1 & F1 & Hi1 & Hs1 & _).
  rewrite Hr bind_Ok. rewrite Hpend in Hl1. cbn in Hl1.
  destruct (Nat.eqb_spec n 0) as [->|Hne]; [split; [done|by exists d1]|].
  rewrite ENFORCE_pass; [by apply Nat.eqb_eq|]. rewrite bind_Ok.
  destruct (run_loop_ok last_round Hlast rounds d1 [] n H1) as (outcome & -> & Ho).
  { split; [done|by rewrite Hs1 Hstop|by destruct F1 as (_ & -> & _); rewrite Hlen]. }
  { by apply Hlegal. }
  rewrite bind_Ok. destruct outcome as [d2 rc2|d2 rc2].
  - destruct Ho as (H2 & Hi2 & Hp2 & F2 & Hex). pose proof (DInv_finished d2 H2 Hi2 Hp2) as Hfin.
    rewrite (checkInvariants_ok _ _ (di_inv _ _ H2)) bind_Ok.
    rewrite Hi2. cbn [length Nat.eqb]. rewrite ENFORCE_true bind_Ok ENFORCE_pass; [apply Nat.eqb_eq, Hfin|]. rewrite bind_Ok.
    split_and!; [done|by eapply same_frame_trans|done].
  - destruct Ho as ((busy2 & H2 & L2 & Hm) & F2 & Hor). split; [done|]. intros Hpg. specialize (Hm (Hpg _ _ Hr)).
    enough (work_left d1 [] <= 2 * source_size parser)%nat by lia. etransitivity; [exact Hw1|].
    unfold work_left. rewrite Hpend Hpar. cbn. lia.
Qed.

(** C11. Indexing a compilation database with at least one worker never fails,
    whatever the workers do and however the clocks run, as long as messages to
    workers can be sent and a worker answers only what it was asked, once, with
    a result of the right kind: no [ENFORCE] of the scheduler or the driver fails
    and no optional is read empty.  Either there is nothing to do (exit 1), or the
    loop is waiting with work at hand, or it has finished: then every worker is
    stopped, nothing is pending or in progress, and every job that was ever
    created was sent to one worker and either answered exactly once or is counted
    as possibly errored. *)
Theorem driver_run_safe last_round rounds opts id count parser spawn :
  sends_ok last_round -> (0 < numWorkers opts)%nat -> source_inv parser ∅ ->
  exists d, Driver_start opts id count parser spawn = Ok d
    /\ (legal_from_start rounds d ->
        match runJobsTillCompletionAndShutdownWorkers last_round rounds d with
        | Ok (Finished d' rc) => finished d' /\ length (workers (scheduler d')) = numWorkers opts
            /\ (rc = 0%nat -> source_size (compdbParser d') = 0%nat)
        | Ok (Waiting d' _) => pendingJobs (scheduler d') <> [] \/ wipJobs (scheduler d') <> ∅
        | Err e => e = Exit 1 /\ exists d1, refillJobs d = Ok (d1, 0%nat)
        end).
Proof.
  intros Hlast Hn Hsrc. destruct (Driver_start_ok opts id count parser spawn Hsrc) as (d & Hd & _ & _ & _ & Hlen & _).
  exists d. split; [done|]. intros Hlegal.
  pose proof (run_from_start last_round rounds opts id count parser spawn d Hlast Hn Hsrc Hd Hlegal) as H.
  destruct (runJobsTillCompletionAndShutdownWorkers _ _ _) as [[d' rc|d' rc]|e]; [|by destruct H|done].
  destruct H as (? & (_ & F & _) & ?). split_and!; [done|by rewrite F|done].
Qed.

(** C12. The run loop terminates: when every round brings the run forward (a
    result for a job in progress arrives, or the wait times out and some worker
    is over its time), it ends after at most twice as many rounds as there are
    translation units. *)
Theorem driver_run_terminates last_round rounds opts id count parser spawn :
  sends_ok last_round -> (0 < numWorkers opts)%nat -> source_inv parser ∅ ->
  exists d, Driver_start opts id count parser spawn = Ok d
    /\ (legal_from_start rounds d -> progress_from_start rounds d ->
        (2 * source_size parser < length rounds)%nat ->
        runJobsTillCompletionAndShutdownWorkers last_round rounds d = Err (Exit 1)
        \/ exists d' rc, runJobsTillCompletionAndShutdownWorkers last_round rounds d = Ok (Finished d' rc)).
Proof.
  intros Hlast Hn Hsrc. destruct (Driver_start_ok opts id count parser spawn Hsrc) as (d & Hd & _).
  exists d. split; [done|]. intros Hlegal Hpg Hlen.
  pose proof (run_from_start last_round rounds opts id count parser spawn d Hlast Hn Hsrc Hd Hlegal) as H.
  destruct (runJobsTillCompletionAndShutdownWorkers _ _ _) as [[d' rc|d' rc]|e]; [right; eauto| |].
  - destruct H as (_ & H). specialize (H Hpg). lia.
  - destruct H as (-> & _). by left.
Qed.

Lemma DInv_completed d busy j : DInv d busy -> phase (scheduler d) j = Some Completed <-> j ∈ answered d.
Proof.
  intros H. split.
  - unfold phase. destruct (allJobList (scheduler d) !! j) as [t|] eqn:Ht; [|done].
    repeat case_bool_decide; try done. intros _.
    pose proof (inv_unassigned _ _ (di_inv _ _ H) j t Ht) as Hu. destruct (assignedWorker t) as [w|] eqn:Has; [|done].
    destruct (di_fate _ _ H j t w Ht Has) as (_ & [?|[?|?]]); done.
  - intros (Hw & He & t & w & Ht & Has)%(di_answered _ _ H). apply (phase_rest _ j t); try done.
    by eapply Inv_assigned_not_pending; [apply H|..].
Qed.

(** C13. The scheduler implements the life of a job: an iteration of the loop in a
    legal environment moves every job only along [lifecycle] (no job is queued
    twice, goes back, or is completed twice), and the completed jobs are exactly
    the ones whose result was received. *)
Theorem iteration_refines_lifecycle env d busy rc :
  DInv d busy -> LoopInv d rc -> sends_ok env -> legal_iteration env d rc -> unfinished d ->
  exists d' rc', iteration env d rc = Ok (d', rc')
    /\ (forall j, rtc lifecycle (phase (scheduler d) j) (phase (scheduler d') j))
    /\ (forall j, phase (scheduler d') j = Some Completed <-> j ∈ answered d').
Proof.
  intros H L Hs Hl Hu. destruct (iteration_ok env d busy rc H L Hs Hl) as (d' & rc' & busy' & Hi & H' & _ & F & _).
  { destruct Hu as [?|Hw]; [by left|right]. intros Hb. by apply Hw, (DInv_unassigned d busy H). }
  exists d', rc'. split_and!; [done|apply F|]. intros j. by apply (DInv_completed d' busy').
Qed.

(** A result that arrives after its worker was killed is dropped: it only
    clears the mark of the job in [maybeErroredJobs]; its shard is not recorded,
    the count of indexed units does not move, a semantic analysis does not lead
    to an indexing job, and the worker's current job is left alone. *)
Theorem late_result_dropped env d busy r :
  DInv d busy -> legal d r -> response_jobId r ∈ maybeErroredJobs (scheduler d) ->
  processWorkerResponse env d r = Ok (set_scheduler d
    (set_errored (scheduler d) (maybeErroredJobs (scheduler d) ∖ {[response_jobId r]}))).
Proof.
  intros H (w & req & Hw & Hin & Hid & Hns & Hk & _ & _) Hj.
  destruct (di_sent _ _ H w req Hin Hns) as (t & Ht & Hjob & Has). rewrite Hid in Ht.
  destruct (markCompleted_late _ busy w _ t (di_inv _ _ H) Ht Has Hj) as [Hmc _].
  unfold processWorkerResponse. by rewrite Hw Nat2Z.id -Hk -Hjob Hmc.
Qed.

(** When the list of files to index cannot be sent, the driver means to kill
    the worker and go on (the note terminate-on-send-emit-index), but it first
    takes the job back, which leaves the worker without a job, and
    [terminateRunningWorker] then reads the empty [currentlyProcessing]: the
    driver stops with an uncaught [bad_optional_access], in every build. *)
Theorem emit_send_error_crashes env d busy r :
  DInv d busy -> legal d r -> response_jobId r ∈ wipJobs (scheduler d) ->
  result_kind (response_result r) = SemanticAnalysis ->
  (forall w req, sendOk env w req = false) ->
  processWorkerResponse env d r = Err BadOptionalAccess.
Proof.
  intros H (w & req & Hw & Hin & Hid & Hns & Hk & Hna & Hwf) Hwip Hkr Hsend.
  destruct (di_sent _ _ H w req Hin Hns) as (t & Ht & Hjob & Has). rewrite Hid in Ht. rewrite -Hjob Hkr in Hk.
  destruct (Inv_split _ _ _ (di_inv _ _ H) Hwip) as (w' & busy1 & Hp & HI). apply (DInv_perm _ _ _ Hp) in H.
  destruct (inv_assigned _ _ HI w' (response_jobId r)) as (t' & Ht' & Has'); [by left|].
  assert (w' = w) as -> by congruence.
  destruct (sema_prefix env d busy1 w r t H Ht Hk Hwf) as (s1 & files & pl & wi & Hmc & Hsave & Hcreate & HI2 & Hwi).
  unfold processWorkerResponse. rewrite Hkr Hw Nat2Z.id Hmc bind_Ok. cbn [set_scheduler planner].
  rewrite Hsave bind_Ok. cbn [set_planner scheduler]. rewrite Hcreate bind_Ok Hsend.
  destruct (descheduleJobDueToSendError_ok _ busy1 w _ HI2) as (wi2 & Hwi2 & Hdes & _).
  cbn [request_id]. rewrite Hdes bind_Ok. unfold terminateRunningWorker, vector_at. cbn [released workers].
  rewrite list_lookup_insert_eq; [|done]. by eapply lookup_lt_Some.
Qed.
End Invariant.

(** ** Checking a concrete environment

    The conditions on the environment are decidable along a concrete run. *)
Section Checkers.
Context `{BM : BuildMode} {Process P : Type} `{JS : !JobSource P, JL : !JobSourceLaws P}.
Implicit Types (d : Driver Process P).

Definition legalb d (r : IndexJobResponse) : bool :=
  bool_decide (response_jobId r ∉ answered d)
  && forallb (fun fi => 2 <=? length (hashValues fi))%nat (illBehavedFiles (result_semanticAnalysis (response_result r)))
  && existsb (fun p => (response_workerId r =? Z.of_nat p.1) && bool_decide (request_id p.2 = response_jobId r)
       && bool_decide (request_id p.2 <> Shutdown)
       && bool_decide (job_kind (request_job p.2) = result_kind (response_result r))) (sent d).

Lemma legalb_sound d r : legalb d r = true -> legal d r.
Proof.
  unfold legalb. rewrite !andb_true_iff existsb_In. intros [[Hna%bool_decide_eq_true Hwf] ([w req] & Hin & Hp)].
  cbn in Hp. rewrite !andb_true_iff in Hp. destruct Hp as [[[Hw%Z.eqb_eq Hid%bool_decide_eq_true] Hns%bool_decide_eq_true]
    Hk%bool_decide_eq_true]. exists w, req. split_and!; try done.
  apply Forall_forall. intros fi Hfi. rewrite forallb_In in Hwf. by apply Nat.leb_le, Hwf.
Qed.

Fixpoint legal_responsesb (env : Round Process) d (rs : list IndexJobResponse) : bool :=
  match rs with
  | [] => true
  | r :: rs => legalb d r && match receive_and_process env d r with Ok d' => legal_responsesb env d' rs | Err _ => true end
  end.

Lemma legal_responsesb_sound env rs : forall d, legal_responsesb env d rs = true -> legal_responses env d rs.
Proof.
  induction rs as [|r rs IH]; intros d; [done|]. cbn [legal_responsesb legal_responses].
  intros [Hr Hrs]%andb_true_iff. split; [by apply legalb_sound|]. intros d' Hd'. rewrite Hd' in Hrs. by apply IH.
Qed.

Definition progressb (env : Round Process) d : bool :=
  match received env with
  | RResponses r _ => bool_decide (response_jobId r ∈ wipJobs (scheduler d))
  | _ => existsb (fun wi => bool_decide (status wi = Busy)
           && (startTime wi <? endOfRound env - receiveTimeout (options d))) (workers (scheduler d))
  end.

Lemma progressb_sound env d : progressb env d = true -> progress env d.
Proof.
  unfold progressb, progress.
  assert (existsb (fun wi => bool_decide (status wi = Busy)
    && (startTime wi <? endOfRound env - receiveTimeout (options d))) (workers (scheduler d)) = true ->
    exists w wi, workers (scheduler d) !! w = Some wi /\ status wi = Busy
      /\ startTime wi < endOfRound env - receiveTimeout (options d)) as H.
  { rewrite existsb_In. intros (wi & [w Hw]%list_elem_of_lookup & [Hst%bool_decide_eq_true Ht%Z.ltb_lt]%andb_true_iff). eauto. }
  destruct (received env); [done|done|]. apply bool_decide_eq_true.
Qed.

(** Legality and, if [strict], progress along a run. *)
Definition roundb (strict : bool) (env : Round Process) d rc : bool :=
  match refill_if_needed d rc with
  | Ok (d1, _) =>
      match use_idle_workers env d1 with
      | Ok d2 => match received env with RResponses r more => legal_responsesb env d2 (r :: more) | _ => true end
                 && implb strict (progressb env d2)
      | Err _ => true
      end
  | Err _ => true
  end.
Fixpoint runb (strict : bool) (rounds : list (Round Process)) d rc : bool :=
  match rounds with
  | [] => true
  | env :: rounds =>
      (bool_decide (pendingJobs (scheduler d) = []) && bool_decide (wipJobs (scheduler d) = ∅))
      || roundb strict env d rc
      && match iteration env d rc with Ok (d', rc') => runb strict rounds d' rc' | Err _ => true end
  end.

Lemma roundb_sound strict env d rc : roundb strict env d rc = true ->
  legal_iteration env d rc /\ (strict = true -> progress_iteration env d rc).
Proof.
  unfold roundb, legal_iteration, progress_iteration. intros H. split; [|intros ->];
    intros d1 rc1 d2 Hr Hu; rewrite Hr Hu in H; apply andb_true_iff in H as [Hl Hp].
  - unfold legal_round. destruct (received env); [done|done|by apply legal_responsesb_sound].
  - by apply progressb_sound.
Qed.

Lemma runb_sound strict rounds : Forall sends_ok rounds -> forall d rc, runb strict rounds d rc = true ->
  legal_run rounds d rc /\ (strict = true -> progress_run rounds d rc).
Proof.
  induction 1 as [|env rounds Hs _ IH]; intros d rc; cbn [runb legal_run progress_run]; [done|].
  rewrite orb_true_iff !andb_true_iff. intros [[Hp%bool_decide_eq_true Hw%bool_decide_eq_true]|[Hr Hrest]].
  { by split; [|intros _]; intros []. }
  destruct (roundb_sound _ _ _ _ Hr) as [Hl Hp].
  split; [intros _; split_and!; [done..|]|intros Hst _; split; [by apply Hp|]]; intros d' rc' Hi; rewrite Hi in Hrest;
    destruct (IH d' rc' Hrest) as [Hl' Hp']; [done|by apply Hp'].
Qed.

Definition startb (strict : bool) (rounds : list (Round Process)) (start : result (Driver Process P)) : bool :=
  match start with
  | Ok d => match refillJobs d with Ok (d1, rc) => runb strict rounds d1 rc | Err _ => true end
  | Err _ => true
  end.

Lemma startb_sound strict rounds start d : Forall sends_ok rounds -> startb strict rounds start = true ->
  start = Ok d -> legal_from_start rounds d /\ (strict = true -> progress_from_start rounds d).
Proof.
  intros Hs Hb ->. cbn in Hb. unfold legal_from_start, progress_from_start.
  split; [|intros Hst]; intros d1 rc Hr; rewrite Hr in Hb; by apply (runb_sound strict rounds Hs d1 rc Hb).
Qed.
End Checkers.

(** ** A source of prepared batches

    The simplest implementation of [JobSource]: the batches are given. *)
#[export] Instance batch_source : JobSource (list (list CommandObject)) := fun batches =>
  match batches with [] => Ok ([], []) | b :: batches => Ok (batches, b) end.

Definition batches_ok (batches : list (list CommandObject)) (used : gset JobId) : Prop :=
  Forall (fun b => b <> []) batches /\ NoDup (map task_of (concat batches))
  /\ (forall c, c ∈ concat batches -> task_of c ∉ used) /\ forall j, j ∈ used -> uint32 (taskId j).

#[export] Program Instance batch_source_laws : JobSourceLaws (list (list CommandObject)) := {|
  source_inv := batches_ok;
  source_size batches := length (concat batches)
|}.
Next Obligation.
  intros [|b batches] used (Hne & Hnd & Hnew & Hids); unfold parse_more; cbn [batch_source].
  - exists [], []. split_and!; try done; try apply NoDup_nil_2; split_and!; try done; [by intros c ?%elem_of_nil..|].
    intros j. rewrite right_id_L. apply Hids.
  - apply Forall_cons in Hne as [Hb Hne]. cbn [concat] in Hnd, Hnew. rewrite map_app in Hnd.
    apply NoDup_app in Hnd as (Hnd1 & Hdisj & Hnd2).
    exists batches, b. split_and!; try done.
    + intros c Hc. apply Hnew, elem_of_app. by left.
    + split_and!; [done..| |].
      * intros c Hc. rewrite elem_of_union elem_of_list_to_set. intros [Hu|Hu].
        -- apply (Hnew c); [apply elem_of_app; by right|done].
        -- apply (Hdisj (task_of c) Hu). apply list_elem_of_fmap. by exists c.
      * intros j. rewrite elem_of_union elem_of_list_to_set. intros [Hu|Hu]; [by apply Hids|].
        apply list_elem_of_fmap in Hu as (c & -> & _). apply wrap32_range.
    + cbn [concat]. rewrite length_app. lia.
Qed.
Next Obligation. intros batches used j (_ & _ & _ & Hids). apply Hids. Qed.

(** ** Concrete runs *)
Definition demo_driver_options (n : nat) : DriverOptions :=
  mkDriverOptions (demo_path "/bin/scip-clang") (mkRootPath (demo_path "/p") Project)
    (demo_path "/p/compile_commands.json") (demo_path "/p/index.scip") (mkAbsolutePath []) (mkAbsolutePath [])
    false true (mkDriverIpcOptions 4096 10) n true [] [] [] false false (lit "/tmp/d") true [].
Definition demo_command (i : Z) : CommandObject :=
  mkCommandObject i (lit "/p") (lit "a.c") [lit "cc"].

Definition demo_round (r : Received) (now : Instant) : Round nat :=
  mkRound r (fun _ _ => true) (fun _ => now)
    (match r with RTimeout => now + 11 | _ => now + 1 end) (fun p _ => S p).
Definition demo_sema_response (w i : Z) : IndexJobResponse :=
  mkIndexJobResponse w (mkJobId i 0) (mkIndexJobResult SemanticAnalysis
    (mkSemanticAnalysisJobResult [mkPreprocessedFileInfo (demo_path "/p/a.c") i] []) EmitIndexJobResult_default).
Definition demo_emit_response (w i : Z) : IndexJobResponse :=
  mkIndexJobResponse w (mkJobId i 1) (mkIndexJobResult EmitIndex SemanticAnalysisJobResult_default
    EmitIndexJobResult_default).

Definition demo_start (n : nat) (batches : list (list CommandObject)) : result (Driver nat (list (list CommandObject))) :=
  @Driver_start true nat _ (demo_driver_options n) (lit "d") 2 batches (fun w => w).

(** Two translation units and one worker that answers everything. *)
Definition demo_rounds : list (Round nat) :=
  [demo_round (RResponses (demo_sema_response 0 0) []) 0;
   demo_round (RResponses (demo_emit_response 0 0) []) 1;
   demo_round (RResponses (demo_sema_response 0 1) []) 2;
   demo_round (RResponses (demo_emit_response 0 1) []) 3].

Definition run_summary (o : result (@Outcome nat (list (list CommandObject)))) : option (bool * Z * nat * nat) :=
  match o with
  | Ok (Finished d _) => Some (true, indexedSoFar d, numErroredJobs (scheduler d), length (concat (compdbParser d)))
  | Ok (Waiting d _) => Some (false, indexedSoFar d, numErroredJobs (scheduler d), length (concat (compdbParser d)))
  | Err _ => None
  end.
Definition demo_run (rounds : list (Round nat)) (n : nat) (batches : list (list CommandObject)) :=
  run_summary (d ← demo_start n batches;
    @runJobsTillCompletionAndShutdownWorkers true nat _ _ (demo_round RTimeout 100) rounds d).

Example demo_run_ends : demo_run demo_rounds 1 [[demo_command 0; demo_command 1]] = Some (true, 2, 0%nat, 0%nat).
Proof. by vm_compute. Qed.


Definition demo_batches : list (list CommandObject) := [[demo_command 0; demo_command 1]].

Lemma demo_batches_ok : batches_ok demo_batches ∅.
Proof.
  split_and!; [repeat (apply Forall_cons; split; [done|]); by apply Forall_nil
              |apply (bool_decide_unpack _); by vm_compute| |by intros j ?%not_elem_of_empty].
  intros c _. apply not_elem_of_empty.
Qed.

Lemma driver_run_safe_witness :
  exists d, demo_start 1 demo_batches = Ok d
    /\ match @runJobsTillCompletionAndShutdownWorkers true nat _ _ (demo_round RTimeout 100) demo_rounds d with
       | Ok (Finished d' rc) => finished d' /\ length (workers (scheduler d')) = 1%nat
       | _ => False
       end.
Proof.
  destruct (@driver_run_safe true nat _ _ _ (demo_round RTimeout 100) demo_rounds (demo_driver_options 1) (lit "d") 2
    demo_batches (fun w => w)) as (d & Hd & H); [done|cbn; lia|apply demo_batches_ok|].
  exists d. split; [exact Hd|].
  assert (legal_from_start (BM:=true) demo_rounds d) as Hlegal.
  { apply (startb_sound false _ (demo_start 1 demo_batches)); [by repeat constructor|by vm_compute|exact Hd]. }
  specialize (H Hlegal).
  assert (run_summary (d ← demo_start 1 demo_batches;
    @runJobsTillCompletionAndShutdownWorkers true nat _ _ (demo_round RTimeout 100) demo_rounds d)
    = Some (true, 2, 0%nat, 0%nat)) as Hsum by (by vm_compute).
  unfold demo_start in Hsum. rewrite Hd bind_Ok in Hsum.
  destruct (runJobsTillCompletionAndShutdownWorkers _ _ _) as [[d' rc|d' rc]|e]; [|discriminate Hsum|discriminate Hsum].
  destruct H as (Hfin & Hlen & _). split; [exact Hfin|exact Hlen].
Defined.

Lemma driver_run_terminates_witness :
  exists d, demo_start 1 demo_batches = Ok d
    /\ (@runJobsTillCompletionAndShutdownWorkers true nat _ _ (demo_round RTimeout 100)
          (demo_rounds ++ [demo_round RTimeout 4]) d = Err (Exit 1)
       \/ exists d' rc, @runJobsTillCompletionAndShutdownWorkers true nat _ _ (demo_round RTimeout 100)
          (demo_rounds ++ [demo_round RTimeout 4]) d = Ok (Finished d' rc)).
Proof.
  destruct (@driver_run_terminates true nat _ _ _ (demo_round RTimeout 100) (demo_rounds ++ [demo_round RTimeout 4])
    (demo_driver_options 1) (lit "d") 2 demo_batches (fun w => w)) as (d & Hd & H); [done|cbn; lia|apply demo_batches_ok|].
  exists d. split; [exact Hd|].
  assert (legal_from_start (BM:=true) (demo_rounds ++ [demo_round RTimeout 4]) d
    /\ (true = true -> progress_from_start (BM:=true) (demo_rounds ++ [demo_round RTimeout 4]) d)) as [Hl Hp].
  { apply (startb_sound true _ (demo_start 1 demo_batches)); [rewrite !Forall_cons; by split_and!|by vm_compute|exact Hd]. }
  apply H; [exact Hl|by apply Hp|cbn; lia].
Defined.

(** A run that has just asked for its first batch. *)
Definition demo_refilled : result (Driver nat (list (list CommandObject)) * nat) :=
  d ← demo_start 1 demo_batches; refillJobs (BM:=true) d.

Lemma demo_refilled_inv : exists d, demo_refilled = Ok (d, 2%nat) /\ DInv d [] /\ LoopInv d 2
  /\ pendingJobs (scheduler d) <> [].
Proof.
  destruct (@Driver_start_ok true nat _ _ batch_source_laws (demo_driver_options 1) (lit "d") 2 demo_batches (fun w => w) demo_batches_ok)
    as (d & Hd & H & Hpar & Hopt & Hlen & Hpend & Hstop).
  destruct (refillJobs_ok (BM:=true) d [] H) as (d1 & n & Hr & H1 & Hl & _ & Hn & F & _ & Hst & _).
  assert (demo_refilled = Ok (d1, n)) as E.
  { unfold demo_refilled, demo_start. by rewrite Hd bind_Ok. }
  assert (snd <$> demo_refilled = Ok 2%nat) as E2 by (by vm_compute).
  rewrite E in E2. injection E2 as ->. exists d1. split_and!; [done..| |].
  - split; [done|by rewrite Hst Hstop|destruct F as (_ & -> & _); rewrite Hlen; cbn; lia].
  - intros E3. rewrite E3 Hpend in Hl. done.
Qed.

(** The worker got its job: its answer is due. *)
Definition demo_assigned : result (Driver nat (list (list CommandObject))) :=
  '(d, rc) ← demo_refilled; use_idle_workers (BM:=true) (demo_round RTimeout 0) d.

Lemma demo_assigned_inv : exists d busy, demo_assigned = Ok d /\ DInv d busy.
Proof.
  destruct demo_refilled_inv as (d & Hd & H & L & Hp).
  destruct (use_idle_workers_ok (BM:=true) (demo_round RTimeout 0) d [] 2 H L) as (d' & busy' & Hu & H' & _); [done|by left|done|].
  exists d', busy'. split; [|done]. unfold demo_assigned. by rewrite Hd bind_Ok.
Qed.

(** The worker took too long and was killed. *)
Definition demo_timed_out : result (Driver nat (list (list CommandObject)) * nat) :=
  '(d, rc) ← demo_refilled; iteration (BM:=true) (demo_round RTimeout 0) d rc.

Lemma demo_timed_out_inv : exists d rc busy, demo_timed_out = Ok (d, rc) /\ DInv d busy.
Proof.
  destruct demo_refilled_inv as (d & Hd & H & L & Hp).
  destruct (iteration_ok (BM:=true) (demo_round RTimeout 0) d [] 2 H L) as (d' & rc' & busy' & Hi & H' & _); [done|done|by left|].
  exists d', rc', busy'. split; [|done]. unfold demo_timed_out. by rewrite Hd bind_Ok.
Qed.

Lemma late_result_dropped_witness :
  exists d rc, demo_timed_out = Ok (d, rc)
    /\ processWorkerResponse (BM:=true) (demo_round RTimeout 0) d (demo_sema_response 0 0)
       = Ok (set_scheduler d (set_errored (scheduler d) (maybeErroredJobs (scheduler d) ∖ {[newTask 0]}))).
Proof.
  destruct demo_timed_out_inv as (d & rc & busy & Hd & H). exists d, rc. split; [exact Hd|].
  assert (match demo_timed_out with
    | Ok (d, _) => legalb d (demo_sema_response 0 0) && bool_decide (newTask 0 ∈ maybeErroredJobs (scheduler d))
    | Err _ => false end = true) as Hc by (by vm_compute).
  rewrite Hd in Hc. apply andb_true_iff in Hc as [Hl He%bool_decide_eq_true].
  apply (late_result_dropped (BM:=true) (demo_round RTimeout 0) d busy (demo_sema_response 0 0) H);
    [by apply legalb_sound|exact He].
Defined.

Lemma emit_send_error_crashes_witness :
  exists d, demo_assigned = Ok d
    /\ processWorkerResponse (BM:=true) (mkRound RTimeout (fun _ _ => false) (fun _ => 0) 0 (fun p _ => p)) d
         (demo_sema_response 0 0) = Err BadOptionalAccess.
Proof.
  destruct demo_assigned_inv as (d & busy & Hd & H). exists d. split; [exact Hd|].
  assert (match demo_assigned with
    | Ok d => legalb d (demo_sema_response 0 0) && bool_decide (newTask 0 ∈ wipJobs (scheduler d))
    | Err _ => false end = true) as Hc by (by vm_compute).
  rewrite Hd in Hc. apply andb_true_iff in Hc as [Hl He%bool_decide_eq_true].
  apply (emit_send_error_crashes (BM:=true) (mkRound RTimeout (fun _ _ => false) (fun _ => 0) 0 (fun p _ => p))
    d busy (demo_sema_response 0 0) H); [by apply legalb_sound|exact He|done|done].
Defined.

Lemma iteration_refines_lifecycle_witness :
  exists d d' rc', demo_refilled = Ok (d, 2%nat) /\ iteration (BM:=true) (demo_round RTimeout 0) d 2 = Ok (d', rc')
    /\ rtc lifecycle (phase (scheduler d) (newTask 0)) (phase (scheduler d') (newTask 0)).
Proof.
  destruct demo_refilled_inv as (d & Hd & H & L & Hp).
  destruct (iteration_refines_lifecycle (BM:=true) (demo_round RTimeout 0) d [] 2 H L) as (d' & rc' & Hi & Hph & _);
    [done|done|by left|].
  exists d, d', rc'. split; [exact Hd|]. split; [exact Hi|]. apply Hph.
Defined.
