(* ===== verification/System.v ===== *)
(** * Driver and workers together

    The driver's theorems assume that workers answer what they were asked ([legal]).
    Here the workers run: every worker has a queue of requests and a process that takes
    them one by one, as the worker's theorems say ([WorkerProtocol.serve]); its results
    go to one queue that the driver reads.  Steps of workers and of the driver interleave
    in any order.  A process may crash while it works on a request; the driver kills
    processes that take too long, and their successors find the queue as it was left.

    What is assumed is that a process takes a request before it is killed, and that it
    does not give up waiting.  Then the two sides stay in step: every process is asked
    what it waits for, no queue ever holds a second message, so that no send blocks, and
    all results are legal.  Without the first assumption this fails
    ([stale_request_confuses_successor]). *)
From S2P Require Import Prelude Ordering CppString Paths Json PackageMaps IdPaths.
From S2P Require Import CommandLine Compdb Toolchains CompdbParser Ipc Planner Scheduler Driver.

(** ** Processes *)

(** Waiting for a request of a kind, working on one, or gone. *)
Inductive Proc : Type := Expecting (kind : Kind) | Working (request : IndexJobRequest) | Gone.

Definition other_kind (k : Kind) : Kind :=
  match k with SemanticAnalysis => EmitIndex | EmitIndex => SemanticAnalysis end.

Inductive Label : Type := Take (request : IndexJobRequest) | Answer (response : IndexJobResponse) | Crash.

(** The answer of worker [w] to a request. *)
Record answers (w : nat) (request : IndexJobRequest) (response : IndexJobResponse) : Prop := {
  ans_worker : response_workerId response = Z.of_nat w;
  ans_job : response_jobId response = request_id request;
  ans_kind : result_kind (response_result response) = job_kind (request_job request);
  ans_sema : SemaResult_wf (result_semanticAnalysis (response_result response))
}.

(** A request of the wrong kind has no step: the process would stop at an [ENFORCE]. *)
Inductive proc_step (w : nat) : Proc -> Label -> Proc -> Prop :=
| proc_take request :
    request_id request <> Shutdown ->
    proc_step w (Expecting (job_kind (request_job request))) (Take request) (Working request)
| proc_shutdown k request :
    request_id request = Shutdown -> proc_step w (Expecting k) (Take request) Gone
| proc_answer request response :
    answers w request response ->
    proc_step w (Working request) (Answer response) (Expecting (other_kind (job_kind (request_job request))))
| proc_crash request : proc_step w (Working request) Crash Gone.

(** ** The world of the driver *)
Record Slot : Type := mkSlot { slot_queue : list IndexJobRequest; slot_proc : Proc }.
Record World : Type := mkWorld { slots : list Slot; results : list IndexJobResponse }.

Definition fresh_slot : Slot := mkSlot [] (Expecting SemanticAnalysis).
Definition World_new (n : nat) : World := mkWorld (replicate n fresh_slot) [].

Inductive worker_step (W : World) : World -> Prop :=
| step_take w request queue p p' :
    slots W !! w = Some (mkSlot (request :: queue) p) -> proc_step w p (Take request) p' ->
    worker_step W (mkWorld (<[w := mkSlot queue p']> (slots W)) (results W))
| step_answer w queue p response p' :
    slots W !! w = Some (mkSlot queue p) -> proc_step w p (Answer response) p' ->
    worker_step W (mkWorld (<[w := mkSlot queue p']> (slots W)) (results W ++ [response]))
| step_crash w queue p p' :
    slots W !! w = Some (mkSlot queue p) -> proc_step w p Crash p' ->
    worker_step W (mkWorld (<[w := mkSlot queue p']> (slots W)) (results W)).

(** A message to a worker. *)
Definition enqueue (request : IndexJobRequest) (s : Slot) : Slot :=
  mkSlot (slot_queue s ++ [request]) (slot_proc s).
Definition deliver (W : World) (messages : list (nat * IndexJobRequest)) : World :=
  mkWorld (foldl (fun ss '(w, request) => alter (enqueue request) w ss) (slots W) messages) (results W).

(** A new process for the workers in [killed]; what was not read stays. *)
Definition restart_slot (killed : nat -> bool) (w : nat) (s : Slot) : Slot :=
  if killed w then mkSlot (slot_queue s) (Expecting SemanticAnalysis) else s.
Definition restart (killed : nat -> bool) (W : World) : World :=
  mkWorld (imap (restart_slot killed) (slots W)) (results W).

Section System.
Context `{BM : BuildMode} {Process P : Type} `{JS : !JobSource P, JL : !JobSourceLaws P}.
Implicit Types (d : Driver Process P).

(** What an operation of the driver sent, and whom it killed. *)
Definition newly_sent d d' : list (nat * IndexJobRequest) := drop (length (sent d)) (sent d').
Definition was_killed (s s' : Scheduler Process) (w : nat) : bool :=
  bool_decide (status <$> workers s !! w = Some Busy) && negb (bool_decide (status <$> workers s' !! w = Some Busy)).

(** *** The two sides in step

    [in_flight] is where the request that worker [w] is busy with can be. *)
Inductive in_flight (res : list IndexJobResponse) (request : IndexJobRequest) : Slot -> Prop :=
| flight_queued : request_id request ∉ map response_jobId res ->
    in_flight res request (mkSlot [request] (Expecting (job_kind (request_job request))))
| flight_working : request_id request ∉ map response_jobId res ->
    in_flight res request (mkSlot [] (Working request))
| flight_lost : request_id request ∉ map response_jobId res -> in_flight res request (mkSlot [] Gone)
| flight_answered : request_id request ∈ map response_jobId res ->
    in_flight res request (mkSlot [] (Expecting (other_kind (job_kind (request_job request))))).

Inductive slot_ok d (res : list IndexJobResponse) (w : nat) (s : Slot) : Prop :=
| slot_idle : worker_is (scheduler d) w Idle None -> s = fresh_slot -> slot_ok d res w s
| slot_busy request : worker_is (scheduler d) w Busy (Some (request_id request)) ->
    (w, request) ∈ sent d -> request_id request <> Shutdown -> in_flight res request s -> slot_ok d res w s
| slot_stopped : worker_is (scheduler d) w Stopped None ->
    s = mkSlot [shutdown_request] (Expecting SemanticAnalysis) \/ s = mkSlot [] Gone -> slot_ok d res w s.

Record in_step d (W : World) : Prop := {
  is_length : length (slots W) = length (workers (scheduler d));
  is_slots w s : slots W !! w = Some s -> slot_ok d (results W) w s;
  is_results r : r ∈ results W -> exists w request,
    (w, request) ∈ sent d /\ request_id request <> Shutdown /\ answers w request r;
  is_nodup : NoDup (map response_jobId (results W) ++ answered d)
}.

(** A result that waits for the driver is legal. *)
Lemma in_step_legal d W r : in_step d W -> r ∈ results W -> legal d r.
Proof.
  intros H Hr. destruct (is_results _ _ H r Hr) as (w & request & Hsent & Hns & [Hw Hj Hk Hwf]).
  exists w, request. split_and!; try done.
  pose proof (is_nodup _ _ H) as Hnd. apply NoDup_app in Hnd as (_ & Hd & _). apply Hd.
  apply list_elem_of_fmap. by exists r.
Qed.

(** No queue holds a second message, and a process is asked what it waits for. *)
Lemma in_step_queue d W w s : in_step d W -> slots W !! w = Some s ->
  (length (slot_queue s) <= 1)%nat
  /\ forall request queue, slot_queue s = request :: queue -> exists p', proc_step w (slot_proc s) (Take request) p'.
Proof.
  intros H Hs. destruct (is_slots _ _ H w s Hs) as [_ ->|req _ _ Hns Hf|_ [->| ->]].
  - split; [cbn; lia|done].
  - destruct Hf; cbn; (split; [lia|]); try done. intros request queue [= <- _]. eexists. by constructor.
  - split; [cbn; lia|]. intros request queue [= <- _]. eexists. by apply proc_shutdown.
  - split; [cbn; lia|done].
Qed.

Lemma busy_unique d busy w w' j : DInv d busy ->
  worker_is (scheduler d) w Busy (Some j) -> worker_is (scheduler d) w' Busy (Some j) -> w = w'.
Proof.
  intros H. assert (forall w, worker_is (scheduler d) w Busy (Some j) -> exists t,
    allJobList (scheduler d) !! j = Some t /\ assignedWorker t = Some w) as Hb.
  { intros v Hv. pose proof Hv as (wi & Hwi & Hst & _).
    destruct (Inv_status_busy _ _ v wi (di_inv _ _ H) Hwi Hst) as [j' Hin].
    destruct (worker_is_unique _ _ _ _ _ _ Hv (inv_busy _ _ (di_inv _ _ H) v j' Hin)) as [_ [= <-]].
    by apply (inv_assigned _ _ (di_inv _ _ H)). }
  intros (t & Ht & Hw)%Hb (t' & Ht' & Hw')%Hb. congruence.
Qed.

(** The job of a busy worker is not answered. *)
Lemma busy_wip d busy w j : DInv d busy -> worker_is (scheduler d) w Busy (Some j) -> j ∈ wipJobs (scheduler d).
Proof.
  intros H Hw. pose proof Hw as (wi & Hwi & Hst & _).
  destruct (Inv_status_busy _ _ w wi (di_inv _ _ H) Hwi Hst) as [j' Hin].
  destruct (worker_is_unique _ _ _ _ _ _ Hw (inv_busy _ _ (di_inv _ _ H) w j' Hin)) as [_ [= ->]].
  apply (inv_wip _ _ (di_inv _ _ H)), list_elem_of_fmap. by exists (w, j').
Qed.
Lemma busy_not_answered d busy w j : DInv d busy -> worker_is (scheduler d) w Busy (Some j) -> j ∉ answered d.
Proof. intros H Hw%(busy_wip _ _ _ _ H) Ha. by apply (di_answered _ _ H) in Ha as [? _]. Qed.

Lemma in_flight_same res res' request s :
  (request_id request ∈ map response_jobId res' <-> request_id request ∈ map response_jobId res) ->
  in_flight res request s -> in_flight res' request s.
Proof. intros Hr []; constructor; tauto. Qed.

(** What happens elsewhere does not matter for a slot. *)
Lemma slot_ok_frame d d' res res' w s :
  workers (scheduler d') !! w = workers (scheduler d) !! w ->
  (forall m, m ∈ sent d -> m ∈ sent d') ->
  (forall j, worker_is (scheduler d) w Busy (Some j) ->
     j ∈ map response_jobId res' <-> j ∈ map response_jobId res) ->
  slot_ok d res w s -> slot_ok d' res' w s.
Proof.
  intros Hw Hsent Hres H.
  assert (forall st j, worker_is (scheduler d) w st j -> worker_is (scheduler d') w st j) as Hwi
    by (intros st j (wi & Hwi & ?); exists wi; by rewrite Hw).
  destruct H as [? ?|request Hb ? ? Hf|? ?].
  - apply slot_idle; auto.
  - apply slot_busy with request; auto. eapply in_flight_same; [|exact Hf]. by apply Hres.
  - apply slot_stopped; auto.
Qed.

Lemma slot_ok_status d res w s : slot_ok d res w s -> exists st j, worker_is (scheduler d) w st j
  /\ match st with Busy => is_Some j | _ => j = None end.
Proof. intros []; do 2 eexists; (split; [eassumption|]); [done|by eexists|done]. Qed.

(** *** Steps of workers *)
Lemma worker_step_in_step d busy W W' : DInv d busy -> in_step d W -> worker_step W W' -> in_step d W'.
Proof.
  intros HD H Hstep.
  assert (forall w s s', slots W !! w = Some s -> slot_ok d (results W) w s' ->
    in_step d (mkWorld (<[w := s']> (slots W)) (results W))) as Hquiet.
  { intros w s s' Hs Hok. destruct H as [H1 H2 H3 H4]. split; cbn; try done; [by rewrite length_insert|].
    intros w' s2. rewrite list_lookup_insert. case_decide as Hd; [by intros [= <-]; destruct Hd as [<- _]|apply H2]. }
  destruct Hstep as [w request queue p p' Hs Hp|w queue p r p' Hs Hp|w queue p p' Hs Hp].
  - apply (Hquiet w _ _ Hs). destruct (is_slots _ _ H w _ Hs) as [_ Hi|req Hb Hin Hns Hf|Hst [Hi|Hi]];
      [discriminate Hi| |injection Hi as -> -> ->|discriminate Hi].
    + inversion Hf; subst. inversion Hp; subst; [|done]. eapply slot_busy; [exact Hb|exact Hin|exact Hns|by constructor].
    + inversion Hp; subst; [done|]. apply slot_stopped; [done|by right].
  - inversion Hp as [| |request ? Ha|]; subst.
    destruct (is_slots _ _ H w _ Hs) as [_ Hi|req Hb Hin Hns Hf|_ [Hi|Hi]]; [discriminate Hi| |discriminate Hi|discriminate Hi].
    inversion Hf as [|Hfresh| |]; subst.
    pose proof (ans_job _ _ _ Ha) as Hj. destruct H as [H1 H2 H3 H4]. split; cbn.
    + by rewrite length_insert.
    + intros w' s2. rewrite list_lookup_insert. case_decide as Hd.
      * intros [= <-]. destruct Hd as [<- _]. eapply slot_busy; [exact Hb|exact Hin|exact Hns|]. constructor.
        rewrite map_app elem_of_app /= Hj. right. by left.
      * intros Hs2. assert (w <> w') as Hne.
        { intros ->. apply Hd. split; [done|]. by apply lookup_lt_Some in Hs. }
        eapply slot_ok_frame; [done|done| |by apply H2]. intros j Hjw. rewrite map_app elem_of_app /= list_elem_of_singleton Hj.
        split; [|tauto]. intros [?| ->]; [done|]. by destruct (Hne (busy_unique _ _ _ _ _ HD Hb Hjw)).
    + intros r' [Hr'| ->%list_elem_of_singleton]%elem_of_app; [by apply H3|]. eexists w, _. by split_and!.
    + rewrite map_app -app_assoc /= -Permutation_middle Hj. constructor; [|done].
      rewrite elem_of_app. intros [?|Ha']; [done|]. by apply (busy_not_answered _ _ _ _ HD Hb).
  - inversion Hp; subst. apply (Hquiet w _ _ Hs).
    destruct (is_slots _ _ H w _ Hs) as [_ Hi|req Hb Hin Hns Hf|_ [Hi|Hi]]; [discriminate Hi| |discriminate Hi|discriminate Hi].
    inversion Hf; subst. eapply slot_busy; [exact Hb|exact Hin|exact Hns|by constructor].
Qed.

(** *** Steps of the driver *)
Lemma deliver_app W l1 l2 : deliver W (l1 ++ l2) = deliver (deliver W l1) l2.
Proof. unfold deliver. by rewrite foldl_app. Qed.
Lemma deliver_nil W : deliver W [] = W.
Proof. by destruct W. Qed.
Lemma newly_sent_app d d' l : sent d' = sent d ++ l -> newly_sent d d' = l.
Proof. unfold newly_sent. intros ->. apply drop_app_length. Qed.

Lemma is_results_mono d d' (res : list IndexJobResponse) :
  (forall m, m ∈ sent d -> m ∈ sent d') ->
  (forall r, r ∈ res -> exists w request, (w, request) ∈ sent d /\ request_id request <> Shutdown /\ answers w request r) ->
  forall r, r ∈ res -> exists w request, (w, request) ∈ sent d' /\ request_id request <> Shutdown /\ answers w request r.
Proof. intros Hs Hres r Hr. destruct (Hres r Hr) as (w & request & ? & ? & ?). exists w, request. auto. Qed.

(** A job that was never sent has no result. *)
Lemma unsent_no_result d W j : in_step d W -> (forall m, m ∈ sent d -> request_id m.2 <> j) ->
  j ∉ map response_jobId (results W).
Proof.
  intros H Hnew (r & -> & Hr)%list_elem_of_fmap. destruct (is_results _ _ H r Hr) as (w & request & Hin & _ & Ha).
  apply (Hnew _ Hin). by rewrite (ans_job _ _ _ Ha).
Qed.

Lemma idle_slot d W w s : in_step d W -> worker_is (scheduler d) w Idle None -> slots W !! w = Some s -> s = fresh_slot.
Proof.
  intros H Hw Hs. destruct (is_slots _ _ H w s Hs) as [? ?|request Hb|Hst]; [done| |].
  - by destruct (worker_is_unique _ _ _ _ _ _ Hw Hb).
  - by destruct (worker_is_unique _ _ _ _ _ _ Hw Hst).
Qed.

Lemma handed_in_step d d' W w req st j : in_step d W -> handed d d' w req st j ->
  length (workers (scheduler d')) = length (workers (scheduler d)) ->
  slot_ok d' (results W) w (enqueue req fresh_slot) -> in_step d' (deliver W [(w, req)]).
Proof.
  intros H [Hidle _ Ho Hs Ha] Hlen Hok.
  assert (forall m, m ∈ sent d -> m ∈ sent d') as Hmono by (intros m; rewrite Hs elem_of_app; tauto).
  split; cbn [deliver foldl slots results].
  - rewrite length_alter Hlen. apply H.
  - intros w' s' Hw'. destruct (decide (w' = w)) as [->|Hne].
    + rewrite list_lookup_alter_eq in Hw'. destruct (slots W !! w) as [s|] eqn:Es; [|done]. injection Hw' as <-.
      by rewrite (idle_slot d W w s H Hidle Es).
    + rewrite list_lookup_alter_ne // in Hw'. eapply slot_ok_frame; [by apply Ho|done|done|by apply H].
  - eapply is_results_mono; [exact Hmono|apply H].
  - rewrite Ha. apply H.
Qed.

Lemma hands_in_step d d' W : in_step d W -> hands d d' ->
  length (workers (scheduler d')) = length (workers (scheduler d)) ->
  exists m, sent d' = sent d ++ [m] /\ in_step d' (deliver W [m]).
Proof.
  intros H [w req Hh Hns Hk Hnew|w Hh] Hlen; (eexists; split; [exact (hd_sent _ _ _ _ _ _ Hh)|]);
    (eapply handed_in_step; [exact H|exact Hh|exact Hlen|]).
  - eapply slot_busy; [exact (hd_record _ _ _ _ _ _ Hh)| |exact Hns|].
    + rewrite (hd_sent _ _ _ _ _ _ Hh) elem_of_app list_elem_of_singleton. by right.
    + unfold enqueue, fresh_slot. cbn. rewrite -Hk. constructor. by apply (unsent_no_result d).
  - apply slot_stopped; [exact (hd_record _ _ _ _ _ _ Hh)|by left].
Qed.

Lemma hands_length d d' : hands d d' -> length (workers (scheduler d')) = length (workers (scheduler d)).
Proof.
  assert (forall w req st j, handed d d' w req st j -> length (workers (scheduler d')) = length (workers (scheduler d))) as Hl.
  { intros w req st j [(wi & Hwi & _) (wi' & Hwi' & _) Ho _ _].
    assert (forall w', is_Some (workers (scheduler d') !! w') <-> is_Some (workers (scheduler d) !! w')) as Hd.
    { intros w'. destruct (decide (w' = w)) as [->|Hne]; [|by rewrite Ho].
      rewrite Hwi Hwi'. split; by eexists. }
    apply Nat.le_antisymm; apply Nat.nlt_ge; intros Hlt; apply lookup_lt_is_Some in Hlt; apply Hd in Hlt;
      apply lookup_lt_is_Some in Hlt; lia. }
  destruct 1; eauto.
Qed.

Lemma rtc_hands_in_step d d' : rtc hands d d' -> forall W, in_step d W -> in_step d' (deliver W (newly_sent d d')).
Proof.
  intros Hr. enough (forall W, in_step d W -> exists l, sent d' = sent d ++ l /\ in_step d' (deliver W l)) as He.
  { intros W (l & Hs & Hi)%He. by rewrite (newly_sent_app _ _ _ Hs). }
  induction Hr as [d|d d1 d2 H1 _ IH]; intros W H.
  - exists []. by rewrite app_nil_r deliver_nil.
  - destruct (hands_in_step _ _ _ H H1 (hands_length _ _ H1)) as (m & Hs & Hi).
    destruct (IH _ Hi) as (l & Hs' & Hi'). exists (m :: l). rewrite Hs' Hs -app_assoc. split; [done|].
    by rewrite (deliver_app W [m] l).
Qed.

(** A job has one request. *)
Lemma one_request d busy w w' req req' : DInv d busy ->
  (w, req) ∈ sent d -> (w', req') ∈ sent d -> request_id req <> Shutdown -> request_id req = request_id req' ->
  request_job req = request_job req'.
Proof.
  intros H Hin Hin' Hns E. destruct (di_sent _ _ H w req Hin Hns) as (t & Ht & <- & _).
  destruct (di_sent _ _ H w' req' Hin') as (t' & Ht' & <- & _); [by rewrite -E|]. congruence.
Qed.

(** A result that arrives in time was the answer of a process that now expects the other
    kind of request, and has none. *)
Lemma timely_slot d busy W r rs w s : DInv d busy -> in_step d W -> results W = r :: rs ->
  worker_is (scheduler d) w Busy (Some (response_jobId r)) -> slots W !! w = Some s ->
  s = mkSlot [] (Expecting (other_kind (result_kind (response_result r)))).
Proof.
  intros HD H Hr Hw Hs. assert (r ∈ results W) as Hin by (rewrite Hr; by left).
  assert (response_jobId r ∈ map response_jobId (results W)) as Hj by (apply list_elem_of_fmap; by exists r).
  destruct (is_slots _ _ H w s Hs) as [Hi|request Hb Hsent Hns Hf|Hst].
  - by destruct (worker_is_unique _ _ _ _ _ _ Hw Hi).
  - destruct (worker_is_unique _ _ _ _ _ _ Hw Hb) as [_ [= E]]. rewrite E in Hj. destruct Hf; try done.
    destruct (is_results _ _ H r Hin) as (w2 & req2 & Hin2 & Hns2 & Ha). do 2 f_equal.
    rewrite (ans_kind _ _ _ Ha) (one_request d busy w2 w req2 request) //. by rewrite -(ans_job _ _ _ Ha).
  - by destruct (worker_is_unique _ _ _ _ _ _ Hw Hst).
Qed.

Lemma receive_in_step d busy W r rs d' : DInv d busy -> in_step d W -> results W = r :: rs ->
  settles d r d' -> length (workers (scheduler d')) = length (workers (scheduler d)) ->
  in_step d' (deliver (mkWorld (slots W) rs) (newly_sent d d')).
Proof.
  intros HD H Hr (Ha & _ & Hset) Hlen. pose proof (is_nodup _ _ H) as Hnd. rewrite Hr /= in Hnd.
  assert (NoDup (map response_jobId rs ++ answered d')) as Hnd'.
  { rewrite Ha app_assoc (Permutation_app_comm _ [_]). exact Hnd. }
  assert (forall r', r' ∈ rs -> r' ∈ results W) as Hrs by (intros r'; rewrite Hr; by right).
  assert (forall j, j <> response_jobId r -> j ∈ map response_jobId rs <-> j ∈ map response_jobId (results W)) as Hsame
    by (intros j Hj; rewrite Hr /= elem_of_cons; tauto).
  case_bool_decide as Hwip.
  - destruct Hset as (w & _ & Hb & Ho & Hk).
    assert (forall m, m ∈ sent d -> m ∈ sent d') as Hmono.
    { destruct (result_kind _); [destruct Hk as (req & -> & _)|by destruct Hk as [-> _]].
      intros m Hm. rewrite elem_of_app. by left. }
    assert (forall w' s, w' <> w -> slots W !! w' = Some s -> slot_ok d' rs w' s) as Hothers.
    { intros w' s Hne Hs. eapply slot_ok_frame; [by apply Ho|done| |by apply H]. intros j Hj. apply Hsame. intros ->.
      by destruct (Hne (busy_unique _ _ _ _ _ HD Hj Hb)). }
    assert (forall s, slots W !! w = Some s -> s = mkSlot [] (Expecting (other_kind (result_kind (response_result r)))))
      as Hslot by (intros s; by eapply timely_slot).
    assert (forall r', r' ∈ rs -> exists w request, (w, request) ∈ sent d' /\ request_id request <> Shutdown
      /\ answers w request r') as Hres by (eapply is_results_mono; [exact Hmono|intros r' Hr'; by apply H, Hrs]).
    destruct (result_kind (response_result r)).
    + destruct Hk as (req & Hs & Hkr & Hns & Hnew & Hb'). rewrite (newly_sent_app _ _ _ Hs).
      split; cbn [deliver foldl slots results]; [by rewrite length_alter Hlen; apply H| |done|done].
      intros w' s' Hw'. destruct (decide (w' = w)) as [->|Hne].
      * rewrite list_lookup_alter_eq in Hw'. destruct (slots W !! w) as [s|] eqn:Es; [|done]. injection Hw' as <-.
        rewrite (Hslot _ eq_refl). eapply slot_busy; [exact Hb'|rewrite Hs elem_of_app list_elem_of_singleton; by right|exact Hns|].
        unfold enqueue. cbn. rewrite -Hkr. constructor. intros Hin. apply (unsent_no_result d W _ H Hnew). rewrite Hr. by right.
      * rewrite list_lookup_alter_ne // in Hw'. by apply Hothers.
    + destruct Hk as [Hs Hi]. rewrite (newly_sent_app _ _ []); [by rewrite app_nil_r|]. rewrite deliver_nil.
      split; cbn; [by rewrite Hlen; apply H| |done|done]. intros w' s' Hw'. destruct (decide (w' = w)) as [->|Hne]; [|by apply Hothers].
      rewrite (Hslot _ Hw'). by apply slot_idle.
  - destruct Hset as [Hs Hw]. rewrite (newly_sent_app _ _ []); [by rewrite app_nil_r|]. rewrite deliver_nil.
    split; cbn; [by rewrite Hlen; apply H| | |done].
    + intros w s Hsl. eapply slot_ok_frame; [by rewrite Hw|by rewrite Hs| |by apply H].
      intros j Hj. apply Hsame. intros ->. by apply Hwip, (busy_wip _ _ _ _ HD Hj).
    + eapply is_results_mono; [by rewrite Hs|intros r' Hr'; by apply H, Hrs].
Qed.

Lemma end_in_step before l d busy s' busy' W : DInv d busy -> in_step d W ->
  terminated before l (scheduler d) busy s' busy' ->
  (forall w s, was_killed (scheduler d) s' w = true -> slots W !! w = Some s -> slot_queue s = []) ->
  in_step (set_scheduler d s') (restart (was_killed (scheduler d) s') W).
Proof.
  intros HD H T Hq. destruct H as [H1 H2 H3 H4]. split; cbn [restart slots results]; try done.
  { by rewrite length_imap H1 (tm_length _ _ _ _ _ _ T). }
  intros w s. rewrite list_lookup_imap. intros (s0 & Hs0 & ->)%fmap_Some. unfold restart_slot.
  pose proof (H2 w s0 Hs0) as Hok. destruct (slot_ok_status _ _ _ _ Hok) as (st & j & (wi & Hwi & Hst & Hj) & _).
  destruct (was_killed (scheduler d) s' w) eqn:Ek.
  - rewrite (Hq w s0 Ek Hs0). apply slot_idle; [|done]. apply andb_true_iff in Ek as [Eb En].
    apply bool_decide_eq_true in Eb. apply negb_true_iff, bool_decide_eq_false in En.
    rewrite Hwi in Eb. injection Eb as Eb.
    apply (Inv_neither_busy_nor_stopped s' busy'); [apply T|cbn; rewrite (tm_length _ _ _ _ _ _ T); by eapply lookup_lt_Some| |].
    + intros j' Hin. destruct (inv_busy _ _ (tm_inv _ _ _ _ _ _ T) w j' Hin) as (wi' & Hwi' & Hst' & _).
      apply En. by rewrite Hwi' /= Hst'.
    + rewrite (tm_stopped _ _ _ _ _ _ T). intros Hin.
      destruct (inv_stopped _ _ (di_inv _ _ HD) w Hin) as (wi' & Hwi' & Hst' & _). congruence.
  - apply (slot_ok_frame d _ (results W)); [|done|done|exact Hok]. apply (tm_workers _ _ _ _ _ _ T). intros (Hl & Hlate & j' & Hin).
    destruct (inv_busy _ _ (di_inv _ _ HD) w j' Hin) as (wi' & Hwi' & Hst' & _). 
    unfold was_killed in Ek. rewrite Hwi' /= Hst' bool_decide_true // andb_true_l in Ek.
    apply negb_false_iff, bool_decide_eq_true in Ek.
    destruct (workers s' !! w) as [wi2|] eqn:Hwi2; [|done]. injection Ek as Ek.
    destruct (Inv_status_busy _ _ w wi2 (tm_inv _ _ _ _ _ _ T) Hwi2 Ek) as [j2 Hin2].
    apply (tm_busy _ _ _ _ _ _ T) in Hin2 as [_ Hn]. by apply Hn.
Qed.

(** Getting new jobs from the parser concerns no worker. *)
Lemma queueSemaTask_workers (s s' : Scheduler Process) c : queueSemaTask s c = Ok s' -> workers s' = workers s.
Proof.
  unfold queueSemaTask. destruct (jobs_emplace _ _ _). intros (_ & _ & <-%Ok_inj)%bind_Ok_inv. done.
Qed.
Lemma refillJobs_frame d d' n : refillJobs d = Ok (d', n) ->
  workers (scheduler d') = workers (scheduler d) /\ queues d' = queues d.
Proof.
  unfold refillJobs. intros ([p cs] & _ & (s & Hs & [= <- _])%bind_Ok_inv)%bind_Ok_inv. split; [|done]. cbn.
  apply (foldM_invariant (fun t => workers t = workers (scheduler d)) _ _ _ _) in Hs; [done| |done].
  intros t c t' _ <- Ht. by apply queueSemaTask_workers in Ht.
Qed.
Lemma refill_if_needed_frame d d' rc rc' : refill_if_needed d rc = Ok (d', rc') ->
  workers (scheduler d') = workers (scheduler d) /\ queues d' = queues d.
Proof.
  unfold refill_if_needed. case_match; [|by intros [= <- _]].
  intros ([d1 k] & Hr & (_ & _ & [= <- _])%bind_Ok_inv)%bind_Ok_inv. by apply refillJobs_frame in Hr.
Qed.
Lemma in_step_frame d d' W : workers (scheduler d') = workers (scheduler d) -> queues d' = queues d ->
  in_step d W -> in_step d' W.
Proof.
  intros Hw Hq [H1 H2 H3 H4]. assert (sent d' = sent d /\ answered d' = answered d) as [Es Ea]
    by (unfold sent, answered; by rewrite Hq).
  split; rewrite ?Hw ?Ea //.
  - intros w s Hs. apply (slot_ok_frame d _ (results W)); [by rewrite Hw|by rewrite Es|done|by apply H2].
  - by rewrite Es.
Qed.

(** *** The transition system

    The driver is about to start an iteration of its loop, receiving results in one, or
    done. *)
Inductive SysPhase : Type := InLoop | Receiving (env : Round Process) | Done.
Record Sys : Type := mkSys {
  sys_driver : Driver Process P;
  sys_refill : nat;
  sys_world : World;
  sys_phase : SysPhase
}.

Definition end_of_round (env : Round Process) d : result (Scheduler Process) :=
  terminateLongRunningWorkersAndRespawn (scheduler d) (endOfRound env - receiveTimeout (options d)) (respawn env).

(** Killed processes have read their queues. *)
Definition killed_have_read d (s' : Scheduler Process) (W : World) : Prop :=
  forall w s, was_killed (scheduler d) s' w = true -> slots W !! w = Some s -> slot_queue s = [].

Inductive sys_step : Sys -> Sys -> Prop :=
| sys_worker d rc W W' phase :
    worker_step W W' -> sys_step (mkSys d rc W phase) (mkSys d rc W' phase)
| sys_assign env d rc W d1 rc1 d2 :
    unfinished d -> sends_ok env -> refill_if_needed d rc = Ok (d1, rc1) -> use_idle_workers env d1 = Ok d2 ->
    sys_step (mkSys d rc W InLoop) (mkSys d2 rc1 (deliver W (newly_sent d d2)) (Receiving env))
| sys_receive env d rc slots r rs d' :
    receive_and_process env d r = Ok d' ->
    sys_step (mkSys d rc (mkWorld slots (r :: rs)) (Receiving env))
      (mkSys d' rc (deliver (mkWorld slots rs) (newly_sent d d')) (Receiving env))
| sys_end env d rc W s' :
    end_of_round env d = Ok s' -> killed_have_read d s' W ->
    sys_step (mkSys d rc W (Receiving env))
      (mkSys (set_scheduler d s') rc (restart (was_killed (scheduler d) s') W) InLoop)
| sys_shutdown env d rc W d' :
    ~ unfinished d -> sends_ok env -> shutdownIdleWorkers env d = Ok d' ->
    sys_step (mkSys d rc W InLoop) (mkSys d' rc (deliver W (newly_sent d d')) Done).

(** What holds in every state. *)
Definition sys_inv (st : Sys) : Prop :=
  exists busy, DInv (sys_driver st) busy /\ in_step (sys_driver st) (sys_world st)
    /\ match sys_phase st with
       | InLoop => LoopInv (sys_driver st) (sys_refill st)
       | Receiving env => LoopInv (sys_driver st) (sys_refill st) /\ sends_ok env
       | Done => busy = [] /\ idleWorkers (scheduler (sys_driver st)) = []
       end.

Lemma assign_in_step env d busy rc W d1 rc1 d2 :
  DInv d busy -> LoopInv d rc -> in_step d W -> unfinished d -> sends_ok env ->
  refill_if_needed d rc = Ok (d1, rc1) -> use_idle_workers env d1 = Ok d2 ->
  exists busy', DInv d2 busy' /\ LoopInv d2 rc1 /\ in_step d2 (deliver W (newly_sent d d2)).
Proof.
  intros HD L H Hun Hsend Hr Hu.
  destruct (refill_if_needed_ok d busy rc HD L) as (d1' & rc1' & Hr' & H1 & L1 & _ & _ & Hp1 & Hrc1).
  rewrite Hr in Hr'. injection Hr' as <- <-.
  destruct (use_idle_workers_ok env d1 busy rc1 H1 L1 Hsend) as (d2' & busy2 & Hu' & H2 & L2 & _ & _ & _ & Hh); [|done|].
  { destruct Hun as [?|Hw]; [left; auto|right]. intros ->. by apply Hw, (DInv_unassigned d []). }
  rewrite Hu in Hu'. injection Hu' as <-. exists busy2. split_and!; [done..|].
  destruct (refill_if_needed_frame _ _ _ _ Hr) as [Hw Hq].
  replace (newly_sent d d2) with (newly_sent d1 d2) by (unfold newly_sent, sent; by rewrite Hq).
  by apply rtc_hands_in_step, (in_step_frame d d1 W Hw Hq).
Qed.

Lemma receive_ok env d busy rc W r rs :
  DInv d busy -> LoopInv d rc -> in_step d W -> sends_ok env -> results W = r :: rs ->
  exists d' busy', receive_and_process env d r = Ok d' /\ DInv d' busy' /\ LoopInv d' rc
    /\ in_step d' (deliver (mkWorld (slots W) rs) (newly_sent d d')).
Proof.
  intros HD [Le Ls Lw] H Hsend Hr.
  assert (legal d r) as Hl by (apply (in_step_legal d W); [done|rewrite Hr; by left]).
  destruct (legal_response_ok env d busy r HD Hsend Hl) as
    (d' & busy0 & busy1 & Hp & H1 & F & Hst & Hpend & Hpar & Hok & Hset & _).
  exists d', busy1. split_and!; [done|done|split; rewrite ?Hpar ?Hst ?Hpend //; by destruct F as (_ & -> & _)|].
  eapply receive_in_step; [exact HD|done..|apply F].
Qed.

Lemma end_of_round_ok env d busy rc : DInv d busy -> LoopInv d rc ->
  exists s' busy', end_of_round env d = Ok s' /\ DInv (set_scheduler d s') busy' /\ LoopInv (set_scheduler d s') rc
    /\ forall W, in_step d W -> killed_have_read d s' W ->
         in_step (set_scheduler d s') (restart (was_killed (scheduler d) s') W).
Proof.
  intros HD [Le Ls Lw]. unfold end_of_round.
  destruct (terminateLongRunningWorkers_ok (endOfRound env - receiveTimeout (options d)) (respawn env) _ busy (di_inv _ _ HD))
    as (s' & busy' & Hok & T).
  exists s', busy'. split_and!; [done|by eapply DInv_terminated| |].
  - split; cbn; rewrite ?(tm_stopped _ _ _ _ _ _ T) ?(tm_pending _ _ _ _ _ _ T) ?(tm_length _ _ _ _ _ _ T) //.
  - intros W HW Hq. by eapply end_in_step.
Qed.

Lemma shutdown_in_step env d busy W : DInv d busy -> in_step d W -> ~ unfinished d -> sends_ok env ->
  exists d', shutdownIdleWorkers env d = Ok d' /\ DInv d' [] /\ idleWorkers (scheduler d') = []
    /\ in_step d' (deliver W (newly_sent d d')).
Proof.
  intros HD H Hun Hsend. assert (wipJobs (scheduler d) = ∅) as Hw.
  { destruct (decide (wipJobs (scheduler d) = ∅)); [done|]. destruct Hun. by right. }
  apply (DInv_unassigned d busy HD) in Hw. subst busy.
  destruct (shutdownIdleWorkers_ok env d [] HD Hsend) as (d' & Hok & H' & Hi & _ & _ & _ & _ & _ & _ & _ & _ & _ & Hh).
  exists d'. split_and!; [done..|]. by apply rtc_hands_in_step.
Qed.

Lemma sys_step_inv st st' : sys_inv st -> sys_step st st' -> sys_inv st'.
Proof.
  intros (busy & HD & H & Hphase) Hstep. destruct Hstep as
    [d rc W W' phase Hw|env d rc W d1 rc1 d2 Hun Hsend Hr Hu|env d rc ss r rs d' Hr|env d rc W s' He Hk|env d rc W d' Hun Hsend Hs];
    cbn [sys_driver sys_world sys_phase sys_refill] in *.
  - exists busy. split_and!; [done|by eapply worker_step_in_step|done].
  - destruct (assign_in_step env d busy rc W d1 rc1 d2) as (busy' & ? & ? & ?); [done..|]. by exists busy'.
  - destruct Hphase as [L Hsend].
    destruct (receive_ok env d busy rc (mkWorld ss (r :: rs)) r rs) as (d2 & busy' & Hr' & ? & ? & ?); [done..|].
    rewrite Hr in Hr'. injection Hr' as <-. by exists busy'.
  - destruct Hphase as [L Hsend]. destruct (end_of_round_ok env d busy rc HD L) as (s2 & busy' & He' & ? & ? & Hi).
    rewrite He in He'. injection He' as <-. exists busy'. split_and!; [done|by apply Hi|done].
  - destruct (shutdown_in_step env d busy W) as (d2 & Hs' & ? & ? & ?); [done..|].
    rewrite Hs in Hs'. injection Hs' as <-. by exists [].
Qed.

(** *** The start *)
Lemma start_in_step opts id count parser (spawn : nat -> Process) d :
  source_inv parser ∅ -> Driver_start opts id count parser spawn = Ok d ->
  in_step d (World_new (numWorkers opts)).
Proof.
  intros Hsrc Hd. destruct (Driver_start_ok opts id count parser spawn Hsrc) as (d0 & Hd0 & HD & _ & _ & Hlen & _ & Hstop).
  rewrite Hd in Hd0. injection Hd0 as <-.
  assert (queues d = mkMessageQueues [] []) as Hq.
  { unfold Driver_start, spawnWorkers in Hd. by apply bind_Ok_inv in Hd as (s & _ & <-%Ok_inj). }
  split; cbn.
  - by rewrite length_replicate Hlen.
  - intros w s Hs. apply lookup_replicate in Hs as [-> Hw]. apply slot_idle; [|done].
    apply (inv_idle _ _ (di_inv _ _ HD)). pose proof (inv_partition _ _ (di_inv _ _ HD)) as Hp.
    rewrite Hstop app_nil_r /= in Hp. rewrite Hp Hlen. apply elem_of_seq. lia.
  - intros r Hr. by apply elem_of_nil in Hr.
  - unfold answered. rewrite Hq. apply NoDup_nil_2.
Qed.

Lemma sys_start opts id count parser (spawn : nat -> Process) d d1 n :
  source_inv parser ∅ -> (0 < numWorkers opts)%nat -> Driver_start opts id count parser spawn = Ok d ->
  refillJobs d = Ok (d1, n) -> sys_inv (mkSys d1 n (World_new (numWorkers opts)) InLoop).
Proof.
  intros Hsrc Hn Hd Hr.
  destruct (Driver_start_ok opts id count parser spawn Hsrc) as (d0 & Hd0 & HD & _ & _ & Hlen & _ & Hstop).
  rewrite Hd in Hd0. injection Hd0 as <-.
  destruct (refillJobs_ok d [] HD) as (d1' & n' & Hr' & H1 & _ & _ & Hend & F1 & _ & Hs1 & _).
  rewrite Hr in Hr'. injection Hr' as <- <-. exists []. cbn [sys_driver sys_world sys_phase sys_refill].
  destruct (refillJobs_frame _ _ _ Hr) as [Hw Hq].
  split_and!; [done| |].
  - apply (in_step_frame d d1); [done..|]. by eapply start_in_step.
  - split; [done|by rewrite Hs1 Hstop|by rewrite Hw Hlen].
Qed.

(** *** Rounds that such a system plays

    The theorems on the run loop take the environment of every iteration as given; here
    it comes from an execution of the workers. *)
Definition round_responses (env : Round Process) : list IndexJobResponse :=
  match received env with RResponses r more => r :: more | _ => [] end.

(** While the driver receives [rs]. *)
Inductive plays (env : Round Process) : Driver Process P -> World -> list IndexJobResponse ->
    Driver Process P -> World -> Prop :=
| plays_done d W : plays env d W [] d W
| plays_worker d W W1 rs d' W' : worker_step W W1 -> plays env d W1 rs d' W' -> plays env d W rs d' W'
| plays_receive d ss r queue d1 rs d' W' :
    receive_and_process env d r = Ok d1 ->
    plays env d1 (deliver (mkWorld ss queue) (newly_sent d d1)) rs d' W' ->
    plays env d (mkWorld ss (r :: queue)) (r :: rs) d' W'.

Fixpoint schedule (rounds : list (Round Process)) d (rc : nat) (W : World) : Prop :=
  match rounds with
  | [] => True
  | env :: rounds => unfinished d -> sends_ok env
      /\ forall d1 rc1 d2, refill_if_needed d rc = Ok (d1, rc1) -> use_idle_workers env d1 = Ok d2 ->
         exists d3 W3 s', plays env d2 (deliver W (newly_sent d d2)) (round_responses env) d3 W3
           /\ end_of_round env d3 = Ok s' /\ killed_have_read d3 s' W3
           /\ schedule rounds (set_scheduler d3 s') rc1 (restart (was_killed (scheduler d3) s') W3)
  end.
Definition schedule_from_start (rounds : list (Round Process)) d (n : nat) : Prop :=
  forall d1 rc, refillJobs d = Ok (d1, rc) -> schedule rounds d1 rc (World_new n).

(** An execution is one of the transition system. *)
Lemma plays_steps env d W rs d' W' rc : plays env d W rs d' W' ->
  rtc sys_step (mkSys d rc W (Receiving env)) (mkSys d' rc W' (Receiving env)).
Proof.
  induction 1 as [|d W W1 rs d' W' Hw _ IH|d ss r queue d1 rs d' W' Hr _ IH]; [done| |].
  - eapply rtc_l; [by apply sys_worker|done].
  - eapply rtc_l; [by apply sys_receive|done].
Qed.

Lemma plays_foldM env d W rs d' W' :
  plays env d W rs d' W' -> foldM (receive_and_process env) d rs = Ok d'.
Proof. induction 1 as [|d W W1 rs d' W' _ _ IH|d ss r queue d1 rs d' W' Hr _ IH]; [done..|]. cbn [foldM]. by rewrite Hr. Qed.

Lemma plays_legal env rc d W rs d' W' : plays env d W rs d' W' -> forall busy,
  DInv d busy -> LoopInv d rc -> in_step d W -> sends_ok env ->
  legal_responses env d rs /\ foldM (receive_and_process env) d rs = Ok d'
  /\ exists busy', DInv d' busy' /\ LoopInv d' rc /\ in_step d' W'.
Proof.
  induction 1 as [d W|d W W1 rs d' W' Hw _ IH|d ss r queue d1 rs d' W' Hr _ IH]; intros busy HD L H Hsend.
  - split_and!; [done|done|by exists busy].
  - apply (IH busy); [done..|by eapply worker_step_in_step|done].
  - destruct (receive_ok env d busy rc (mkWorld ss (r :: queue)) r queue HD L H Hsend eq_refl) as (d2 & busy' & Hr' & HD' & L' & H').
    rewrite Hr in Hr'. injection Hr' as <-. destruct (IH busy' HD' L' H' Hsend) as (Hl & Hf & Hx).
    split_and!; [|by cbn [foldM]; rewrite Hr|done]. cbn [legal_responses]. split.
    + apply (in_step_legal d (mkWorld ss (r :: queue))); [done|by left].
    + intros d2. rewrite Hr. by intros <-%Ok_inj.
Qed.

(** The parts of a round determine the iteration. *)
Lemma iteration_of_round env d rc d1 rc1 d2 d3 s' d' rc' :
  refill_if_needed d rc = Ok (d1, rc1) -> use_idle_workers env d1 = Ok d2 ->
  foldM (receive_and_process env) d2 (round_responses env) = Ok d3 -> end_of_round env d3 = Ok s' ->
  iteration env d rc = Ok (d', rc') -> d' = set_scheduler d3 s' /\ rc' = rc1.
Proof.
  unfold iteration, processOneOrMoreJobResults, end_of_round, round_responses. intros -> Hu Hf He.
  rewrite bind_Ok Hu bind_Ok. intros (_ & _ & (d4 & (d5 & H5 & (s2 & Hs2 & <-%Ok_inj)%bind_Ok_inv)%bind_Ok_inv & [= <- <-])%bind_Ok_inv)%bind_Ok_inv.
  assert (d5 = d3) as -> by (destruct (received env); cbn [foldM] in Hf; congruence).
  split; congruence.
Qed.

Lemma schedule_legal rounds : forall d busy rc W, DInv d busy -> LoopInv d rc -> in_step d W ->
  schedule rounds d rc W -> legal_run rounds d rc.
Proof.
  induction rounds as [|env rounds IH]; intros d busy rc W HD L H; [done|].
  intros Hsch Hun. destruct (Hsch Hun) as [Hsend Hnext].
  assert (forall d1 rc1 d2, refill_if_needed d rc = Ok (d1, rc1) -> use_idle_workers env d1 = Ok d2 ->
    legal_responses env d2 (round_responses env) /\ exists d3 s', foldM (receive_and_process env) d2 (round_responses env) = Ok d3
      /\ end_of_round env d3 = Ok s' /\ legal_run rounds (set_scheduler d3 s') rc1) as Hround.
  { intros d1 rc1 d2 Hr Hu. destruct (Hnext d1 rc1 d2 Hr Hu) as (d3 & W3 & s' & Hp & He & Hk & Hrest).
    destruct (assign_in_step env d busy rc W d1 rc1 d2) as (busy2 & HD2 & L2 & H2); [done..|].
    destruct (plays_legal env rc1 d2 _ _ d3 W3 Hp busy2 HD2 L2 H2 Hsend) as (Hl & Hf & busy3 & HD3 & L3 & H3).
    split; [done|]. exists d3, s'. split_and!; [done..|].
    destruct (end_of_round_ok env d3 busy3 rc1 HD3 L3) as (s2 & busy4 & He' & HD4 & L4 & Hi).
    rewrite He in He'. injection He' as <-. eapply IH; [exact HD4|exact L4|by apply Hi|done]. }
  split_and!; [done| |].
  - intros d1 rc1 d2 Hr Hu. destruct (Hround d1 rc1 d2 Hr Hu) as [Hl _]. unfold legal_round, round_responses in *.
    by destruct (received env).
  - intros d' rc' Hit. pose proof Hit as ([d1 rc1] & Hr & (d2 & Hu & _)%bind_Ok_inv)%bind_Ok_inv.
    destruct (Hround d1 rc1 d2 Hr Hu) as (_ & d3 & s' & Hf & He & Hrest).
    by destruct (iteration_of_round env d rc d1 rc1 d2 d3 s' d' rc' Hr Hu Hf He Hit) as [-> ->].
Qed.

Lemma schedule_legal_from_start rounds opts id count parser (spawn : nat -> Process) d :
  source_inv parser ∅ -> (0 < numWorkers opts)%nat -> Driver_start opts id count parser spawn = Ok d ->
  schedule_from_start rounds d (numWorkers opts) -> legal_from_start rounds d.
Proof.
  intros Hsrc Hn Hd Hsch d1 rc Hr.
  destruct (sys_start opts id count parser spawn d d1 rc Hsrc Hn Hd Hr) as (busy & HD & H & L).
  eapply schedule_legal; [exact HD|exact L|exact H|by apply Hsch].
Qed.

End System.

(** ** Checking a concrete execution

    The simplest execution: a worker takes its request and answers just before the driver
    reads the result. *)
Section Checkers.
Context `{BM : BuildMode} {Process P : Type} `{JS : !JobSource P}.
Implicit Types (d : Driver Process P).

Definition answersb (w : nat) (request : IndexJobRequest) (r : IndexJobResponse) : bool :=
  (response_workerId r =? Z.of_nat w) && bool_decide (response_jobId r = request_id request)
  && bool_decide (result_kind (response_result r) = job_kind (request_job request))
  && forallb (fun fi => 2 <=? length (hashValues fi))%nat (illBehavedFiles (result_semanticAnalysis (response_result r))).

Lemma answersb_sound w request r : answersb w request r = true -> answers w request r.
Proof.
  unfold answersb. rewrite !andb_true_iff. intros [[[Hw%Z.eqb_eq Hj%bool_decide_eq_true] Hk%bool_decide_eq_true] Hwf].
  split; [done..|]. apply Forall_forall. intros fi Hfi. rewrite forallb_In in Hwf. by apply Nat.leb_le, Hwf.
Qed.

(** The slots after worker [w] took its request and answered it with [r]. *)
Definition answer_now (W : World) (r : IndexJobResponse) : option (list Slot) :=
  let w := Z.to_nat (response_workerId r) in
  match slots W !! w with
  | Some (mkSlot (request :: queue) (Expecting k)) =>
      if bool_decide (k = job_kind (request_job request)) && bool_decide (request_id request <> Shutdown)
         && answersb w request r
      then Some (<[w := mkSlot queue (Expecting (other_kind k))]> (slots W)) else None
  | _ => None
  end.

Lemma answer_now_sound (env : Round Process) d W r ss rs d' W' : results W = [] -> answer_now W r = Some ss ->
  plays env d (mkWorld ss [r]) rs d' W' -> plays env d W rs d' W'.
Proof.
  unfold answer_now. intros Hres Ha Hp. set (w := Z.to_nat (response_workerId r)) in *.
  destruct (slots W !! w) as [[[|request queue] [k| |]]|] eqn:Hs; try discriminate Ha.
  destruct (_ && _) eqn:Eb in Ha; [|discriminate Ha]. injection Ha as <-.
  apply andb_true_iff in Eb as [Eb Hans%answersb_sound]. apply andb_true_iff in Eb. destruct Eb as [->%bool_decide_eq_true Hns%bool_decide_eq_true].
  eapply plays_worker; [eapply step_take; [exact Hs|by apply proc_take]|].
  eapply plays_worker.
  - eapply (step_answer _ w queue _ r); [cbn; apply list_lookup_insert_eq; by eapply lookup_lt_Some|by apply proc_answer].
  - cbn [slots results]. by rewrite list_insert_insert_eq Hres.
Qed.

Fixpoint playsb (env : Round Process) d (W : World) (rs : list IndexJobResponse) : option (Driver Process P * World) :=
  match rs with
  | [] => Some (d, W)
  | r :: rs =>
      match results W, answer_now W r, receive_and_process env d r with
      | [], Some ss, Ok d1 => playsb env d1 (deliver (mkWorld ss []) (newly_sent d d1)) rs
      | _, _, _ => None
      end
  end.
Lemma playsb_sound env rs : forall d W d' W', playsb env d W rs = Some (d', W') -> plays env d W rs d' W'.
Proof.
  induction rs as [|r rs IH]; intros d W d' W'; cbn [playsb]; [intros [= <- <-]; constructor|].
  destruct (results W) eqn:Hres; [|done]. destruct (answer_now W r) as [ss|] eqn:Ha; [|done].
  destruct (receive_and_process env d r) as [d1|e] eqn:Hr; [|done]. intros Hp.
  eapply answer_now_sound; [exact Hres|exact Ha|]. eapply plays_receive; [exact Hr|]. by apply IH.
Qed.

Definition killed_have_readb d (s' : Scheduler Process) (W : World) : bool :=
  forallb (fun p => implb (was_killed (scheduler d) s' p.1) (bool_decide (length (slot_queue p.2) = 0%nat)))
    (imap (fun w s => (w, s)) (slots W)).
Lemma killed_have_readb_sound d s' W : killed_have_readb d s' W = true -> killed_have_read d s' W.
Proof.
  unfold killed_have_readb, killed_have_read. rewrite forallb_In. intros H w s Hk Hs.
  specialize (H (w, s)). cbn in H. rewrite Hk in H. cbn in H. apply nil_length_inv, (bool_decide_eq_true_1 _), H.
  apply elem_of_lookup_imap. by exists w, s.
Qed.

Fixpoint scheduleb (rounds : list (Round Process)) d rc (W : World) : bool :=
  match rounds with
  | [] => true
  | env :: rounds =>
      (bool_decide (pendingJobs (scheduler d) = []) && bool_decide (wipJobs (scheduler d) = ∅))
      || match refill_if_needed d rc with
         | Ok (d1, rc1) =>
             match use_idle_workers env d1 with
             | Ok d2 =>
                 match playsb env d2 (deliver W (newly_sent d d2)) (round_responses env) with
                 | Some (d3, W3) =>
                     match end_of_round env d3 with
                     | Ok s' => killed_have_readb d3 s' W3
                         && scheduleb rounds (set_scheduler d3 s') rc1 (restart (was_killed (scheduler d3) s') W3)
                     | Err _ => false
                     end
                 | None => false
                 end
             | Err _ => true
             end
         | Err _ => true
         end
  end.

Lemma scheduleb_sound rounds : Forall sends_ok rounds -> forall d rc W, scheduleb rounds d rc W = true ->
  schedule rounds d rc W.
Proof.
  induction 1 as [|env rounds Hs _ IH]; intros d rc W; cbn [scheduleb schedule]; [done|].
  rewrite orb_true_iff andb_true_iff. intros [[Hp%bool_decide_eq_true Hw%bool_decide_eq_true]|H]; [by intros []|].
  intros _. split; [done|]. intros d1 rc1 d2 Hr Hu. rewrite Hr Hu in H.
  destruct (playsb _ _ _ _) as [[d3 W3]|] eqn:Hp; [|discriminate H].
  destruct (end_of_round env d3) as [s'|e] eqn:He; [|discriminate H]. apply andb_true_iff in H as [Hk H].
  exists d3, W3, s'. split_and!; [by apply playsb_sound|done|by apply killed_have_readb_sound|by apply IH].
Qed.
End Checkers.

(** ** What the assumption excludes

    A process that waited for the request for its index was killed before it took it: its
    successor expects a semantic analysis, and cannot go on. *)
Lemma stale_request_confuses_successor w request p' :
  job_kind (request_job request) = EmitIndex -> request_id request <> Shutdown ->
  ~ proc_step w (slot_proc (restart_slot (fun _ => true) w (mkSlot [request] (Expecting EmitIndex)))) (Take request) p'.
Proof. intros Hk Hns Hstep. cbn in Hstep. inversion Hstep; congruence. Qed.

(** ** A concrete run: one worker is given a job, analyses it, and gets the next *)
Definition demo_sema_request : IndexJobRequest :=
  mkIndexJobRequest (newTask 0) (mkIndexJob SemanticAnalysis (mkSemanticAnalysisJobDetails (demo_command 0))
    EmitIndexJobDetails_default).

Lemma demo_system_run : exists d d1 st,
  demo_start 1 demo_batches = Ok d /\ refillJobs (BM := true) d = Ok (d1, 2%nat)
  /\ rtc (sys_step (BM := true)) (mkSys d1 2 (World_new 1) InLoop) st
  /\ slots (sys_world st) = [mkSlot [mkIndexJobRequest (mkJobId 0 1) (mkIndexJob EmitIndex
       SemanticAnalysisJobDetails_default (mkEmitIndexJobDetails [mkPreprocessedFileInfo (demo_path "/p/a.c") 0]))]
       (Expecting EmitIndex)].
Proof.
  eexists _, _, _. split; [vm_compute; reflexivity|]. split; [vm_compute; reflexivity|]. split.
  - eapply rtc_l; [eapply (sys_assign (demo_round RTimeout 0)); [left; discriminate|done|vm_compute; reflexivity|vm_compute; reflexivity]|].
    vm_compute newly_sent. vm_compute deliver.
    eapply rtc_l; [apply sys_worker; eapply (step_take _ 0 demo_sema_request); [reflexivity|apply (proc_take 0 demo_sema_request); discriminate]|].
    eapply rtc_l; [apply sys_worker; eapply (step_answer _ 0 _ _ (demo_sema_response 0 0)); [reflexivity|apply (proc_answer 0 demo_sema_request); split; [reflexivity..|by apply Forall_nil]]|].
    cbn [results slots app insert list_insert].
    eapply rtc_l; [eapply (sys_receive _ _ _ _ (demo_sema_response 0 0) []); vm_compute; reflexivity|]. apply rtc_refl.
  - vm_compute. reflexivity.
Qed.

