(* ===== verification/Merge.v ===== *)
(** * Merging the shards

    [Driver::emitScipIndex] and what it calls (Driver.cc): the driver reads the shards
    that the workers announced, adds their documents, external symbols and forward
    declarations to an [IndexBuilder] and writes the index.  Shards that are missing or
    cannot be parsed are skipped.  [emitStatsFile] writes the statistics.

    The planner's answers do not change while shards are merged, so that every document
    of a file goes the same way, and the check of [addDocument] never fails. *)
From S2P Require Import Prelude Ordering CppString Paths Json PackageMaps IdPaths Symbols ScipMessages.
From S2P Require Import IndexBuilder CommandLine Compdb CompdbParser Ipc CliOptions Planner Scheduler Driver.

(** ** The files *)

(** Opening a shard and parsing it as one of the two messages; [None] is a failure. *)
Class ShardFiles : Type := {
  open_shard : str -> option str;
  parse_index : str -> option Index;
  parse_forward_decls : str -> option (list ForwardDecl);
}.

(** The lambda [readIndexShard]. *)
Definition readIndexShard `{ShardFiles} {A} (ParseFromIstream : str -> option A)
    (path : AbsolutePath) : option A := open_shard (asStringRef path) ≫= ParseFromIstream.

(** Constants that are generated or set by the build, and [llvm::sys::path]. *)
Class MergeConstants : Type := {
  scip_clang_version : str;
  UnspecifiedProtocolVersion : Z;
  TextEncoding_UTF8 : Z;
  convert_to_slash : str -> str;
}.

Record ToolInfo : Type := mkToolInfo {
  tool_name : str;
  tool_version : str;
  tool_arguments : list str;
}.
Record Metadata : Type := mkMetadata {
  metadata_version : Z;
  tool_info : ToolInfo;
  project_root : str;
  text_document_encoding : Z;
}.

(** What is serialized to the output: parsers concatenate the fragments. *)
Inductive Fragment : Type :=
| MetadataFragment (metadata : Metadata)
| IndexFragment (index : Index).

(** ** Operations *)
Section Merging.
Context `{BM : BuildMode, LP : LlvmPath, HI : HashIteration, AS : AbslSplit}.
Context `{SF : ShardFiles, MC : MergeConstants} {Process P : Type}.
Abbreviation Drv := (Driver Process P).

Definition merge_metadata (this : Drv) : Metadata :=
  let toolInfo := mkToolInfo (lit "scip-clang") scip_clang_version (do_originalArgv (options this)) in
  let projectRootUnixStyle :=
    convert_to_slash (asStringRef (root_value (projectRootPath_ (options this)))) in
  mkMetadata UnspecifiedProtocolVersion toolInfo (lit "file://" ++ projectRootUnixStyle) TextEncoding_UTF8.

Definition merge_document (this : Drv) (paths : ShardPaths) (st : IndexBuilder * gset Z) (doc : Document)
    : result (IndexBuilder * gset Z) :=
  let '(builder, badJobIds) := st in
  shardPath ← asRef (docsAndExternals paths);
  '(isMultiplyIndexed, badJobIds) ←
    isMultiplyIndexedApproximate (planner this) (relative_path doc) shardPath badJobIds;
  builder ← addDocument builder doc isMultiplyIndexed;
  Ok (builder, badJobIds).

(** The path that is reported for a shard is looked up in any case. *)
Definition merge_progress (this : Drv) (paths : ShardPaths) : result unit :=
  shardPath ← asRef (docsAndExternals paths);
  match fileName (asStringView shardPath) with
  | Some optFileName =>
      match tryParseJobId optFileName with
      | Some optJobId => getTuPath (scheduler this) (newTask optJobId) ;; Ok ()
      | None => Ok ()
      end
  | None => Ok ()
  end.

Definition merge_shard (this : Drv) (st : IndexBuilder * gset Z) (paths : ShardPaths)
    : result (IndexBuilder * gset Z) :=
  match readIndexShard parse_index (docsAndExternals paths) with
  | None => Ok st
  | Some indexShard =>
      '(builder, badJobIds) ← foldM (merge_document this paths) st (documents indexShard);
      builder ← foldM addExternalSymbol builder (external_symbols indexShard);
      merge_progress this paths ;;
      Ok (builder, badJobIds)
  end.

Definition merge_forward_decls (st : IndexBuilder * ForwardDeclResolver) (paths : ShardPaths)
    : result (IndexBuilder * ForwardDeclResolver) :=
  match readIndexShard parse_forward_decls (forwardDecls paths) with
  | None => Ok st
  | Some indexShard => foldM (fun st fd => addForwardDeclaration st.1 st.2 fd) st indexShard
  end.

(** The fragments that are written, and the indexes of the compilation commands that
    are logged because they saw unknown headers. *)
Definition mergeShardsAndEmit (this : Drv) : result (list Fragment * list Z) :=
  '(builder, badJobIds) ← foldM (merge_shard this) (IndexBuilder_new, ∅) (shardPaths_ this);
  let badJobIdsSorted := c_sort Z.compare (iterate_set (elements badJobIds)) in
  let forwardDeclResolver := populateForwardDeclResolver builder in
  '(builder, _) ← foldM merge_forward_decls (builder, forwardDeclResolver) (shardPaths_ this);
  Ok (MetadataFragment (merge_metadata this)
      :: map IndexFragment (finish builder (do_deterministic (options this))), badJobIdsSorted).

Definition compareShardPaths (paths1 paths2 : ShardPaths) : comparison :=
  AbsolutePath_cmp (docsAndExternals paths1) (docsAndExternals paths2).

Definition emitScipIndex `{PE : ProcessEnv} (this : Drv) : result (Drv * (list Fragment * list Z)) :=
  if open_fails (asStringRef (do_indexOutputPath (options this))) then Err (Exit 1)
  else
    let this :=
      if do_deterministic (options this)
      then set_results this (allStatistics this) (c_sort compareShardPaths (shardPaths_ this))
             (indexedSoFar this)
      else this in
    written ← mergeShardsAndEmit this;
    Ok (this, written).

(** ** Statistics *)
Definition job_stats (this : Drv) (acc : list (Z * StatsEntry)) (pair : JobId * IndexingStatistics)
    : result (list (Z * StatsEntry)) :=
  let '(jobId, stats) := pair in
  let semaJobId := newTask (taskId jobId) in
  let it := allJobList (scheduler this) !! semaJobId in
  ENFORCE (bool_decide (is_Some it)) "it != jobMap.end()" ;;
  job ← match it with Some t => Ok (job t) | None => Err OutOfRange end;
  ENFORCE (bool_decide (job_kind job = SemanticAnalysis)) "job.kind == SemanticAnalysis" ;;
  Ok (acc ++ [(taskId jobId, mkStatsEntry (filePath (command (job_semanticAnalysis job))) stats)]).

Definition emitStatsFile `{PE : ProcessEnv} (this : Drv) (files : OutputFiles)
    : result (list (str * FileContent)) :=
  if bool_decide (asStringRef (statsFilePath (options this)) = []) then Ok files
  else
    perJobStats ← foldM (job_stats this) [] (allStatistics this);
    let perJobStats := c_sort (cmp_on fst Z.compare) perJobStats in
    emitAll (map snd perJobStats) (asStringRef (statsFilePath (options this))) files.
End Merging.

(** ** Which documents are merged *)
Section Planned.
Context `{BM : BuildMode, LP : LlvmPath, LPL : !LlvmPathLaws, AS : AbslSplit}.

(** The answer of the planner for a path, which does not depend on the shard. *)
Definition planned_multi (pl : FileIndexingPlanner) (path : str) : bool :=
  match hashesSoFar pl !! mkAbsolutePath (joinPath (asStringRef (root_value (projectRootPath pl))) path) with
  | Some hashes => 1 <? Z.of_nat (size hashes)
  | None => true
  end.

Definition planner_wf (pl : FileIndexingPlanner) : Prop :=
  AbsolutePath_wf (root_value (projectRootPath pl)) /\ root_kind (projectRootPath pl) = Project.

(** A path as documents have it. *)

Lemma isMultiplyIndexedApproximate_planned pl path shard bad :
  planner_wf pl -> doc_path_ok path ->
  exists bad', isMultiplyIndexedApproximate pl path shard bad = Ok (planned_multi pl path, bad').
Proof.
  intros [Hroot Hkind] [Hne Hrel].
  destruct pl as [hashes [root kind]]. cbn in Hroot, Hkind. subst kind.
  unfold isMultiplyIndexedApproximate, RootRelativePathRef_new.
  rewrite bool_decide_false // Hrel. autorewrite with result_rw.
  unfold isMultiplyIndexed, planned_multi. cbn [projectRootPath root_value hashesSoFar].
  rewrite makeAbsolute_below // bind_Ok.
  destruct (hashes !! _) as [hs|]; rewrite bind_Ok; [|by eexists].
  destruct (1 <? _); by eexists.
Qed.

Lemma scip_RootRelativePath_new_ok path : doc_path_ok path -> scip_RootRelativePath_new path = Ok path.
Proof.
  intros [Hne Hrel]. unfold scip_RootRelativePath_new. rewrite bool_decide_false // Hrel.
  by autorewrite with result_rw.
Qed.
End Planned.

(** ** The builder after some documents *)
Section Documents.
Context `{BM : BuildMode, LP : LlvmPath, LPL : !LlvmPathLaws, HI : HashIteration}.
Context (multi : str -> bool).

Definition at_path (path : str) (ds : list Document) : list Document :=
  List.filter (fun d => bool_decide (relative_path d = path)) ds.

(** Documents of files with one version are kept as they are, in order; those of a
    file with several versions are merged into one. *)
Record holds (ds : list Document) (b : IndexBuilder) : Prop := {
  holds_wf : ib_wf b;
  holds_single : ib_documents b = List.filter (fun d => negb (multi (relative_path d))) ds;
  holds_multi path : match multiplyIndexed b !! path with
    | Some db => multi path = true /\ merged (at_path path ds) db /\ db_relative_path db = path
        /\ at_path path ds <> []
    | None => multi path = true -> at_path path ds = []
    end
}.

Lemma holds_new : holds [] IndexBuilder_new.
Proof. split; [by intros ? ? ? ?; cbn; rewrite lookup_empty|done|]. intros path. cbn. by rewrite lookup_empty. Qed.

Lemma at_path_snoc path ds d :
  at_path path (ds ++ [d]) = at_path path ds ++ (if bool_decide (relative_path d = path) then [d] else []).
Proof. unfold at_path. rewrite List.filter_app. by cbn; case_bool_decide. Qed.

Lemma addDocument_holds ds b doc :
  holds ds b -> doc_path_ok (relative_path doc) ->
  exists b', addDocument b doc (multi (relative_path doc)) = Ok b' /\ holds (ds ++ [doc]) b'.
Proof.
  intros [Hwf Hs Hm] Hp.
  assert (forall b', addDocument b doc (multi (relative_path doc)) = Ok b' -> ib_wf b') as Hwf'
    by (intros b'; by apply addDocument_wf).
  pose proof (Hm (relative_path doc)) as Hdoc.
  unfold addDocument in *. rewrite (bool_decide_false _ (proj1 Hp)) ENFORCE_true bind_Ok in Hwf' |- *.
  destruct (multi (relative_path doc)) eqn:Emulti; rewrite scip_RootRelativePath_new_ok // bind_Ok in Hwf' |- *.
  - assert (exists db, match multiplyIndexed b !! relative_path doc with
        | Some docBuilder => db_merge docBuilder doc | None => DocumentBuilder_new doc end = Ok db
      /\ merged (at_path (relative_path doc) (ds ++ [doc])) db /\ db_relative_path db = relative_path doc)
      as (db & Hdb & Hmerged & Hpath).
    { rewrite at_path_snoc bool_decide_true //. destruct (multiplyIndexed b !! _) as [db0|].
      - destruct Hdoc as (_ & Hm0 & Hp0 & _).
        destruct (db_merge_merged _ db0 doc Hm0) as (db & Hdb & Hmd & _ & Hpd). exists db. by rewrite Hpd.
      - rewrite Hdoc //. destruct (merge_all_merged doc []) as (db & Hdb & Hmd & _ & Hpd).
        apply bind_Ok_inv in Hdb as (db1 & Hdb1 & [= ->]). by exists db. }
    rewrite Hdb bind_Ok in Hwf' |- *. eexists. split; [done|]. split; [by apply Hwf'| |].
    + by rewrite List.filter_app /= Emulti /= Hs ?app_nil_r.
    + intros path. cbn. destruct (decide (relative_path doc = path)) as [<-|Hne].
      * rewrite lookup_insert_eq. split_and!; [done..|]. rewrite at_path_snoc bool_decide_true //.
        by intros [_ ?]%app_eq_nil.
      * rewrite lookup_insert_ne // at_path_snoc bool_decide_false // app_nil_r. apply Hm.
  - destruct (multiplyIndexed b !! relative_path doc) as [db|] eqn:Edb; [by destruct Hdoc|].
    clear Hwf'. rewrite bool_decide_false; [by intros []|]. rewrite ENFORCE_true bind_Ok.
    eexists. split; [done|]. split; [exact Hwf| |].
    + cbn. by rewrite List.filter_app /= Emulti /= Hs.
    + intros path. cbn. rewrite at_path_snoc.
      destruct (decide (relative_path doc = path)) as [<-|E]; [by rewrite Edb Emulti|].
      rewrite bool_decide_false // app_nil_r. apply Hm.
Qed.

Lemma addExternalSymbol_holds ds b extSym :
  holds ds b -> exists b', addExternalSymbol b extSym = Ok b' /\ holds ds b'.
Proof.
  intros H.
  assert (exists ext, addExternalSymbol b extSym = Ok (set_externalSymbols b ext)) as (ext & Hext).
  { unfold addExternalSymbol. destruct (externalSymbols b !! _) as [b0|] eqn:E.
    - assert (exists b1, (if negb (sib_hasDocumentation b0) && (0 <? length (si_documentation extSym))%nat
        then setDocumentation b0 (si_documentation extSym) else Ok b0) = Ok b1) as (b1 & ->).
      { destruct (sib_hasDocumentation b0) eqn:Eh; [by eexists|]. destruct (0 <? _)%nat; [|by eexists].
        cbn. rewrite setDocumentation_ok //. by eexists. }
      by eexists.
    - destruct (addExternalSymbolUnchecked_ok b _ extSym E) as (b1 & ->). by eexists. }
  rewrite Hext. eexists. split; [done|]. destruct H as [Hwf Hs Hm]. by split.
Qed.
End Documents.

(** ** Reading the shards *)
Section Shards.
Context `{BM : BuildMode, LP : LlvmPath, LPL : !LlvmPathLaws, HI : HashIteration, AS : AbslSplit}.
Context `{SF : ShardFiles} {Process P : Type}.
Abbreviation Drv := (Driver Process P).

Definition shard_documents (l : list ShardPaths) : list Document :=
  concat (map (fun p => match readIndexShard parse_index (docsAndExternals p) with
                        | Some i => documents i | None => [] end) l).
Definition shard_forward_decls (l : list ShardPaths) : list ForwardDecl :=
  concat (map (fun p => default [] (readIndexShard parse_forward_decls (forwardDecls p))) l).

(** The file of a shard is named after a task that the scheduler knows. *)
Definition known_task (this : Drv) (p : ShardPaths) : Prop :=
  forall f id, fileName (asStringRef (docsAndExternals p)) = Some f -> tryParseJobId f = Some id ->
    exists t, allJobList (scheduler this) !! newTask id = Some t /\ job_kind (job t) = SemanticAnalysis.

Definition shard_known (this : Drv) (p : ShardPaths) : Prop :=
  AbsolutePath_wf (docsAndExternals p) /\ known_task this p.

Lemma merge_progress_ok (this : Drv) p : shard_known this p -> merge_progress this p = Ok ().
Proof.
  intros [Hwf Ht]. unfold merge_progress. rewrite asRef_wf // bind_Ok /=.
  destruct (fileName _) as [f|] eqn:Ef; [|done]. destruct (tryParseJobId f) as [id|] eqn:Eid; [|done].
  destruct (Ht f id Ef Eid) as (t & Hl & Hk). unfold getTuPath. rewrite Hl bool_decide_true //.
  by autorewrite with result_rw.
Qed.

Lemma merge_document_ok (this : Drv) p ds b bad doc :
  planner_wf (planner this) -> AbsolutePath_wf (docsAndExternals p) -> doc_path_ok (relative_path doc) ->
  holds (planned_multi (planner this)) ds b ->
  exists st, merge_document this p (b, bad) doc = Ok st
    /\ holds (planned_multi (planner this)) (ds ++ [doc]) st.1.
Proof.
  intros Hpl Hp Hdoc Hb. unfold merge_document. rewrite asRef_wf // bind_Ok.
  destruct (isMultiplyIndexedApproximate_planned (planner this) (relative_path doc)
    (mkAbsolutePathRef (asStringRef (docsAndExternals p))) bad) as (bad1 & ->); [done..|].
  rewrite bind_Ok. destruct (addDocument_holds _ ds b doc Hb Hdoc) as (b1 & -> & Hb1).
  rewrite bind_Ok. by exists (b1, bad1).
Qed.

Lemma merge_documents_ok (this : Drv) p docs : forall ds st,
  planner_wf (planner this) -> AbsolutePath_wf (docsAndExternals p) ->
  Forall (fun d => doc_path_ok (relative_path d)) docs -> holds (planned_multi (planner this)) ds st.1 ->
  exists st', foldM (merge_document this p) st docs = Ok st'
    /\ holds (planned_multi (planner this)) (ds ++ docs) st'.1.
Proof.
  induction docs as [|doc docs IH]; intros ds [b bad] Hpl Hp Hdocs Hb; cbn [foldM].
  - exists (b, bad). by rewrite app_nil_r.
  - apply Forall_cons in Hdocs as [Hdoc Hdocs].
    destruct (merge_document_ok this p ds b bad doc) as (st1 & -> & Hb1); [done..|]. rewrite bind_Ok.
    rewrite (app_assoc ds [doc]). by apply IH.
Qed.

Lemma merge_shard_ok (this : Drv) p ds st :
  planner_wf (planner this) -> shard_known this p ->
  Forall (fun d => doc_path_ok (relative_path d)) (shard_documents [p]) ->
  holds (planned_multi (planner this)) ds st.1 ->
  exists st', merge_shard this st p = Ok st'
    /\ holds (planned_multi (planner this)) (ds ++ shard_documents [p]) st'.1.
Proof.
  intros Hpl Hp. unfold shard_documents, merge_shard. cbn [map concat]. rewrite app_nil_r.
  destruct (readIndexShard parse_index _) as [i|]; intros Hd Hb; [|rewrite app_nil_r; by exists st].
  destruct (merge_documents_ok this p (documents i) ds st Hpl (proj1 Hp) Hd Hb) as ([b1 bad1] & -> & Hb1).
  rewrite bind_Ok.
  destruct (foldM_total (holds (planned_multi (planner this)) (ds ++ documents i)) addExternalSymbol
    (external_symbols i) b1) as (b2 & -> & Hb2); [intros; by apply addExternalSymbol_holds|done|].
  rewrite bind_Ok merge_progress_ok // bind_Ok. by exists (b2, bad1).
Qed.

Lemma merge_shards_ok (this : Drv) l : forall ds st,
  planner_wf (planner this) -> Forall (shard_known this) l ->
  Forall (fun d => doc_path_ok (relative_path d)) (shard_documents l) ->
  holds (planned_multi (planner this)) ds st.1 ->
  exists st', foldM (merge_shard this) st l = Ok st'
    /\ holds (planned_multi (planner this)) (ds ++ shard_documents l) st'.1.
Proof.
  induction l as [|p l IH]; intros ds st Hpl Hl Hdocs Hb; cbn [foldM].
  - exists st. by rewrite app_nil_r.
  - apply Forall_cons in Hl as [Hp Hl].
    change (shard_documents (p :: l)) with (shard_documents ([p] ++ l)) in *.
    assert (shard_documents ([p] ++ l) = shard_documents [p] ++ shard_documents l) as E
      by (unfold shard_documents; by rewrite map_app concat_app).
    rewrite E in Hdocs |- *. apply Forall_app in Hdocs as [Hd Hdocs].
    destruct (merge_shard_ok this p ds st) as (st1 & -> & Hb1); [done..|]. rewrite bind_Ok app_assoc.
    by apply IH.
Qed.
End Shards.

(** ** Forward declarations *)
Section Forwards.
Context `{BM : BuildMode, LP : LlvmPath, HI : HashIteration, HL : !HashIterationLaws}.

(** What forward declarations leave as it is: paths and occurrences of documents. *)
Definition document_view (d : Document) : str * list Occurrence := (relative_path d, occurrences d).
Definition builder_view (db : DocumentBuilder) : str * list Occurrence :=
  (db_relative_path db, db_occurrences db).
Definition same_view (b b' : IndexBuilder) : Prop :=
  map document_view (ib_documents b') = map document_view (ib_documents b)
  /\ builder_view <$> multiplyIndexed b' = builder_view <$> multiplyIndexed b.

#[local] Instance same_view_preorder : PreOrder same_view.
Proof. split; [done|]. intros x y z [? ?] [? ?]. split; congruence. Qed.

Lemma addForwardDeclOccurrences_view b name fd b' :
  addForwardDeclOccurrences b name fd = Ok b' -> same_view b b'.
Proof.
  intros H. refine (foldM_invariant (same_view b) _ _ _ _ _ _ H); [|done].
  intros t ref t' _ Ht Hstep. etrans; [exact Ht|]. by apply bind_Ok_inv in Hstep as (occ & _ & <-%Ok_inj).
Qed.

Lemma resolve_external_view fd b n b' : resolve_external fd b n = Ok b' -> same_view b b'.
Proof.
  unfold resolve_external. intros (_ & _ & H)%bind_Ok_inv. destruct (externalSymbols b !! n); [|done].
  apply bind_Ok_inv in H as (b1 & _ & H). apply addForwardDeclOccurrences_view in H. exact H.
Qed.

Lemma ptr_add_documentation_view b ptr text b' :
  ptr_add_documentation b ptr text = Ok b' -> same_view b b'.
Proof.
  unfold ptr_add_documentation. destruct ptr as [d n|path name].
  - intros (doc & Hd%vector_at_Ok & (si & _ & <-%Ok_inj)%bind_Ok_inv)%bind_Ok_inv.
    destruct (negb _); [|done]. split; [|done]. cbn [ib_documents set_ib_documents].
    transitivity (<[d := document_view (document_set_docs doc n [text])]> (document_view <$> ib_documents b));
      [apply list_fmap_insert|]. apply list_insert_id. by rewrite list_lookup_fmap Hd.
  - destruct (multiplyIndexed b !! path) as [db|] eqn:E; [|done]. destruct (symbolInfos db !! name); [|done].
    destruct (negb _); [|by intros <-%Ok_inj].
    intros (b1 & _ & <-%Ok_inj)%bind_Ok_inv. split; [done|]. cbn. rewrite fmap_insert.
    apply insert_id. by rewrite lookup_fmap E.
Qed.

Lemma addForwardDeclaration_view b r fd b' r' :
  addForwardDeclaration b r fd = Ok (b', r') -> same_view b b'.
Proof.
  unfold addForwardDeclaration. destruct (lookupInDocuments _ _) as [ptr|].
  - destruct (lookupExternals _ _); intros (name & _ & H)%bind_Ok_inv;
      apply bind_Ok_inv in H as (b1 & H1 & (b2 & H2 & [= -> _])%bind_Ok_inv);
      (etrans; [|by eapply addForwardDeclOccurrences_view]);
      (destruct (negb _); [apply ptr_add_documentation_view in H1; exact H1|apply Ok_inj in H1 as <-; done]).
  - destruct (lookupExternals _ _).
    + intros (_ & _ & (b1 & H1 & [= -> _])%bind_Ok_inv)%bind_Ok_inv.
      refine (foldM_invariant (same_view b) _ _ _ _ _ _ H1); [|done].
      intros t n t' _ Ht Hs. etrans; [exact Ht|by eapply resolve_external_view].
    + unfold add_unknown_external, addExternalSymbolUnchecked.
      intros (fake & _ & (b1 & H1 & (b2 & H2 & [= -> _])%bind_Ok_inv)%bind_Ok_inv)%bind_Ok_inv.
      etrans; [|by eapply addForwardDeclOccurrences_view].
      apply bind_Ok_inv in H1 as (si & _ & <-%Ok_inj). by destruct (externalSymbols b !! _).
Qed.

(** The occurrences of a declaration are recorded, under a symbol with its suffix. *)
Definition fd_recorded (b : IndexBuilder) (fd : ForwardDecl) : Prop :=
  forall ref, ref ∈ fd_references fd -> exists n,
    getPackageAgnosticSuffix n = Some (mkSymbolSuffix (fd_suffix fd))
    /\ fdo_of n ref ∈ default [] (forwardDeclOccurenceMap b !! ref_relative_path ref).

Definition occurrences_kept (b b' : IndexBuilder) : Prop := forall path,
  default [] (forwardDeclOccurenceMap b !! path) ⊆ default [] (forwardDeclOccurenceMap b' !! path).

Lemma attached_recorded b b' fd (names : SymbolNameRef -> Prop) :
  attached b b' fd names -> (exists n, names n) ->
  (forall n, names n -> getPackageAgnosticSuffix n = Some (mkSymbolSuffix (fd_suffix fd))) ->
  occurrences_kept b b' /\ fd_recorded b' fd.
Proof.
  intros Ha (n & Hn) Hsuf. split.
  - intros path fdo Hin. apply Ha. by left.
  - intros ref Href. exists n. split; [by apply Hsuf|]. apply Ha. right. exists n, ref.
    split_and!; [done| |done]. unfold refs_at. rewrite list_elem_of_In List.filter_In -list_elem_of_In.
    split; [done|by apply bool_decide_eq_true].
Qed.

Lemma linked_suffix b r suffix n :
  resolver_inv b r -> linked b r suffix n -> getPackageAgnosticSuffix n = Some suffix.
Proof.
  unfold linked. intros Hinv. destruct (lookupInDocuments r suffix) as [ptr|] eqn:E; [|by intros [_ ?]].
  intros Hn. destruct (inv_ptr _ _ Hinv suffix ptr E) as (name & Hname & Hs).
  rewrite Hn in Hname. by injection Hname as ->.
Qed.

Lemma addForwardDeclaration_recorded b r fd :
  resolver_inv b r -> ForwardDecl_wf fd ->
  exists b' r', addForwardDeclaration b r fd = Ok (b', r') /\ resolver_inv b' r'
    /\ occurrences_kept b b' /\ fd_recorded b' fd.
Proof.
  intros Hinv Hwf. destruct (lookupInDocuments r (mkSymbolSuffix (fd_suffix fd))) as [ptr|] eqn:E.
  - destruct (addForwardDeclaration_in_document b r fd ptr Hinv Hwf E)
      as (b' & r' & name & Hadd & Hinv' & Hlk & Hp & Ha & _).
    exists b', r'. split_and!; [done..| |]; apply (attached_recorded _ _ _ _ Ha); try by eexists.
    all: intros n ->; destruct (inv_ptr _ _ Hinv' (mkSymbolSuffix (fd_suffix fd)) ptr) as (name' & Hn & Hs);
      [change (lookupInDocuments r' (mkSymbolSuffix (fd_suffix fd)) = Some ptr); by rewrite Hlk|].
    all: rewrite Hp in Hn; by injection Hn as ->.
  - destruct (addForwardDeclaration_external b r fd Hinv Hwf E) as (b' & r' & Hadd & Hinv' & Ha & Hn).
    exists b', r'. split_and!; [done..| |]; apply (attached_recorded _ _ _ _ Ha); try done;
      intros n; by apply linked_suffix.
Qed.

Lemma fd_recorded_kept b b' fd : occurrences_kept b b' -> fd_recorded b fd -> fd_recorded b' fd.
Proof. intros Hk Hr ref Href. destruct (Hr ref Href) as (n & ? & ?). exists n. split; [done|by apply Hk]. Qed.

(** The state after the declarations [fds]. *)
Definition forwards_added (b0 : IndexBuilder) (fds : list ForwardDecl)
    (st : IndexBuilder * ForwardDeclResolver) : Prop :=
  resolver_inv st.1 st.2 /\ same_view b0 st.1 /\ forall fd, fd ∈ fds -> fd_recorded st.1 fd.

Lemma add_forward_decls_ok b0 l : forall fds st,
  Forall ForwardDecl_wf l -> forwards_added b0 fds st ->
  exists st', foldM (fun st fd => addForwardDeclaration st.1 st.2 fd) st l = Ok st'
    /\ forwards_added b0 (fds ++ l) st'.
Proof.
  induction l as [|fd l IH]; intros fds [b r] Hl (Hinv & Hview & Hrec); cbn [foldM].
  - exists (b, r). by rewrite app_nil_r.
  - apply Forall_cons in Hl as [Hfd Hl]. cbn in Hinv, Hview, Hrec |- *.
    destruct (addForwardDeclaration_recorded b r fd Hinv Hfd) as (b1 & r1 & Hadd & Hinv1 & Hk & Hr1).
    rewrite Hadd bind_Ok (app_assoc fds [fd]). apply IH; [done|]. split_and!; [done| |].
    + etrans; [exact Hview|by eapply addForwardDeclaration_view].
    + intros fd' [?| ->%list_elem_of_singleton]%elem_of_app; [|done]. by eapply fd_recorded_kept, Hrec.
Qed.

Lemma merge_forward_decls_ok `{SF : ShardFiles} b0 l : forall fds st,
  Forall ForwardDecl_wf (shard_forward_decls l) -> forwards_added b0 fds st ->
  exists st', foldM merge_forward_decls st l = Ok st'
    /\ forwards_added b0 (fds ++ shard_forward_decls l) st'.
Proof.
  induction l as [|p l IH]; intros fds st Hl Hst; cbn [foldM].
  - exists st. by rewrite app_nil_r.
  - unfold shard_forward_decls in Hl |- *. cbn [map concat] in Hl |- *.
    apply Forall_app in Hl as [Hp Hl]. rewrite app_assoc.
    assert (exists st1, merge_forward_decls st p = Ok st1
      /\ forwards_added b0 (fds ++ default [] (readIndexShard parse_forward_decls (forwardDecls p))) st1)
      as (st1 & -> & Hst1); [|rewrite bind_Ok; by apply IH].
    unfold merge_forward_decls. destruct (readIndexShard parse_forward_decls _) as [fds1|].
    + by apply add_forward_decls_ok.
    + exists st. by rewrite app_nil_r.
Qed.
End Forwards.

(** ** What is written *)
Section Output.
Context `{BM : BuildMode, LP : LlvmPath, LPL : !LlvmPathLaws, HI : HashIteration, HL : !HashIterationLaws}.
Context (multi : str -> bool).

Lemma db_finish_view (db : DocumentBuilder) det :
  relative_path (db_finish db det) = db_relative_path db
  /\ forall o, o ∈ occurrences (db_finish db det) <-> o ∈ db_occurrences db.
Proof.
  rewrite db_finish_spec. split; [done|]. intros o. cbn.
  destruct det; by rewrite ?c_sort_Permutation iterate_set_entries.
Qed.

Lemma render_view det fdos d :
  relative_path (render det fdos d) = relative_path d
  /\ forall o, o ∈ occurrences (render det fdos d) <-> o ∈ occurrences d
       \/ exists f, f ∈ default [] (fdos !! relative_path d) /\ o = fdo_addTo f empty_occurrence.
Proof.
  unfold render. destruct (fdos !! relative_path d) as [fs|]; cbn.
  - split; [done|]. intros o. destruct det; rewrite ?c_sort_Permutation elem_of_app list_elem_of_fmap;
      split; (intros [?|(f & ? & ?)]; [by left|right; by exists f]).
  - split; [done|]. intros o. split; [by left|]. by intros [?|(f & ?%elem_of_nil & _)].
Qed.

Lemma elem_of_finish_documents b det d :
  d ∈ finish_documents b det <-> d ∈ ib_documents b
    \/ exists path db, multiplyIndexed b !! path = Some db /\ d = db_finish db det.
Proof.
  unfold finish_documents. rewrite elem_of_app list_elem_of_fmap. split.
  - intros [?|([path db] & -> & Hin%elem_of_extract_order)]; [by left|right; by exists path, db].
  - intros [?|(path & db & Hl & ->)]; [by left|right]. exists (path, db).
    by rewrite elem_of_extract_order.
Qed.

(** The views of the documents after the forward declarations. *)
Lemma view_documents b b' : same_view b b' -> forall v,
  (exists d, d ∈ ib_documents b' /\ document_view d = v)
  <-> (exists d, d ∈ ib_documents b /\ document_view d = v).
Proof.
  intros [Hv _] v. assert (v ∈ map document_view (ib_documents b') <-> v ∈ map document_view (ib_documents b)) as E
    by by rewrite Hv. revert E. rewrite !list_elem_of_fmap. intros E. split; intros (d & ? & ?).
  - destruct (proj1 E) as (d' & ? & ?); [by exists d|by exists d'].
  - destruct (proj2 E) as (d' & ? & ?); [by exists d|by exists d'].
Qed.

Lemma view_builders b b' path db' : same_view b b' -> multiplyIndexed b' !! path = Some db' ->
  exists db, multiplyIndexed b !! path = Some db /\ builder_view db = builder_view db'.
Proof.
  intros [_ Hv] Hl. pose proof (f_equal (fun m => m !! path) Hv) as E. cbn in E.
  rewrite !lookup_fmap Hl in E. destruct (multiplyIndexed b !! path) as [db|]; [|done].
  exists db. split; [done|]. injection E as ? ?. unfold builder_view. congruence.
Qed.

Lemma same_view_sym b b' : same_view b b' -> same_view b' b.
Proof. by intros [? ?]. Qed.

Lemma elem_of_at_path path ds d : d ∈ at_path path ds <-> d ∈ ds /\ relative_path d = path.
Proof.
  unfold at_path. rewrite list_elem_of_In List.filter_In -list_elem_of_In.
  by rewrite bool_decide_eq_true.
Qed.

(** Every document that was added is covered by a written one. *)
Lemma written_covers ds b b' det d : holds multi ds b -> same_view b b' -> d ∈ ds ->
  exists d', d' ∈ finish_documents b' det /\ relative_path d' = relative_path d
    /\ occurrences d ⊆ occurrences d'.
Proof.
  intros [_ Hs Hm] Hv Hd. destruct (multi (relative_path d)) eqn:Em.
  - pose proof (Hm (relative_path d)) as H. assert (d ∈ at_path (relative_path d) ds) as Hat
      by by rewrite elem_of_at_path.
    destruct (multiplyIndexed b !! relative_path d) as [db|] eqn:E.
    + destruct H as (_ & Hmd & Hp & _).
      destruct (view_builders b' b (relative_path d) db (same_view_sym _ _ Hv) E) as (db' & Hl & Ev).
      injection Ev as Ep Eo. exists (db_finish db' det). destruct (db_finish_view db' det) as [Hpath Hocc].
      split_and!; [apply elem_of_finish_documents; eauto|congruence|].
      intros o Ho. apply Hocc. rewrite Eo. apply (merged_occurrences _ _ Hmd). by exists d.
    + rewrite H // in Hat. by apply elem_of_nil in Hat.
  - destruct (proj2 (view_documents b b' Hv (document_view d))) as (d' & Hd' & [= Ep Eo]).
    { exists d. split; [|done]. rewrite Hs list_elem_of_In List.filter_In -list_elem_of_In. by rewrite Em. }
    exists d'. rewrite elem_of_finish_documents Ep Eo. split_and!; [by left|done|done].
Qed.

(** Nothing else is written. *)
Lemma written_only ds b b' det d' : holds multi ds b -> same_view b b' -> d' ∈ finish_documents b' det ->
  exists d, d ∈ ds /\ relative_path d = relative_path d'.
Proof.
  intros [_ Hs Hm] Hv [Hd|(path & db' & Hl & ->)]%elem_of_finish_documents.
  - destruct (proj1 (view_documents b b' Hv (document_view d'))) as (d & Hd0 & [= Ep _]); [by exists d'|].
    exists d. split; [|done]. rewrite Hs list_elem_of_In List.filter_In -list_elem_of_In in Hd0. apply Hd0.
  - destruct (view_builders b b' path db' Hv Hl) as (db & Hl0 & [= Ep _]). pose proof (Hm path) as H.
    rewrite Hl0 in H. destruct H as (_ & _ & Hp & Hne). destruct (at_path path ds) as [|d rest] eqn:E; [done|].
    assert (d ∈ at_path path ds) as [Hd Hdp]%elem_of_at_path by (rewrite E; by left).
    exists d. split; [done|]. rewrite (proj1 (db_finish_view db' det)). congruence.
Qed.

Lemma at_path_once path ds : NoDup (map relative_path ds) -> (length (at_path path ds) <= 1)%nat.
Proof.
  induction ds as [|d ds IH]; intros Hnd; [cbn; lia|]. cbn [map] in Hnd. apply NoDup_cons in Hnd as [Hn Hnd].
  unfold at_path. cbn [List.filter]. fold (at_path path ds). case_bool_decide as E; [|by apply IH].
  destruct (at_path path ds) as [|d' rest] eqn:Ea; [cbn; lia|]. exfalso. apply Hn.
  assert (d' ∈ at_path path ds) as [Hin Hp]%elem_of_at_path by (rewrite Ea; by left).
  apply list_elem_of_fmap. exists d'. split; [congruence|done].
Qed.

(** A file with several versions has at most one document. *)
Lemma written_once ds b b' det path : holds multi ds b -> same_view b b' -> multi path = true ->
  (length (at_path path (finish_documents b' det)) <= 1)%nat.
Proof.
  intros Hb Hv Hp. unfold finish_documents, at_path. rewrite List.filter_app.
  fold (at_path path (ib_documents b')).
  fold (at_path path (map (fun kv => db_finish kv.2 det)
    (extract_order CmpStr (iterate (multiplyIndexed b')) det))).
  assert (at_path path (ib_documents b') = []) as ->.
  { destruct (at_path path (ib_documents b')) as [|d rest] eqn:E; [done|]. exfalso.
    assert (d ∈ at_path path (ib_documents b')) as [Hd Hdp]%elem_of_at_path by (rewrite E; by left).
    destruct (proj1 (view_documents b b' Hv (document_view d))) as (d0 & Hd0 & [= Ep _]); [by exists d|].
    rewrite (holds_single _ _ _ Hb) list_elem_of_In List.filter_In Ep Hdp Hp in Hd0. by destruct Hd0. }
  apply at_path_once. rewrite map_map.
  erewrite map_ext_in; [apply (extract_order_NoDup CmpStr (multiplyIndexed b') det)|].
  intros [p db'] Hin. rewrite -list_elem_of_In in Hin. apply elem_of_extract_order in Hin. cbn.
  rewrite (proj1 (db_finish_view db' det)). destruct (view_builders b b' p db' Hv Hin) as (db & Hl & [= Ep _]).
  pose proof (holds_multi _ _ _ Hb p) as H. rewrite Hl in H. destruct H as (_ & _ & H & _). congruence.
Qed.
End Output.

(** ** External symbols *)
Section Externals.
Context `{BM : BuildMode, LP : LlvmPath, HI : HashIteration, HL : !HashIterationLaws}.

Definition has_external (b : IndexBuilder) (n : SymbolNameRef) : Prop := is_Some (externalSymbols b !! n).
Definition external_name (e : SymbolInformation) : SymbolNameRef := mkSymbolNameRef (si_symbol e).

Lemma addDocument_externals b doc m b' :
  addDocument b doc m = Ok b' -> externalSymbols b' = externalSymbols b.
Proof.
  unfold addDocument. intros (_ & _ & H)%bind_Ok_inv.
  destruct m; apply bind_Ok_inv in H as (path & _ & (x & _ & <-%Ok_inj)%bind_Ok_inv); done.
Qed.

Lemma addExternalSymbol_has b e b' n : addExternalSymbol b e = Ok b' ->
  n = external_name e \/ has_external b n -> has_external b' n.
Proof.
  unfold addExternalSymbol, addExternalSymbolUnchecked, has_external. fold (external_name e).
  destruct (externalSymbols b !! external_name e) as [b0|] eqn:E; intros (b1 & _ & <-%Ok_inj)%bind_Ok_inv;
    cbn; rewrite lookup_insert_is_Some'; (intros [->|?]; [by left|by right]).
Qed.

Lemma addForwardDeclOccurrences_externals b name fd b' :
  addForwardDeclOccurrences b name fd = Ok b' -> externalSymbols b' = externalSymbols b.
Proof.
  intros H. refine (foldM_invariant (fun t => externalSymbols t = externalSymbols b) _ _ _ _ _ _ H); [|done].
  intros t ref t' _ Ht (occ & _ & <-%Ok_inj)%bind_Ok_inv. done.
Qed.

Lemma resolve_external_has fd b n b' m :
  resolve_external fd b n = Ok b' -> has_external b m -> has_external b' m.
Proof.
  unfold resolve_external, has_external. intros (_ & _ & H)%bind_Ok_inv.
  destruct (externalSymbols b !! n); [|done].
  apply bind_Ok_inv in H as (b1 & _ & ->%addForwardDeclOccurrences_externals).
  cbn. rewrite lookup_insert_is_Some'. by right.
Qed.

(** A forward declaration only removes external symbols with its own suffix. *)
Lemma addForwardDeclaration_has b r fd b' r' n :
  resolver_inv b r -> ForwardDecl_wf fd -> addForwardDeclaration b r fd = Ok (b', r') ->
  has_external b n -> getPackageAgnosticSuffix n <> Some (mkSymbolSuffix (fd_suffix fd)) -> has_external b' n.
Proof.
  intros Hinv Hwf Hadd Hn Hsuf.
  destruct (lookupInDocuments r (mkSymbolSuffix (fd_suffix fd))) as [ptr|] eqn:E.
  - destruct (addForwardDeclaration_in_document b r fd ptr Hinv Hwf E)
      as (b1 & r1 & name & H1 & _ & _ & _ & _ & _ & Hk).
    rewrite Hadd in H1. injection H1 as <- <-. by apply Hk.
  - unfold addForwardDeclaration in Hadd. rewrite E in Hadd. destruct (lookupExternals r _).
    + apply bind_Ok_inv in Hadd as (_ & _ & (b1 & H1 & [= -> _])%bind_Ok_inv).
      refine (foldM_invariant (fun t => has_external t n) _ _ _ _ _ _ H1); [|done].
      intros t m t' _ Ht Hs. by eapply resolve_external_has.
    + unfold add_unknown_external, addExternalSymbolUnchecked in Hadd.
      apply bind_Ok_inv in Hadd as (fake & _ & (b1 & H1 & (b2 & H2 & [= -> _])%bind_Ok_inv)%bind_Ok_inv).
      apply addForwardDeclOccurrences_externals in H2. unfold has_external. rewrite H2.
      apply bind_Ok_inv in H1 as (si & _ & <-%Ok_inj).
      destruct (externalSymbols b !! mkSymbolNameRef _); [done|]. cbn. rewrite lookup_insert_is_Some'. by right.
Qed.

Definition shard_externals `{SF : ShardFiles} (l : list ShardPaths) : list SymbolInformation :=
  concat (map (fun p => match readIndexShard parse_index (docsAndExternals p) with
                        | Some i => external_symbols i | None => [] end) l).

Lemma add_externals_has l : forall b b' n, foldM addExternalSymbol b l = Ok b' ->
  n ∈ map external_name l \/ has_external b n -> has_external b' n.
Proof.
  induction l as [|e l IH]; intros b b' n; cbn [foldM map].
  - intros <-%Ok_inj [?%elem_of_nil|?]; done.
  - intros (b1 & H1 & Hl)%bind_Ok_inv Hn. apply (IH _ _ _ Hl).
    destruct Hn as [[->|?]%elem_of_cons|?]; [right|by left|right]; eapply addExternalSymbol_has; eauto.
Qed.

Lemma merge_shards_has `{AS : AbslSplit, SF : ShardFiles} {Process P} (this : Driver Process P) l :
  forall st st' n, foldM (merge_shard this) st l = Ok st' ->
  n ∈ map external_name (shard_externals l) \/ has_external st.1 n -> has_external st'.1 n.
Proof.
  induction l as [|p l IH]; intros st st' n; cbn [foldM].
  - intros <-%Ok_inj [?%elem_of_nil|?]; done.
  - intros (st1 & H1 & Hl)%bind_Ok_inv Hn. apply (IH _ _ _ Hl). clear IH Hl.
    unfold shard_externals in Hn. cbn [map concat] in Hn. rewrite map_app elem_of_app in Hn.
    fold (shard_externals l) in Hn. unfold merge_shard in H1.
    destruct (readIndexShard parse_index _) as [i|]; [|apply Ok_inj in H1 as <-; cbn in Hn; destruct Hn as [[[]%elem_of_nil|?]|?]; auto].
    apply bind_Ok_inv in H1 as ([b1 bad1] & Hdocs & (b2 & Hext & (_ & _ & <-%Ok_inj)%bind_Ok_inv)%bind_Ok_inv).
    assert (externalSymbols b1 = externalSymbols st.1) as E.
    { refine (foldM_invariant (fun t => externalSymbols t.1 = externalSymbols st.1) _ _ _ _ _ _ Hdocs); [|done].
      intros [t bad] doc t' _ Ht. unfold merge_document.
      intros (sp & _ & ([m bad'] & _ & (b3 & Hb3 & <-%Ok_inj)%bind_Ok_inv)%bind_Ok_inv)%bind_Ok_inv.
      cbn in *. by rewrite (addDocument_externals _ _ _ _ Hb3). }
    assert (n ∈ map external_name (external_symbols i) \/ has_external st.1 n -> has_external b2 n) as Hb2.
    { intros Hor. eapply add_externals_has; [exact Hext|]. unfold has_external in *. by rewrite E. }
    cbn. tauto.
Qed.

(** The driver's second phase keeps what no declaration is about. *)
Definition kept_externals (b0 : IndexBuilder) (fds : list ForwardDecl) (b : IndexBuilder) : Prop :=
  forall n, has_external b0 n ->
    (forall fd, fd ∈ fds -> getPackageAgnosticSuffix n <> Some (mkSymbolSuffix (fd_suffix fd))) ->
    has_external b n.

Lemma add_forward_decls_kept b0 l : forall fds st st',
  Forall ForwardDecl_wf l -> resolver_inv st.1 st.2 -> kept_externals b0 fds st.1 ->
  foldM (fun st fd => addForwardDeclaration st.1 st.2 fd) st l = Ok st' ->
  resolver_inv st'.1 st'.2 /\ kept_externals b0 (fds ++ l) st'.1.
Proof.
  induction l as [|fd l IH]; intros fds [b r] st' Hl Hinv Hk; cbn [foldM].
  - intros <-%Ok_inj. by rewrite app_nil_r.
  - apply Forall_cons in Hl as [Hfd Hl]. intros ([b1 r1] & H1 & Hf)%bind_Ok_inv.
    rewrite (app_assoc fds [fd]). eapply IH; [done| | |exact Hf].
    + destruct (addForwardDeclaration_recorded b r fd Hinv Hfd) as (b2 & r2 & H2 & ? & _).
      cbn in H1. rewrite H1 in H2. by injection H2 as <- <-.
    + intros n Hn Hfds. eapply addForwardDeclaration_has; [exact Hinv|exact Hfd|exact H1| |].
      * apply Hk; [done|]. intros fd' Hin. apply Hfds, elem_of_app. by left.
      * apply Hfds, elem_of_app. right. by left.
Qed.

Lemma merge_forward_decls_kept `{SF : ShardFiles} b0 l : forall fds st st',
  Forall ForwardDecl_wf (shard_forward_decls l) -> resolver_inv st.1 st.2 -> kept_externals b0 fds st.1 ->
  foldM merge_forward_decls st l = Ok st' -> kept_externals b0 (fds ++ shard_forward_decls l) st'.1.
Proof.
  induction l as [|p l IH]; intros fds st st' Hl Hinv Hk; cbn [foldM].
  - intros <-%Ok_inj. by rewrite app_nil_r.
  - unfold shard_forward_decls in Hl |- *. cbn [map concat] in Hl |- *.
    apply Forall_app in Hl as [Hp Hl]. rewrite app_assoc. intros (st1 & H1 & Hf)%bind_Ok_inv.
    unfold merge_forward_decls in H1. destruct (readIndexShard parse_forward_decls _) as [fds1|].
    + destruct (add_forward_decls_kept b0 _ fds _ _ Hp Hinv Hk H1). by eapply IH.
    + apply Ok_inj in H1 as <-. rewrite app_nil_r. by eapply IH.
Qed.
End Externals.

(** ** Properties *)

(** What the driver relies on when it merges: a planner for the project, shards named
    after known tasks, documents with relative paths, and forward declarations with
    ranges, as the workers write them. *)
Record mergeable `{LlvmPath, AbslSplit, ShardFiles} {Process P} (this : Driver Process P) : Prop := {
  mg_planner : planner_wf (planner this);
  mg_shards : Forall (shard_known this) (shardPaths_ this);
  mg_documents : Forall (fun d => doc_path_ok (relative_path d)) (shard_documents (shardPaths_ this));
  mg_forward_decls : Forall ForwardDecl_wf (shard_forward_decls (shardPaths_ this))
}.

(** The written index contains what the readable shards [l] contain. *)
Record merged_index `{ShardFiles} (pl : FileIndexingPlanner) (l : list ShardPaths) (out : Index) : Prop := {
  mi_covers d : d ∈ shard_documents l -> exists d', d' ∈ documents out
    /\ relative_path d' = relative_path d /\ occurrences d ⊆ occurrences d';
  mi_only d' : d' ∈ documents out -> exists d, d ∈ shard_documents l /\ relative_path d = relative_path d';
  mi_once path : planned_multi pl path = true -> (length (at_path path (documents out)) <= 1)%nat;
  mi_forwards fd ref d' : fd ∈ shard_forward_decls l -> ref ∈ fd_references fd ->
    Forall (fun v => v <> -1) (ref_range ref) ->
    d' ∈ documents out -> relative_path d' = ref_relative_path ref ->
    exists o, o ∈ occurrences d' /\ range o = ref_range ref
      /\ getPackageAgnosticSuffix (mkSymbolNameRef (occ_symbol o)) = Some (mkSymbolSuffix (fd_suffix fd));
  mi_externals e : e ∈ shard_externals l ->
    (forall fd, fd ∈ shard_forward_decls l ->
       getPackageAgnosticSuffix (external_name e) <> Some (mkSymbolSuffix (fd_suffix fd))) ->
    exists e', e' ∈ external_symbols out /\ si_symbol e' = si_symbol e
}.

Section MergeSucceeds.
Context `{BM : BuildMode, LP : LlvmPath, LPL : !LlvmPathLaws, HI : HashIteration, HL : !HashIterationLaws}.
Context `{AS : AbslSplit, SF : ShardFiles, MC : MergeConstants} {Process P : Type}.

(** What holds of the builder when everything is in gives the written index. *)
Lemma finish_merged pl l b0 b det :
  holds (planned_multi pl) (shard_documents l) b0 -> same_view b0 b ->
  (forall fd, fd ∈ shard_forward_decls l -> fd_recorded b fd) ->
  Forall ForwardDecl_wf (shard_forward_decls l) ->
  (forall e, e ∈ shard_externals l -> has_external b0 (external_name e)) ->
  kept_externals b0 (shard_forward_decls l) b ->
  merged_index pl l (concat_index (finish b det)).
Proof.
  intros Hb Hv Hrec Hwf Hext Hkept. rewrite (proj1 (finish_written b det)). split; cbn [documents external_symbols].
  - intros d Hd. destruct (written_covers _ _ b0 b det d Hb Hv Hd) as (d' & Hd' & Hp & Ho).
    destruct (render_view det (forwardDeclOccurenceMap b) d') as [Hrp Hro].
    eexists. split; [apply list_elem_of_fmap; by exists d'|]. split; [congruence|].
    intros o Hin. apply Hro. left. by apply Ho.
  - intros d' (d1 & -> & Hd1)%list_elem_of_fmap.
    destruct (written_only _ _ b0 b det d1 Hb Hv Hd1) as (d & Hd & Hp). exists d.
    by rewrite (proj1 (render_view det (forwardDeclOccurenceMap b) d1)).
  - intros path Hp. pose proof (written_once _ _ b0 b det path Hb Hv Hp) as Hle.
    replace (length (at_path path (map (render det (forwardDeclOccurenceMap b)) (finish_documents b det))))
      with (length (at_path path (finish_documents b det))); [done|].
    generalize (finish_documents b det). intros ds. unfold at_path. induction ds as [|d ds IH]; [done|].
    cbn [map List.filter]. rewrite (proj1 (render_view det (forwardDeclOccurenceMap b) d)).
    case_bool_decide; cbn [length]; congruence.
  - intros fd ref d' Hfd Href Hne (d1 & -> & Hd1)%list_elem_of_fmap.
    destruct (render_view det (forwardDeclOccurenceMap b) d1) as [-> Hro]. intros Hp.
    destruct (Hrec fd Hfd ref Href) as (n & Hs & Hin).
    exists (fdo_addTo (fdo_of n ref) empty_occurrence). split_and!.
    + apply Hro. right. exists (fdo_of n ref). by rewrite Hp.
    + apply addTo_range; [|done]. rewrite Forall_forall in Hwf. specialize (Hwf fd Hfd).
      unfold ForwardDecl_wf in Hwf. rewrite Forall_forall in Hwf. by apply Hwf.
    + cbn. by destruct n.
  - intros e He Hfds. destruct (Hkept (external_name e) (Hext e He) Hfds) as [sib Hsib].
    eexists. split.
    + apply list_elem_of_fmap. exists (external_name e, sib). split; [done|]. by apply elem_of_extract_order.
    + by rewrite sib_finish_spec.
Qed.

Lemma mergeShardsAndEmit_ok (this : Driver Process P) : mergeable this ->
  exists chunks bad, mergeShardsAndEmit this
      = Ok (MetadataFragment (merge_metadata this) :: map IndexFragment chunks, bad)
    /\ Forall chunk_ok chunks /\ merged_index (planner this) (shardPaths_ this) (concat_index chunks).
Proof.
  intros [Hpl Hsh Hdocs Hfwd]. unfold mergeShardsAndEmit.
  destruct (merge_shards_ok this (shardPaths_ this) [] (IndexBuilder_new, ∅) Hpl Hsh Hdocs (holds_new _))
    as ([b0 bad] & Hm & Hb0). rewrite Hm bind_Ok. cbn [fst app] in Hb0.
  pose proof (populate_resolver_inv b0 (holds_wf _ _ _ Hb0)) as Hinv.
  destruct (merge_forward_decls_ok b0 (shardPaths_ this) [] (b0, populateForwardDeclResolver b0) Hfwd)
    as ([b r] & Hf & Hinv' & Hv & Hrec).
  { split; [done|]. split; [done|]. by intros fd ?%elem_of_nil. }
  rewrite Hf bind_Ok. do 2 eexists. split; [done|]. split; [apply finish_written|].
  apply (finish_merged _ _ b0); [done..| |].
  - intros e He. apply (merge_shards_has this _ _ _ _ Hm). left. apply list_elem_of_fmap. by exists e.
  - refine (merge_forward_decls_kept b0 (shardPaths_ this) [] _ _ Hfwd _ _ Hf); [exact Hinv|by intros n Hn _].
Qed.

(** The order in which shards are read does not matter for what is required. *)
Lemma concat_map_Permutation {A B} (f : A -> list B) l l' : l ≡ₚ l' -> concat (map f l) ≡ₚ concat (map f l').
Proof.
  induction 1 as [|x l l' _ IH|x y l|l1 l2 l3 _ IH1 _ IH2]; cbn; [done|by rewrite IH| |by etrans].
  by rewrite !app_assoc (Permutation_app_comm (f y)).
Qed.

Definition sorted_shards (this : Driver Process P) : Driver Process P :=
  set_results this (allStatistics this) (c_sort compareShardPaths (shardPaths_ this)) (indexedSoFar this).

Lemma mergeable_sorted (this : Driver Process P) : mergeable this -> mergeable (sorted_shards this).
Proof.
  pose proof (c_sort_Permutation compareShardPaths (shardPaths_ this)) as Hp.
  intros [Hpl Hsh Hdocs Hfwd]. split; cbn [sorted_shards set_results planner shardPaths_]; [done| | |].
  - rewrite Hp. exact Hsh.
  - unfold shard_documents in *. by rewrite (concat_map_Permutation _ _ _ Hp).
  - unfold shard_forward_decls in *. by rewrite (concat_map_Permutation _ _ _ Hp).
Qed.

Lemma merged_index_sorted pl l l' out : l ≡ₚ l' -> merged_index pl l out -> merged_index pl l' out.
Proof.
  intros Hp [H1 H2 H3 H4 H5].
  assert (forall d, d ∈ shard_documents l' <-> d ∈ shard_documents l) as Ed
    by (intros d; unfold shard_documents; by rewrite (concat_map_Permutation _ _ _ Hp)).
  assert (forall d, d ∈ shard_forward_decls l' <-> d ∈ shard_forward_decls l) as Ef
    by (intros d; unfold shard_forward_decls; by rewrite (concat_map_Permutation _ _ _ Hp)).
  assert (forall d, d ∈ shard_externals l' <-> d ∈ shard_externals l) as Ee
    by (intros d; unfold shard_externals; by rewrite (concat_map_Permutation _ _ _ Hp)).
  split.
  - intros d Hd%Ed. by apply H1.
  - intros d' Hd'. destruct (H2 d' Hd') as (d & Hd & ?). exists d. by rewrite Ed.
  - done.
  - intros fd ref d' Hfd%Ef. by apply H4.
  - intros e He%Ee Hfds. apply H5; [done|]. intros fd Hfd. by apply Hfds, Ef.
Qed.
Lemma emitScipIndex_ok `{PE : ProcessEnv} (d : Driver Process P) : mergeable d -> open_fails (asStringRef (do_indexOutputPath (options d))) = false ->
  exists d' chunks bad, (d' = d \/ d' = sorted_shards d)
    /\ emitScipIndex d = Ok (d', (MetadataFragment (merge_metadata d) :: map IndexFragment chunks, bad))
    /\ Forall chunk_ok chunks /\ merged_index (planner d') (shardPaths_ d') (concat_index chunks).
Proof.
  intros Hm Hopen. unfold emitScipIndex. rewrite Hopen. fold (sorted_shards d).
  destruct (do_deterministic (options d)).
  - destruct (mergeShardsAndEmit_ok _ (mergeable_sorted d Hm)) as (chunks & bad & -> & ?). rewrite bind_Ok. eauto 10.
  - destruct (mergeShardsAndEmit_ok d Hm) as (chunks & bad & -> & ?). rewrite bind_Ok. eauto 10.
Qed.

End MergeSucceeds.


(** ** Two shards, and one that is missing *)
Definition demo_merge_occ (s : string) (r : list Z) : Occurrence := mkOccurrence r (lit s) 0 [] 0 [].
Definition demo_merge_doc (path : string) (os : list Occurrence) : Document :=
  mkDocument (lit "C++") (lit path) os [].
Definition demo_shard_files : ShardFiles := {|
  open_shard p :=
    if bool_decide (p = lit "/tmp/d/job-1-worker-0-docs") then Some (lit "A")
    else if bool_decide (p = lit "/tmp/d/job-2-worker-0-docs") then Some (lit "B")
    else if bool_decide (p = lit "/tmp/d/job-2-worker-0-fwd") then Some (lit "C") else None;
  parse_index s :=
    if bool_decide (s = lit "A") then
      Some (mkIndex [demo_merge_doc "a.c" [demo_merge_occ "cxx . . $ g." [1; 2; 3]];
                     demo_merge_doc "a.h" [demo_merge_occ "cxx . . $ g." [0; 0; 1]]]
              [mkSymbolInformation (lit "cxx . pkg v1$ f.") [lit "f"] []])
    else if bool_decide (s = lit "B") then
      Some (mkIndex [demo_merge_doc "b.c" []; demo_merge_doc "a.h" [demo_merge_occ "cxx . . $ k." [2; 0; 1]]] [])
    else None;
  parse_forward_decls s := if bool_decide (s = lit "C") then Some [mkForwardDecl (lit "g.") (lit "doc")
    [mkForwardDeclReference (lit "b.c") [4; 0; 5]]] else None
|}.
Definition demo_constants : MergeConstants := {|
  scip_clang_version := lit "0"; UnspecifiedProtocolVersion := 0; TextEncoding_UTF8 := 1;
  convert_to_slash s := s |}.
Definition demo_merge_env : ProcessEnv := {|
  current_path := lit "/p"; temp_directory_path := lit "/tmp"; open_fails _ := false;
  create_directories_fails _ := false |}.

Definition demo_shard_paths (s : string) : ShardPaths :=
  mkShardPaths (mkAbsolutePath (lit s ++ lit "docs")) (mkAbsolutePath (lit s ++ lit "fwd")).
Definition demo_tracked (i : Z) : TrackedIndexJob :=
  mkTrackedIndexJob (mkIndexJob SemanticAnalysis (mkSemanticAnalysisJobDetails (demo_command i))
    EmitIndexJobDetails_default) None.
Definition demo_merge_driver : Driver nat unit :=
  mkDriver (demo_driver_options 1) (lit "d") (mkMessageQueues [] [])
    (mkScheduler [] [] [] (<[newTask 1 := demo_tracked 1]> {[newTask 2 := demo_tracked 2]}) [] ∅ ∅)
    (mkFileIndexingPlanner
       (<[demo_path "/p/a.c" := {[1]}]> (<[demo_path "/p/a.h" := {[2; 6]}]> {[demo_path "/p/b.c" := {[5]}]}))
       (mkRootPath (demo_path "/p") Project))
    [] [demo_shard_paths "/tmp/d/job-2-worker-0-"; demo_shard_paths "/tmp/d/job-1-worker-0-";
        demo_shard_paths "/tmp/d/lost-"] 3 2 tt.

Lemma demo_mergeable : @mergeable posix_path demo_split demo_shard_files nat unit demo_merge_driver.
Proof.
  split.
  - by split.
  - repeat (apply Forall_cons; split; [split; [by vm_compute|]|]); [| | |by apply Forall_nil].
    all: intros f id Hf; vm_compute in Hf; injection Hf as <-; intros Hid; vm_compute in Hid;
      first [discriminate Hid|injection Hid as <-; eexists; by split].
  - vm_compute shard_documents. repeat (apply Forall_cons; split; [by split|]). by apply Forall_nil.
  - vm_compute shard_forward_decls. apply Forall_singleton, Forall_singleton. by left.
Qed.


(** In order of the shards' names, with one document for the header. *)
Example demo_merge_documents :
  match @emitScipIndex true posix_path tree_iteration demo_split demo_shard_files demo_constants nat unit
      demo_merge_env demo_merge_driver with
  | Ok (_, (fragments, bad)) => Some (bad, concat (map (fun f => match f with
      | IndexFragment i => map (fun d => (relative_path d, length (occurrences d))) (documents i)
      | MetadataFragment _ => [] end) fragments))
  | Err _ => None
  end = Some ([], [(lit "a.c", 1%nat); (lit "b.c", 1%nat); (lit "a.h", 2%nat)]).
Proof. by vm_compute. Qed.
