(* ===== verification/DriverSetup.v ===== *)
(** * Setting up the driver

    The constructors of [DriverOptions], [MessageQueues] and [Driver], opening the
    compilation database and spawning workers (Driver.cc), and the space for IPC
    (os/Linux.cc).

    The queues are named after the driver and its workers: queues that an earlier
    process left behind are removed first, and every worker finds its own by name. *)
From Stdlib Require Import SpecFloat.
From S2P Require Import Prelude Ordering CppString Paths Json PackageMaps IdPaths Symbols ScipMessages.
From S2P Require Import IndexBuilder CommandLine Compdb Toolchains CompdbParser Ipc CliOptions Planner Scheduler.
From S2P Require Driver.
Import Driver(Driver, DriverOptions, mkDriverOptions, DriverIpcOptions, mkDriverIpcOptions).
Open Scope Z_scope.

(** ** Space in /dev/shm *)

(** [struct statvfs] of the file system; [None] when [statvfs] fails. *)
Record StatVfs : Type := mkStatVfs { f_bavail : Z; f_bsize : Z; st_rdonly : bool }.
Class ShmStat : Type := {
  shm_info : option StatVfs;
  (** a conversion of a floating-point number that does not fit *)
  uint64_out_of_range : Z
}.

Inductive SpaceError : Type := read_only_file_system | SystemError.
#[export] Instance SpaceError_eq_dec : EqDecision SpaceError.
Proof. solve_decision. Defined.

Definition availableSpaceForIpc `{ShmStat} : Z + SpaceError :=
  match shm_info with
  | None => inr SystemError
  | Some info =>
      if st_rdonly info then inr read_only_file_system
      else inl (wrap64 (f_bavail info * f_bsize info))
  end.

(** [double] is IEEE binary64; the literal 1.2 is the nearest one. *)
Definition double_of_uint64 (z : Z) : spec_float := binary_normalize 53 1024 z 0 false.
Definition double_1_2 : spec_float := S754_finite false 5404319552844595 (-52).
Definition uint64_of_double `{ShmStat} (f : spec_float) : Z :=
  match f with
  | S754_zero _ => 0
  | S754_finite false m e =>
      let v := if 0 <=? e then Z.pos m * 2 ^ e else Z.pos m / 2 ^ (- e) in
      if v <? 2 ^ 64 then v else uint64_out_of_range
  | _ => uint64_out_of_range
  end.

Definition UINT64_MAX : Z := 2 ^ 64 - 1.
Definition EXIT_FAILURE : Z := 1.

Definition numWorkersUpperBound `{ShmStat} (perWorkerSizeHintBytes : Z) : result Z :=
  match availableSpaceForIpc with
  | inr error_code =>
      if bool_decide (error_code = read_only_file_system) then Err (Exit EXIT_FAILURE)
      else Ok UINT64_MAX
  | inl space =>
      let sizeWithOverhead := SFmul 53 1024 (double_of_uint64 perWorkerSizeHintBytes) double_1_2 in
      let maxNumWorkers := uint64_of_double (SFdiv 53 1024 (double_of_uint64 space) sizeWithOverhead) in
      if maxNumWorkers =? 0 then Err (Exit EXIT_FAILURE) else Ok maxNumWorkers
  end.

(** ** The queues *)
Record MessageQueues : Type := mkMessageQueues {
  driverToWorker : list JsonIpcQueue;
  workerToDriver : JsonIpcQueue
}.

Definition worker_ids (n : nat) : list Z := map Z.of_nat (seq 0 n).

Definition deleteIfPresent (driverId : str) (numWorkers : nat) (qs : gmap str BoostQueue)
    : gmap str BoostQueue :=
  delete (workerToDriverQueueName driverId)
    (foldl (fun qs workerId => delete (driverToWorkerQueueName driverId workerId) qs) qs
       (worker_ids numWorkers)).

(** Other errors that boost reports when a queue is created. *)
Class QueueErrors : Type := create_error : str -> option interprocess_exception.

Definition try_create `{QueueErrors} (qs : gmap str BoostQueue) (name : str) (maxMsgCount maxMsgSize : Z)
    : (gmap str BoostQueue * JsonIpcQueue) + interprocess_exception :=
  match create_error name with
  | Some e => inr e
  | None => create qs name maxMsgCount maxMsgSize
  end.

(** The loop in the [BOOST_TRY] block: it stops at the first exception. *)
Fixpoint create_send_queues `{QueueErrors} (driverId : str) (elementSize : Z) (ids : list Z)
    (qs : gmap str BoostQueue) (acc : list JsonIpcQueue)
    : gmap str BoostQueue * list JsonIpcQueue * option interprocess_exception :=
  match ids with
  | [] => (qs, acc, None)
  | workerId :: ids =>
      match try_create qs (driverToWorkerQueueName driverId workerId) 1 elementSize with
      | inl (qs, queue) => create_send_queues driverId elementSize ids qs (acc ++ [queue])
      | inr e => (qs, acc, Some e)
      end
  end.

Definition MessageQueues_new `{BM : BuildMode, SS : ShmStat, QE : QueueErrors} (driverId : str)
    (numWorkersHint : nat) (perWorkerSizeHintBytes : Z) (qs : gmap str BoostQueue)
    : result (gmap str BoostQueue * MessageQueues) :=
  maxNumWorkers ← numWorkersUpperBound perWorkerSizeHintBytes;
  ENFORCE (0 <? maxNumWorkers) "maxNumWorkers > 0" ;;
  let numWorkers := Z.to_nat (Z.min maxNumWorkers (Z.of_nat numWorkersHint)) in
  let recvElementSize := perWorkerSizeHintBytes / 2 in
  let sendElementSize := perWorkerSizeHintBytes / 2 in
  match try_create qs (workerToDriverQueueName driverId) (Z.of_nat numWorkers) recvElementSize with
  | inr _ => Err (Exit EXIT_FAILURE)
  | inl (qs, w2d) =>
      let '(qs, d2w, ex) := create_send_queues driverId sendElementSize (worker_ids numWorkers) qs [] in
      if bool_decide (is_Some ex) && bool_decide (d2w = []) then Err (Exit EXIT_FAILURE)
      else Ok (qs, mkMessageQueues d2w w2d)
  end.

(** ** Options *)

(** [boost::process::search_path]: empty when there is no such executable. *)
Class SearchPath : Type := search_path : str -> str.

Definition set_numWorkers (o : DriverOptions) (n : nat) : DriverOptions :=
  mkDriverOptions (Driver.do_workerExecutablePath o) (Driver.projectRootPath_ o) (Driver.do_compdbPath o)
    (Driver.do_indexOutputPath o) (Driver.statsFilePath o) (Driver.do_packageMapPath o)
    (Driver.do_showCompilerDiagnostics o) (Driver.showProgress o) (Driver.do_ipcOptions o) n
    (Driver.do_deterministic o) (Driver.do_preprocessorRecordHistoryFilterRegex o)
    (Driver.do_supplementaryOutputDir o) (Driver.do_workerFault o) (Driver.do_isTesting o)
    (Driver.do_noStacktrace o) (Driver.do_temporaryOutputDir o) (Driver.deleteTemporaryOutputDir o)
    (Driver.do_originalArgv o).

Section Options.
Context `{BM : BuildMode, LP : LlvmPath, PE : ProcessEnv, SP : SearchPath, RV : RegexValid}.

(** The lambda [setAbsolutePath]. *)
Definition setAbsolutePath (projectRootPath : RootPath) (path : str) : result AbsolutePath :=
  if bool_decide (path = []) then Ok (mkAbsolutePath [])
  else if is_absolute path then AbsolutePath_new path
  else ref ← RootRelativePathRef_new path Project; makeAbsolute projectRootPath ref.

Definition makeDirs (path : str) : result unit :=
  if create_directories_fails path then Err (Exit EXIT_FAILURE) else Ok ().

Definition workerExecutablePath (projectRootPath : RootPath) (scipClangExecutablePath : str)
    : result AbsolutePath :=
  if bool_decide (sep ∈ scipClangExecutablePath) then setAbsolutePath projectRootPath scipClangExecutablePath
  else
    let newPath := search_path scipClangExecutablePath in
    if bool_decide (newPath = []) then Err (Exit 1) else AbsolutePath_new newPath.

Definition temporary_output_dir (driverId : str) (dir : str) : str :=
  if bool_decide (dir = []) then
    let dir := temp_directory_path in
    let dir := if bool_decide (dir = []) then lit "scip-clang-temporary-output" else dir in
    path_append dir (lit "scip-clang-" ++ driverId)
  else dir.

Definition DriverOptions_new (driverId : str) (cliOpts : CliOptions) : result DriverOptions :=
  let cwd := current_path in
  ENFORCE (is_absolute cwd) "current_path() returned non-absolute path" ;;
  root ← AbsolutePath_new cwd;
  let projectRootPath := mkRootPath root Project in
  exe ← workerExecutablePath projectRootPath (scipClangExecutablePath cliOpts);
  indexOutputPath ← setAbsolutePath projectRootPath (cli_indexOutputPath cliOpts);
  compdbPath ← setAbsolutePath projectRootPath (cli_compdbPath cliOpts);
  statsFilePath ← setAbsolutePath projectRootPath (cli_statsFilePath cliOpts);
  packageMapPath ← setAbsolutePath projectRootPath (cli_packageMapPath cliOpts);
  filter ← HeaderFilter_new (cli_preprocessorRecordHistoryFilterRegex cliOpts);
  (if isIdentity filter then Ok () else makeDirs (cli_supplementaryOutputDir cliOpts)) ;;
  let temporaryOutputDir := temporary_output_dir driverId (cli_temporaryOutputDir cliOpts) in
  makeDirs temporaryOutputDir ;;
  Ok (mkDriverOptions exe projectRootPath compdbPath indexOutputPath statsFilePath packageMapPath
        (cli_showCompilerDiagnostics cliOpts) (cli_showProgress cliOpts)
        (mkDriverIpcOptions (cli_ipcSizeHintBytes cliOpts) (cli_receiveTimeout cliOpts))
        (Z.to_nat (cli_numWorkers cliOpts)) (cli_deterministic cliOpts)
        (cli_preprocessorRecordHistoryFilterRegex cliOpts) (cli_supplementaryOutputDir cliOpts)
        (cli_workerFault cliOpts) (cli_isTesting cliOpts) (cli_noStacktrace cliOpts) temporaryOutputDir
        (bool_decide (cli_temporaryOutputDir cliOpts = [])) (cli_originalArgv cliOpts)).
End Options.

(** ** Command lines of the workers *)

(** [spdlog::level::to_string_view]. *)
Definition level_name (level : Z) : str :=
  nth (Z.to_nat level)
    [lit "trace"; lit "debug"; lit "info"; lit "warning"; lit "error"; lit "critical"; lit "off"] [].

(** An option [--name=value] or a flag [--name]. *)
Definition flag_text (given : str * option str) : str :=
  lit "--" ++ given.1 ++ match given.2 with Some value => "="%char :: value | None => [] end.

Definition flag_if (b : bool) (name : string) : list (str * option str) :=
  if b then [(lit name, None)] else [].
Definition option_if (b : bool) (name : string) (value : str) : list (str * option str) :=
  if b then [(lit name, Some value)] else [].
Definition nonempty (s : str) : bool := negb (bool_decide (s = [])).

Section Spawn.
Context `{BM : BuildMode}.

(** The options that [addWorkerOptions] adds; [level] is the level of the logger. *)
Definition worker_flags (this : DriverOptions) (level : Z) (workerId : Z) : list (str * option str) :=
  let filter := Driver.do_preprocessorRecordHistoryFilterRegex this in
  [(lit "log-level", Some (level_name level));
   (lit "receive-timeout-seconds", Some (fmt_uint (Driver.receiveTimeout this)))]
  ++ flag_if (Driver.do_deterministic this) "deterministic"
  ++ flag_if (nonempty (asStringRef (Driver.statsFilePath this))) "measure-statistics"
  ++ option_if (nonempty (asStringRef (Driver.do_packageMapPath this))) "package-map-path"
       (asStringRef (Driver.do_packageMapPath this))
  ++ flag_if (Driver.do_noStacktrace this) "no-stack-trace"
  ++ flag_if (Driver.do_showCompilerDiagnostics this) "show-compiler-diagnostics"
  ++ flag_if (negb (Driver.showProgress this)) "no-progress-report"
  ++ option_if (nonempty filter) "preprocessor-record-history-filter" filter
  ++ option_if (nonempty filter) "preprocessor-history-log-path"
       (path_append (Driver.do_supplementaryOutputDir this)
          (lit "preprocessor-history-worker-" ++ fmt_uint workerId ++ lit ".yaml"))
  ++ option_if (nonempty (Driver.do_workerFault this)) "force-worker-fault" (Driver.do_workerFault this)
  ++ [(lit "temporary-output-dir", Some (Driver.do_temporaryOutputDir this))].

Definition addWorkerOptions (this : DriverOptions) (level : Z) (args : list str) (workerId : Z)
    : result (list str) :=
  ENFORCE (nonempty (Driver.do_temporaryOutputDir this)) "!this->temporaryOutputDir.empty()" ;;
  Ok (args ++ map flag_text (worker_flags this level workerId)).

(** The command line of a worker; starting the process is the operating system's. *)
Definition spawnWorker_args (options : DriverOptions) (id : str) (level : Z) (workerId : Z)
    : result (list str) :=
  addWorkerOptions options level
    ([asStringRef (Driver.do_workerExecutablePath options)]
     ++ map flag_text [(lit "worker-mode", Some (lit "ipc")); (lit "driver-id", Some id);
                       (lit "worker-id", Some (fmt_uint workerId))]) workerId.

(** ** The driver *)
Definition Driver_new `{SS : ShmStat, QE : QueueErrors} {Process P : Type} (driverId : str)
    (options : DriverOptions) (parser : P) (qs : gmap str BoostQueue)
    : result (gmap str BoostQueue * MessageQueues * Driver Process P) :=
  let qs := deleteIfPresent driverId (Driver.numWorkers options) qs in
  '(qs, queues) ← MessageQueues_new driverId (Driver.numWorkers options)
                     (Driver.dio_ipcSizeHintBytes (Driver.do_ipcOptions options)) qs;
  let numSendQueues := length (driverToWorker queues) in
  ENFORCE (0 <? numSendQueues)%nat "numSendQueues > 0" ;;
  ENFORCE (numSendQueues <=? Driver.numWorkers options)%nat "numSendQueues <= this->options.numWorkers" ;;
  Ok (qs, queues, Driver.Driver_opened (set_numWorkers options numSendQueues) driverId 0 parser).

Definition refillCount (options : DriverOptions) : Z := 2 * Z.of_nat (Driver.numWorkers options).

Definition openCompilationDatabase `{LP : LlvmPath, RJ : RapidJson, SF : StdFile, RE : RegexEscape} {Process : Type}
    (uninitialised : Z) (this : Driver Process ResumableParser) : result (Driver Process ResumableParser) :=
  let options := Driver.options this in
  compdbFile ← openAndExitOnErrors uninitialised (asStringRef (Driver.do_compdbPath options))
                 (mkValidationOptions (negb (Driver.do_isTesting options)) (negb (Driver.do_isTesting options)));
  let count := Z.to_nat (commandCount compdbFile) in
  let options := set_numWorkers options (min count (Driver.numWorkers options)) in
  parseOptions ← ParseOptions_create (refillCount options) (Driver.do_isTesting options);
  Ok (Driver.mkDriver options (Driver.driver_id this) (Driver.queues this) (Driver.scheduler this)
        (Driver.planner this) (Driver.allStatistics this) (Driver.shardPaths_ this) count
        (Driver.indexedSoFar this) (initialize (Driver.compdbParser this) compdbFile parseOptions)).
End Spawn.

(** ** Every worker finds its queues *)
Section Connect.
Context `{BM : BuildMode, SS : ShmStat, QE : QueueErrors}.

Lemma elem_of_worker_ids n w : w ∈ worker_ids n <-> 0 <= w < Z.of_nat n.
Proof.
  unfold worker_ids. rewrite list_elem_of_fmap. split.
  - intros (k & -> & [_ Hk]%elem_of_seq). lia.
  - intros Hw. exists (Z.to_nat w). rewrite elem_of_seq. lia.
Qed.
Lemma worker_ids_NoDup n : NoDup (worker_ids n).
Proof. apply NoDup_fmap; [apply _|apply NoDup_seq]. Qed.

(** The names of a driver with [n] workers. *)
Definition own_name (driverId : str) (n : nat) (name : str) : Prop :=
  name = workerToDriverQueueName driverId
  \/ exists w, 0 <= w < Z.of_nat n /\ name = driverToWorkerQueueName driverId w.

Lemma delete_queues_lookup driverId ids : forall (qs : gmap str BoostQueue) name,
  (exists w, w ∈ ids /\ name = driverToWorkerQueueName driverId w) \/ qs !! name = None ->
  foldl (fun qs workerId => delete (driverToWorkerQueueName driverId workerId) qs) qs ids
    !! name = None.
Proof.
  induction ids as [|w ids IH]; intros qs name Hn; cbn.
  - by destruct Hn as [(w & ?%elem_of_nil & _)|?].
  - apply IH. destruct (decide (name = driverToWorkerQueueName driverId w)) as [->|Hne].
    + right. apply lookup_delete_eq.
    + rewrite lookup_delete_ne //. destruct Hn as [(w' & [->|?]%elem_of_cons & Hn)|?]; [done|left; by exists w'|by right].
Qed.
Lemma delete_queues_other driverId ids : forall (qs : gmap str BoostQueue) name,
  (forall w, w ∈ ids -> name <> driverToWorkerQueueName driverId w) ->
  foldl (fun qs workerId => delete (driverToWorkerQueueName driverId workerId) qs) qs ids !! name = qs !! name.
Proof.
  induction ids as [|w ids IH]; intros qs name Hn; cbn; [done|].
  rewrite IH; [intros w' Hw'; apply Hn; by right|]. rewrite lookup_delete_ne //. intros E. by apply (Hn w); [left|].
Qed.

Lemma deleteIfPresent_own driverId n qs name : own_name driverId n name -> deleteIfPresent driverId n qs !! name = None.
Proof.
  unfold deleteIfPresent. intros [->|(w & Hw & ->)]; [apply lookup_delete_eq|].
  rewrite lookup_delete_ne; [intros E; by apply (queue_directions_differ driverId w)|].
  apply delete_queues_lookup. left. exists w. by rewrite elem_of_worker_ids.
Qed.
Lemma deleteIfPresent_other driverId n qs name :
  ~ own_name driverId n name -> deleteIfPresent driverId n qs !! name = qs !! name.
Proof.
  unfold deleteIfPresent. intros Hn. rewrite lookup_delete_ne; [intros <-; apply Hn; by left|].
  apply delete_queues_other. intros w Hw%elem_of_worker_ids ->. apply Hn. right. by exists w.
Qed.

Definition send_queue (driverId : str) (size : Z) (w : Z) : JsonIpcQueue :=
  mkJsonIpcQueue (driverToWorkerQueueName driverId w) CreateOnly size 0.

Lemma create_send_queues_ok driverId size ids : forall qs acc,
  (forall name, create_error name = None) ->
  NoDup ids -> (forall w, w ∈ ids -> 0 <= w /\ qs !! driverToWorkerQueueName driverId w = None) ->
  exists qs', create_send_queues driverId size ids qs acc = (qs', acc ++ map (send_queue driverId size) ids, None)
    /\ (forall w, w ∈ ids -> qs' !! driverToWorkerQueueName driverId w = Some (mkBoostQueue [] 1 size))
    /\ (forall name, (forall w, w ∈ ids -> name <> driverToWorkerQueueName driverId w) -> qs' !! name = qs !! name).
Proof.
  induction ids as [|w ids IH]; intros qs acc Hce Hnd Hids; cbn [create_send_queues map].
  - exists qs. rewrite app_nil_r. split_and!; [done|by intros w ?%elem_of_nil|done].
  - apply NoDup_cons in Hnd as [Hw Hnd]. destruct (Hids w) as [Hpos Hnone]; [by left|].
    unfold try_create, create. rewrite Hce Hnone. fold (send_queue driverId size w).
    assert (forall w', w' ∈ ids -> driverToWorkerQueueName driverId w <> driverToWorkerQueueName driverId w') as Hne.
    { intros w' Hin E. apply driverToWorkerQueueName_inj in E as ->; [done|lia|]. apply Hids. by right. }
    destruct (IH (<[driverToWorkerQueueName driverId w := mkBoostQueue [] 1 size]> qs) (acc ++ [send_queue driverId size w]))
      as (qs' & Hc & Hown & Hother); [done|done| |].
    { intros w' Hin. destruct (Hids w') as [? ?]; [by right|]. split; [done|]. rewrite lookup_insert_ne //. by apply Hne. }
    exists qs'. rewrite Hc -app_assoc. split_and!; [done| |].
    + intros w' [->|Hin]%elem_of_cons; [|by apply Hown].
      rewrite Hother; [done|]. by rewrite lookup_insert_eq.
    + intros name Hname. rewrite Hother; [intros w' Hin; apply Hname; by right|].
      rewrite lookup_insert_ne //. intros E. by apply (Hname w); [left|].
Qed.

(** What the constructor of the driver leaves. *)
Record connected (driverId : str) (options : DriverOptions) (n : nat) (qs qs' : gmap str BoostQueue)
    (queues : MessageQueues) : Prop := {
  conn_count : length (driverToWorker queues) = n;
  conn_positive : (0 < n <= Driver.numWorkers options)%nat;
  conn_others name : ~ own_name driverId (Driver.numWorkers options) name -> qs' !! name = qs !! name;
  conn_stale w : Z.of_nat n <= w < Z.of_nat (Driver.numWorkers options) ->
    qs' !! driverToWorkerQueueName driverId w = None;
  conn_worker w : (w < n)%nat -> exists q pair,
    driverToWorker queues !! w = Some q
    /\ qs' !! name q = Some (mkBoostQueue [] 1 (Driver.dio_ipcSizeHintBytes (Driver.do_ipcOptions options) / 2))
    /\ qs' !! name (workerToDriver queues)
       = Some (mkBoostQueue [] (Z.of_nat n) (Driver.dio_ipcSizeHintBytes (Driver.do_ipcOptions options) / 2))
    /\ (forall ipc, Ipc.driverId ipc = driverId -> workerId ipc = Z.of_nat w -> forWorker qs' ipc = inl pair)
    /\ name (Ipc.driverToWorker pair) = name q /\ name (Ipc.workerToDriver pair) = name (workerToDriver queues)
}.

Lemma Driver_new_connected {Process P : Type} driverId options (parser : P) qs maxNumWorkers :
  (forall name, create_error name = None) ->
  numWorkersUpperBound (Driver.dio_ipcSizeHintBytes (Driver.do_ipcOptions options)) = Ok maxNumWorkers ->
  0 < maxNumWorkers -> (0 < Driver.numWorkers options)%nat ->
  let n := Z.to_nat (Z.min maxNumWorkers (Z.of_nat (Driver.numWorkers options))) in
  exists qs' queues, Driver_new (Process:=Process) driverId options parser qs
      = Ok (qs', queues, Driver.Driver_opened (set_numWorkers options n) driverId 0 parser)
    /\ connected driverId options n qs qs' queues.
Proof.
  intros Hce Hmax Hpos Hopt n. set (hint := Driver.dio_ipcSizeHintBytes (Driver.do_ipcOptions options)) in *.
  set (qs0 := deleteIfPresent driverId (Driver.numWorkers options) qs).
  assert (0 < n <= Driver.numWorkers options)%nat as Hn by lia.
  set (w2d := workerToDriverQueueName driverId).
  assert (qs0 !! w2d = None) as Hw2d by (apply deleteIfPresent_own; by left).
  destruct (create_send_queues_ok driverId (hint / 2) (worker_ids n)
    (<[w2d := mkBoostQueue [] (Z.of_nat n) (hint / 2)]> qs0) []) as (qs' & Hc & Hown & Hother);
    [done|apply worker_ids_NoDup| |].
  { intros w Hw%elem_of_worker_ids. split; [lia|].
    rewrite lookup_insert_ne; [intros E; by apply (queue_directions_differ driverId w)|].
    apply deleteIfPresent_own. right. exists w. split; [lia|done]. }
  assert (length (map (send_queue driverId (hint / 2)) (worker_ids n)) = n) as Hlen
    by (unfold worker_ids; by rewrite !length_map length_seq).
  exists qs', (mkMessageQueues (map (send_queue driverId (hint / 2)) (worker_ids n)) (mkJsonIpcQueue w2d CreateOnly (hint / 2) 0)).
  split.
  - unfold Driver_new, MessageQueues_new. fold hint qs0. rewrite Hmax bind_Ok (proj2 (Z.ltb_lt _ _) Hpos) ENFORCE_true bind_Ok.
    fold n w2d. unfold try_create, create. rewrite Hce Hw2d Hc. cbn [app].
    rewrite bool_decide_false; [by intros [? ?]|]. cbn [andb]. rewrite bind_Ok. cbn [driverToWorker].
    rewrite Hlen (proj2 (Nat.ltb_lt _ _)); [lia|]. rewrite ENFORCE_true bind_Ok (proj2 (Nat.leb_le _ _)); [lia|].
    by rewrite ENFORCE_true bind_Ok.
  - assert (qs' !! w2d = Some (mkBoostQueue [] (Z.of_nat n) (hint / 2))) as Hq.
    { rewrite Hother; [intros w _ E; by apply (queue_directions_differ driverId w)|]. by rewrite lookup_insert_eq. }
    split; cbn [driverToWorker workerToDriver name]; [done|done| | |].
    + intros name Hname. rewrite Hother.
      { intros w Hw%elem_of_worker_ids ->. apply Hname. right. exists w. split; [lia|done]. }
      rewrite lookup_insert_ne; [intros <-; apply Hname; by left|]. by apply deleteIfPresent_other.
    + intros w Hw. rewrite Hother.
      { intros w' Hw'%elem_of_worker_ids E. apply driverToWorkerQueueName_inj in E as ->; lia. }
      rewrite lookup_insert_ne; [intros E; by apply (queue_directions_differ driverId w)|].
      apply deleteIfPresent_own. right. exists w. split; [lia|done].
    + intros w Hw. assert (Z.of_nat w ∈ worker_ids n) as Hin by (apply elem_of_worker_ids; lia).
      exists (send_queue driverId (hint / 2) (Z.of_nat w)). eexists. split_and!; [|by apply Hown|done| | |].
      * unfold worker_ids. rewrite map_map. rewrite -/(fmap _ _) list_lookup_fmap.
        by rewrite lookup_seq_lt.
      * intros ipc Hd Hwk. unfold forWorker, open. rewrite Hd Hwk Hown //. rewrite Hq. reflexivity.
      * done.
      * done.
Qed.
End Connect.
