(* ===== verification/Main.v ===== *)
(** * The command line

    [parseArguments] and [main] (main.cc): the options that are registered with cxxopts,
    how they become [CliOptions], and which of the two programs runs.

    The driver starts its workers as the same program with a command line of its own
    making ([spawnWorker_args] of [DriverSetup]); the property below is that a worker
    reads from it what the driver meant. *)
From S2P Require Import Prelude Ordering CppString Paths Json PackageMaps IdPaths Symbols ScipMessages.
From S2P Require Import IndexBuilder CommandLine Compdb Ipc CliOptions Planner Scheduler.
From S2P Require Driver.
From S2P Require Import DriverSetup.
From S2P Require Worker Merge.
Import Driver(DriverOptions).
Open Scope Z_scope.

(** ** cxxopts *)

(** A registered option: its long name, its short one, and whether it is a [bool], which
    takes no value. *)
Record CxxOption : Type := mkCxxOption {
  opt_long : str;
  opt_short : str;
  opt_flag : bool
}.
Definition value_option (name : string) : CxxOption := mkCxxOption (lit name) [] false.
Definition flag_option (name : string) : CxxOption := mkCxxOption (lit name) [] true.

(** [parser.parse(argc, argv)] with the registered options: the text given for an option,
    if any, and the arguments that are no options.  Texts of numbers and flags are read by
    [cxx_uint bits] and [cxx_bool]; [None] is an exception, as those of [parse] itself
    ([cxx_throws]), which nobody catches. *)
Class CxxOpts : Type := {
  cxx_throws : list CxxOption -> list str -> bool;
  cxx_value : list CxxOption -> list str -> str -> option str;
  cxx_unmatched : list CxxOption -> list str -> list str;
  cxx_uint : Z -> str -> option Z;
  cxx_bool : str -> option bool;
}.

(** [--name=value] or [--name] for a registered name.  A value is one line of text. *)
Definition given_ok (options : list CxxOption) (given : str * option str) : Prop :=
  exists o, o ∈ options /\ opt_long o = given.1
    /\ match given.2 with
       | Some value => opt_flag o = false /\ value <> [] /\ "010"%char ∉ value /\ "013"%char ∉ value
       | None => opt_flag o = true
       end.

(** What is documented for a command line of long options, each given once. *)
Class CxxOptsLaws `{CxxOpts} : Prop := {
  cxx_value_given options program given :
    Forall (given_ok options) given -> NoDup given.*1 -> NoDup (map opt_long options) ->
    Forall (fun o => "="%char ∉ opt_long o) options ->
    cxx_throws options (program :: map flag_text given) = false
    /\ cxx_unmatched options (program :: map flag_text given) = []
    /\ (forall name value, (name, value) ∈ given ->
          cxx_value options (program :: map flag_text given) name = Some (default (lit "true") value))
    /\ (forall name, name ∉ given.*1 -> cxx_value options (program :: map flag_text given) name = None);
  cxx_uint_decimal bits z : 0 <= z < 2 ^ bits -> cxx_uint bits (fmt_uint z) = Some z;
  cxx_bool_true : cxx_bool (lit "true") = Some true
}.

(** ** [parseArguments] *)
Definition scip_clang_options : list CxxOption :=
  [value_option "compdb-path"; value_option "index-output-path"; value_option "package-map-path";
   mkCxxOption (lit "jobs") (lit "j") false; value_option "log-level"; flag_option "no-progress-report";
   flag_option "show-compiler-diagnostics"; flag_option "version"; mkCxxOption (lit "help") (lit "h") true;
   flag_option "help-all"; value_option "ipc-size-hint-bytes"; value_option "receive-timeout-seconds";
   value_option "worker-mode"; flag_option "deterministic"; value_option "temporary-output-dir";
   value_option "supplementary-output-dir"; value_option "preprocessor-record-history-filter";
   value_option "print-statistics-path"; flag_option "measure-statistics"; flag_option "no-stack-trace";
   value_option "force-worker-fault"; flag_option "testing"; value_option "preprocessor-history-log-path";
   value_option "driver-id"; value_option "worker-id"].

(** [std::terminate] for an exception of cxxopts: the status that a shell reports. *)
Definition EXIT_ABORT : Z := 134.

Section Parse.
Context `{CX : CxxOpts}.

(** [count(name) > 0], and the options bound to fields, with their defaults. *)
Definition given (args : list str) (name : string) : bool :=
  bool_decide (is_Some (cxx_value scip_clang_options args (lit name))).
Definition string_value (args : list str) (name : string) (dflt : str) : str :=
  default dflt (cxx_value scip_clang_options args (lit name)).
Definition uint_value (bits : Z) (args : list str) (name : string) (dflt : Z) : result Z :=
  match cxx_value scip_clang_options args (lit name) with
  | None => Ok dflt
  | Some text => match cxx_uint bits text with Some z => Ok z | None => Err (Exit EXIT_ABORT) end
  end.
Definition bool_value (args : list str) (name : string) : result bool :=
  match cxx_value scip_clang_options args (lit name) with
  | None => Ok false
  | Some text => match cxx_bool text with Some b => Ok b | None => Err (Exit EXIT_ABORT) end
  end.

(** [spdlog::level::level_enum]; an unknown level leaves the field as it was
    value-initialised, which is [trace]. *)
Definition parse_log_level (level : str) : Z :=
  if bool_decide (level = lit "trace") then 0
  else if bool_decide (level = lit "debug") then 1
  else if bool_decide (level = lit "info") then 2
  else if bool_decide (level = lit "warning") then 3
  else if bool_decide (level = lit "error") then 4
  else 0.

Definition worker_mode_known (mode : str) : bool :=
  bool_decide (mode = []) || bool_decide (mode = lit "ipc") || bool_decide (mode = lit "compdb")
  || bool_decide (mode = lit "testing").

Definition parseArguments (hardware_concurrency : Z) (argv : list str) : result CliOptions :=
  if cxx_throws scip_clang_options argv then Err (Exit EXIT_ABORT) else
  jobs ← uint_value 32 argv "jobs" hardware_concurrency;
  showCompilerDiagnostics ← bool_value argv "show-compiler-diagnostics";
  ipcSizeHintBytes ← uint_value 64 argv "ipc-size-hint-bytes" 2000000;
  deterministic ← bool_value argv "deterministic";
  measureStatistics ← bool_value argv "measure-statistics";
  noStacktrace ← bool_value argv "no-stack-trace";
  workerId ← uint_value 64 argv "worker-id" 0;
  receiveTimeout ← uint_value 32 argv "receive-timeout-seconds" 300;
  foldM (fun _ name => bool_value argv name ;; Ok ()) ()
    ["no-progress-report"; "version"; "help"; "help-all"; "testing"]%string ;;
  if given argv "help" then Err (Exit 0)
  else if given argv "help-all" then Err (Exit 0)
  else if given argv "version" then Err (Exit 0)
  else if negb (bool_decide (cxx_unmatched scip_clang_options argv = [])) then Err (Exit EXIT_FAILURE)
  else
    let showProgress := negb (given argv "no-progress-report") in
    let logLevel := parse_log_level (string_value argv "log-level" (lit "info")) in
    let workerMode := string_value argv "worker-mode" [] in
    if negb (worker_mode_known workerMode) then Err (Exit EXIT_FAILURE)
    else
      Ok (mkCliOptions (string_value argv "compdb-path" (lit "compile_commands.json"))
            (nth 0 argv []) (string_value argv "temporary-output-dir" [])
            (string_value argv "index-output-path" (lit "index.scip"))
            (string_value argv "print-statistics-path" []) (string_value argv "package-map-path" [])
            showCompilerDiagnostics showProgress ipcSizeHintBytes receiveTimeout jobs logLevel deterministic
            (string_value argv "preprocessor-record-history-filter" [])
            (string_value argv "supplementary-output-dir" (lit "scip-clang-supplementary-output"))
            argv (given argv "testing") (string_value argv "force-worker-fault" []) noStacktrace workerMode
            measureStatistics (string_value argv "preprocessor-history-log-path" [])
            (string_value argv "driver-id" []) workerId).

(** ** [main] *)
Inductive Program : Type := RunWorker (options : CliOptions) | RunDriver (options : CliOptions).
Definition isWorker (cliOptions : CliOptions) : bool := negb (bool_decide (workerMode cliOptions = [])).
Definition main (hardware_concurrency : Z) (argv : list str) : result Program :=
  cliOptions ← parseArguments hardware_concurrency argv;
  Ok (if isWorker cliOptions then RunWorker cliOptions else RunDriver cliOptions).
End Parse.

(** ** The command line of a worker *)
Section WorkerCommandLine.
Context `{BM : BuildMode, CX : CxxOpts, CXL : !CxxOptsLaws}.

(** The text given for a name in a list of options. *)
Fixpoint assoc (name : str) (given : list (str * option str)) : option str :=
  match given with
  | [] => None
  | (n, value) :: given => if bool_decide (n = name) then Some (default (lit "true") value) else assoc name given
  end.

Lemma assoc_elem name given text : assoc name given = Some text ->
  exists value, (name, value) ∈ given /\ text = default (lit "true") value.
Proof.
  induction given as [|[n v] given IH]; cbn; [done|]. case_bool_decide as E.
  - intros [= <-]. exists v. rewrite E. by split; [left|].
  - intros (v' & ? & ?)%IH. exists v'. by split; [right|].
Qed.
Lemma assoc_None name given : assoc name given = None -> name ∉ given.*1.
Proof.
  induction given as [|[n v] given IH]; cbn; [intros _; apply not_elem_of_nil|].
  case_bool_decide as E; [done|]. intros H%IH. by apply not_elem_of_cons.
Qed.

Lemma assoc_cons n v given name :
  assoc name ((n, v) :: given) = if bool_decide (n = name) then Some (default (lit "true") v) else assoc name given.
Proof. done. Qed.
Lemma assoc_flag_if b n given name :
  assoc name (flag_if b n ++ given) = if b && bool_decide (lit n = name) then Some (lit "true") else assoc name given.
Proof. by destruct b. Qed.
Lemma assoc_option_if b n value given name :
  assoc name (option_if b n value ++ given)
  = if b && bool_decide (lit n = name) then Some value else assoc name given.
Proof. by destruct b. Qed.

Definition one_line (s : str) : Prop := "010"%char ∉ s /\ "013"%char ∉ s.

Lemma one_line_app s t : one_line s -> one_line t -> one_line (s ++ t).
Proof. unfold one_line. rewrite !not_elem_of_app. tauto. Qed.
Lemma one_line_fmt_uint z : one_line (fmt_uint z).
Proof. by split; apply fmt_uint_no_char. Qed.
Lemma one_line_lit (s : string) : bool_decide ("010"%char ∉ lit s /\ "013"%char ∉ lit s) = true -> one_line (lit s).
Proof. by intros H%bool_decide_eq_true. Qed.

(** What the driver passes on. *)
Definition passed (options : DriverOptions) (id : str) (level w : Z) : list (str * option str) :=
  [(lit "worker-mode", Some (lit "ipc")); (lit "driver-id", Some id); (lit "worker-id", Some (fmt_uint w))]
  ++ worker_flags options level w.

(** The texts that end up on the command line are single lines; the driver id and the
    temporary directory are not empty. *)
Record presentable (options : DriverOptions) (id : str) : Prop := {
  pres_id : id <> [] /\ one_line id;
  pres_temp : Driver.do_temporaryOutputDir options <> [] /\ one_line (Driver.do_temporaryOutputDir options);
  pres_map : one_line (asStringRef (Driver.do_packageMapPath options));
  pres_filter : one_line (Driver.do_preprocessorRecordHistoryFilterRegex options);
  pres_supplementary : one_line (Driver.do_supplementaryOutputDir options);
  pres_fault : one_line (Driver.do_workerFault options)
}.

Lemma path_append_one_line p q : one_line p -> one_line q -> one_line (path_append p q).
Proof.
  intros Hp Hq. assert (one_line (lit "/")) as Hs by (by apply one_line_lit).
  unfold path_append. repeat case_match; try done; repeat apply one_line_app; done.
Qed.
Lemma path_append_nonempty p q : q <> [] -> path_append p q <> [].
Proof. intros Hq. unfold path_append. repeat case_match; subst; try done; by intros [_ ?]%app_eq_nil. Qed.

Lemma given_value name value : In (mkCxxOption (lit name) [] false) scip_clang_options ->
  value <> [] -> one_line value -> given_ok scip_clang_options (lit name, Some value).
Proof. intros Ho Hne Hl. eexists. split; [by apply list_elem_of_In|]. by split_and!; [| |apply Hl..]. Qed.
Lemma given_flags b name : In (mkCxxOption (lit name) [] true) scip_clang_options ->
  Forall (given_ok scip_clang_options) (flag_if b name).
Proof.
  intros Ho. destruct b; [|by apply Forall_nil]. apply Forall_singleton.
  eexists. split; [by apply list_elem_of_In|done].
Qed.
Lemma given_options b name value : In (mkCxxOption (lit name) [] false) scip_clang_options ->
  (b = true -> value <> []) -> one_line value -> Forall (given_ok scip_clang_options) (option_if b name value).
Proof.
  intros Ho Hne Hl. destruct b; [|by apply Forall_nil]. apply Forall_singleton. by apply given_value; auto.
Qed.
Lemma nonempty_true s : nonempty s = true <-> s <> [].
Proof. unfold nonempty. by rewrite negb_true_iff bool_decide_eq_false. Qed.

Lemma level_name_ok level : 0 <= level <= 4 ->
  level_name level <> [] /\ one_line (level_name level) /\ parse_log_level (level_name level) = level.
Proof.
  intros Hl. assert (level = 0 \/ level = 1 \/ level = 2 \/ level = 3 \/ level = 4) as Hc by lia.
  destruct_or! Hc; subst level; (split_and!; [done|by apply one_line_lit|by vm_compute]).
Qed.

Lemma passed_ok options id level w : presentable options id -> 0 <= level <= 4 ->
  Forall (given_ok scip_clang_options) (passed options id level w).
Proof.
  intros [[Hid Hid1] [Ht Ht1] Hm Hf Hs Hw] Hl. destruct (level_name_ok level Hl) as (Hn & Hn1 & _).
  unfold passed, worker_flags. cbv zeta.
  repeat (apply Forall_app; split); repeat (apply Forall_cons; split); try apply Forall_nil; try done.
  all: try (apply given_flags; cbn; tauto).
  all: try (apply given_options; [cbn; tauto|by intros ?%nonempty_true|done]).
  all: try (apply given_value; [cbn; tauto|first [done|apply fmt_uint_nonempty]|first [done|by apply one_line_lit|apply one_line_fmt_uint]]).
  apply given_options; [cbn; tauto|by intros _; apply path_append_nonempty|].
  apply path_append_one_line; [done|]. repeat apply one_line_app; [by apply one_line_lit|apply one_line_fmt_uint|by apply one_line_lit].
Qed.

(** The names of all options that a worker may get. *)
Definition passed_names : list str :=
  map lit ["worker-mode"; "driver-id"; "worker-id"; "log-level"; "receive-timeout-seconds"; "deterministic";
    "measure-statistics"; "package-map-path"; "no-stack-trace"; "show-compiler-diagnostics"; "no-progress-report";
    "preprocessor-record-history-filter"; "preprocessor-history-log-path"; "force-worker-fault";
    "temporary-output-dir"]%string.

Lemma flag_if_names b name : sublist (flag_if b name).*1 [lit name].
Proof. destruct b; repeat constructor. Qed.
Lemma option_if_names b name value : sublist (option_if b name value).*1 [lit name].
Proof. destruct b; repeat constructor. Qed.

Lemma passed_NoDup options id level w : NoDup (passed options id level w).*1.
Proof.
  apply (sublist_NoDup _ passed_names); [apply (bool_decide_unpack (NoDup passed_names)); by vm_compute|].
  unfold passed, worker_flags. cbv zeta. rewrite !fmap_app.
  change passed_names with (map lit ["worker-mode"; "driver-id"; "worker-id"]%string
    ++ map lit ["log-level"; "receive-timeout-seconds"]%string ++ [lit "deterministic"] ++ [lit "measure-statistics"]
    ++ [lit "package-map-path"] ++ [lit "no-stack-trace"] ++ [lit "show-compiler-diagnostics"]
    ++ [lit "no-progress-report"] ++ [lit "preprocessor-record-history-filter"]
    ++ [lit "preprocessor-history-log-path"] ++ [lit "force-worker-fault"] ++ [lit "temporary-output-dir"]).
  repeat (apply sublist_app; [first [apply flag_if_names|apply option_if_names|reflexivity]|]). reflexivity.
Qed.

Lemma scip_clang_options_distinct :
  NoDup (map opt_long scip_clang_options) /\ Forall (fun o => "="%char ∉ opt_long o) scip_clang_options.
Proof.
  split.
  - apply (bool_decide_unpack _). by vm_compute.
  - apply (bool_decide_unpack _). by vm_compute.
Qed.

(** What cxxopts finds on the command line. *)
Lemma cxx_passed options id level w program : presentable options id -> 0 <= level <= 4 ->
  let argv := program :: map flag_text (passed options id level w) in
  cxx_throws scip_clang_options argv = false /\ cxx_unmatched scip_clang_options argv = []
  /\ forall name, cxx_value scip_clang_options argv name = assoc name (passed options id level w).
Proof.
  intros Hp Hl argv. destruct scip_clang_options_distinct as [Hd He].
  destruct (cxx_value_given scip_clang_options program (passed options id level w)) as (Ht & Hu & Hin & Hout);
    [by apply passed_ok|apply passed_NoDup|done|done|].
  split_and!; [done|done|]. intros name. destruct (assoc name _) as [text|] eqn:E.
  - apply assoc_elem in E as (value & Hv & ->). by apply Hin.
  - by apply Hout, assoc_None.
Qed.

Lemma spawnWorker_args_ok options id level w : presentable options id ->
  spawnWorker_args options id level w
  = Ok (asStringRef (Driver.do_workerExecutablePath options) :: map flag_text (passed options id level w)).
Proof.
  intros Hp. unfold spawnWorker_args, addWorkerOptions.
  rewrite (proj2 (nonempty_true _) (proj1 (pres_temp _ _ Hp))) ENFORCE_true bind_Ok.
  unfold passed. by rewrite map_app.
Qed.

(** The worker's options are the driver's. *)
Record understood (options : DriverOptions) (id : str) (level w : Z) (cli : CliOptions) : Prop := {
  und_mode : workerMode cli = lit "ipc";
  und_ipc : CliOptions_ipcOptions cli = mkIpcOptions 2000000 (Driver.receiveTimeout options) id w;
  und_level : cli_logLevel cli = level;
  und_deterministic : cli_deterministic cli = Driver.do_deterministic options;
  und_statistics : cli_measureStatistics cli = nonempty (asStringRef (Driver.statsFilePath options));
  und_map : cli_packageMapPath cli = asStringRef (Driver.do_packageMapPath options);
  und_trace : cli_noStacktrace cli = Driver.do_noStacktrace options;
  und_diagnostics : cli_showCompilerDiagnostics cli = Driver.do_showCompilerDiagnostics options;
  und_progress : cli_showProgress cli = Driver.showProgress options;
  und_filter : cli_preprocessorRecordHistoryFilterRegex cli
    = Driver.do_preprocessorRecordHistoryFilterRegex options;
  und_history : Driver.do_preprocessorRecordHistoryFilterRegex options <> [] ->
    cli_preprocessorHistoryLogPath cli <> [];
  und_fault : cli_workerFault cli = Driver.do_workerFault options;
  und_temporary : cli_temporaryOutputDir cli = Driver.do_temporaryOutputDir options
}.

Lemma default_nonempty s : default [] (if nonempty s then Some s else None) = s.
Proof. unfold nonempty. by case_bool_decide as E; cbn. Qed.

(** Looks a name up in [passed]: the names are closed, so that comparisons compute. *)
Ltac assoc_passed :=
  unfold passed, worker_flags; cbv zeta; cbn [app];
  repeat first
    [ rewrite assoc_flag_if | rewrite assoc_option_if | rewrite assoc_cons
    | rewrite andb_false_r | rewrite andb_true_r
    | match goal with
      | |- context [bool_decide (lit ?a = lit ?b)] =>
          let r := eval vm_compute in (bool_decide (lit a = lit b)) in
          change (bool_decide (lit a = lit b)) with r
      end ];
  cbv iota; cbn [default].

Lemma passed_absent options id level w :
  Forall (fun name => assoc (lit name) (passed options id level w) = None)
    ["jobs"; "ipc-size-hint-bytes"; "version"; "help"; "help-all"; "testing"]%string.
Proof. rewrite !Forall_cons. split_and!; [by assoc_passed..|by apply Forall_nil]. Qed.

Lemma passed_present options id level w :
  let g := passed options id level w in
  let filter := Driver.do_preprocessorRecordHistoryFilterRegex options in
  assoc (lit "worker-mode") g = Some (lit "ipc") /\ assoc (lit "driver-id") g = Some id
  /\ assoc (lit "worker-id") g = Some (fmt_uint w) /\ assoc (lit "log-level") g = Some (level_name level)
  /\ assoc (lit "receive-timeout-seconds") g = Some (fmt_uint (Driver.receiveTimeout options))
  /\ assoc (lit "deterministic") g = (if Driver.do_deterministic options then Some (lit "true") else None)
  /\ assoc (lit "measure-statistics") g
     = (if nonempty (asStringRef (Driver.statsFilePath options)) then Some (lit "true") else None)
  /\ assoc (lit "package-map-path") g
     = (if nonempty (asStringRef (Driver.do_packageMapPath options))
        then Some (asStringRef (Driver.do_packageMapPath options)) else None)
  /\ assoc (lit "no-stack-trace") g = (if Driver.do_noStacktrace options then Some (lit "true") else None)
  /\ assoc (lit "show-compiler-diagnostics") g
     = (if Driver.do_showCompilerDiagnostics options then Some (lit "true") else None)
  /\ assoc (lit "no-progress-report") g = (if negb (Driver.showProgress options) then Some (lit "true") else None)
  /\ assoc (lit "preprocessor-record-history-filter") g = (if nonempty filter then Some filter else None)
  /\ assoc (lit "preprocessor-history-log-path") g
     = (if nonempty filter then Some (path_append (Driver.do_supplementaryOutputDir options)
          (lit "preprocessor-history-worker-" ++ fmt_uint w ++ lit ".yaml")) else None)
  /\ assoc (lit "force-worker-fault") g
     = (if nonempty (Driver.do_workerFault options) then Some (Driver.do_workerFault options) else None)
  /\ assoc (lit "temporary-output-dir") g = Some (Driver.do_temporaryOutputDir options).
Proof. cbv zeta. split_and!; by assoc_passed. Qed.

Lemma uint_value_given bits argv name dflt z :
  cxx_value scip_clang_options argv (lit name) = Some (fmt_uint z) -> 0 <= z < 2 ^ bits ->
  uint_value bits argv name dflt = Ok z.
Proof. intros Hv Hz. unfold uint_value. by rewrite Hv cxx_uint_decimal. Qed.
Lemma uint_value_absent bits argv name dflt :
  cxx_value scip_clang_options argv (lit name) = None -> uint_value bits argv name dflt = Ok dflt.
Proof. intros Hv. unfold uint_value. by rewrite Hv. Qed.
Lemma bool_value_if argv name b :
  cxx_value scip_clang_options argv (lit name) = (if b then Some (lit "true") else None) ->
  bool_value argv name = Ok b.
Proof. intros Hv. unfold bool_value. rewrite Hv. destruct b; [by rewrite cxx_bool_true|done]. Qed.

Lemma parseArguments_understood options id level w hc program :
  presentable options id -> 0 <= level <= 4 -> 0 <= w < 2 ^ 64 -> 0 <= Driver.receiveTimeout options < 2 ^ 32 ->
  exists cli, parseArguments hc (program :: map flag_text (passed options id level w)) = Ok cli
    /\ understood options id level w cli.
Proof.
  intros Hp Hl Hw Hr. destruct (cxx_passed options id level w program Hp Hl) as (Ht & Hu & Hv).
  set (argv := program :: map flag_text _) in *.
  destruct (level_name_ok level Hl) as (_ & _ & Hlevel).
  destruct (passed_present options id level w)
    as (Pm & Pd & Pw & Pl & Pr & Pdet & Pst & Pmap & Ptr & Pdi & Ppr & Pf & Ph & Pfa & Pt).
  pose proof (passed_absent options id level w) as Habs.
  rewrite !Forall_cons -!Hv in Habs. destruct Habs as (Aj & Ai & Av & Ah & Aha & At & _).
  rewrite <- Hv in Pm, Pd, Pw, Pl, Pr, Pdet, Pst, Pmap, Ptr, Pdi, Ppr, Pf, Ph, Pfa, Pt.
  assert (bool_value argv "no-progress-report" = Ok (negb (Driver.showProgress options))
    /\ bool_value argv "version" = Ok false /\ bool_value argv "help" = Ok false
    /\ bool_value argv "help-all" = Ok false /\ bool_value argv "testing" = Ok false) as (B1 & B2 & B3 & B4 & B5)
    by (split_and!; by apply bool_value_if).
  eexists. split.
  - unfold parseArguments. rewrite Ht.
    rewrite (uint_value_absent _ _ _ _ Aj) bind_Ok (bool_value_if _ _ _ Pdi) bind_Ok (uint_value_absent _ _ _ _ Ai) bind_Ok.
    rewrite (bool_value_if _ _ _ Pdet) bind_Ok (bool_value_if _ _ _ Pst) bind_Ok (bool_value_if _ _ _ Ptr) bind_Ok.
    rewrite (uint_value_given _ _ _ _ _ Pw Hw) bind_Ok (uint_value_given _ _ _ _ _ Pr Hr) bind_Ok.
    cbn [foldM]. rewrite B1 B2 B3 B4 B5 !bind_Ok. unfold given. rewrite Ah Aha Av Hu Ppr.
    rewrite !(bool_decide_false (is_Some None)); [by intros []|]. rewrite (bool_decide_true ([] = [])) //.
    unfold string_value. rewrite Pm Pl. cbn [default negb]. rewrite Hlevel. reflexivity.
  - unfold CliOptions_ipcOptions. split; cbn.
    all: rewrite ?Pm ?Pd ?Pmap ?Pf ?Ph ?Pfa ?Pt ?default_nonempty //.
    + destruct (Driver.showProgress options); cbn [negb];
        [by rewrite bool_decide_false; [intros []|]|by rewrite bool_decide_true].
    + intros ->%nonempty_true. by apply path_append_nonempty.
Qed.
End WorkerCommandLine.

(** ** Properties *)


(** ** A concrete cxxopts, for the options that workers get *)
Fixpoint split_value (s : str) : str * option str :=
  match s with
  | [] => ([], None)
  | c :: s => if Ascii.eqb c "=" then ([], Some s) else let '(name, value) := split_value s in (c :: name, value)
  end.
Definition parse_flag (arg : str) : str * option str := split_value (drop 2 arg).

Lemma parse_flag_text g : "="%char ∉ g.1 -> parse_flag (flag_text g) = g.
Proof.
  destruct g as [name value]. unfold parse_flag, flag_text. cbn [fst snd]. change (drop 2 (lit "--" ++ ?x)) with x.
  cbn [lit app drop]. intros Hn. induction name as [|c name IH]; cbn.
  - by destruct value.
  - apply not_elem_of_cons in Hn as [Hc Hn]. rewrite (proj2 (Ascii.eqb_neq c "=")); [congruence|]. by rewrite IH.
Qed.

Definition demo_cxx : CxxOpts := {|
  cxx_throws _ _ := false;
  cxx_value options args name := assoc name (map parse_flag (tail args));
  cxx_unmatched _ _ := [];
  cxx_uint bits s := let v := Z.of_N (decimal_value s) in if v <? 2 ^ bits then Some v else None;
  cxx_bool s := if bool_decide (s = lit "true") then Some true else None
|}.

Lemma assoc_given given name value : NoDup given.*1 -> (name, value) ∈ given ->
  assoc name given = Some (default (lit "true") value).
Proof.
  induction given as [|[n v] given IH]; cbn; [by intros _ ?%elem_of_nil|].
  intros [Hn Hnd]%NoDup_cons [[= <- <-]|Hin]%elem_of_cons; [by rewrite bool_decide_true|].
  rewrite bool_decide_false; [|by apply IH]. intros ->. apply Hn, list_elem_of_fmap. by exists (name, value).
Qed.
Lemma assoc_absent given name : name ∉ given.*1 -> assoc name given = None.
Proof.
  induction given as [|[n v] given IH]; cbn; [done|]. intros [Hn Hg]%not_elem_of_cons.
  rewrite bool_decide_false; [congruence|by apply IH].
Qed.

Lemma demo_cxx_laws : @CxxOptsLaws demo_cxx.
Proof.
  split.
  - intros options program given Hg Hnd _ Heq. cbn [demo_cxx cxx_throws cxx_unmatched cxx_value tail].
    assert (map parse_flag (map flag_text given) = given) as ->.
    { clear Hnd. induction Hg as [|g given (o & Ho & Hname & _) _ IH]; [done|]. cbn [map].
      rewrite IH parse_flag_text //. rewrite -Hname. rewrite Forall_forall in Heq. by apply Heq. }
    split_and!; [done|done| |].
    + intros name value. by apply assoc_given.
    + intros name. apply assoc_absent.
  - intros bits z Hz. cbv [cxx_uint demo_cxx fmt_uint]. cbv zeta. rewrite (proj1 (decimal_spec (Z.to_N z))) Z2N.id; [lia|].
    by rewrite (proj2 (Z.ltb_lt _ _) (proj2 Hz)).
  - by vm_compute.
Qed.

Definition demo_shm : ShmStat := {|
  shm_info := Some (mkStatVfs 16384 4096 false); uint64_out_of_range := 0 |}.
Definition demo_no_errors : QueueErrors := fun _ => None.

(** 64 MB of shared memory, as in a Docker container, are enough for 27 workers with the
    default size hint. *)
Example demo_docker_workers : @numWorkersUpperBound demo_shm 2000000 = Ok 27.
Proof. by vm_compute. Qed.

Lemma demo_presentable : presentable (Driver.demo_driver_options 2) (lit "d").
Proof. split; [split; [done|]|split; [done|]|..]; apply (bool_decide_unpack _); by vm_compute. Qed.

(** A queue with an old message is in the way. *)
Definition demo_stale_queues : gmap str BoostQueue :=
  {[driverToWorkerQueueName (lit "d") 0 := mkBoostQueue [lit "old"] 1 10]}.

