(* ===== verification/ParserSource.v ===== *)
(** * The parser as the driver's source of jobs

    [CompdbParser] implements the interface [JobSource] that the driver's
    theorems use ([Driver::refillJobs] calls [ResumableParser::parseMore]), so
    these theorems hold for a driver that reads a compilation database. *)
From S2P Require Import Prelude Ordering CppString Paths Json PackageMaps IdPaths.
From S2P Require Import CommandLine Compdb Toolchains CompdbParser Ipc Planner Scheduler Driver.
Import CommandLine.Parser CommandLine.Cleaner.

(** ** Indices *)
Lemma number_indices cs : forall i, 0 <= i -> i + Z.of_nat (length cs) <= 2 ^ 64 ->
  map index (number i cs) = seqZ i (Z.of_nat (length cs)).
Proof.
  induction cs as [|c cs IH]; intros i Hi Hl; [done|]. cbn [number map length] in *.
  rewrite Nat2Z.inj_succ seqZ_cons; [lia|]. f_equal. destruct cs as [|c2 cs]; [done|].
  rewrite wrap64_small; [unfold uint64; cbn [length] in Hl; lia|]. rewrite IH; [lia|cbn [length] in *; lia|].
  f_equal; lia.
Qed.

Lemma index_after_small n : forall i, 0 <= i -> i + Z.of_nat n < 2 ^ 64 -> index_after i n = i + Z.of_nat n.
Proof.
  induction n as [|n IH]; intros i Hi Hl; [cbn; lia|]. rewrite index_after_S wrap64_small; [unfold uint64; lia|].
  rewrite IH; lia.
Qed.

(** Tasks of a batch whose indices are distinct 32-bit numbers. *)
Lemma tasks_NoDup l : NoDup (map index l) -> Forall (fun i => 0 <= i < 2 ^ 32) (map index l) ->
  NoDup (map task_of l).
Proof.
  assert (map task_of l = (fun i => newTask (wrap32 i)) <$> map index l) as ->.
  { induction l as [|c l IH]; [done|]. cbn. by rewrite IH. }
  intros Hnd Hr. rewrite Forall_forall in Hr. apply NoDup_fmap_2_strong; [|done].
  intros x y Hx Hy [= E]. rewrite !wrap32_small in E; try by apply Hr. done.
Qed.

Section ParserSource.
Context `{BM : BuildMode, LP : LlvmPath, LPL : !LlvmPathLaws, FS : FileSystem, P : ProcessRunner,
          A : AbslStrings, R : LlvmRegex, E : RegexEscape, W : WindowsTokenizer, RJ : RapidJson}.
Implicit Types this : ResumableParser.

#[export] Instance parser_source : JobSource ResumableParser := fun this => parseMore this [].

(** The objects that are left, counted in the token stream. *)
Definition objects_in (es : list Event) : nat := length (List.filter is_end_object es).
Definition objects_left this : nat :=
  match compDbStream this with Some s => objects_in (pending s) | None => 0 end.

Definition parser_ok this (used : gset JobId) : Prop :=
  exists lim start mss n,
    Forall clang_object mss /\ Forall compiler_ok (map command_of mss) /\ search_ok /\ 0 < lim
    /\ at_position this lim start mss n
    /\ 0 <= currentIndex this /\ currentIndex this + Z.of_nat (length mss) < 2 ^ 32
    /\ forall j, j ∈ used -> 0 <= taskId j < currentIndex this.

Lemma objects_in_app es1 es2 : objects_in (es1 ++ es2) = (objects_in es1 + objects_in es2)%nat.
Proof. unfold objects_in. by rewrite List.filter_app length_app. Qed.

Lemma objects_in_none es : forallb (fun e => negb (is_end_object e)) es = true -> objects_in es = 0%nat.
Proof.
  unfold objects_in. induction es as [|e es IH]; [done|]. cbn. intros [He Hes]%andb_true_iff.
  apply negb_true_iff in He. rewrite He. by apply IH.
Qed.

Lemma objects_in_tokens mss : Forall clang_object mss -> objects_in (object_tokens mss) = length mss.
Proof.
  induction 1 as [|ms mss Hms _ IH]; [done|]. unfold object_tokens in *. cbn [map concat].
  rewrite objects_in_app IH. cbn [events]. fold (member_events ms).
  change (EStartObject :: member_events ms ++ [EEndObject (Z.of_nat (length ms))])
    with ([EStartObject] ++ member_events ms ++ [EEndObject (Z.of_nat (length ms))]).
  rewrite !objects_in_app (objects_in_none (member_events ms)) //.
  by apply member_events_no_end, clang_object_members.
Qed.

Lemma objects_left_at this lim start mss n : Forall clang_object mss -> at_position this lim start mss n ->
  objects_left this = length mss.
Proof.
  intros Hms [(_ & Hs & _)|(_ & -> & _ & Hs & _)]; unfold objects_left; rewrite Hs; [|done]. cbn [pending].
  unfold tokens_at. rewrite !objects_in_app objects_in_tokens //. destruct start; cbn; lia.
Qed.

(** What a batch contains. *)
Lemma adjusted_all_index m l m' l' : adjusted_all m l m' l' -> map index l' = map index l.
Proof.
  induction 1 as [|m c m1 c' l m2 l' Ha _ IH]; [done|]. cbn. rewrite IH. f_equal. by destruct Ha.
Qed.

Lemma finished_indices adjust m kept m' out : finished_commands adjust m kept m' out -> map index out = map index kept.
Proof. unfold finished_commands. destruct adjust; [apply adjusted_all_index|by intros [_ ->]]. Qed.

Lemma kept_indices (Q : CommandObject -> Prop) `{!forall c, Decision (Q c)} i cs :
  0 <= i -> i + Z.of_nat (length cs) <= 2 ^ 64 ->
  NoDup (map index (filter Q (number i cs)))
  /\ (length (filter Q (number i cs)) <= length cs)%nat
  /\ forall x, x ∈ map index (filter Q (number i cs)) -> i <= x < i + Z.of_nat (length cs).
Proof.
  intros Hi Hl. pose proof (number_indices cs i Hi Hl) as Hn.
  assert (map index (filter Q (number i cs)) `sublist_of` seqZ i (Z.of_nat (length cs))) as Hsub.
  { rewrite -Hn. apply fmap_sublist, sublist_filter. }
  split_and!.
  - eapply sublist_NoDup; [apply NoDup_seqZ|done].
  - apply sublist_length in Hsub. rewrite length_map length_seqZ in Hsub. lia.
  - intros x Hx. by apply elem_of_seqZ, (elem_of_sublist _ _ _ Hx Hsub).
Qed.

#[export] Program Instance parser_source_laws : JobSourceLaws ResumableParser := {|
  source_inv := parser_ok;
  source_size := objects_left
|}.
Next Obligation.
  intros this used (lim & start & mss & n & Hms & Hok & Hs & Hlim & Hat & Hi & Hl & Hu).
  destruct (parseMore_spec n lim start mss this Hms Hok Hs Hlim Hat)
    as (consumed & rest & this' & out & Hsplit & Hpm & Hfin & Hat' & Hi' & Ho & Hre & Hnil & _).
  exists this', out. apply finished_indices in Hfin as Hidx.
  assert (length (map command_of consumed) = length consumed) as Elen by apply length_map.
  assert (length mss = length consumed + length rest)%nat as Hlen by (by rewrite Hsplit length_app).
  pose proof (kept_indices (fun c => keep (CompdbParser.options this) (fileExtensionRegex this) c = true)
    (currentIndex this) (map command_of consumed) Hi) as (Hnd & Hle & Hrange); [lia|].
  rewrite -Hidx in Hnd Hrange. rewrite Elen in Hrange.
  assert (length out <= length consumed)%nat as Hout.
  { rewrite -(length_map index out) Hidx length_map. lia. }
  assert (currentIndex this' = currentIndex this + Z.of_nat (length consumed)) as Hi2.
  { rewrite Hi' index_after_small //. lia. }
  rewrite Hsplit in Hms Hok. apply Forall_app in Hms as [Hms1 Hms2]. rewrite map_app in Hok.
  apply Forall_app in Hok as [_ Hok].
  assert (forall c, c ∈ out -> taskId (task_of c) = index c
    /\ currentIndex this <= index c < currentIndex this + Z.of_nat (length consumed)) as Htask.
  { intros c Hc. assert (index c ∈ map index out) as Hin by (apply list_elem_of_fmap; by exists c).
    apply Hrange in Hin as Hr. split; [|done]. cbn. apply wrap32_small. unfold uint32. lia. }
  split_and!.
  - exact Hpm.
  - apply tasks_NoDup; [done|]. apply Forall_forall. intros x Hx%Hrange. lia.
  - intros c Hc Hin%Hu. destruct (Htask c Hc). lia.
  - exists lim, false, rest, n. split_and!; try done; [lia..|].
    intros j. rewrite elem_of_union elem_of_list_to_set. intros [Hj|Hj]; [specialize (Hu j Hj); lia|].
    apply list_elem_of_fmap in Hj as (c & -> & Hc). destruct (Htask c Hc). lia.
  - rewrite (objects_left_at _ _ _ _ _ Hms2 Hat').
    rewrite (objects_left_at this lim start mss n) //; [|lia]. rewrite Hsplit. by apply Forall_app.
  - intros Hempty. rewrite (objects_left_at _ _ _ _ _ Hms2 Hat') (Hnil Hempty). done.
Qed.
Next Obligation.
  intros this used j (lim & start & mss & n & _ & _ & _ & _ & _ & _ & Hl & Hu) Hj.
  specialize (Hu j Hj). unfold uint32. lia.
Qed.

(** A parser that was just initialised with a well-formed database. *)
Lemma initialize_ok compdb text mss o o0 :
  file compdb = Some text -> json_tokens text = (events (DArray (map DObject mss)), true) ->
  Forall clang_object mss -> Z.of_nat (length mss) < 2 ^ 32 ->
  Forall compiler_ok (map command_of mss) -> search_ok -> 0 < refillCount o ->
  parser_ok (initialize (ResumableParser_default o0) compdb o) ∅
  /\ objects_left (initialize (ResumableParser_default o0) compdb o) = length mss.
Proof.
  intros Hfile Htok Hms Hlen Hok Hs Hlim.
  assert (at_position (initialize (ResumableParser_default o0) compdb o) (refillCount o) true mss
    (Z.of_nat (length (map DObject mss)))) as Hat.
  { unfold initialize. rewrite Hfile. cbn [default from_option id]. rewrite Htok. left. split_and!; try done.
    unfold tokens_at, object_tokens. cbn. by rewrite map_map. }
  assert (currentIndex (initialize (ResumableParser_default o0) compdb o) = 0) as Hzero.
  { unfold initialize. rewrite Hfile. cbn [default from_option id]. by rewrite Htok. }
  split; [|by eapply objects_left_at].
  exists (refillCount o), true, mss, (Z.of_nat (length (map DObject mss))). split_and!; try done.
  - by rewrite Hzero.
  - by rewrite Hzero.
Qed.

(** The driver on a compilation database: for a well-formed database with
    fewer than 2^32 objects, at least one worker and a legal environment that
    makes progress in every round, indexing ends within twice as many rounds as
    there are objects; it exits with status 1 exactly if the first batch is
    empty, and otherwise every worker is stopped, every job that was created was
    answered once or is counted as possibly errored, and if the parser was asked
    until it had nothing more, no object of the database is left unread. *)
Theorem driver_indexes_database {Process : Type} compdb text mss o o0 (opts : DriverOptions)
    id count (spawn : nat -> Process) last_round rounds :
  file compdb = Some text -> json_tokens text = (events (DArray (map DObject mss)), true) ->
  Forall clang_object mss -> Z.of_nat (length mss) < 2 ^ 32 ->
  Forall compiler_ok (map command_of mss) -> search_ok -> 0 < refillCount o ->
  (0 < numWorkers opts)%nat -> sends_ok last_round ->
  exists d, Driver_start opts id count (initialize (ResumableParser_default o0) compdb o) spawn = Ok d
    /\ (legal_from_start rounds d -> progress_from_start rounds d -> (2 * length mss < length rounds)%nat ->
        match runJobsTillCompletionAndShutdownWorkers last_round rounds d with
        | Ok (Driver.Finished d' rc) => finished d' /\ (rc = 0%nat -> objects_left (compdbParser d') = 0%nat)
        | Ok (Waiting _ _) => False
        | Err e => e = Exit 1 /\ exists d1, refillJobs d = Ok (d1, 0%nat)
        end).
Proof.
  intros Hf Ht Hms Hlen Hok Hs Hr Hn Hsend.
  destruct (initialize_ok compdb text mss o o0 Hf Ht Hms Hlen Hok Hs Hr) as [Hp Hleft].
  destruct (Driver_start_ok (JL:=parser_source_laws) opts id count _ spawn Hp) as (d & Hd & _). exists d. split; [done|]. intros Hl Hpg Hlong.
  pose proof (run_from_start (JL:=parser_source_laws) last_round rounds opts id count _ spawn d Hsend Hn Hp Hd Hl) as H.
  destruct (runJobsTillCompletionAndShutdownWorkers _ _ _) as [[d' rc|d' rc]|e]; [|destruct H as [_ H]|done].
  - destruct H as (? & _ & ?). done.
  - specialize (H Hpg). cbn in H. rewrite Hleft in H. lia.
Qed.
End ParserSource.

(** ** A concrete run on two objects, in batches of one *)
Definition demo_parser : ResumableParser :=
  @initialize demo_escape (demo_tokens (DArray (map DObject [demo_object "a.c"; demo_object "b.c"])) true)
    (ResumableParser_default (mkParseOptions 1 true true true)) (mkFile 100 2 (Some [])) (mkParseOptions 1 true true true).
Definition demo_parser_source : JobSource ResumableParser :=
  @parser_source true posix_path demo_all_files demo_runner demo_absl demo_c_regex demo_windows.
Definition demo_database_rounds : list (Round nat) := demo_rounds ++ [demo_round RTimeout 4].

Lemma driver_indexes_database_witness :
  exists d, @Driver_start true nat _ (demo_driver_options 1) (lit "d") 2 demo_parser (fun w => w) = Ok d
    /\ match @runJobsTillCompletionAndShutdownWorkers true nat _ demo_parser_source (demo_round RTimeout 100)
              demo_database_rounds d with
       | Ok (Driver.Finished d' rc) => finished d' /\ (rc = 0%nat -> objects_left (compdbParser d') = 0%nat)
       | Ok (Waiting _ _) => False
       | Err e => e = Exit 1 /\ exists d1, @refillJobs true nat _ demo_parser_source d = Ok (d1, 0%nat)
       end.
Proof.
  destruct (@driver_indexes_database true posix_path posix_path_laws demo_all_files demo_runner demo_absl
    demo_c_regex demo_escape demo_windows (demo_tokens (DArray (map DObject [demo_object "a.c"; demo_object "b.c"])) true)
    nat (mkFile 100 2 (Some [])) [] [demo_object "a.c"; demo_object "b.c"]
    (mkParseOptions 1 true true true) (mkParseOptions 1 true true true) (demo_driver_options 1) (lit "d") 2%nat (fun w => w)
    (demo_round RTimeout 100) demo_database_rounds eq_refl eq_refl) as (d & Hd & H).
  - repeat (constructor; [apply demo_object_clang|]). constructor.
  - cbn. lia.
  - repeat constructor.
  - apply demo_search_ok.
  - done.
  - cbn. lia.
  - done.
  - exists d. split; [exact Hd|].
    assert (legal_from_start (BM:=true) (JS:=demo_parser_source) demo_database_rounds d
      /\ (true = true -> progress_from_start (BM:=true) (JS:=demo_parser_source) demo_database_rounds d)) as [Hl Hp].
    { apply (startb_sound (BM:=true) (JS:=demo_parser_source) true _
        (@Driver_start true nat _ (demo_driver_options 1) (lit "d") 2 demo_parser (fun w => w)));
        [rewrite !Forall_cons; by split_and!|by vm_compute|exact Hd]. }
    apply H; [exact Hl|by apply Hp|cbn; lia].
Defined.
