(* ===== verification/DriverRun.v ===== *)
(** * A run of the driver, from the compilation database to the index

    [Driver::run] and [driverMain] (Driver.cc) put the parts together: the compilation
    database is opened, workers are spawned, the run loop hands out jobs until it ends,
    and the shards that were announced are merged.

    The first part follows what the run loop does to the state that the merge reads:
    the planner keeps its root, and every shard and every statistic comes from a result
    that was received. *)
From S2P Require Import Prelude Ordering CppString Paths Json PackageMaps IdPaths Symbols ScipMessages.
From S2P Require Import IndexBuilder CommandLine Compdb Toolchains CompdbParser Ipc CliOptions Planner Scheduler.
From S2P Require Import Driver Merge ParserSource System.
From S2P Require DriverSetup.
Import CommandLine.Parser CommandLine.Cleaner.

(** ** Operations *)
Section Run.
Context `{BM : BuildMode, LP : LlvmPath, HI : HashIteration, AS : AbslSplit}.
Context `{SF : ShardFiles, MC : MergeConstants, PE : ProcessEnv} {Process P : Type} `{JS : !JobSource P}.

(** [run] after [openCompilationDatabase]; [None] as long as the loop waits.  The output
    files are the index and, if asked for, the statistics. *)
Definition run_opened (last_round : Round Process) (rounds : list (Round Process)) (this : Driver Process P)
    (spawnWorker : nat -> Process) (files : OutputFiles)
    : result (option (Driver Process P * (list Fragment * list Z) * list (str * FileContent))) :=
  this ← spawnWorkers this spawnWorker;
  outcome ← runJobsTillCompletionAndShutdownWorkers last_round rounds this;
  match outcome with
  | Waiting _ _ => Ok None
  | Finished this _ =>
      '(this, written) ← emitScipIndex this;
      files ← emitStatsFile this files;
      Ok (Some (this, written, files))
  end.
End Run.

(** [run], and the destructor: whether the temporary directory is removed. *)
Definition Driver_run `{BM : BuildMode, LP : LlvmPath, HI : HashIteration, AS : AbslSplit}
    `{SF : ShardFiles, MC : MergeConstants, PE : ProcessEnv, RJ : RapidJson, STF : StdFile, RE : RegexEscape}
    {Process : Type} `{JS : !JobSource ResumableParser} (uninitialised : Z)
    (last_round : Round Process) (rounds : list (Round Process)) (this : Driver Process ResumableParser)
    (spawnWorker : nat -> Process) (files : OutputFiles) :=
  this ← DriverSetup.openCompilationDatabase uninitialised this;
  run_opened last_round rounds this spawnWorker files.

Definition Driver_destroy {Process P : Type} (this : Driver Process P) : option str :=
  if deleteTemporaryOutputDir (options this) then Some (do_temporaryOutputDir (options this)) else None.

(** [driverMain]: the id of the driver, its options and the driver itself; the exceptions
    of boost that it catches do not leave the operations (see [MessageQueues_new]). *)
Definition driver_id_of (pid : Z) (cliOptions : CliOptions) : str :=
  if bool_decide (cli_driverId cliOptions = []) then fmt_uint pid else cli_driverId cliOptions.

Definition driverMain `{BM : BuildMode, LP : LlvmPath, HI : HashIteration, AS : AbslSplit, SF : ShardFiles}
    `{MC : MergeConstants, PE : ProcessEnv, RJ : RapidJson, STF : StdFile, RE : RegexEscape, RV : RegexValid}
    `{SP : DriverSetup.SearchPath, SS : DriverSetup.ShmStat, QE : DriverSetup.QueueErrors}
    {Process : Type} `{JS : !JobSource ResumableParser} (pid uninitialised : Z) (parser : ResumableParser)
    (last_round : Round Process) (rounds : list (Round Process)) (spawnWorker : nat -> Process)
    (qs : gmap str BoostQueue) (cliOptions : CliOptions) (files : OutputFiles) :=
  let driverId := driver_id_of pid cliOptions in
  options ← DriverSetup.DriverOptions_new driverId cliOptions;
  '(_, _, driver) ← DriverSetup.Driver_new driverId options parser qs;
  outcome ← Driver_run uninitialised last_round rounds driver spawnWorker files;
  Ok (option_map (fun done => (0, done)) outcome).

(** ** What the run loop does to shards and statistics *)
Section Sound.
Context `{BM : BuildMode} {Process P : Type} `{JS : !JobSource P}.
Abbreviation Drv := (Driver Process P).

Abbreviation responses d := (workerToDriver (queues d)).

(** Nothing that the merge reads changes, apart from the jobs. *)
Definition keeps (d d' : Drv) : Prop :=
  options d' = options d /\ projectRootPath (planner d') = projectRootPath (planner d)
  /\ shardPaths_ d' = shardPaths_ d /\ allStatistics d' = allStatistics d /\ responses d' = responses d.
#[local] Instance keeps_preorder : PreOrder keeps.
Proof.
  split; [by repeat split|]. intros x y z (?&?&?&?&?) (?&?&?&?&?). unfold keeps. split_and!; congruence.
Qed.

(** Every result that is received before the run ends satisfies [Q]. *)
Fixpoint run_responses (Q : IndexJobResponse -> Prop) (rounds : list (Round Process)) (d : Drv) (rc : nat) : Prop :=
  match rounds with
  | [] => True
  | env :: rounds => unfinished d -> forall d' rc', iteration env d rc = Ok (d', rc') ->
      Forall Q (round_responses env) /\ run_responses Q rounds d' rc'
  end.
Definition responses_from_start (Q : IndexJobResponse -> Prop) (rounds : list (Round Process)) (d : Drv) : Prop :=
  forall d1 rc, refillJobs d = Ok (d1, rc) -> run_responses Q rounds d1 rc.

Lemma run_responses_all Q rounds : Forall Q (concat (map round_responses rounds)) ->
  forall d rc, run_responses Q rounds d rc.
Proof.
  induction rounds as [|env rounds IH]; cbn [map concat run_responses]; [done|].
  intros [Henv Hrest]%Forall_app d rc _ d' rc' _. split; [done|]. by apply IH.
Qed.

Lemma run_responses_mono (Q Q' : IndexJobResponse -> Prop) rounds : (forall r, Q r -> Q' r) ->
  forall d rc, run_responses Q rounds d rc -> run_responses Q' rounds d rc.
Proof.
  intros HQ. induction rounds as [|env rounds IH]; [done|]. intros d rc H Hun d' rc' Hit.
  destruct (H Hun d' rc' Hit) as [Henv Hrest]. split; [by eapply Forall_impl|by apply IH].
Qed.

(** Everything comes from results that satisfy [Q]. *)
Record sound (Q : IndexJobResponse -> Prop) (opts : DriverOptions) (root : RootPath) (d : Drv) : Prop := {
  so_options : options d = opts;
  so_root : projectRootPath (planner d) = root;
  so_shards p : p ∈ shardPaths_ d -> exists r, r ∈ responses d
    /\ result_kind (response_result r) = EmitIndex /\ p = shardPaths (result_emitIndex (response_result r));
  so_stats j s : (j, s) ∈ allStatistics d -> exists r, r ∈ responses d /\ j = response_jobId r;
  so_received r : r ∈ responses d -> Q r
}.

Lemma sound_keeps Q opts root d d' : keeps d d' -> sound Q opts root d -> sound Q opts root d'.
Proof.
  intros (E1 & E2 & E3 & E4 & E5) []. split; rewrite ?E1 ?E2 ?E3 ?E4 ?E5 //.
Qed.

Lemma refillJobs_keeps (d d' : Drv) n : refillJobs d = Ok (d', n) -> keeps d d'.
Proof. unfold refillJobs. intros ([p cs] & _ & (s & _ & [= <- _])%bind_Ok_inv)%bind_Ok_inv. done. Qed.

Lemma tryAssign_keeps env (d d' : Drv) w j w' b : tryAssignJobToWorker env d w j = Ok (d', w', b) -> keeps d d'.
Proof.
  unfold tryAssignJobToWorker. intros (bw & _ & ([[s w2] req] & _ & H)%bind_Ok_inv)%bind_Ok_inv.
  destruct (sendOk env bw req); [by injection H as <- _ _|]. by apply bind_Ok_inv in H as (s' & _ & [= <- _ _]).
Qed.

Lemma assign_loop_keeps env fuel : forall d d' : Drv, assign_loop env fuel d = Ok d' -> keeps d d'.
Proof.
  induction fuel as [|fuel IH]; intros d d'; cbn [assign_loop];
    destruct (idleWorkers (scheduler d)), (pendingJobs (scheduler d)); try (by intros [= <-]); try done.
  intros (_ & _ & ([s w] & _ & ([[d1 w1] b] & H1 & (_ & _ & (_ & _ & H)%bind_Ok_inv)%bind_Ok_inv)%bind_Ok_inv)%bind_Ok_inv)%bind_Ok_inv.
  etrans; [|by apply IH]. apply tryAssign_keeps in H1. exact H1.
Qed.

Lemma shutdown_loop_keeps env fuel : forall d d' : Drv, shutdown_loop env fuel d = Ok d' -> keeps d d'.
Proof.
  induction fuel as [|fuel IH]; intros d d'; cbn [shutdown_loop];
    destruct (last (idleWorkers (scheduler d))); try (by intros [= <-]); try done.
  intros (s & _ & (d1 & H1 & H)%bind_Ok_inv)%bind_Ok_inv. etrans; [|by apply IH].
  unfold shutdownWorker in H1. apply bind_Ok_inv in H1 as (_ & _ & <-%Ok_inj). by destruct (sendOk env _ _).
Qed.

Lemma use_idle_workers_keeps env (d d' : Drv) : use_idle_workers env d = Ok d' -> keeps d d'.
Proof.
  unfold use_idle_workers, assignJobsToIdleWorkers. repeat case_match; [apply shutdown_loop_keeps| |by intros ->%Ok_inj].
  intros (_ & _ & (_ & _ & Hloop)%bind_Ok_inv)%bind_Ok_inv. by eapply assign_loop_keeps.
Qed.

Lemma refill_if_needed_keeps (d d' : Drv) n m : refill_if_needed d n = Ok (d', m) -> keeps d d'.
Proof.
  unfold refill_if_needed. case_match; [|by intros [= <- _]].
  intros ([d1 k] & H1 & (_ & _ & [= <- _])%bind_Ok_inv)%bind_Ok_inv. by eapply refillJobs_keeps.
Qed.

Lemma saveSemaResult_root pl r l pl' l' :
  saveSemaResult pl r l = Ok (pl', l') -> projectRootPath pl' = projectRootPath pl.
Proof.
  unfold saveSemaResult. intros (st & _ & H)%bind_Ok_inv. destruct (foldl _ _ _). by injection H as <- _.
Qed.

Lemma receive_sound Q opts root env (d d' : Drv) r :
  receive_and_process env d r = Ok d' -> Q r -> sound Q opts root d -> sound Q opts root d'.
Proof.
  intros Hr Hin [Ho Hroot Hsh Hst Hrec]. unfold receive_and_process, processWorkerResponse in Hr.
  assert (sound Q opts root (log_received d r)) as Hlog.
  { split; cbn; [done|done| | |].
    - intros p Hp. destruct (Hsh p Hp) as (r' & ? & ?). exists r'. by rewrite elem_of_app; auto.
    - intros j s Hs. destruct (Hst j s Hs) as (r' & ? & ?). exists r'. by rewrite elem_of_app; auto.
    - intros r' [?| ->%list_elem_of_singleton]%elem_of_app; auto. }
  apply bind_Ok_inv in Hr as ([s idle] & _ & Hr). destruct idle as [w|]; [|apply Ok_inj in Hr as <-; by eapply sound_keeps, Hlog].
  destruct (result_kind (response_result r)) eqn:Ek.
  - apply bind_Ok_inv in Hr as ([pl files] & Hpl & ([s2 req] & _ & H)%bind_Ok_inv).
    assert (keeps (log_received d r) d') as Hk; [|by eapply sound_keeps].
    apply saveSemaResult_root in Hpl.
    destruct (sendOk env w req); [by injection H as <-|].
    by apply bind_Ok_inv in H as (s3 & _ & (s4 & _ & [= <-])%bind_Ok_inv).
  - apply bind_Ok_inv in Hr as (_ & _ & <-%Ok_inj). destruct Hlog as [Ho' Hroot' Hsh' Hst' Hrec'].
    split; cbn in *; [done|done| | |done].
    + intros p [?| ->%list_elem_of_singleton]%elem_of_app; [by apply Hsh'|]. exists r.
      rewrite elem_of_app list_elem_of_singleton. by auto.
    + intros j s' Hs'. case_bool_decide; [by eapply Hst'|].
      apply elem_of_app in Hs' as [?|[= -> ->]%list_elem_of_singleton]; [by eapply Hst'|]. exists r.
      rewrite elem_of_app list_elem_of_singleton. by auto.
Qed.

Lemma receive_all_sound Q opts root env l : forall d d' : Drv,
  foldM (receive_and_process env) d l = Ok d' -> Forall Q l ->
  sound Q opts root d -> sound Q opts root d'.
Proof.
  intros d d' Hf Hin Hd. refine (foldM_invariant (sound Q opts root) _ _ _ _ _ Hd Hf).
  rewrite Forall_forall in Hin. intros t r t' Hr Ht Hstep. eapply receive_sound; [done|by apply Hin|done].
Qed.

Lemma iteration_sound Q opts root env (d d' : Drv) n m :
  iteration env d n = Ok (d', m) -> Forall Q (round_responses env) ->
  sound Q opts root d -> sound Q opts root d'.
Proof.
  unfold iteration. intros ([d1 k] & H1 & (d2 & H2 & (_ & _ & (d3 & H3 & [= -> _])%bind_Ok_inv)%bind_Ok_inv)%bind_Ok_inv)%bind_Ok_inv Hin Hd.
  apply refill_if_needed_keeps in H1. apply use_idle_workers_keeps in H2.
  apply (sound_keeps _ _ _ _ _ H1), (sound_keeps _ _ _ _ _ H2) in Hd.
  unfold processOneOrMoreJobResults, round_responses in *. apply bind_Ok_inv in H3 as (d4 & H4 & (s & _ & <-%Ok_inj)%bind_Ok_inv).
  apply (sound_keeps _ _ _ d4); [done|]. destruct (received env) as [| |r more]; [by injection H4 as <-..|].
  by eapply (receive_all_sound Q opts root env (r :: more) d2).
Qed.

Lemma run_loop_sound Q opts root last_round rounds : forall (d : Drv) n o,
  run_loop last_round rounds d n = Ok o -> run_responses Q rounds d n ->
  sound Q opts root d -> match o with Finished d' _ | Waiting d' _ => sound Q opts root d' end.
Proof.
  induction rounds as [|env rounds IH]; intros d n o; cbn [run_loop]; intros (_ & _ & H)%bind_Ok_inv Hin Hd;
    (case_match eqn:Eun; [apply bind_Ok_inv in H as (d1 & H1 & <-%Ok_inj);
       eapply sound_keeps; [by eapply shutdown_loop_keeps|done]|]).
  - by injection H as <-.
  - apply bind_Ok_inv in H as ([d1 m] & H1 & H).
    destruct (fun Hun => Hin Hun _ _ H1) as [Henv Hrest].
    { unfold unfinished. apply andb_false_iff in Eun as [?%bool_decide_eq_false|?%bool_decide_eq_false]; auto. }
    eapply IH; [done|done|]. by eapply iteration_sound.
Qed.

Lemma run_sound Q opts root last_round rounds (d : Drv) o :
  runJobsTillCompletionAndShutdownWorkers last_round rounds d = Ok o ->
  responses_from_start Q rounds d ->
  sound Q opts root d -> match o with Finished d' _ | Waiting d' _ => sound Q opts root d' end.
Proof.
  unfold runJobsTillCompletionAndShutdownWorkers.
  intros (_ & _ & ([d1 n] & H1 & H)%bind_Ok_inv)%bind_Ok_inv Hin Hd.
  specialize (Hin _ _ H1). apply refillJobs_keeps in H1. apply (sound_keeps _ _ _ _ _ H1) in Hd.
  destruct (Nat.eqb n 0); [done|]. apply bind_Ok_inv in H as (_ & _ & (o' & Ho & H)%bind_Ok_inv).
  apply (run_loop_sound Q opts root) in Ho; [|done..]. destruct o' as [d2 k|d2 k]; [|by injection H as <-].
  by apply bind_Ok_inv in H as (_ & _ & (_ & _ & (_ & _ & <-%Ok_inj)%bind_Ok_inv)%bind_Ok_inv).
Qed.
End Sound.

(** ** The whole run *)

(** An announcement as workers send it: an absolute path, named after the task of the job,
    of a shard whose documents have relative paths and whose forward declarations have
    ranges. *)
Definition announced_ok `{LlvmPath, AbslSplit, ShardFiles} (r : IndexJobResponse) : Prop :=
  result_kind (response_result r) = EmitIndex ->
  let paths := shardPaths (result_emitIndex (response_result r)) in
  AbsolutePath_wf (docsAndExternals paths)
  /\ (exists workerId suffix,
        fileName (asStringRef (docsAndExternals paths)) = Some (prefix (taskId (response_jobId r)) workerId ++ suffix))
  /\ Forall (fun d => doc_path_ok (relative_path d)) (shard_documents [paths])
  /\ Forall ForwardDecl_wf (shard_forward_decls [paths]).

Section WholeRun.
Context `{BM : BuildMode, LP : LlvmPath, LPL : !LlvmPathLaws, HI : HashIteration, HL : !HashIterationLaws}.
Context `{AS : AbslSplit, ASL : !AbslSplitLaws, SF : ShardFiles, MC : MergeConstants, PE : ProcessEnv}.
Context {Process P : Type} `{JS : !JobSource P}.
Abbreviation Drv := (Driver Process P).

(** The conditions of the merge are met at the end of the run. *)
Lemma sound_mergeable Q opts root (d : Drv) :
  sound Q opts root d -> finished d -> AbsolutePath_wf (root_value root) -> root_kind root = Project ->
  (forall r, Q r -> announced_ok r) -> mergeable d.
Proof.
  intros [Ho Hroot Hsh Hst Hrec] Hfin Hwf Hk Han.
  assert (forall p, p ∈ shardPaths_ d -> exists r, response_jobId r ∈ answered d /\ announced_ok r
    /\ result_kind (response_result r) = EmitIndex /\ p = shardPaths (result_emitIndex (response_result r))) as Hp.
  { intros p (r & Hr & Hkr & ->)%Hsh. exists r. split_and!; [|by apply Han, Hrec|done..].
    apply list_elem_of_fmap. by exists r. }
  split.
  - unfold planner_wf. by rewrite Hroot.
  - apply Forall_forall. intros p (r & Ha & Hr & Hkr & ->)%Hp. destruct (Hr Hkr) as (Hw & (w & suffix & Hf) & _).
    split; [exact Hw|]. intros f id Hf'. rewrite Hf in Hf'. injection Hf' as <-.
    rewrite tryParseJobId_prefix; [by apply (fin_ids d Hfin)|]. intros [= <-]. by apply (fin_tasks d Hfin).
  - unfold shard_documents. apply Forall_concat, Forall_map, Forall_forall. intros p (r & _ & Hr & Hkr & ->)%Hp.
    destruct (Hr Hkr) as (_ & _ & Hd & _). unfold shard_documents in Hd. cbn in Hd. by rewrite app_nil_r in Hd.
  - unfold shard_forward_decls. apply Forall_concat, Forall_map, Forall_forall. intros p (r & _ & Hr & Hkr & ->)%Hp.
    destruct (Hr Hkr) as (_ & _ & _ & Hd). unfold shard_forward_decls in Hd. cbn in Hd. by rewrite app_nil_r in Hd.
Qed.

Lemma finished_sorted (d : Drv) : finished d -> finished (sorted_shards d).
Proof.
  intros []. split; try done. cbn. rewrite fin_indexed.
  by rewrite (Permutation_length (c_sort_Permutation compareShardPaths (shardPaths_ d))).
Qed.

(** Every statistic is for a translation unit. *)
Lemma job_stats_all_ok (d : Drv) l : forall acc,
  (forall j s, (j, s) ∈ l -> exists t, allJobList (scheduler d) !! newTask (taskId j) = Some t
     /\ job_kind (job t) = SemanticAnalysis) ->
  exists entries, foldM (job_stats d) acc l = Ok entries.
Proof.
  induction l as [|[j s] l IH]; intros acc Hl; cbn [foldM]; [by eexists|].
  destruct (Hl j s) as (t & Ht & Hk); [by left|].
  assert (job_stats d acc (j, s) = Ok (acc ++ [(taskId j, mkStatsEntry (filePath (command (job_semanticAnalysis (job t)))) s)]))
    as ->; [|rewrite bind_Ok; apply IH; intros j' s' Hin; apply (Hl j' s'); by right].
  unfold job_stats. simpl. rewrite Ht bool_decide_true // ENFORCE_true !bind_Ok Hk bool_decide_true // ENFORCE_true bind_Ok //.
Qed.

Lemma emitStatsFile_ok Q opts root (d : Drv) files :
  sound Q opts root d -> finished d -> open_fails (asStringRef (statsFilePath opts)) = false ->
  exists files', emitStatsFile d files = Ok files'.
Proof.
  intros Hs Hfin Hopen. unfold emitStatsFile. case_bool_decide; [by eexists|].
  destruct (job_stats_all_ok d (allStatistics d) []) as [entries ->].
  { intros j s (r & Hr & ->)%(so_stats _ _ _ _ Hs). apply (fin_tasks d Hfin), list_elem_of_fmap. by exists r. }
  rewrite bind_Ok. unfold emitAll. rewrite (so_options _ _ _ _ Hs) Hopen ENFORCE_true bind_Ok. by eexists.
Qed.

Lemma sound_sorted Q opts root (d : Drv) : sound Q opts root d -> sound Q opts root (sorted_shards d).
Proof.
  intros []. split; try done. intros p Hp. apply so_shards0. cbn in Hp.
  by rewrite (c_sort_Permutation compareShardPaths (shardPaths_ d)) in Hp.
Qed.
End WholeRun.

(** ** From a compilation database to an index *)
Section Database.
Context `{BM : BuildMode, LP : LlvmPath, LPL : !LlvmPathLaws, FS : FileSystem, PR : ProcessRunner,
          A : AbslStrings, R : LlvmRegex, E : RegexEscape, W : WindowsTokenizer, RJ : RapidJson, STF : StdFile}.
Context `{HI : HashIteration, HL : !HashIterationLaws, AS : AbslSplit, ASL : !AbslSplitLaws}.
Context `{SF : ShardFiles, MC : MergeConstants, PE : ProcessEnv} {Process : Type}.

(** What makes a compilation database well formed for the driver. *)
Record database_ok (opts : DriverOptions) (mss : list (list (str * doc))) : Prop := {
  db_contents : exists text size, fopen_read (asStringRef (do_compdbPath opts)) = Some text
    /\ file_size (asStringRef (do_compdbPath opts)) = Some size
    /\ json_tokens text = (events (DArray (map DObject mss)), true);
  db_valid : compdb_wf (mkValidationOptions (negb (do_isTesting opts)) (negb (do_isTesting opts)))
    (DArray (map DObject mss)) = true;
  db_objects : Forall clang_object mss;
  db_length : (0 < length mss)%nat /\ Z.of_nat (length mss) < 2 ^ 32;
  db_compilers : Forall compiler_ok (map command_of mss);
  db_search : search_ok
}.

(** The driver after [openCompilationDatabase]: never more workers than objects. *)
Lemma openCompilationDatabase_ok u opts id mss o0 : database_ok opts mss -> (0 < numWorkers opts)%nat ->
  exists parser,
    DriverSetup.openCompilationDatabase (Process:=Process) u (Driver_opened opts id 0 (ResumableParser_default o0))
      = Ok (Driver_opened (DriverSetup.set_numWorkers opts (min (length mss) (numWorkers opts))) id (length mss) parser)
    /\ parser_ok parser ∅ /\ objects_left parser = length mss.
Proof.
  intros [(text & size & Hopen & Hsize & Htok) Hvalid Hobj [Hpos Hlen] Hcomp Hsearch] Hn.
  set (o := mkParseOptions (2 * Z.of_nat (min (length mss) (numWorkers opts))) (negb (do_isTesting opts))
    (negb (do_isTesting opts)) (negb (do_isTesting opts))).
  set (f := mkFile size (Z.of_nat (length mss)) (Some text)).
  exists (initialize (ResumableParser_default o0) f o).
  split; [|apply (initialize_ok f text mss o o0); try done; cbn; lia].
  assert (openAndExitOnErrors u (asStringRef (do_compdbPath opts))
    (mkValidationOptions (negb (do_isTesting opts)) (negb (do_isTesting opts))) = Ok f) as Hf.
  { unfold openAndExitOnErrors, File_open. rewrite Hopen Hsize.
    rewrite (proj1 (validateAndCountJobs_correct_aux u text _) _ Htok) Hvalid !bind_Ok. cbn [file commandCount array_length].
    rewrite length_map. rewrite (proj2 (Z.eqb_neq _ _)); [lia|done]. }
  unfold DriverSetup.openCompilationDatabase. cbn [options Driver_opened]. rewrite Hf bind_Ok. cbn [f commandCount].
  rewrite Nat2Z.id. unfold ParseOptions_create, DriverSetup.refillCount. cbn [numWorkers DriverSetup.set_numWorkers do_isTesting].
  rewrite (proj2 (Z.ltb_lt _ _)); [lia|]. by rewrite ENFORCE_true.
Qed.

Lemma sound_start Q opts id count parser spawn (d : Driver Process ResumableParser) :
  Driver_start opts id count parser spawn = Ok d -> sound Q opts (projectRootPath_ opts) d.
Proof.
  unfold Driver_start, spawnWorkers. intros (s & _ & <-%Ok_inj)%bind_Ok_inv. cbn.
  split; try done; cbn; [intros p Hp%elem_of_nil|intros j s' Hs%elem_of_nil|intros r Hr%elem_of_nil]; done.
Qed.

(** A whole run, when the results that are received satisfy [Q], and what satisfies [Q]
    can be merged. *)
Lemma Driver_run_ok Q uninitialised opts id mss o0 last_round rounds (spawn : nat -> Process) files :
  database_ok opts mss -> (0 < numWorkers opts)%nat -> sends_ok last_round ->
  AbsolutePath_wf (root_value (projectRootPath_ opts)) -> root_kind (projectRootPath_ opts) = Project ->
  open_fails (asStringRef (do_indexOutputPath opts)) = false -> open_fails (asStringRef (statsFilePath opts)) = false ->
  (forall r, Q r -> announced_ok r) ->
  let d0 := Driver_opened opts id 0 (ResumableParser_default o0) in
  exists d1 d, DriverSetup.openCompilationDatabase uninitialised d0 = Ok d1 /\ spawnWorkers d1 spawn = Ok d
    /\ length (workers (scheduler d)) = min (length mss) (numWorkers opts)
    /\ (schedule_from_start rounds d (length (workers (scheduler d))) -> responses_from_start Q rounds d ->
        progress_from_start rounds d -> (2 * length mss < length rounds)%nat ->
        match Driver_run uninitialised last_round rounds d0 spawn files with
        | Ok (Some (d', (fragments, _), _)) => finished d'
            /\ (forall p, p ∈ shardPaths_ d' -> exists r, Q r
                 /\ result_kind (response_result r) = EmitIndex
                 /\ p = shardPaths (result_emitIndex (response_result r)))
            /\ exists chunks, fragments = MetadataFragment (merge_metadata d') :: map IndexFragment chunks
                 /\ Forall chunk_ok chunks /\ merged_index (planner d') (shardPaths_ d') (concat_index chunks)
        | Ok None => False
        | Err e => e = Exit 1 /\ exists d2, refillJobs d = Ok (d2, 0%nat)
        end).
Proof.
  intros Hdb Hn Hlast Hwf Hkind Hout Hstats Han d0.
  destruct (openCompilationDatabase_ok uninitialised opts id mss o0 Hdb Hn) as (parser & Hopen & Hp & Hleft).
  set (opts' := DriverSetup.set_numWorkers opts _) in Hopen.
  pose proof (proj1 (db_length _ _ Hdb)) as Hpos.
  destruct (Driver_start_ok (JL:=parser_source_laws) opts' id (length mss) parser spawn Hp) as (d & Hd & _ & _ & _ & Hw & _).
  eexists _, d. split; [exact Hopen|]. split; [exact Hd|]. split; [exact Hw|]. intros Hsch Hresp Hpg Hlong.
  unfold Driver_run, d0. rewrite Hopen bind_Ok. unfold run_opened.
  change (spawnWorkers _ spawn) with (Driver_start opts' id (length mss) parser spawn). rewrite Hd bind_Ok.
  assert (0 < numWorkers opts')%nat as Hn' by (cbn; lia).
  assert (legal_from_start rounds d) as Hl.
  { eapply (schedule_legal_from_start (JL:=parser_source_laws)); [exact Hp|exact Hn'|exact Hd|]. by rewrite -Hw. }
  pose proof (run_from_start (JL:=parser_source_laws) last_round rounds opts' id (length mss) parser spawn d Hlast Hn' Hp Hd Hl) as H.
  destruct (runJobsTillCompletionAndShutdownWorkers last_round rounds d) as [o|e] eqn:Erun; [|exact H]. rewrite bind_Ok.
  apply (run_sound Q opts' (projectRootPath_ opts)) in Erun; [|exact Hresp|exact (sound_start _ _ _ _ _ _ d Hd)].
  destruct o as [d' rc|d' rc]; [|destruct H as [_ H]; specialize (H Hpg); cbn in H; rewrite Hleft in H; lia].
  destruct H as (Hfin & _). pose proof (sound_mergeable _ _ _ _ Erun Hfin Hwf Hkind Han) as Hm.
  destruct (emitScipIndex_ok d' Hm) as (d2 & chunks & bad & Hd2 & -> & Hc & Hi); [by rewrite (so_options _ _ _ _ Erun)|].
  rewrite bind_Ok.
  assert (sound Q opts' (projectRootPath_ opts) d2 /\ finished d2) as [Hs2 Hf2].
  { destruct Hd2 as [->| ->]; [done|]. split; [by apply sound_sorted|by apply finished_sorted]. }
  destruct (emitStatsFile_ok _ _ _ d2 files Hs2 Hf2) as [files' ->]; [done|]. rewrite bind_Ok.
  split; [done|]. split; [|exists chunks; by destruct Hd2 as [->| ->]].
  intros p (r & Hr & ? & ?)%(so_shards _ _ _ _ Hs2). exists r. split; [by apply (so_received _ _ _ _ Hs2)|done].
Qed.

End Database.

(** ** Two objects, one worker, and a shard that is missing *)
Definition demo_announce (i : Z) (paths : ShardPaths) : IndexJobResponse :=
  mkIndexJobResponse 0 (mkJobId i 1) (mkIndexJobResult EmitIndex SemanticAnalysisJobResult_default
    (mkEmitIndexJobResult (statistics EmitIndexJobResult_default) paths)).
Definition demo_run_rounds : list (Round nat) :=
  [demo_round (RResponses (demo_sema_response 0 0) []) 0;
   demo_round (RResponses (demo_announce 0 (demo_shard_paths "/tmp/d/job-0-worker-0-")) []) 1;
   demo_round (RResponses (demo_sema_response 0 1) []) 2;
   demo_round (RResponses (demo_announce 1 (demo_shard_paths "/tmp/d/job-1-worker-0-")) []) 3;
   demo_round RTimeout 4].
Definition demo_objects : list (list (str * doc)) := [demo_object "a.c"; demo_object "b.c"].
Definition demo_json : RapidJson := demo_tokens (DArray (map DObject demo_objects)) true.
Definition demo_files : StdFile := {| fopen_read _ := Some []; file_size _ := Some 100 |}.
Definition demo_opened : Driver nat ResumableParser :=
  Driver_opened (demo_driver_options 1) (lit "d") 0 (ResumableParser_default (mkParseOptions 1 true true true)).
Definition demo_driver_run :=
  @Driver_run true posix_path tree_iteration demo_split demo_shard_files demo_constants demo_merge_env demo_json
    demo_files demo_escape nat demo_parser_source 7 (demo_round RTimeout 100) demo_run_rounds demo_opened (fun w => w) [].

(** The documents of the shard that is there. *)
Example demo_driver_run_documents :
  match demo_driver_run with
  | Ok (Some (_, (fragments, _), _)) => concat (map (fun f => match f with
      | IndexFragment i => map (fun d => (relative_path d, length (occurrences d))) (documents i)
      | MetadataFragment _ => [] end) fragments)
  | _ => []
  end = [(lit "a.c", 1%nat); (lit "a.h", 1%nat)].
Proof. by vm_compute. Qed.

Lemma demo_database_ok : @database_ok posix_path demo_runner demo_json demo_files (demo_driver_options 1) demo_objects.
Proof.
  split.
  - by exists [], 100.
  - by vm_compute.
  - repeat (constructor; [apply demo_object_clang|]). constructor.
  - cbn. lia.
  - repeat constructor.
  - apply demo_search_ok.
Qed.
Lemma demo_announced : Forall (@announced_ok posix_path demo_split demo_shard_files)
  (concat (map round_responses demo_run_rounds)).
Proof.
  repeat (apply Forall_cons; split); [intros [=]| |intros [=]| |by apply Forall_nil].
  all: intros _; split; [by vm_compute|]; split; [exists 0, (lit "-docs"); by vm_compute|].
  all: split; vm_compute; repeat (apply Forall_cons; split; [by split|]); by apply Forall_nil.
Qed.

