(* ===== verification/Accounting.v ===== *)
(** * The totals of a run

    [Driver::run] ends with the number of translation units that it indexed and the
    number of those that errored.  A result that arrives after its worker was given up
    appears in neither: its job is no longer counted as errored, and [processWorkerResponse]
    drops it.  Here the two numbers and the number of such results are shown to add up to
    the number of translation units. *)
From S2P Require Import Prelude Ordering CppString Paths Json PackageMaps IdPaths ScipMessages IndexBuilder.
From S2P Require Import CommandLine Compdb Toolchains CompdbParser Ipc CliOptions Planner Scheduler Driver.
From S2P Require Import System Merge ParserSource DriverRun.

Section Accounting.
Context `{BM : BuildMode} {Process P : Type} `{JS : !JobSource P, JL : !JobSourceLaws P}.
Implicit Types (d : Driver Process P) (s : Scheduler Process).

(** ** Late results *)

(** The results whose jobs are not in progress any more when they are processed. *)
Fixpoint late_results (env : Round Process) d (rs : list IndexJobResponse) : nat :=
  match rs with
  | [] => 0%nat
  | r :: rs =>
      ((if bool_decide (response_jobId r ∈ wipJobs (scheduler d)) then 0 else 1)
       + match receive_and_process env d r with Ok d' => late_results env d' rs | Err _ => 0 end)%nat
  end.
Definition late_round (env : Round Process) d (rc : nat) : nat :=
  match refill_if_needed d rc with
  | Ok (d, _) => match use_idle_workers env d with
                 | Ok d => late_results env d (round_responses env)
                 | Err _ => 0%nat
                 end
  | Err _ => 0%nat
  end.
Fixpoint late_run (rounds : list (Round Process)) d (rc : nat) : nat :=
  match rounds with
  | [] => 0%nat
  | env :: rounds =>
      if bool_decide (pendingJobs (scheduler d) = []) && bool_decide (wipJobs (scheduler d) = ∅) then 0%nat
      else (late_round env d rc
            + match iteration env d rc with Ok (d', rc') => late_run rounds d' rc' | Err _ => 0 end)%nat
  end.
Definition late_from_start (rounds : list (Round Process)) d : nat :=
  match refillJobs d with Ok (d', rc) => late_run rounds d' rc | Err _ => 0%nat end.

(** ** Which jobs exist *)
Lemma emit_jobs_dom s s' : dom (allJobList s') = dom (allJobList s) -> emit_jobs s' = emit_jobs s.
Proof. unfold emit_jobs. by intros ->. Qed.

Lemma emit_jobs_insert s s' j t t0 : allJobList s !! j = Some t0 -> allJobList s' = <[j := t]> (allJobList s) ->
  emit_jobs s' = emit_jobs s.
Proof. intros Hj E. apply emit_jobs_dom. rewrite E. apply dom_insert_lookup_L. by eexists. Qed.

Lemma queueSemaTask_emit_jobs s c s' : queueSemaTask s c = Ok s' -> emit_jobs s' = emit_jobs s.
Proof.
  unfold queueSemaTask, jobs_emplace. set (t := mkTrackedIndexJob _ _). clearbody t.
  destruct (allJobList s !! newTask (wrap32 (index c))) eqn:E; intros (_ & _ & <-%Ok_inj)%bind_Ok_inv; [done|].
  unfold emit_jobs. cbn. rewrite dom_insert_L filter_union_L filter_singleton_L. cbn [subtaskId newTask].
  by rewrite left_id_L.
Qed.

Lemma refillJobs_emit_jobs d d' n : refillJobs d = Ok (d', n) -> emit_jobs (scheduler d') = emit_jobs (scheduler d).
Proof.
  unfold refillJobs. intros ([p cs] & _ & (s & Hs & [= <- _])%bind_Ok_inv)%bind_Ok_inv. cbn.
  eapply (foldM_invariant (fun s => emit_jobs s = emit_jobs (scheduler d))) in Hs; [exact Hs| |done].
  intros t c t' _ Ht Hq%queueSemaTask_emit_jobs. by rewrite Hq.
Qed.

Lemma scheduleJob_emit_jobs s w j now s' w' req :
  scheduleJobOnWorker s w j now = Ok (s', w', req) -> emit_jobs s' = emit_jobs s.
Proof.
  unfold scheduleJobOnWorker. intros (id & _ & (_ & _ & (_ & _ & (bw & _ & ([s1 w1] & Hb & H)%bind_Ok_inv)%bind_Ok_inv)%bind_Ok_inv)%bind_Ok_inv)%bind_Ok_inv.
  assert (allJobList s1 = allJobList s) as Es.
  { unfold markWorkerBusy in Hb. apply bind_Ok_inv in Hb as ([i w2] & _ & Hb). by inv_ok. }
  destruct (allJobList s1 !! j) as [it|] eqn:Ej.
  - apply bind_Ok_inv in H as (_ & _ & [= <- _ _]). rewrite Es in Ej. by eapply emit_jobs_insert; [exact Ej|cbn; by rewrite Es].
  - by apply bind_Ok_inv in H as (_ & _ & ?).
Qed.

Lemma tryAssign_emit_jobs env d d' w j w' b : sends_ok env ->
  tryAssignJobToWorker env d w j = Ok (d', w', b) -> emit_jobs (scheduler d') = emit_jobs (scheduler d).
Proof.
  intros Hsend. unfold tryAssignJobToWorker. intros (bw & _ & ([[s w2] req] & Hs & H)%bind_Ok_inv)%bind_Ok_inv.
  rewrite Hsend in H. injection H as <- _ _. by apply scheduleJob_emit_jobs in Hs.
Qed.

Lemma assign_loop_emit_jobs env fuel : sends_ok env -> forall d d',
  assign_loop env fuel d = Ok d' -> emit_jobs (scheduler d') = emit_jobs (scheduler d).
Proof.
  intros Hsend. induction fuel as [|fuel IH]; intros d d'; cbn [assign_loop];
    destruct (idleWorkers (scheduler d)), (pendingJobs (scheduler d)); try (by intros [= <-]); try done.
  intros (_ & _ & ([s w] & Hc & ([[d1 w1] b] & H1 & (_ & _ & (_ & _ & H)%bind_Ok_inv)%bind_Ok_inv)%bind_Ok_inv)%bind_Ok_inv)%bind_Ok_inv.
  rewrite (IH _ _ H) (tryAssign_emit_jobs _ _ _ _ _ _ _ Hsend H1). cbn.
  unfold claimIdleWorker in Hc. apply bind_Ok_inv in Hc as (_ & _ & Hc).
  destruct (idleWorkers _); [done|]. by injection Hc as <- _.
Qed.

Lemma shutdown_loop_emit_jobs env fuel : forall d d',
  shutdown_loop env fuel d = Ok d' -> emit_jobs (scheduler d') = emit_jobs (scheduler d).
Proof.
  induction fuel as [|fuel IH]; intros d d'; cbn [shutdown_loop];
    destruct (last (idleWorkers (scheduler d))); try (by intros [= <-]); try done.
  intros (s & Hs & (d1 & H1 & H)%bind_Ok_inv)%bind_Ok_inv. rewrite (IH _ _ H).
  assert (scheduler d1 = s) as ->.
  { unfold shutdownWorker in H1. apply bind_Ok_inv in H1 as (_ & _ & <-%Ok_inj). by destruct (sendOk env _ _). }
  unfold markWorkerStopped in Hs. apply bind_Ok_inv in Hs as (wi & _ & (_ & _ & (_ & _ & <-%Ok_inj)%bind_Ok_inv)%bind_Ok_inv). done.
Qed.

Lemma use_idle_workers_emit_jobs env d d' : sends_ok env ->
  use_idle_workers env d = Ok d' -> emit_jobs (scheduler d') = emit_jobs (scheduler d).
Proof.
  intros Hsend. unfold use_idle_workers, assignJobsToIdleWorkers. repeat case_match; [apply shutdown_loop_emit_jobs| |by intros ->%Ok_inj].
  intros (_ & _ & (_ & _ & Hloop)%bind_Ok_inv)%bind_Ok_inv. by eapply assign_loop_emit_jobs.
Qed.

Lemma refill_if_needed_emit_jobs d d' n m : refill_if_needed d n = Ok (d', m) ->
  emit_jobs (scheduler d') = emit_jobs (scheduler d).
Proof.
  unfold refill_if_needed. case_match; [|by intros [= <- _]].
  intros ([d1 k] & H1 & (_ & _ & [= <- _])%bind_Ok_inv)%bind_Ok_inv. by eapply refillJobs_emit_jobs.
Qed.

(** ** What is owed

    [owing d n d']: between [d] and [d'], [n] results more arrived than were counted. *)
Definition owing d (n : nat) d' : Prop :=
  (length (answered d') + counted d = length (answered d) + counted d' + n)%nat.

Lemma owing_trans d1 n1 d2 n2 d3 : owing d1 n1 d2 -> owing d2 n2 d3 -> owing d1 (n1 + n2) d3.
Proof. unfold owing. lia. Qed.

Lemma keeps_owing d d' : keeps d d' -> emit_jobs (scheduler d') = emit_jobs (scheduler d) -> owing d 0 d'.
Proof. intros (_ & _ & Es & _ & Er) Ee. unfold owing, counted, answered. rewrite Es Er Ee. lia. Qed.

Lemma receive_owing d r d' : settles d r d' ->
  owing d (if bool_decide (response_jobId r ∈ wipJobs (scheduler d)) then 0%nat else 1%nat) d'.
Proof. intros (Ha & Hc & _). unfold owing. rewrite Ha Hc length_app /=. case_bool_decide; lia. Qed.

Lemma responses_owing env rs : forall d busy d',
  DInv d busy -> sends_ok env -> legal_responses env d rs -> foldM (receive_and_process env) d rs = Ok d' ->
  owing d (late_results env d rs) d'.
Proof.
  induction rs as [|r rs IH]; intros d busy d' H Hsend Hlegal; cbn [foldM late_results].
  { intros <-%Ok_inj. unfold owing. lia. }
  destruct Hlegal as [Hr Hrs].
  destruct (legal_response_ok env d busy r H Hsend Hr) as (d1 & busy0 & busy1 & _ & H1 & _ & _ & _ & _ & Hok & Hset & _).
  assert (receive_and_process env d r = Ok d1) as Hok' by exact Hok. rewrite Hok' bind_Ok. intros Hf.
  eapply owing_trans; [by apply receive_owing|]. eapply IH; [exact H1|done| |done]. by apply Hrs.
Qed.

Lemma iteration_owing env d busy rc d' rc' :
  DInv d busy -> LoopInv d rc -> sends_ok env -> legal_iteration env d rc ->
  (pendingJobs (scheduler d) <> [] \/ busy <> []) ->
  iteration env d rc = Ok (d', rc') -> owing d (late_round env d rc) d'.
Proof.
  intros H L Hsend Hlegal Hne.
  destruct (refill_if_needed_ok d busy rc H L) as (d1 & rc1 & Hr & H1 & L1 & _ & _ & Hp1 & Hrc1).
  destruct (use_idle_workers_ok env d1 busy rc1 H1 L1 Hsend) as (d2 & busy2 & Hu & H2 & _); [|done|].
  { destruct Hne; [left|right]; auto. }
  unfold iteration, late_round. rewrite Hr bind_Ok Hu bind_Ok. intros (_ & _ & (d3 & Hpr & [= <- _])%bind_Ok_inv)%bind_Ok_inv.
  apply (owing_trans _ 0 d1 _); [apply keeps_owing; [by eapply refill_if_needed_keeps|by eapply refill_if_needed_emit_jobs]|].
  apply (owing_trans _ 0 d2 _); [apply keeps_owing; [by eapply use_idle_workers_keeps|by eapply use_idle_workers_emit_jobs]|].
  specialize (Hlegal _ _ _ Hr Hu). unfold processOneOrMoreJobResults, legal_round, round_responses in *.
  apply bind_Ok_inv in Hpr as (d4 & Hm & (s & Ht & <-%Ok_inj)%bind_Ok_inv).
  assert (forall n busy4, DInv d4 busy4 -> owing d2 n d4 -> owing d2 n (set_scheduler d4 s)) as Hend.
  { intros n busy4 H4 Ho. rewrite -(Nat.add_0_r n). eapply owing_trans; [exact Ho|].
    destruct (terminateLongRunningWorkers_ok (endOfRound env - receiveTimeout (options d4)) (respawn env) _ busy4
      (di_inv _ _ H4)) as (s' & busy' & Ht' & T). rewrite Ht in Ht'. injection Ht' as <-.
    assert (emit_jobs s = emit_jobs (scheduler d4)) as Ee by (apply emit_jobs_dom; by rewrite (tm_jobs _ _ _ _ _ _ T)).
    unfold owing, counted. cbn [set_scheduler scheduler shardPaths_]. rewrite Ee.
    change (answered (set_scheduler d4 s)) with (answered d4). lia. }
  destruct (received env) as [| |r more].
  1, 2: injection Hm as <-; apply (Hend _ busy2 H2); unfold owing; cbn; lia.
  destruct (responses_ok env (r :: more) d2 busy2 H2 Hsend Hlegal) as (d4' & busy4 & Hm' & A & _).
  change (foldM (receive_and_process env) d2 (r :: more) = Ok d4) in Hm. rewrite Hm in Hm'. injection Hm' as <-.
  apply (Hend _ busy4); [apply A|]. exact (responses_owing env (r :: more) d2 busy2 d4 H2 Hsend Hlegal Hm).
Qed.

Lemma run_loop_owing last_round rounds : forall d busy rc d' rc',
  DInv d busy -> LoopInv d rc -> legal_run rounds d rc ->
  run_loop last_round rounds d rc = Ok (Finished d' rc') -> owing d (late_run rounds d rc) d'.
Proof.
  assert (forall d d', shutdownIdleWorkers last_round d = Ok d' -> owing d 0 d') as Hstop.
  { intros d d' Hs. apply keeps_owing; [by eapply shutdown_loop_keeps|by eapply shutdown_loop_emit_jobs]. }
  induction rounds as [|env rounds IH]; intros d busy rc d' rc' H L Hlegal; cbn [run_loop late_run];
    intros (_ & _ & Hrun)%bind_Ok_inv.
  - destruct (_ && _); [|done]. apply bind_Ok_inv in Hrun as (d1 & Hs & [= <- _]). by apply Hstop.
  - destruct (bool_decide (pendingJobs (scheduler d) = []) && _) eqn:Hdone.
    { apply bind_Ok_inv in Hrun as (d1 & Hs & [= <- _]). by apply Hstop. }
    apply bind_Ok_inv in Hrun as ([d1 rc1] & Hit & Hrun).
    assert (pendingJobs (scheduler d) <> [] \/ wipJobs (scheduler d) <> ∅) as Hunf.
    { destruct (decide (pendingJobs (scheduler d) = [])) as [E|]; [|by left]. right. intros E'.
      by rewrite !bool_decide_eq_true_2 in Hdone. }
    destruct (Hlegal Hunf) as (Hsend & Hiter & Hrest).
    assert (pendingJobs (scheduler d) <> [] \/ busy <> []) as Hne.
    { destruct Hunf as [?|Hw]; [by left|right]. intros E. by apply Hw, (DInv_unassigned d busy H). }
    destruct (iteration_ok env d busy rc H L Hsend Hiter Hne) as (d2 & rc2 & busy2 & Hit' & H2 & L2 & _).
    rewrite Hit in Hit'. injection Hit' as <- <-. rewrite Hit.
    eapply owing_trans; [by eapply iteration_owing|]. eapply IH; [exact H2|exact L2|by apply Hrest|done].
Qed.

(** ** At the end *)
Definition task_jobs s : gset JobId := filter (fun j => subtaskId j = 0) (dom (allJobList s)).

Lemma jobs_split s : (size (dom (allJobList s)) = size (task_jobs s) + size (emit_jobs s))%nat.
Proof.
  unfold task_jobs, emit_jobs. rewrite -size_union.
  - intros j. rewrite !elem_of_filter. by intros [? _] [? _].
  - f_equal. apply set_eq. intros j. rewrite elem_of_union !elem_of_filter.
    destruct (decide (subtaskId j = 0)); tauto.
Qed.

(** Every job was answered or is counted as errored, and not both. *)
Lemma fates d : DInv d [] -> finished d ->
  size (dom (allJobList (scheduler d))) = (length (answered d) + numErroredJobs (scheduler d))%nat.
Proof.
  intros H F. unfold numErroredJobs.
  assert (dom (allJobList (scheduler d)) = list_to_set (answered d) ∪ maybeErroredJobs (scheduler d)) as ->.
  { apply set_eq. intros j. rewrite elem_of_union elem_of_list_to_set elem_of_dom. split.
    - intros [t Ht]. destruct (fin_fate d F j t Ht) as [_ Hf].
      destruct (decide (j ∈ maybeErroredJobs (scheduler d))); [by right|left; by apply Hf].
    - intros [Ha|He]; [by apply (fin_answers d F)|].
      apply (inv_errored _ _ (di_inv _ _ H)) in He as (_ & t & w & Ht & _). by eexists. }
  rewrite size_union.
  - intros j. rewrite elem_of_list_to_set. intros Ha He. by apply (di_answered _ _ H) in Ha as (_ & ? & _).
  - rewrite size_list_to_set; [apply (fin_answers d F)|done].
Qed.

(** The pair that [Driver::runJobsTillCompletionAndShutdownWorkers] returns. *)
Definition num_tus d : Z * nat := (indexedSoFar d, numErroredJobs (scheduler d)).

Lemma run_owing last_round rounds opts id count parser spawn d d' rc :
  sends_ok last_round -> (0 < numWorkers opts)%nat -> source_inv parser ∅ ->
  Driver_start opts id count parser spawn = Ok d -> legal_from_start rounds d ->
  runJobsTillCompletionAndShutdownWorkers last_round rounds d = Ok (Finished d' rc) ->
  DInv d' [] /\ finished d' /\ length (answered d') = (counted d' + late_from_start rounds d)%nat.
Proof.
  intros Hlast Hn Hsrc Hd Hlegal.
  destruct (Driver_start_ok opts id count parser spawn Hsrc) as (d0 & Hd0 & H & _ & _ & Hlen & _ & Hstop).
  rewrite Hd in Hd0. injection Hd0 as <-. unfold runJobsTillCompletionAndShutdownWorkers.
  intros (_ & _ & ([d1 n] & Hr & Hrun)%bind_Ok_inv)%bind_Ok_inv. destruct (Nat.eqb n 0); [done|].
  apply bind_Ok_inv in Hrun as (_ & _ & (o & Ho & Hrun)%bind_Ok_inv). destruct o as [d2 rc2|d2 rc2]; [|done].
  apply bind_Ok_inv in Hrun as (_ & _ & (_ & _ & (_ & _ & [= <- <-]%Ok_inj)%bind_Ok_inv)%bind_Ok_inv).
  destruct (refillJobs_ok d [] H) as (d1' & n' & Hr' & H1 & _ & _ & Hn1 & F1 & _ & Hs1 & _).
  rewrite Hr in Hr'. injection Hr' as <- <-.
  assert (LoopInv d1 n) as L1 by (split; [done|by rewrite Hs1 Hstop|by destruct F1 as (_ & -> & _); rewrite Hlen]).
  destruct (run_loop_ok last_round Hlast rounds d1 [] n H1 L1 (Hlegal _ _ Hr)) as (o & Ho' & H2).
  rewrite Ho in Ho'. injection Ho' as <-. destruct H2 as (H2 & Hi2 & Hp2 & _). split_and!; [done|by apply DInv_finished|].
  pose proof (run_loop_owing _ _ _ _ _ _ _ H1 L1 (Hlegal _ _ Hr) Ho) as Howe.
  assert (owing d 0 d1) as Howe1 by (apply keeps_owing; [by eapply refillJobs_keeps|by eapply refillJobs_emit_jobs]).
  assert (answered d = [] /\ counted d = 0%nat) as [Ea Ec].
  { unfold Driver_start, spawnWorkers in Hd. apply bind_Ok_inv in Hd as (s & Hs & <-%Ok_inj). split; [done|].
    unfold counted. cbn. destruct (Inv_init (Process:=Process) (numWorkers opts) spawn) as (s' & Hs' & _ & _ & _ & Hjobs & _).
    unfold Driver_opened in Hs. cbn in Hs. rewrite Hs in Hs'. injection Hs' as <-.
    unfold emit_jobs. by rewrite Hjobs dom_empty_L filter_empty_L size_empty. }
  unfold late_from_start. rewrite Hr. unfold owing in *. rewrite Ea Ec in Howe1. cbn in Howe1. lia.
Qed.
End Accounting.

(** ** Property *)

(** C14. The totals that a run reports add up: when the loop ends, the number of
    translation units whose jobs were queued is the number of those that were indexed
    (each with one shard), plus the number of errored ones, plus the number of results
    that came too late; the counter of indexed units is that number modulo 2^32.  So the
    report is complete exactly if no result came late. *)
Theorem totals_account_for_every_task `{BM : BuildMode} {Process P : Type} `{JS : !JobSource P, JL : !JobSourceLaws P}
    last_round rounds opts id count (parser : P) (spawn : nat -> Process) d d' rc :
  sends_ok last_round -> (0 < numWorkers opts)%nat -> source_inv parser ∅ ->
  Driver_start opts id count parser spawn = Ok d -> legal_from_start rounds d ->
  runJobsTillCompletionAndShutdownWorkers last_round rounds d = Ok (Finished d' rc) ->
  exists indexed errored, num_tus d' = (wrap32 (Z.of_nat indexed), errored)
    /\ length (shardPaths_ d') = indexed
    /\ size (task_jobs (scheduler d')) = (indexed + errored + late_from_start rounds d)%nat.
Proof.
  intros Hlast Hn Hsrc Hd Hlegal Hrun.
  destruct (run_owing _ _ _ _ _ _ _ _ _ _ Hlast Hn Hsrc Hd Hlegal Hrun) as (H & F & Ha).
  exists (length (shardPaths_ d')), (numErroredJobs (scheduler d')). split_and!; [|done|].
  - unfold num_tus. by rewrite (fin_indexed d' F).
  - pose proof (jobs_split (scheduler d')) as Hs. rewrite (fates d' H F) in Hs. unfold counted in Ha. lia.
Qed.

(** ** A worker that is given up and answers late *)
Definition demo_late_rounds : list (Round nat) :=
  [demo_round RTimeout 0;
   demo_round (RResponses (demo_sema_response 0 0) [demo_sema_response 0 1]) 20;
   demo_round (RResponses (demo_emit_response 0 1) []) 21].

Lemma totals_account_for_every_task_witness :
  exists d (d' : Driver nat (list (list CommandObject))) indexed,
    demo_start 1 demo_batches = Ok d /\ late_from_start (BM:=true) demo_late_rounds d = 1%nat
    /\ num_tus d' = (wrap32 (Z.of_nat indexed), 0%nat) /\ indexedSoFar d' = 1
    /\ size (task_jobs (scheduler d')) = (indexed + 0 + 1)%nat.
Proof.
  destruct (demo_start 1 demo_batches) as [d|e] eqn:Hd; [|vm_compute in Hd; discriminate Hd].
  assert (run_summary (d ← demo_start 1 demo_batches;
    @runJobsTillCompletionAndShutdownWorkers true nat _ _ (demo_round RTimeout 100) demo_late_rounds d)
    = Some (true, 1, 0%nat, 0%nat)) as Hsum by (vm_compute; reflexivity).
  rewrite Hd bind_Ok in Hsum.
  destruct (runJobsTillCompletionAndShutdownWorkers _ _ _) as [[d' rc|d' rc]|e] eqn:Hrun; [|discriminate Hsum|discriminate Hsum].
  assert (late_from_start (BM:=true) demo_late_rounds d = 1%nat) as Hlate
    by (vm_compute in Hd; injection Hd as <-; vm_compute; reflexivity).
  destruct (@totals_account_for_every_task true nat _ _ batch_source_laws (demo_round RTimeout 100) demo_late_rounds
    (demo_driver_options 1) (lit "d") 2 demo_batches (fun w => w) d d' rc) as (indexed & errored & Hnum & Hlen & Hsize).
  - done.
  - cbn. lia.
  - exact demo_batches_ok.
  - exact Hd.
  - apply (startb_sound false _ (demo_start 1 demo_batches)); [repeat (apply Forall_cons; split; [done|]); by apply Forall_nil|vm_compute; reflexivity|exact Hd].
  - exact Hrun.
  - rewrite Hlate in Hsize. cbn in Hsum. injection Hsum as E1 E2 _.
    assert (errored = 0%nat) as -> by (unfold num_tus in Hnum; congruence).
    exists d, d', indexed. split; [reflexivity|]. split; [exact Hlate|]. split; [exact Hnum|]. split; [exact E1|exact Hsize].
Defined.
