(* ===== verification/WorkerProcess.v ===== *)
(** * Workers as processes of the system

    [System] describes a worker process by three steps, and [DriverRun] assumes of the
    announcements of workers what the merge needs.  Here both are derived from the code
    of the worker: the log of [Worker_run] is an execution of such a process, and the
    shards that it announces are mergeable. *)
From S2P Require Import Prelude CppString Ordering Paths Json PackageMaps IdPaths Symbols ScipMessages.
From S2P Require Import IndexBuilder CommandLine Compdb Toolchains CompdbParser Ipc CliOptions Clang.
From S2P Require Import Formatter MacroIndexer Preprocessor TuAst NameResolver TuIndexer AstConsumer.
From S2P Require Import ShardWellFormed Planner System Worker WorkerProtocol.
From S2P Require Merge DriverRun.

(** ** Executions of one process *)
Definition label (m : Message) : option Label :=
  match m with
  | Received (inl request) => Some (Take request)
  | Received (inr _) => None
  | Sent response => Some (Answer response)
  end.

Inductive process_run (w : nat) : Proc -> list Message -> Proc -> Prop :=
| run_nil p : process_run w p [] p
| run_cons p m l p1 ms p2 :
    label m = Some l -> proc_step w p l p1 -> process_run w p1 ms p2 -> process_run w p (m :: ms) p2.

(** Requests of the kinds that a process waits for; what follows a shutdown is not read. *)
Fixpoint in_turn (k : Kind) (requests : list IndexJobRequest) : Prop :=
  match requests with
  | [] => True
  | request :: requests =>
      request_id request = Shutdown
      \/ (job_kind (request_job request) = k /\ in_turn (other_kind k) requests)
  end.

(** The state after them. *)
Fixpoint after (k : Kind) (requests : list IndexJobRequest) : Proc :=
  match requests with
  | [] => Expecting k
  | request :: requests =>
      if bool_decide (request_id request = Shutdown) then Gone else after (other_kind k) requests
  end.

(** Conversely the requests that a process takes are in turn: the hypothesis of the
    refinement below holds of every request that a worker reads in [System], where the
    process takes each of its steps by [proc_step]. *)
Definition taken (m : Message) : option IndexJobRequest :=
  match m with Received (inl request) => Some request | _ => None end.

Definition next_kind (p : Proc) : option Kind :=
  match p with
  | Expecting k => Some k
  | Working request => Some (other_kind (job_kind (request_job request)))
  | Gone => None
  end.

Lemma process_run_gone w ms p : process_run w Gone ms p -> ms = [].
Proof. inversion 1 as [|? ? ? ? ? ? ? Hs]; [done|inversion Hs]. Qed.

Lemma process_run_in_turn w p ms p' k :
  process_run w p ms p' -> next_kind p = Some k -> in_turn k (omap taken ms).
Proof.
  intros Hrun. revert k.
  induction Hrun as [|p m l p1 ms p2 Hl Hs Hrun IH]; intros k Hk; [done|].
  destruct m as [[request|]|response]; cbn in Hl; simplify_eq.
  - inversion Hs as [? Hns|? ? Hshut| |]; subst; cbn in *; simplify_eq; [|by left].
    right. split; [done|by apply IH].
  - inversion Hs; subst; cbn in *; simplify_eq. by apply IH.
Qed.

Definition phase_of (k : Kind) : phase :=
  match k with SemanticAnalysis => AtSemanticAnalysis | EmitIndex => AtEmitIndex end.

Lemma event_Got m i : event m = Got i -> m = Received i.
Proof. destruct m; [by intros [= ->]|done]. Qed.
Lemma event_Answered m id k :
  event m = Answered id k ->
  exists r, m = Sent r /\ response_jobId r = id /\ result_kind (response_result r) = k.
Proof. destruct m as [|r]; [done|]. intros [= <- <-]. by exists r. Qed.

Lemma serve_cons_request k request ms :
  request_id request <> Shutdown ->
  serve (phase_of k) (inl request :: ms)
  = Got (inl request) :: Answered (request_id request) k :: serve (phase_of (other_kind k)) ms.
Proof. intros Hns. by destruct k; cbn [serve phase_of other_kind]; rewrite bool_decide_false. Qed.

Section Refinement.
Context `{BM : BuildMode, LP : LlvmPath, SE : ScipEnums}.
Variables (this : Worker) (w : nat) (files : list (str * FileContent)).
Hypothesis own_id : workerId (ipcOptions this) = Z.of_nat w.

Lemma genuine_answers request r :
  genuine this files (Sent r) -> response_jobId r = request_id request ->
  result_kind (response_result r) = job_kind (request_job request) -> answers w request r.
Proof. intros (Hw & Hs & _) Hj Hk. split; [by rewrite Hw own_id|done..]. Qed.

(** What the protocol prescribes is an execution. *)
Lemma serve_process_run requests : forall k new,
  in_turn k requests -> map event new = serve (phase_of k) (map inl requests) ->
  Forall (genuine this files) new -> process_run w (Expecting k) new (after k requests).
Proof.
  induction requests as [|request requests IH]; intros k new Hturn Hev Hg; cbn [after map] in *.
  - apply map_eq_nil in Hev as ->. constructor.
  - case_bool_decide as Hs.
    + destruct new as [|m new]; [done|]. cbn [serve map] in Hev. rewrite bool_decide_true // in Hev.
      injection Hev as ->%event_Got ->%map_eq_nil.
      eapply run_cons; [done| |constructor]. by apply proc_shutdown.
    + rewrite serve_cons_request // in Hev. destruct new as [|m [|m' new]]; [done..|].
      injection Hev as ->%event_Got (r & -> & Hj & Hk)%event_Answered Hev.
      destruct Hturn as [?|[Hkind Hturn]]; [done|].
      apply Forall_cons in Hg as [_ [Hr Hg]%Forall_cons]. subst k.
      eapply run_cons; [done|by apply proc_take|].
      eapply run_cons; [done|by apply proc_answer, (genuine_answers _ _ Hr)|]. by apply IH.
Qed.
End Refinement.

(** ** What the driver reads *)

(** Parsing a shard gives what was serialised: a file to which shards of a kind were
    written holds one of them, if it can be read. *)
Record reads_back `{Merge.ShardFiles} (files : list (str * FileContent)) : Prop := {
  rb_index p docs docs' : (asStringRef p, IndexFile docs) ∈ files ->
    Merge.readIndexShard Merge.parse_index p = Some docs' -> (asStringRef p, IndexFile docs') ∈ files;
  rb_forward p fwd fwd' : (asStringRef p, ForwardDeclFile fwd) ∈ files ->
    Merge.readIndexShard Merge.parse_forward_decls p = Some fwd' -> (asStringRef p, ForwardDeclFile fwd') ∈ files;
}.

Section Announcements.
Context `{BM : BuildMode, LP : LlvmPath, LPL : !LlvmPathLaws, SE : ScipEnums}.
Context `{AP : AbslSplit, SF : Merge.ShardFiles}.

Lemma prefix_no_sep taskId worker : sep ∉ prefix taskId worker.
Proof.
  unfold prefix. rewrite !not_elem_of_app. split_and!; try by apply fmt_uint_no_char.
  all: by rewrite list_elem_of_In; vm_compute; intuition discriminate.
Qed.

Lemma path_append_unfold p q :
  head q <> Some sep ->
  path_append p q = match last p with
                    | None => q
                    | Some c => if bool_decide (c = sep) then p ++ q else p ++ sep :: q
                    end.
Proof. destruct q as [|c q]; [done|]. intros Hc. unfold path_append. by destruct c as [[] [] [] [] [] [] [] []]. Qed.

Lemma path_append_absolute p q :
  is_absolute p = true -> head q <> Some sep ->
  exists dir, path_append p q = dir ++ sep :: q /\ is_absolute (dir ++ sep :: q) = true.
Proof.
  intros [p' Ep]%is_absolute_posix Hq. rewrite path_append_unfold //.
  destruct (last p) as [c|] eqn:El; [|by rewrite Ep last_cons in El; destruct (last p')].
  case_bool_decide as Hsep.
  - apply last_Some in El as [dir ->]. subst c. exists dir. rewrite -app_assoc. split; [done|].
    apply is_absolute_posix. destruct dir as [|d dir]; [by eexists|]. injection Ep as -> _. by eexists.
  - exists p. split; [done|]. apply is_absolute_posix. rewrite Ep. by eexists.
Qed.

(** The name that the driver takes apart. *)
Lemma docs_path_name this id :
  is_absolute (wo_temporaryOutputDir (w_options this)) = true ->
  is_absolute (docs_path this id) = true
  /\ fileName (docs_path this id)
     = Some (prefix (taskId id) (workerId (ipcOptions this)) ++ lit "-docs_and_externals.shard.scip").
Proof.
  intros Htmp. unfold docs_path. set (q := prefix _ _).
  destruct (path_append_absolute _ q Htmp) as (dir & -> & Ha); [done|]. split.
  - apply is_absolute_posix in Ha as [r ->]. by apply is_absolute_cons.
  - apply fileName_Some. split_and!; [done| |exists dir; by rewrite -app_assoc].
    rewrite not_elem_of_app. split; [apply prefix_no_sep|].
    rewrite list_elem_of_In. vm_compute. intuition discriminate.
Qed.

(** Every file that was ever written to the path is in order. *)
Lemma announced_mergeable this files r :
  debugMode = true -> is_absolute (wo_temporaryOutputDir (w_options this)) = true ->
  Forall written_ok files -> reads_back files ->
  announced this files r -> DriverRun.announced_ok r.
Proof.
  intros Hdebug Htmp Hok [Hri Hrf] Ha Hk. cbv zeta.
  destruct (Ha Hk) as (Hd & _ & docs & fwd & Hdocs & Hfwd & _). clear Ha. rewrite Forall_forall in Hok.
  set (p := shardPaths _) in *.
  destruct (docs_path_name this (response_jobId r) Htmp) as [Habs Hname]. rewrite -Hd in Habs Hname.
  split_and!; [done|by eexists _, _| |].
  - unfold Merge.shard_documents. cbn. rewrite app_nil_r.
    destruct (Merge.readIndexShard _ _) as [docs'|] eqn:Er; [|done].
    destruct (Hok _ (Hri _ _ _ Hdocs Er)) as (_ & Hp & _). by apply Hp.
  - unfold Merge.shard_forward_decls. cbn. rewrite app_nil_r.
    destruct (Merge.readIndexShard _ _) as [fwd'|] eqn:Er; [|done].
    destruct (Hok _ (Hrf _ _ _ Hfwd Er)) as (_ & _ & Hf). eapply Forall_impl; [exact Hf|]. by intros fd [_ ?].
Qed.
End Announcements.

(** The log of a run of the worker. *)
Lemma Worker_run_process
    `{BM : BuildMode, AR : AbslReplace, LP : LlvmPath, LPL : !LlvmPathLaws, FS : FileSystem, CF : ClangFileID}
    `{AS : AbslStrings, U8 : Utf8, AE : AbslEmplace, TH : TextHash, SE : ScipEnums}
    `{WH : WyHash, RX : Cleaner.LlvmRegex, HI : HashIteration, HL : !HashIterationLaws}
    `{PE : ProcessEnv} {TL : ClangTooling} {WM : WorkerMachine} `{AP : AbslSplit}
    (this : Worker) (w : nat) (requests : list IndexJobRequest) :
  tooling_ok -> mode (w_options this) = Mode_Ipc -> workerId (ipcOptions this) = Z.of_nat w ->
  inbox this = map inl requests -> in_turn SemanticAnalysis requests ->
  ends_in (fun '(_, this') => exists new,
      messages_log this' = messages_log this ++ new
      /\ process_run w (Expecting SemanticAnalysis) new (after SemanticAnalysis requests)
      /\ wrote (w_files this) (w_files this')
      /\ Forall (genuine this (w_files this')) new)
    (Worker_run this).
Proof.
  intros HT Hm Hw Hin Hturn. eapply ends_mono; [by apply Worker_run_serves|].
  intros [[] this'] (new & Hlog & Hev & Hwrote & Hg). exists new. rewrite Hin in Hev.
  split_and!; [done|by eapply serve_process_run|done..].
Qed.

(** ** Property *)

(** C5. The code of the worker implements the process of [System], and what it announces
    can be merged: when its queue brings requests of the kinds that the process waits
    for, [Worker_run] ends, and when it does not fail, the messages that it took and sent,
    in their order, are an execution of the process, from waiting for a semantic analysis
    to the state after these requests (gone after a shutdown, otherwise waiting for the
    next one).  In debug builds, every result with shards is one that a run of the driver
    asks of its workers: an absolute path, named after the task, of documents with
    relative paths and forward declarations with comparable ranges, if reading a shard
    gives back what was written. *)
Theorem worker_refines_process
    `{BM : BuildMode, AR : AbslReplace, LP : LlvmPath, LPL : !LlvmPathLaws, FS : FileSystem, CF : ClangFileID}
    `{AS : AbslStrings, U8 : Utf8, AE : AbslEmplace, TH : TextHash, SE : ScipEnums}
    `{WH : WyHash, RX : Cleaner.LlvmRegex, HI : HashIteration, HL : !HashIterationLaws}
    `{PE : ProcessEnv} {TL : ClangTooling} {WM : WorkerMachine} `{AP : AbslSplit, SF : Merge.ShardFiles}
    (this : Worker) (w : nat) (requests : list IndexJobRequest) :
  tooling_ok -> mode (w_options this) = Mode_Ipc -> workerId (ipcOptions this) = Z.of_nat w ->
  inbox this = map inl requests -> in_turn SemanticAnalysis requests ->
  ends_in (fun '(_, this') => exists new,
      messages_log this' = messages_log this ++ new
      /\ process_run w (Expecting SemanticAnalysis) new (after SemanticAnalysis requests)
      /\ (debugMode = true -> is_absolute (wo_temporaryOutputDir (w_options this)) = true ->
          Forall written_ok (w_files this) -> reads_back (w_files this') ->
          forall r, Sent r ∈ new -> DriverRun.announced_ok r))
    (Worker_run this).
Proof.
  intros HT Hm Hw Hin Hturn. eapply ends_mono; [by eapply Worker_run_process|].
  intros [[] this'] (new & Hlog & Hrun & (written & Hfiles & Hwritten) & Hg). exists new.
  split_and!; [done..|]. intros Hdebug Htmp Hok Hrb r Hr.
  eapply announced_mergeable; [done..| |exact Hrb|].
  - rewrite Hfiles. by apply Forall_app.
  - rewrite Forall_forall in Hg. by apply (Hg _ Hr).
Qed.

(** ** A worker that indexes a translation unit and is shut down *)
Definition demo_requests : list IndexJobRequest :=
  [demo_request; demo_emit_request; mkIndexJobRequest Shutdown IndexJob_default].
Definition demo_in_turn : Worker := set_inbox (map inl demo_requests) demo_worker.
Definition demo_in_turn_run : result (unit * Worker) :=
  @Worker_run true demo_replace posix_path demo_fs demo_files demo_strings demo_utf8 demo_emplace
    demo_hash demo_enums demo_wyhash demo_no_regex tree_iteration demo_process demo_tooling demo_machine
    demo_in_turn.
(** Reading gives what was written first; the content of a file is its name. *)
Definition stored (files : list (str * FileContent)) : Merge.ShardFiles := {|
  Merge.open_shard p := Some p;
  Merge.parse_index p := head (omap (fun '(q, c) =>
    match c with IndexFile docs => if bool_decide (q = p) then Some docs else None | _ => None end) files);
  Merge.parse_forward_decls p := head (omap (fun '(q, c) =>
    match c with ForwardDeclFile fwd => if bool_decide (q = p) then Some fwd else None | _ => None end) files) |}.
Lemma stored_reads_back files : @reads_back (stored files) files.
Proof.
  assert (forall {A} (f : str * FileContent -> option A) a, head (omap f files) = Some a ->
    exists x, x ∈ files /\ f x = Some a) as Hf.
  { intros A f a Ha. destruct (omap f files) as [|b l] eqn:E; [done|]. injection Ha as ->.
    assert (a ∈ omap f files) as (x & Hx & Hfx)%list_elem_of_omap by (rewrite E; by left). by exists x. }
  split; intros p c c' _ ([q [docs|fwd|st]] & Hin & Hc)%Hf; try discriminate Hc.
  all: case_bool_decide as Hq; [|discriminate Hc].
  all: injection Hc as ->; subst q; exact Hin.
Qed.
Definition written_by (m : result (unit * Worker)) : list (str * FileContent) :=
  match m with Ok (_, this) => w_files this | Err _ => [] end.
Definition demo_stored : Merge.ShardFiles := stored (written_by demo_in_turn_run).
(** How many documents the driver reads in the announced shards. *)
Definition demo_announced : list nat :=
  match demo_in_turn_run with
  | Ok (_, this') => omap (fun m => match m with
      | Sent r => if bool_decide (result_kind (response_result r) = EmitIndex)
                  then Some (length (@Merge.shard_documents demo_stored [shardPaths (result_emitIndex (response_result r))]))
                  else None
      | Received _ => None end) (messages_log this')
  | Err _ => []
  end.

Lemma worker_refines_process_witness :
  demo_announced = [1%nat]
  /\ exists this', demo_in_turn_run = Ok ((), this')
     /\ process_run 3 (Expecting SemanticAnalysis) (messages_log this') Gone
     /\ forall r, Sent r ∈ messages_log this' -> @DriverRun.announced_ok posix_path demo_split demo_stored r.
Proof.
  assert (is_ok demo_in_turn_run = true) as Hok by (vm_compute; reflexivity).
  split; [vm_compute; reflexivity|].
  pose proof (@worker_refines_process true demo_replace posix_path posix_path_laws demo_fs demo_files demo_strings
    demo_utf8 demo_emplace demo_hash demo_enums demo_wyhash demo_no_regex tree_iteration
    tree_iteration_laws demo_process demo_tooling demo_machine demo_split demo_stored demo_in_turn 3 demo_requests
    demo_tooling_ok eq_refl eq_refl eq_refl) as H.
  fold demo_in_turn_run in H. unfold demo_stored in H |- *.
  destruct demo_in_turn_run as [[[] this']|e]; [|discriminate Hok].
  exists this'. split; [reflexivity|].
  destruct H as (new & HO & Hrun & Han).
  { right. split; [reflexivity|]. right. split; [reflexivity|]. left. reflexivity. }
  cbn in HO. rewrite HO. split; [exact Hrun|]. apply Han.
  - reflexivity.
  - reflexivity.
  - by apply Forall_nil.
  - apply stored_reads_back.
Defined.
