(* ===== verification/OsSupport.v ===== *)
(** * Operating-system helpers

    [os/Os.cc], [os/Linux.cc] and [FileSystem.cc]: running a command, reading a file, the
    name of the running program, names of threads, and whether a debugger is attached.
    The system calls are parameters: what they return, chunk by chunk where the code
    reads in a loop.

    A read or write outside a buffer has no result: it is [OutOfRange]. *)
From S2P Require Import Prelude CppString.

Definition NUL : ascii := "000"%char.
Definition newline : ascii := "010"%char.

(** The C string at the start of a buffer. *)
Fixpoint c_str (s : str) : str :=
  match s with [] => [] | c :: s => if Ascii.eqb c NUL then [] else c :: c_str s end.

Lemma c_str_no_nul s : NUL ∉ s -> c_str s = s.
Proof.
  induction s as [|c s IH]; cbn; [done|]. intros [Hc Hs]%not_elem_of_cons.
  rewrite (proj2 (Ascii.eqb_neq c NUL)); [congruence|]. by rewrite IH.
Qed.
Lemma c_str_app s t : NUL ∉ s -> c_str (s ++ NUL :: t) = s.
Proof.
  induction s as [|c s IH]; cbn; [done|]. intros [Hc Hs]%not_elem_of_cons.
  rewrite (proj2 (Ascii.eqb_neq c NUL)); [congruence|]. by rewrite IH.
Qed.

(** ** [exec]

    [fgets(buffer, 128, pipe)]: up to 127 bytes, and not past a newline; the end of the
    output is noticed when the call wants more than there is. *)
Fixpoint fgets (n : nat) (s : str) : str * str * bool :=
  match n with
  | O => ([], s, false)
  | S n =>
      match s with
      | [] => ([], [], true)
      | c :: s =>
          if Ascii.eqb c newline then ([c], s, false)
          else let '(line, rest, eof) := fgets n s in (c :: line, rest, eof)
      end
  end.

(** [None] when [popen] fails. *)
Fixpoint exec_loop (fuel : nat) (pipe : str) (eof : bool) (acc : str) : result str :=
  if eof then Ok acc
  else match fuel with
       | O => Err OutOfFuel
       | S fuel =>
           let '(line, pipe, eof) := fgets 127 pipe in
           exec_loop fuel pipe eof (if bool_decide (line = []) then acc else acc ++ c_str line)
       end.
Definition exec (output : option str) : result str :=
  match output with
  | None => Err (Exit 1)
  | Some pipe => exec_loop (S (length pipe)) pipe false []
  end.

Lemma fgets_split n s line rest eof : fgets n s = (line, rest, eof) -> s = line ++ rest.
Proof.
  revert s line rest eof. induction n as [|n IH]; intros [|c s] line rest eof; cbn; try (by intros [= <- <- <-]).
  destruct (Ascii.eqb c newline); [by intros [= <- <- <-]|].
  destruct (fgets n s) as [[line' rest'] eof'] eqn:E. intros [= <- <- <-]. by rewrite (IH _ _ _ _ E).
Qed.
Lemma fgets_eof n s line rest : fgets n s = (line, rest, true) -> rest = [].
Proof.
  revert s line rest. induction n as [|n IH]; intros [|c s] line rest; cbn; try (by intros [= <- <-]).
  destruct (Ascii.eqb c newline); [done|].
  destruct (fgets n s) as [[line' rest'] eof'] eqn:E. intros [= <- <- ->]. by eapply IH.
Qed.
Lemma fgets_more n s line rest : fgets (S n) s = (line, rest, false) -> line <> [].
Proof.
  cbn. destruct s as [|c s]; [done|]. destruct (Ascii.eqb c newline); [by intros [= <- _]|].
  destruct (fgets n s) as [[line' rest'] eof']. by intros [= <- _ _].
Qed.

Lemma exec_loop_spec fuel : forall pipe acc, (length pipe < fuel)%nat -> NUL ∉ pipe ->
  exec_loop fuel pipe false acc = Ok (acc ++ pipe).
Proof.
  induction fuel as [|fuel IH]; intros pipe acc Hlen Hnul; [lia|]. cbn [exec_loop].
  destruct (fgets 127 pipe) as [[line rest] eof] eqn:E. pose proof (fgets_split _ _ _ _ _ E) as ->.
  apply not_elem_of_app in Hnul as [Hline Hrest]. rewrite (c_str_no_nul line Hline).
  assert ((if bool_decide (line = []) then acc else acc ++ line) = acc ++ line) as ->.
  { case_bool_decide; subst; by rewrite ?app_nil_r. }
  destruct eof.
  - apply fgets_eof in E as ->. by destruct fuel; cbn [exec_loop]; rewrite app_nil_r.
  - apply fgets_more in E. rewrite length_app in Hlen.
    rewrite IH; [|done|by rewrite app_assoc]. destruct line; [done|]. cbn in Hlen. lia.
Qed.

(** The loop ends, and the output is complete, if it is text. *)
Lemma exec_spec pipe : NUL ∉ pipe -> exec (Some pipe) = Ok pipe.
Proof. intros Hnul. unfold exec. rewrite exec_loop_spec; [lia|done|done]. Qed.

(** ** [readFileToString]

    A read gives bytes, none at the end of the file, or an error. *)
Inductive ReadResult : Type := ReadBytes (bytes : str) | ReadError (ec : Z).

Fixpoint read_loop `{BuildMode} (reads : list ReadResult) (out : str) : result (str * option Z) :=
  match reads with
  | [] => Err OutOfFuel
  | ReadBytes [] :: _ => Ok (out, None)
  | ReadError ec :: _ => Ok ([], Some ec)
  | ReadBytes bytes :: reads =>
      ENFORCE (1 <=? length bytes)%nat "nread >= 1" ;;
      read_loop reads (out ++ bytes)
  end.
(** [ec] is [None] if no error was reported. *)
Definition readFileToString `{BuildMode} (open_error : option Z) (reads : list ReadResult) : result (str * option Z) :=
  match open_error with
  | Some ec => Ok ([], Some ec)
  | None => read_loop reads []
  end.

Lemma read_loop_chunks `{BuildMode} chunks rest : Forall (fun c => c <> []) chunks -> forall out,
  read_loop (map ReadBytes chunks ++ rest) out = read_loop rest (out ++ concat chunks).
Proof.
  induction 1 as [|c chunks Hc _ IH]; intros out; cbn [map app concat]; [by rewrite app_nil_r|].
  destruct c as [|x c]; [done|]. cbn [read_loop length Nat.leb]. by rewrite ENFORCE_true bind_Ok IH app_assoc.
Qed.

(** However the bytes arrive, the result is the whole file, or empty and an error. *)
Lemma readFileToString_spec `{BuildMode} chunks rest : Forall (fun c => c <> []) chunks ->
  readFileToString None (map ReadBytes chunks ++ ReadBytes [] :: rest) = Ok (concat chunks, None)
  /\ forall ec, readFileToString None (map ReadBytes chunks ++ ReadError ec :: rest) = Ok ([], Some ec).
Proof. intros Hc. unfold readFileToString. split; [|intros ec]; by rewrite read_loop_chunks. Qed.

(** ** [getProgramName]

    [readlink] writes up to [PATH_MAX] bytes to a buffer of 512, and no NUL. *)
Definition PATH_MAX : nat := 4096.
Definition dest_size : nat := 512.
Definition getProgramName (exe : option str) : result str :=
  match exe with
  | None => Ok (lit "<error>")
  | Some path =>
      let written := take PATH_MAX path in
      if (length written <? dest_size)%nat then Ok (c_str (written ++ [NUL])) else Err OutOfRange
  end.

(** A path of 512 bytes or more does not fit: the string has no end, or the buffer
    overflows. *)
Lemma getProgramName_spec path : NUL ∉ path -> (length path <= PATH_MAX)%nat ->
  getProgramName (Some path) = if (length path <? dest_size)%nat then Ok path else Err OutOfRange.
Proof.
  intros Hnul Hlen. unfold getProgramName. rewrite take_ge //. case_match; [|done]. by rewrite c_str_app.
Qed.

(** ** [setCurrentThreadName]

    The name that [pthread_setname_np] gets. *)
Definition max_thread_name : nat := 16 - 1.
Definition truncatedName (name : str) : str := take max_thread_name name.

Lemma truncatedName_fits name : (length (truncatedName name) + 1 <= 16)%nat
  /\ truncatedName name `prefix_of` name /\ ((length name <= 15)%nat -> truncatedName name = name).
Proof.
  unfold truncatedName, max_thread_name. rewrite length_take. split_and!; [lia|apply prefix_take|apply take_ge].
Qed.

(** ** [amIBeingDebugged]

    In the text of /proc/self/status, the first character after [TracerPid:] that is no
    space decides.  The text that was read ends with a NUL, which is neither. *)
Definition is_space (c : ascii) : bool :=
  let n := N_of_ascii c in (9 <=? n)%N && (n <=? 13)%N || Ascii.eqb c " ".
Definition tracerPidString : str := lit "TracerPid:".

Fixpoint tracer_is_there (s : str) : bool :=
  match s with
  | [] => false
  | c :: s => if is_space c then tracer_is_there s else is_digit c && negb (Ascii.eqb c "0")
  end.

(** [None] when the file cannot be opened or read. *)
Definition amIBeingDebugged (status : option str) : bool :=
  match status with
  | None => false
  | Some content =>
      let buf := take (4096 - 1) content in
      if bool_decide (buf = []) then false
      else match find_str (c_str buf) tracerPidString 0 with
           | None => false
           | Some i => tracer_is_there (drop (i + length tracerPidString) buf)
           end
  end.

(** [stopInDebugger] stops exactly then. *)
Definition stopInDebugger (status : option str) : bool := amIBeingDebugged status.

(** The first digit is 0 only for the number 0. *)
Lemma decimal_fuel_head fuel : forall n, (N.log2 n < N.of_nat fuel)%N -> n <> 0%N ->
  exists c s, decimal_fuel fuel n = c :: s /\ is_digit c = true /\ c <> "0"%char.
Proof.
  induction fuel as [|fuel IH]; intros n Hf Hn; [lia|]. cbn [decimal_fuel].
  destruct (N.ltb_spec n 10) as [Hl|Hl].
  - exists (digit n), []. destruct (digit_facts n Hl) as [Hd Hv]. split_and!; [done..|]. intros E.
    rewrite E in Hv. by cbn in Hv.
  - destruct (IH (n / 10)%N) as (c & s & -> & Hd & Hc).
    + apply N.lt_le_trans with (N.log2 n); [|lia].
      assert (n / 10 <= n / 2)%N by (apply N.div_le_compat_l; lia).
      apply N.le_lt_trans with (N.log2 (n / 2)); [by apply N.log2_le_mono|].
      rewrite -N.div2_div N.div2_spec N.log2_shiftr. assert (0 < N.log2 n)%N by (apply N.log2_pos; lia). lia.
    + intros E. apply N.div_small_iff in E; lia.
    + by eexists c, _.
Qed.
Lemma fmt_uint_head z : exists c s, fmt_uint z = c :: s /\ is_digit c = true /\ (c = "0"%char <-> z <= 0).
Proof.
  unfold fmt_uint, decimal. destruct (decide (z <= 0)) as [Hz|Hz].
  - exists "0"%char, []. by replace (Z.to_N z) with 0%N by lia.
  - destruct (decimal_fuel_head (S (N.to_nat (N.log2 (Z.to_N z)))) (Z.to_N z)) as (c & s & E & Hd & Hc); [lia..|].
    exists c, s. split_and!; [done|done|]. split; [done|lia].
Qed.

(** [find] gives the first occurrence. *)
Lemma find_str_aux_first p b : p <> [] -> forall a i, str_contains (a ++ removelast p) p = false ->
  find_str_aux p (a ++ p ++ b) i = Some (i + length a)%nat.
Proof.
  intros Hp. induction a as [|x a IH]; intros i Hn.
  - cbn [app length]. rewrite Nat.add_0_r. destruct p as [|c p]; [done|]. cbn [app find_str_aux].
    change (c :: p ++ b) with ((c :: p) ++ b). by rewrite starts_with_app.
  - cbn [app find_str_aux length].
    assert (forall u v, x :: a ++ removelast p <> u ++ p ++ v) as Hno.
    { intros u v E. apply not_true_iff_false in Hn. apply Hn, str_contains_spec. by exists u, v. }
    destruct (starts_with p (x :: a ++ p ++ b)) eqn:E.
    + exfalso. apply starts_with_spec in E as [k E].
      destruct (exists_last Hp) as (r & z & Hpr). rewrite Hpr removelast_last in Hno.
      assert (length p = length r + 1)%nat as Hlen by (rewrite Hpr length_app; done).
      apply (Hno [] (drop (length p) (x :: a ++ r))). cbn [app]. rewrite -Hpr.
      rewrite -{1}(take_drop (length p) (x :: a ++ r)). f_equal.
      transitivity (take (length p) (p ++ k)); [|by rewrite take_app_length].
      assert (p ++ k = (x :: a ++ r) ++ z :: b) as ->.
      { rewrite -E Hpr. cbn. by rewrite -!app_assoc. }
      rewrite take_app_le; [cbn [length]; rewrite length_app; lia|done].
    + rewrite IH; [|f_equal; lia]. apply not_true_iff_false. intros (u & v & E')%str_contains_spec.
      apply (Hno (x :: u) v). cbn. by rewrite E'.
Qed.

(** [amIBeingDebugged] reads the status file right: if the first [TracerPid:] of the
    file is within its first 4095 bytes and is followed by a tab and the decimal number of
    a process, the answer is whether this number is not zero; and it is no for a file
    without such an entry, or that cannot be read. *)
Theorem amIBeingDebugged_spec before pid after :
  NUL ∉ before -> str_contains (before ++ lit "TracerPid") tracerPidString = false ->
  (length before + 12 <= 4095)%nat ->
  amIBeingDebugged (Some (before ++ tracerPidString ++ "009"%char :: fmt_uint pid ++ after)) = (0 <? pid)
  /\ amIBeingDebugged (Some before) = false /\ amIBeingDebugged None = false.
Proof.
  intros Hnul Hfirst Hlen. destruct (fmt_uint_head pid) as (c & s & -> & Hd & Hc). split_and!; [| |done].
  - unfold amIBeingDebugged. change (4096 - 1)%nat with 4095%nat.
    assert (length tracerPidString = 10%nat) as H10 by reflexivity.
    set (tail := take (4095 - (length before + 11)) ((c :: s) ++ after)).
    assert (take 4095 (before ++ tracerPidString ++ "009"%char :: (c :: s) ++ after)
            = before ++ tracerPidString ++ "009"%char :: tail) as ->.
    { rewrite take_app take_ge; [lia|]. f_equal. rewrite take_app take_ge; [lia|]. f_equal.
      destruct (4095 - length before - length tracerPidString)%nat as [|k] eqn:E; [lia|].
      cbn [take]. f_equal. unfold tail. f_equal. lia. }
    assert (exists tail', tail = c :: tail') as [tail' Htail].
    { unfold tail. destruct (4095 - (length before + 11))%nat eqn:E; [lia|]. by eexists. }
    rewrite bool_decide_false; [by destruct before|].
    assert (exists t, c_str (before ++ tracerPidString ++ "009"%char :: tail) = before ++ tracerPidString ++ t) as [t ->].
    { clearbody tail. clear -Hnul. induction before as [|x before IH]; [by eexists|]. apply not_elem_of_cons in Hnul as [Hx Hb].
      destruct (IH Hb) as [t Ht]. exists t. cbn [app c_str]. rewrite (proj2 (Ascii.eqb_neq x NUL)); [congruence|]. by rewrite Ht. }
    unfold find_str. rewrite drop_0 find_str_aux_first; [done|done|]. cbn [Nat.add].
    rewrite drop_app drop_ge; [lia|]. cbn [app]. replace (length before + length tracerPidString - length before)%nat
      with (length tracerPidString) by lia. rewrite drop_app_length Htail.
    cbn [tracer_is_there]. change (is_space "009"%char) with true. cbn [tracer_is_there].
    assert (is_space c = false) as ->.
    { clear -Hd. unfold is_space, is_digit, Ascii.leb in *. destruct c as [[] [] [] [] [] [] [] []]; by vm_compute in Hd. }
    rewrite Hd. cbn [andb]. destruct (Ascii.eqb_spec c "0"%char) as [->|Hne]; cbn [negb].
    + symmetry. apply Z.ltb_ge. by apply Hc.
    + symmetry. apply Z.ltb_lt. destruct (decide (pid <= 0)) as [Hp|Hp]; [by apply Hc in Hp|lia].
  - unfold amIBeingDebugged. case_bool_decide; [done|]. change (4096 - 1)%nat with 4095%nat. rewrite take_ge; [lia|].
    rewrite c_str_no_nul //.
    destruct (find_str before tracerPidString 0) as [i|] eqn:E; [|done]. exfalso.
    unfold find_str in E. rewrite drop_0 in E. apply find_str_aux_Some in E as (a & b & -> & _).
    apply not_true_iff_false in Hfirst. apply Hfirst, str_contains_spec.
    exists a, (b ++ lit "TracerPid"). by rewrite -!app_assoc.
Qed.

Lemma amIBeingDebugged_spec_witness :
  amIBeingDebugged (Some (lit "Name: gdb" ++ tracerPidString ++ "009"%char :: fmt_uint 4711 ++ [newline])) = true.
Proof.
  apply (amIBeingDebugged_spec (lit "Name: gdb") 4711 [newline]).
  - apply (bool_decide_unpack _). by vm_compute.
  - by vm_compute.
  - apply Nat.leb_le. by vm_compute.
Defined.
