(* ===== verification/Exceptions.v ===== *)
(** * Failed checks, backtraces and signals

    [Exception] (Exception.h/.cc), the handler of a failed [ENFORCE], the handler of fatal
    signals (Enforce.cc), [addr2line] (os/Linux.cc), and [Bomb] (RAII.h).  What is logged
    is the result; the symbolizers of absl and of the sanitizers, and the backtrace itself,
    are parameters. *)
From S2P Require Import Prelude CppString OsSupport.
From S2P Require Scheduler.
Import Scheduler(ConsumeOnce, ConsumeOnce_new, ConsumeOnce_destroy, isUnconsumed, getValueAndConsume,
  getValueNonConsuming).

(** ** Removing lines from a backtrace *)
Definition patterns : list str := [lit "typecase.h:"; lit "__functional_base:"; lit "functional:"].
Definition unnecessary (s : str) : bool := existsb (str_contains s) patterns.

(** [i] is the position from which the next newline is searched. *)
Fixpoint filter_loop (fuel : nat) (out : str) (i : nat) : result str :=
  if (i <? length out)%nat then
    match find_char out newline i with
    | None => Ok out
    | Some i =>
        match find_char out newline (i + 1) with
        | None => Ok out
        | Some j =>
            match fuel with
            | O => Err OutOfFuel
            | S fuel =>
                if unnecessary (substr_len out i (j - i))
                then filter_loop fuel (take i out ++ drop j out) i
                else filter_loop fuel out (i + 1)
            end
        end
    end
  else Ok out.
(** Every round removes a line or moves on. *)
Definition filter_unnecessary (out : str) : result str := filter_loop (length out) out 0.

(** The text of the lines after the first one. *)
Definition unlines (ls : list str) : str := concat (map (cons newline) ls).

Lemma find_newline (a : str) i b : (i <= length a)%nat -> newline ∉ drop i a ->
  find_char (a ++ newline :: b) newline i = Some (length a).
Proof.
  intros Hi Ha. unfold find_char. rewrite drop_app_le //. apply find_char_aux_Some.
  exists (drop i a), b. split_and!; [done..|]. rewrite length_drop. lia.
Qed.

(** A pattern is on the line itself, not on the newline before it. *)
Lemma contains_newline l p c p' : p = c :: p' -> c <> newline -> str_contains (newline :: l) p = str_contains l p.
Proof.
  intros -> Hc. apply eq_true_iff_eq. rewrite !str_contains_spec. split.
  - intros ([|x a] & b & E); [by injection E|]. injection E as <- ->. by exists a, b.
  - intros (a & b & ->). by exists (newline :: a), b.
Qed.
Lemma unnecessary_newline l : unnecessary (newline :: l) = unnecessary l.
Proof. unfold unnecessary, patterns. cbn [existsb]. by do 3 (erewrite contains_newline; [|reflexivity|done]). Qed.

(** The lines that stay: the last one always does. *)
Fixpoint tidy (ls : list str) : list str :=
  match ls with
  | [] | [_] => ls
  | l :: ls => if unnecessary l then tidy ls else l :: tidy ls
  end.

Lemma filter_loop_spec ls : forall fuel a i,
  (length ls <= fuel)%nat -> (i <= length a)%nat -> newline ∉ drop i a -> Forall (fun l => newline ∉ l) ls ->
  filter_loop fuel (a ++ unlines ls) i = Ok (a ++ unlines (tidy ls)).
Proof.
  induction ls as [|l ls IH]; intros fuel a i Hfuel Hi Ha Hls.
  - cbn [tidy]. change (unlines []) with (@nil ascii). rewrite app_nil_r.
    assert (find_char a newline i = None) as Hn by by apply find_char_aux_None.
    destruct fuel; cbn [filter_loop]; rewrite Hn; by case_match.
  - apply Forall_cons in Hls as [Hl Hls].
    change (unlines (l :: ls)) with (newline :: l ++ unlines ls).
    assert ((i <? length (a ++ newline :: l ++ unlines ls))%nat = true) as Hlt.
    { apply Nat.ltb_lt. rewrite length_app. cbn. lia. }
    assert (newline ∉ drop (length a + 1) (a ++ newline :: l)) as Hdrop by by rewrite drop_past.
    destruct ls as [|l2 ls].
    + assert (find_char (a ++ newline :: l) newline (length a + 1) = None) as Hn by by apply find_char_aux_None.
      change (tidy [l]) with [l]. change (unlines [l]) with (newline :: l ++ []). change (unlines []) with (@nil ascii) in *.
      rewrite app_nil_r in Hlt |- *. destruct fuel; cbn [filter_loop]; by rewrite Hlt find_newline // Hn.
    + destruct fuel as [|fuel]; [cbn in Hfuel; lia|]. cbn [filter_loop]. rewrite Hlt find_newline //.
      set (rest := unlines (l2 :: ls)).
      assert (find_char (a ++ newline :: l ++ rest) newline (length a + 1) = Some (length (a ++ newline :: l))) as ->.
      { change (a ++ newline :: l ++ rest) with (a ++ (newline :: l) ++ rest). rewrite app_assoc.
        apply find_newline; [rewrite length_app; cbn; lia|done]. }
      assert (substr_len (a ++ newline :: l ++ rest) (length a) (length (a ++ newline :: l) - length a) = newline :: l) as ->.
      { unfold substr_len. rewrite drop_app_length. change (newline :: l ++ rest) with ((newline :: l) ++ rest).
        rewrite length_app. replace (length a + length (newline :: l) - length a)%nat with (length (newline :: l)) by lia.
        apply take_app_length. }
      rewrite unnecessary_newline. change (tidy (l :: l2 :: ls)) with (if unnecessary l then tidy (l2 :: ls) else l :: tidy (l2 :: ls)).
      cbn [length] in Hfuel. destruct (unnecessary l).
      * change (newline :: l ++ rest) with ((newline :: l) ++ rest). rewrite app_assoc drop_app_length -app_assoc take_app_length.
        apply IH; [cbn; lia|lia| |done]. rewrite drop_ge; [lia|]. apply not_elem_of_nil.
      * change (a ++ newline :: l ++ rest) with (a ++ (newline :: l) ++ rest). rewrite app_assoc.
        rewrite (IH fuel); [cbn; lia|rewrite length_app; cbn; lia|done|done|]. by rewrite -app_assoc.
Qed.

Lemma length_unlines ls : (length ls <= length (unlines ls))%nat.
Proof. induction ls as [|l ls IH]; [done|]. unfold unlines in *. cbn. rewrite length_app. lia. Qed.

(** The loop ends, and removes the unnecessary lines that are neither first nor last. *)
Lemma filter_unnecessary_spec l0 ls : newline ∉ l0 -> Forall (fun l => newline ∉ l) ls ->
  filter_unnecessary (l0 ++ unlines ls) = Ok (l0 ++ unlines (tidy ls)).
Proof.
  intros H0 Hls. apply filter_loop_spec; [rewrite length_app; pose proof (length_unlines ls); lia|lia|done|done].
Qed.

Lemma tidy_snoc ls l : tidy (ls ++ [l]) = filter (fun l => unnecessary l = false) ls ++ [l].
Proof.
  induction ls as [|x ls IH]; [done|]. rewrite filter_cons. cbn [app].
  destruct (ls ++ [l]) as [|y ys] eqn:E; [by destruct ls|].
  change (tidy (x :: y :: ys)) with (if unnecessary x then tidy (y :: ys) else x :: tidy (y :: ys)). rewrite IH.
  destruct (unnecessary x); by case_decide.
Qed.

(** ** The text of a backtrace *)
Class Symbolizer : Type := {
  sanitizer_symbolize : Z -> str;   (* the C string that [__sanitizer_symbolize_pc] leaves in the buffer *)
  pointer_text : Z -> str;          (* [%p] *)
  absl_symbolize : Z -> option str  (* the C string that [absl::Symbolize] writes *)
}.

Section Backtrace.
Context `{SY : Symbolizer}.

(** The weak definition of the sanitizer's function answers with [<null>]. *)
Definition symbolize_pc (pc : Z) (outBufSize : nat) : str :=
  let outBuf := take (outBufSize - 1) (sanitizer_symbolize pc) in
  if str_contains outBuf (lit "<null>") then
    let text := pointer_text pc ++ lit " " in
    take (outBufSize - 1) text
      ++ take (outBufSize - length text - 1) (default [] (absl_symbolize pc))
  else outBuf.

Definition frame_line (i : nat) (pc : Z) : str :=
  lit "  #" ++ fmt_uint (Z.of_nat i) ++ lit " " ++ symbolize_pc pc 4096.

(** The first three frames are those of the handler itself. *)
Definition addr2line (addr : list Z) : str :=
  concat (map (fun p => frame_line p.1 p.2 ++ [newline]) (drop 3 (imap (fun i pc => (i, pc)) addr))).

(** [exe] is the target of the link that [getProgramName] reads. *)
Definition MAX_STACK_FRAMES : nat := 128.
Definition printBacktrace (exe : option str) (stack : list Z) : result str :=
  programName ← getProgramName exe;
  let stackTraces := take MAX_STACK_FRAMES stack in
  res ← filter_unnecessary (addr2line stackTraces);
  Ok (lit "Backtrace:" ++ [newline] ++ c_str res).

(** *** [Exception::raise]: what is logged, and the exit status *)
Definition raise (exceptionContext message : str) (exe : option str) (stack : list Z)
    : result (list str * failure) :=
  backtrace ← printBacktrace exe stack;
  Ok ([if bool_decide (message = []) then lit "Exception::raise() (no message)" ++ [newline]
       else lit "Exception::raise(): " ++ message ++ [newline]]
      ++ (if bool_decide (exceptionContext = []) then [] else [lit "Context: " ++ exceptionContext])
      ++ [backtrace], Exit 1).

Definition enforceHandler (exceptionContext check file : str) (line : Z) (message : str)
    : option str -> list Z -> result (list str * failure) :=
  raise exceptionContext
    (file ++ lit ":" ++ fmt_uint line ++ lit " enforced condition " ++ check ++ lit " has failed: " ++ message).
Definition notImplemented (exceptionContext : str) : option str -> list Z -> result (list str * failure) :=
  raise exceptionContext (lit "Not Implemented").

(** Text on one line. *)
Definition one_line (s : str) : Prop := newline ∉ s /\ NUL ∉ s.
Definition one_line_symbols (addr : list Z) : Prop := Forall (fun pc => one_line (symbolize_pc pc 4096)) addr.

Lemma frame_line_ok i pc : one_line (symbolize_pc pc 4096) -> one_line (frame_line i pc).
Proof.
  intros [Hl Hn]. unfold frame_line, one_line. rewrite !not_elem_of_app.
  split_and!; try done; try (apply (bool_decide_unpack _); by vm_compute).
  all: intros Hin; pose proof (fmt_uint_digits (Z.of_nat i)) as Hd; rewrite Forall_forall in Hd;
    specialize (Hd _ Hin); by vm_compute in Hd.
Qed.
Lemma unlines_no_nul ls : Forall one_line ls -> NUL ∉ unlines ls.
Proof.
  induction 1 as [|l ls [_ Hl] _ IH]; [apply not_elem_of_nil|]. change (unlines (l :: ls)) with (newline :: l ++ unlines ls).
  rewrite not_elem_of_cons not_elem_of_app. split_and!; [discriminate|done|done].
Qed.

Lemma concat_frames (fs : list str) f0 :
  concat (map (fun f => f ++ [newline]) (f0 :: fs)) = f0 ++ unlines (fs ++ [[]]).
Proof.
  revert f0. induction fs as [|f fs IH]; intros f0; cbn [map concat].
  - unfold unlines. cbn. by rewrite !app_nil_r.
  - cbn [map concat] in IH. rewrite IH -app_assoc. done.
Qed.

Definition frames (addr : list Z) : list str :=
  map (fun p => frame_line p.1 p.2) (drop 3 (imap (fun i pc => (i, pc)) addr)).

(** C39. The backtrace of a failed check: whatever the addresses, if the symbolizer gives
    one line for each of them, and the path of the program fits its buffer, printing ends,
    and shows, for every frame after the three of the handler and within the limit of 128,
    its number and symbol in the order of the calls; only frames of the standard library's
    function wrappers are left out, except for the first one. *)
Theorem backtrace_shows_frames exe stack :
  (length (default [] exe) < dest_size)%nat -> one_line_symbols (take MAX_STACK_FRAMES stack) ->
  printBacktrace exe stack = Ok (lit "Backtrace:" ++ [newline]
    ++ match frames (take MAX_STACK_FRAMES stack) with
       | [] => []
       | f0 :: fs => f0 ++ unlines (filter (fun f => unnecessary f = false) fs ++ [[]])
       end).
Proof.
  intros Hexe Hsym. unfold printBacktrace.
  assert (exists name, getProgramName exe = Ok name) as [name ->].
  { destruct exe as [path|]; [|by eexists]. unfold getProgramName. case_match eqn:E; [by eexists|].
    apply Nat.ltb_ge in E. rewrite length_take in E. cbn in Hexe. lia. }
  rewrite bind_Ok. set (addr := take MAX_STACK_FRAMES stack) in *. unfold addr2line.
  assert (Forall one_line (frames addr)) as Hf.
  { apply Forall_map, Forall_drop, Forall_forall. intros p (j & pc & -> & Hj)%elem_of_lookup_imap_1.
    cbn. apply frame_line_ok. rewrite /one_line_symbols Forall_lookup in Hsym. by eapply Hsym. }
  rewrite -(map_map (fun p => frame_line p.1 p.2) (fun f => f ++ [newline])). fold (frames addr).
  destruct (frames addr) as [|f0 fs]; [done|]. apply Forall_cons in Hf as [[H0 N0] Hfs].
  assert (Forall one_line [[]]) as Hnil by (apply Forall_singleton; split; apply not_elem_of_nil).
  rewrite concat_frames filter_unnecessary_spec; [done| |].
  - apply Forall_app. split; [|apply Forall_singleton, not_elem_of_nil]. eapply Forall_impl; [exact Hfs|]. by intros f [].
  - rewrite bind_Ok tidy_snoc c_str_no_nul //. rewrite not_elem_of_app. split; [done|].
    apply unlines_no_nul, Forall_app. split; [|done]. rewrite !Forall_forall in Hfs |- *. intros f [_ Hf]%list_elem_of_filter. by apply Hfs.
Qed.
End Backtrace.

(** ** Fatal signals *)

(** [absl::StrReplaceAll]. *)
Class AbslReplaceAll : Type := StrReplaceAll : str -> list (str * str) -> str.

(** [logSignalError]: what it logs, and whether the context has been printed. *)
Definition logSignalError `{AbslReplaceAll} (exceptionContext : str) (errorMessage : option str) (printedContext : bool)
    : list str * bool :=
  match errorMessage with
  | None => ([], printedContext)
  | Some message =>
      let message := if ends_with [newline] message then take (length message - 1) message else message in
      ((if printedContext then [] else [lit "Context: " ++ exceptionContext])
       ++ [StrReplaceAll message [(lit "@      ", lit "@"); (lit "  (unknown)", [])]], true)
  end.

Fixpoint log_signal_errors `{AbslReplaceAll} (exceptionContext : str) (messages : list (option str)) (printed : bool)
    : list str * bool :=
  match messages with
  | [] => ([], printed)
  | m :: messages =>
      let '(l1, printed) := logSignalError exceptionContext m printed in
      let '(l2, printed) := log_signal_errors exceptionContext messages printed in
      (l1 ++ l2, printed)
  end.

(** The context is printed once, before the first message. *)
Lemma log_signal_errors_spec `{AbslReplaceAll} context messages : exists texts,
  length texts = length (omap id messages)
  /\ (log_signal_errors context messages true).1 = texts
  /\ (log_signal_errors context messages false).1
     = match texts with [] => [] | _ => (lit "Context: " ++ context) :: texts end.
Proof.
  induction messages as [|[m|] messages (texts & Hl & Ht & Hf)]; [by exists []| |].
  - cbn. destruct (log_signal_errors context messages true) as [l p]. cbn in *. subst l.
    eexists (_ :: texts). cbn. by rewrite Hl.
  - cbn. destruct (log_signal_errors context messages true) as [l p], (log_signal_errors context messages false) as [l' p'].
    by exists texts.
Qed.

(** ** [Bomb]: a value that has to be defused before it is destroyed *)
Section Bomb.
Context `{BM : BuildMode}.

(** In release builds it is empty. *)
Record Bomb : Type := mkBomb { msg : ConsumeOnce str }.
Definition Bomb_new (unconsumedHint : str) : Bomb := mkBomb (ConsumeOnce_new unconsumedHint).
Definition defuse (this : Bomb) : result Bomb :=
  if debugMode then '(_, m) ← getValueAndConsume (msg this); Ok (mkBomb m) else Ok this.

(** What is logged; the destructor of [msg] runs when it is called, and once more at the
    end, as that of a member. *)
Definition Bomb_destroy (this : Bomb) : result (list str) :=
  if debugMode then
    log ← (if isUnconsumed (msg this) then hint ← getValueNonConsuming (msg this); Ok [lit "unconsumed message: " ++ hint]
           else Ok []);
    ConsumeOnce_destroy (msg this) ;;
    ConsumeOnce_destroy (msg this) ;;
    Ok log
  else Ok [].

(** Exactly the bombs that were not defused go off, in debug builds; defusing twice fails. *)
Lemma Bomb_spec hint :
  (bomb ← defuse (Bomb_new hint); Bomb_destroy bomb) = Ok []
  /\ Bomb_destroy (Bomb_new hint) = (if debugMode then Err (EnforceFailed "forgot to call getValueAndConsume") else Ok [])
  /\ (bomb ← defuse (Bomb_new hint); defuse bomb)
     = (if debugMode then Err (EnforceFailed "trying to consume worker guard twice") else Ok (Bomb_new hint)).
Proof. unfold defuse, Bomb_destroy, ConsumeOnce_destroy, getValueAndConsume, getValueNonConsuming, ENFORCE, ENFORCE_NO_TIMER. by destruct debugMode. Qed.
End Bomb.

(** A frame of a function wrapper is left out. *)
Definition demo_symbolizer : Symbolizer := {|
  sanitizer_symbolize pc := if bool_decide (pc = 4) then lit "<null>" else lit "f in functional:3";
  pointer_text _ := lit "0x4"; absl_symbolize _ := Some (lit "main") |}.

Lemma backtrace_shows_frames_witness :
  @printBacktrace demo_symbolizer (Some (lit "/p/scip-clang")) [0; 1; 2; 3; 5; 4]
  = Ok (lit "Backtrace:" ++ [newline] ++ lit "  #3 f in functional:3" ++ [newline] ++ lit "  #5 0x4 main" ++ [newline]).
Proof.
  rewrite (@backtrace_shows_frames demo_symbolizer (Some (lit "/p/scip-clang")) [0; 1; 2; 3; 5; 4]).
  - apply Nat.ltb_lt. vm_compute. reflexivity.
  - repeat (apply Forall_cons; split; [split; apply (bool_decide_unpack _); vm_compute; exact I|]). by apply Forall_nil.
  - vm_compute. reflexivity.
Defined.
