(* ===== verification/Reporting.v ===== *)
(** * Timers and progress reports

    [Timer] and [ManualTimer] (Timer.h/.cc), [LogTimerRAII] (Logging.h/.cc) and
    [ProgressReporter] (ProgressReporter.h/.cc).  Clocks are parameters; what is printed
    is the result.  Progress reports repaint one line of a terminal, of which there is a
    small model. *)
From S2P Require Import Prelude CppString.

(** ** [Timer] *)
Abbreviation Microseconds := Z (only parsing).

(** From the resolution of the clock, [tv_sec] and [tv_nsec]. *)
Definition getClockThresholdCoarse (tv_sec tv_nsec : Z) : Microseconds :=
  let micros := 2 * (tv_sec * 1000000) + Z.quot tv_nsec 1000 in
  if micros <? 1000 then 1000 else micros.
Definition getCurrentInstantCoarse (tv_sec tv_nsec : Z) : Microseconds :=
  tv_sec * 1000000 + Z.quot tv_nsec 1000.

Record Timer : Type := mkTimer { timer_name : str; timer_start : Microseconds; canceled : bool }.
Definition Timer_new (name : str) (now : Microseconds) : Timer := mkTimer name now false.
(** The new timer and what is left of [other]. *)
Definition Timer_move (other : Timer) : Timer * Timer :=
  (mkTimer (timer_name other) (timer_start other) (canceled other),
   mkTimer (timer_name other) (timer_start other) true).

Inductive TimerEvent : Type :=
| TimingAdd (name : str) (start now : Microseconds)
| ExceedsOneWeek (name : str) (duration : Microseconds).
#[export] Instance TimerEvent_eq_dec : EqDecision TimerEvent.
Proof. solve_decision. Defined.

Definition oneWeek : Microseconds := 24 * 60 * 60 * 1000 * 1000.

(** The destructor. *)
Definition Timer_destroy (clockThresholdCoarse now : Microseconds) (this : Timer) : list TimerEvent :=
  let duration := now - timer_start this in
  if negb (canceled this) && (clockThresholdCoarse <? duration) then
    TimingAdd (timer_name this) (timer_start this) now
    :: (if oneWeek <? duration then [ExceedsOneWeek (timer_name this) duration] else [])
  else [].

(** The timer that was moved [n] times, and the timers that were moved from. *)
Fixpoint Timer_moves (n : nat) (t : Timer) : Timer * list Timer :=
  match n with
  | O => (t, [])
  | S n => let '(t, old) := Timer_move t in let '(t, olds) := Timer_moves n t in (t, old :: olds)
  end.

(** However often a timer is moved, only its last owner reports; each of the others may be
    destroyed at any time. *)
Lemma Timer_reports_once threshold now n : forall t nows,
  Timer_destroy threshold now (Timer_moves n t).1 = Timer_destroy threshold now t
  /\ concat (zip_with (Timer_destroy threshold) nows (Timer_moves n t).2) = [].
Proof.
  induction n as [|n IH]; intros [name start c] nows; cbn; [by destruct nows|].
  destruct (Timer_moves n (mkTimer name start c)) as [t' olds] eqn:E. cbn.
  pose proof (IH (mkTimer name start c) (tail nows)) as [H1 H2]. rewrite E in H1, H2. cbn in H1, H2.
  split; [done|]. destruct nows as [|m nows]; [done|]. exact H2.
Qed.

(** What is called one week is one day. *)
Example one_week_is_one_day : oneWeek = 86400 * 1000000 /\ 7 * oneWeek = 604800 * 1000000.
Proof. by split. Qed.
Example timer_of_two_days :
  Timer_destroy 1000 (2 * 86400 * 1000000) (Timer_new (lit "t") 0)
  = [TimingAdd (lit "t") 0 172800000000; ExceedsOneWeek (lit "t") 172800000000].
Proof. by vm_compute. Qed.

(** ** [ManualTimer] *)
Record ManualTimer : Type := mkManualTimer { startInstant : Z; duration : Z }.
Definition ManualTimer_new : ManualTimer := mkManualTimer 0 0.
Definition ManualTimer_start (now : Z) (this : ManualTimer) : ManualTimer := mkManualTimer now (duration this).
Definition ManualTimer_stop (now : Z) (this : ManualTimer) : ManualTimer :=
  mkManualTimer (startInstant this) (now - startInstant this).
(** [TIME_IT]: the operation takes from [start] to [stop]. *)
Definition TIME_IT {A S} (start stop : Z) (op : S -> A * S) (this : ManualTimer) (s : S) : A * S * ManualTimer :=
  let this := ManualTimer_start start this in
  let '(a, s) := op s in
  (a, s, ManualTimer_stop stop this).

Lemma TIME_IT_spec {A S} start stop (op : S -> A * S) t s :
  (TIME_IT start stop op t s).1 = op s /\ duration (TIME_IT start stop op t s).2 = stop - start.
Proof. unfold TIME_IT. by destruct (op s). Qed.

(** [LogTimerRAII]: the milliseconds that its destructor reports. *)
Definition LogTimer_millis (start_nanos end_nanos : Z) : Z := Z.quot (end_nanos - start_nanos) 1000000.

(** ** [ProgressReporter] *)

(** [size_t(std::log10(double(n)))]. *)
Class Log10 : Type := log10_trunc : Z -> Z.
Class Log10Laws `{Log10} : Prop := {
  log10_bounds z : 0 < z < 2 ^ 32 -> 0 <= log10_trunc z /\ 10 ^ log10_trunc z <= z < 10 ^ (log10_trunc z + 1)
}.

Record ProgressReporter : Type := mkProgressReporter {
  message : str;
  totalCount : Z;
  countWidth : Z;
  active : bool;
  isTty : bool
}.

(** [tty] is whether /dev/stdout is a character device. *)
Definition ProgressReporter_new `{Log10} (active : bool) (msg : str) (totalCount : Z) (tty : bool) : ProgressReporter :=
  mkProgressReporter msg totalCount (if totalCount =? 0 then 1 else log10_trunc totalCount + 1) active tty.

(** [{:>w}], [{:<w}] and [{:\b<w}] of fmt, which counts columns: one for every byte of
    ASCII texts, as in the model of a line below. *)
Definition pad_left (w : nat) (s : str) : str := replicate (w - length s) " "%char ++ s.
Definition pad_right (w : nat) (s : str) : str := s ++ replicate (w - length s) " "%char.
Definition backspace : ascii := "008"%char.
Definition carriage_return : ascii := "013"%char.
Definition maxExtraWidth : nat := 256.

Definition report_head (this : ProgressReporter) (count : Z) : str :=
  let w := Z.to_nat (countWidth this) in
  lit "[" ++ pad_left w (fmt_uint count) ++ lit "/" ++ pad_left w (fmt_uint (totalCount this)) ++ lit "] "
  ++ message this ++ lit " ".

Definition report (this : ProgressReporter) (count : Z) (extraData : str) : str :=
  if negb (active this) then []
  else
    let backspaceCount := (maxExtraWidth - length extraData)%nat in
    if isTty this then
      [carriage_return] ++ report_head this count ++ pad_right maxExtraWidth extraData
      ++ replicate backspaceCount backspace
    else report_head this count ++ extraData ++ ["010"%char].

Definition ProgressReporter_destroy (this : ProgressReporter) : str :=
  if active this && isTty this then ["010"%char] else [].

(** ** A line of a terminal *)
Record Line : Type := mkLine { cells : str; cursor : nat }.
Definition blank : Line := mkLine [] 0.

Definition put (l : Line) (c : ascii) : Line :=
  if Ascii.eqb c carriage_return then mkLine (cells l) 0
  else if Ascii.eqb c backspace then mkLine (cells l) (cursor l - 1)
  else mkLine (take (cursor l) (cells l) ++ c :: drop (cursor l + 1) (cells l)) (cursor l + 1).
Definition show (l : Line) (text : str) : Line := foldl put l text.

Definition printable (s : str) : Prop := carriage_return ∉ s /\ backspace ∉ s.

Lemma show_app l s t : show l (s ++ t) = show (show l s) t.
Proof. apply foldl_app. Qed.

Lemma put_printable c a b : c <> carriage_return -> c <> backspace ->
  put (mkLine (a ++ b) (length a)) c = mkLine ((a ++ [c]) ++ drop 1 b) (length (a ++ [c])).
Proof.
  intros Hr Hb. unfold put. rewrite !(proj2 (Ascii.eqb_neq _ _)) //. cbn [cells cursor].
  rewrite take_app_length drop_app drop_ge; [lia|]. replace (length a + 1 - length a)%nat with 1%nat by lia.
  by rewrite length_app -app_assoc.
Qed.

Lemma show_printable s : printable s -> forall a b,
  show (mkLine (a ++ b) (length a)) s = mkLine (a ++ s ++ drop (length s) b) (length (a ++ s)).
Proof.
  induction s as [|c s IH]; intros [Hr Hb] a b.
  - cbn. by rewrite app_nil_r drop_0.
  - apply not_elem_of_cons in Hr as [Hcr Hr]. apply not_elem_of_cons in Hb as [Hcb Hb]. 
    change (show ?l (c :: s)) with (show (put l c) s). rewrite put_printable //.
    rewrite IH; [done|]. by rewrite -!app_assoc drop_drop.
Qed.

Lemma show_backspaces n : forall l, show l (replicate n backspace) = mkLine (cells l) (cursor l - n).
Proof.
  induction n as [|n IH]; intros [cs k]; [by cbn; rewrite Nat.sub_0_r|].
  change (show ?l (replicate (S n) backspace)) with (show (mkLine cs (k - 1)) (replicate n backspace)).
  rewrite IH. cbn. f_equal. lia.
Qed.

Lemma printable_app s t : printable (s ++ t) <-> printable s /\ printable t.
Proof. unfold printable. rewrite !not_elem_of_app. tauto. Qed.
Lemma printable_spaces n : printable (replicate n " "%char).
Proof. split; intros [Hc _]%elem_of_replicate; discriminate Hc. Qed.
Lemma printable_fmt_uint z : printable (fmt_uint z).
Proof. pose proof (fmt_uint_digits z) as H. rewrite Forall_forall in H. split; intros Hc%H; discriminate Hc. Qed.

Lemma report_head_printable this count : printable (message this) -> printable (report_head this count).
Proof.
  intros Hm. unfold report_head, pad_left. rewrite !printable_app.
  split_and!; try apply printable_spaces; try apply printable_fmt_uint; try done.
  all: split; apply (bool_decide_unpack _); by vm_compute.
Qed.

(** ** Repainting *)

Lemma decimal_fuel_length fuel : forall n k, (n < 10 ^ N.of_nat (S k))%N -> (length (decimal_fuel fuel n) <= S k)%nat.
Proof.
  induction fuel as [|fuel IH]; intros n k Hn; cbn [decimal_fuel]; [cbn; lia|].
  destruct (N.ltb_spec n 10) as [Hl|Hl]; [cbn; lia|]. rewrite length_app. cbn [length].
  destruct k as [|k]; [cbn in Hn; lia|].
  assert (length (decimal_fuel fuel (n / 10)) <= S k)%nat; [|lia]. apply IH.
  apply N.Div0.div_lt_upper_bound. replace (10 * 10 ^ N.of_nat (S k))%N with (10 ^ N.of_nat (S (S k)))%N; [done|].
  rewrite (Nat2N.inj_succ (S k)) N.pow_succ_r; lia.
Qed.
Lemma fmt_uint_length z k : 0 <= z < 10 ^ (k + 1) -> 0 <= k -> (length (fmt_uint z) <= Z.to_nat (k + 1))%nat.
Proof.
  intros [Hz Hlt] Hk. unfold fmt_uint, decimal. replace (Z.to_nat (k + 1)) with (S (Z.to_nat k)) by lia.
  apply decimal_fuel_length. apply N2Z.inj_lt. rewrite N2Z.inj_pow Z2N.id // Nat2N.inj_succ N2Z.inj_succ nat_N_Z Z2Nat.id //.
Qed.

(** Counts that are at most the total are as wide as the total, so that all reports have
    the same width. *)
Section Repaint.
Context `{LG : Log10, LGL : !Log10Laws}.
Variables (msg : str) (total : Z).
Hypothesis total_ok : 0 <= total < 2 ^ 32.
Hypothesis msg_ok : printable msg.
Let this := ProgressReporter_new true msg total true.

Lemma count_fits count : 0 <= count <= total -> (length (fmt_uint count) <= Z.to_nat (countWidth this))%nat.
Proof.
  intros [Hc0 Hc]. cbn. destruct (Z.eqb_spec total 0) as [->|Hne].
  - by replace count with 0 by lia.
  - destruct (log10_bounds total ltac:(lia)) as (Hl & _ & Hub). apply fmt_uint_length; lia.
Qed.

Definition head_width : nat := (2 * Z.to_nat (countWidth this) + length msg + 5)%nat.
Lemma report_head_width count : 0 <= count <= total -> length (report_head this count) = head_width.
Proof.
  intros Hc. pose proof (count_fits count Hc). pose proof (count_fits total ltac:(lia)).
  unfold report_head, pad_left, head_width. rewrite !length_app !length_replicate. cbn [totalCount message length this ProgressReporter_new].
  change (length (lit "[")) with 1%nat. change (length (lit "/")) with 1%nat. change (length (lit "] ")) with 2%nat.
  change (length (lit " ")) with 1%nat. lia.
Qed.

Definition report_ok (r : Z * str) : Prop :=
  0 <= r.1 <= total /\ printable r.2 /\ (length r.2 <= maxExtraWidth)%nat.
Definition painted (r : Z * str) : Line :=
  mkLine (report_head this r.1 ++ pad_right maxExtraWidth r.2) (length (report_head this r.1 ++ r.2)).
Definition line_width : nat := (head_width + maxExtraWidth)%nat.

Lemma painted_width r : report_ok r -> length (cells (painted r)) = line_width.
Proof.
  intros (Hc & _ & He). unfold painted, pad_right, line_width. cbn [cells].
  rewrite length_app report_head_width // length_app length_replicate. lia.
Qed.

(** Whatever was on the line is overwritten. *)
Lemma report_paints l r : report_ok r -> (length (cells l) <= line_width)%nat ->
  show l (report this r.1 r.2) = painted r.
Proof.
  intros Hr Hl. pose proof (painted_width r Hr) as Hw. destruct Hr as (Hc & Hp & He).
  unfold report. cbn [active isTty negb this ProgressReporter_new]. fold this.
  set (text := report_head this r.1 ++ pad_right maxExtraWidth r.2).
  rewrite (app_assoc (report_head this r.1)) -/text (show_app _ [carriage_return]) (show_app _ text).
  change (show l [carriage_return]) with (mkLine ([] ++ cells l) (length (@nil ascii))).
  rewrite show_printable; [|cbn [app]; rewrite drop_ge].
  - apply printable_app. split; [by apply report_head_printable|]. apply printable_app. split; [done|apply printable_spaces].
  - by change (length text) with (length (cells (painted r))); rewrite Hw.
  - rewrite show_backspaces. unfold painted, text. cbn [cells cursor]. f_equal; [by rewrite app_nil_r|].
    unfold pad_right. rewrite (length_app (report_head _ _)) length_app length_replicate (length_app (report_head _ _)). lia.
Qed.

Lemma reports_width reports : Forall report_ok reports -> forall l, (length (cells l) <= line_width)%nat ->
  (length (cells (show l (concat (map (fun r => report this r.1 r.2) reports)))) <= line_width)%nat.
Proof.
  induction 1 as [|r reports Hr _ IH]; intros l Hl; [done|]. cbn [map concat]. rewrite show_app report_paints //.
  apply IH. by rewrite painted_width.
Qed.
End Repaint.


Definition demo_log10 : Log10 := fun z =>
  if z <? 10 then 0 else if z <? 100 then 1 else if z <? 1000 then 2 else if z <? 10000 then 3
  else if z <? 100000 then 4 else if z <? 1000000 then 5 else if z <? 10000000 then 6
  else if z <? 100000000 then 7 else if z <? 1000000000 then 8 else 9.
Lemma demo_log10_laws : @Log10Laws demo_log10.
Proof. split. intros z Hz. unfold log10_trunc, demo_log10. repeat case_match; lia. Qed.

