(* ===== verification/DebugHelpers.v ===== *)
(** * Debug texts

    [DebugHelpers.cc], and the debug texts of ranges (Indexer.cc), of the include stack
    (Preprocessing.cc) and of job ids (IpcMessages.h).  What Clang prints itself (locations
    in macros, declarations, types) is a parameter; its enumerations have the cases that
    the source lists. *)
From S2P Require Import Prelude CppString Clang Formatter TuAst Preprocessor Ipc.

Definition toString (reason : FileChangeReason) : str :=
  match reason with
  | EnterFile => lit "EnterFile"
  | ExitFile => lit "ExitFile"
  | RenameFile => lit "RenameFile"
  | SystemHeaderPragma => lit "SystemHeaderPragma"
  end.

(** [0x{:16x}]: at least 16 columns, filled with spaces. *)
Definition formatPtr (ptr : Z) : str :=
  lit "0x" ++ replicate (16 - length (fmt_hex ptr)) " "%char ++ fmt_hex ptr.

(** ** Locations and ranges *)
Class ClangPrinting `{ClangSourceManager} : Type := {
  printToString : SourceLocation -> str;
  (** [getFilename] gives pointers, and pointers are compared. *)
  same_filename_pointer : PresumedLoc -> PresumedLoc -> bool
}.
(** One pointer has one text, and is equal to itself. *)
Class ClangPrintingLaws `{ClangPrinting} : Prop := {
  same_filename_text p q : same_filename_pointer p q = true -> pl_getFilename p = pl_getFilename q;
  printToString_nonempty l : printToString l <> []
}.

Section Locations.
Context `{CP : ClangPrinting}.

Definition loc_isMacroID (loc : SourceLocation) : bool := negb (loc_isFileID loc).
Definition colon : str := lit ":".
Definition line_column (p : PresumedLoc) : str := fmt_uint (pl_getLine p) ++ colon ++ fmt_uint (pl_getColumn p).
Definition file_line_column (p : PresumedLoc) : str := pl_getFilename p ++ colon ++ line_column p.

Definition formatLoc (loc : SourceLocation) : str :=
  if negb (loc_isValid loc) then lit "<invalid loc>"
  else if loc_isFileID loc then
    let presumedLoc := getPresumedLoc loc true in
    if negb (pl_isValid presumedLoc) then lit "<invalid presumedLoc>"
    else file_line_column presumedLoc ++ lit " (FileID)"
  else
    let expansionLoc := getExpansionLoc loc in
    printToString expansionLoc ++ lit " (MacroID; spellingLoc = " ++ printToString (getSpellingLoc loc) ++ lit ")"
    ++ (if bool_decide (expansionLoc = loc) then [] else lit " (note: loc != expansionLoc)").

(** The local function of [formatRange]; the empty text is none. *)
Definition formatFileIdRange (loc1 loc2 : SourceLocation) : str :=
  if loc_isFileID loc1 && loc_isFileID loc2 then
    if loc_isValid loc1 && loc_isValid loc2 then
      let pLoc1 := getPresumedLoc loc1 true in
      let pLoc2 := getPresumedLoc loc2 true in
      if pl_isValid pLoc1 && pl_isValid pLoc2 then
        if same_filename_pointer pLoc1 pLoc2 then
          if pl_getLine pLoc1 =? pl_getLine pLoc2 then
            pl_getFilename pLoc1 ++ colon ++ fmt_uint (pl_getLine pLoc1) ++ lit ":["
            ++ fmt_uint (pl_getColumn pLoc1) ++ lit "-" ++ fmt_uint (pl_getColumn pLoc2) ++ lit "]"
          else pl_getFilename pLoc1 ++ lit ":[" ++ line_column pLoc1 ++ lit "-" ++ line_column pLoc2 ++ lit "]"
        else lit "[" ++ file_line_column pLoc1 ++ lit "]-[" ++ file_line_column pLoc2 ++ lit "]"
      else if negb (pl_isValid pLoc1) && negb (pl_isValid pLoc2) then lit "<invalid-plocs>"
      else []
    else if negb (loc_isValid loc1) && negb (loc_isValid loc2) then lit "<invalid-locs>"
    else []
  else [].

Definition macro_range (loc1 loc2 : SourceLocation) : option str :=
  let expLoc1 := getExpansionLoc loc1 in
  let expLoc2 := getExpansionLoc loc2 in
  let expansionRangeStr := formatFileIdRange expLoc1 expLoc2 in
  if bool_decide (expansionRangeStr = []) then None
  else
    let spellingRangeStr := formatFileIdRange (getSpellingLoc loc1) (getSpellingLoc loc2) in
    if bool_decide (spellingRangeStr = []) then None
    else Some (expansionRangeStr ++ lit " (MacroID; spellingRange = " ++ spellingRangeStr ++ lit ")"
               ++ (if bool_decide (expLoc1 = loc1) then [] else lit " (note: loc1 != expansionLoc1)")
               ++ (if bool_decide (expLoc2 = loc2) then [] else lit " (note: loc2 != expansionLoc2)")).

(** "Fallback to something that always works." *)
Definition range_fallback (loc1 loc2 : SourceLocation) : str :=
  lit "[" ++ formatLoc loc1 ++ lit "]-[" ++ formatLoc loc2 ++ lit "]".

Definition formatRange (loc1 loc2 : SourceLocation) : str :=
  if negb (loc_isValid loc1) && negb (loc_isValid loc2) then lit "<invalid-range>"
  else
    let rangeStr := formatFileIdRange loc1 loc2 in
    if negb (bool_decide (rangeStr = [])) then rangeStr ++ lit " (FileID)"
    else if loc_isMacroID loc1 && loc_isMacroID loc2 && (loc_isValid loc1 && loc_isValid loc2) then
      default (range_fallback loc1 loc2) (macro_range loc1 loc2)
    else range_fallback loc1 loc2.
Definition formatSourceRange (range : SourceRange) : str := formatRange (getBegin range) (getEnd range).

(** Two locations in files whose presumed locations are valid. *)
Definition in_files (loc1 loc2 : SourceLocation) : Prop :=
  loc_isFileID loc1 = true /\ loc_isFileID loc2 = true /\ loc_isValid loc1 = true /\ loc_isValid loc2 = true
  /\ pl_isValid (getPresumedLoc loc1 true) = true /\ pl_isValid (getPresumedLoc loc2 true) = true.

Lemma formatFileIdRange_files loc1 loc2 : in_files loc1 loc2 -> formatFileIdRange loc1 loc2 <> [].
Proof.
  intros (F1 & F2 & V1 & V2 & P1 & P2). unfold formatFileIdRange. rewrite F1 F2 V1 V2 P1 P2. cbn [andb].
  repeat case_match; intros E; apply (f_equal length) in E; rewrite !length_app in E;
    change (length (lit ":[")) with 2%nat in E; change (length (lit "]-[")) with 3%nat in E; cbn in E; lia.
Qed.
(** A range in files never needs the fallback, and names the file of its beginning. *)
Lemma formatRange_files loc1 loc2 : in_files loc1 loc2 ->
  formatRange loc1 loc2 = formatFileIdRange loc1 loc2 ++ lit " (FileID)".
Proof.
  intros Hin. pose proof (formatFileIdRange_files _ _ Hin) as Hne. destruct Hin as (_ & _ & V1 & V2 & _).
  unfold formatRange. rewrite V1 V2. cbn [negb andb]. by rewrite bool_decide_false.
Qed.

Lemma formatLoc_nonempty `{!ClangPrintingLaws} loc : formatLoc loc <> [].
Proof.
  unfold formatLoc. repeat case_match; try (by vm_compute).
  all: intros E; apply app_eq_nil in E as [E1 E2]; try done.
  all: by apply printToString_nonempty in E1.
Qed.
(** There is a text for every range. *)
Lemma formatRange_nonempty loc1 loc2 : formatRange loc1 loc2 <> [].
Proof.
  assert (range_fallback loc1 loc2 <> []) as Hf by by vm_compute.
  unfold formatRange. destruct (negb (loc_isValid loc1) && negb (loc_isValid loc2)); [by vm_compute|].
  destruct (negb (bool_decide (formatFileIdRange loc1 loc2 = []))).
  { intros E. by apply app_eq_nil in E as [_ E]. }
  destruct (loc_isMacroID loc1 && _ && _); [|exact Hf].
  destruct (macro_range loc1 loc2) as [s|] eqn:Em; [|exact Hf]. cbn [default from_option].
  unfold macro_range in Em. do 2 (destruct (bool_decide _); [done|]). injection Em as <-.
  intros E. by apply app_eq_nil in E as [_ E].
Qed.

(** Locations on one line of a file: the text shows all three numbers. *)
Lemma formatRange_one_line loc1 loc2 : in_files loc1 loc2 ->
  same_filename_pointer (getPresumedLoc loc1 true) (getPresumedLoc loc2 true) = true ->
  pl_getLine (getPresumedLoc loc1 true) = pl_getLine (getPresumedLoc loc2 true) ->
  formatRange loc1 loc2 = pl_getFilename (getPresumedLoc loc1 true) ++ colon
    ++ fmt_uint (pl_getLine (getPresumedLoc loc1 true)) ++ lit ":["
    ++ fmt_uint (pl_getColumn (getPresumedLoc loc1 true)) ++ lit "-"
    ++ fmt_uint (pl_getColumn (getPresumedLoc loc2 true)) ++ lit "] (FileID)".
Proof.
  intros Hin Hs Hl. rewrite formatRange_files //. destruct Hin as (F1 & F2 & V1 & V2 & P1 & P2).
  unfold formatFileIdRange. rewrite F1 F2 V1 V2 P1 P2 Hs. cbn [andb]. rewrite (proj2 (Z.eqb_eq _ _) Hl).
  rewrite -!app_assoc. done.
Qed.
End Locations.

Definition FileLocalSourceRange_debugToString (this : FileLocalSourceRange) : str :=
  fmt_uint (startLine this) ++ colon ++ fmt_uint (startColumn this) ++ lit "-"
  ++ fmt_uint (endLine this) ++ colon ++ fmt_uint (endColumn this).

(** ** The include stack

    The innermost file comes first.  The code's vector ends with the top of the stack, with
    which the list of the model begins. *)
Section Stack.
Context `{SM : ClangSourceManager}.

Definition stack_entry (optBuilder : option HeaderInfoBuilder) : str :=
  match optBuilder with
  | Some builder => tryGetPath (hib_fileId builder)
  | None => lit "<invalid>"
  end.
Fixpoint stack_debug_loop (state : list (option HeaderInfoBuilder)) (i n : nat) : str :=
  match n with
  | O => []
  | S n =>
      let j := (length state - i - 1)%nat in
      match state !! j with
      | Some entry => stack_entry entry
      | None => []   (* j < size *)
      end ++ (if (j =? 0)%nat then [] else lit ", ") ++ stack_debug_loop state (S i) n
  end.
Definition stack_debugToString (this : list (option HeaderInfoBuilder)) : str :=
  let state := reverse this in
  lit "[" ++ fmt_uint (Z.of_nat (length state)) ++ lit "]{" ++ stack_debug_loop state 0 (length state) ++ lit "}".

(** The entries from the top, with commas between them. *)
Fixpoint join (ls : list str) : str :=
  match ls with
  | [] => []
  | [l] => l
  | l :: ls => l ++ lit ", " ++ join ls
  end.

Lemma stack_debug_loop_spec rest : forall pre,
  stack_debug_loop (reverse (pre ++ rest)) (length pre) (length rest) = join (map stack_entry rest).
Proof.
  induction rest as [|x rest IH]; intros pre; [done|]. cbn [length stack_debug_loop].
  rewrite length_reverse length_app. cbn [length].
  replace (length pre + S (length rest) - length pre - 1)%nat with (length rest) by lia.
  assert (reverse (pre ++ x :: rest) !! length rest = Some x) as ->.
  { rewrite reverse_app reverse_cons -app_assoc lookup_app_r; [by rewrite length_reverse|].
    by rewrite length_reverse Nat.sub_diag. }
  specialize (IH (pre ++ [x])). rewrite length_app Nat.add_1_r -app_assoc in IH. cbn [app] in IH. rewrite IH.
  destruct rest as [|y rest]; cbn [length Nat.eqb map]; [by rewrite !app_nil_r|done].
Qed.
Lemma stack_debugToString_spec this :
  stack_debugToString this
  = lit "[" ++ fmt_uint (Z.of_nat (length this)) ++ lit "]{" ++ join (map stack_entry this) ++ lit "}".
Proof.
  unfold stack_debugToString. rewrite length_reverse. pose proof (stack_debug_loop_spec this []) as E.
  cbn [app length] in E. by rewrite E.
Qed.
End Stack.

(** ** Job ids *)
Definition format_JobId (jobId : JobId) : str :=
  lit "(compdb index: " ++ fmt_uint (taskId jobId) ++ lit ", subtask: "
  ++ (if subtaskId jobId =? 0 then lit "semantic analysis" else lit "emit index") ++ lit ")".

(** ** Declarations, types and kinds *)
Class DeclPrinting : Type := {
  printed_decl : Type;
  printed_type : Type;
  decl_isNamed : printed_decl -> bool;
  printQualifiedName : printed_decl -> str;
  decl_print : printed_decl -> str;
  type_dump : printed_type -> str
}.
Definition formatDecl `{DeclPrinting} (decl : option printed_decl) : str :=
  match decl with
  | None => lit "<null>"
  | Some decl => if decl_isNamed decl then printQualifiedName decl else decl_print decl
  end.
(** [None] is the null type. *)
Definition formatTypeInternals `{DeclPrinting} (qualType : option printed_type) : str :=
  match qualType with None => lit "<null>" | Some t => type_dump t end.

Module NestedNameSpecifier.
Inductive SpecifierKind : Type := Identifier | Namespace | NamespaceAlias | TypeSpec | Global | Super.
Definition formatKind (kind : SpecifierKind) : str :=
  match kind with
  | Identifier => lit "Identifier" | Namespace => lit "Namespace" | NamespaceAlias => lit "NamespaceAlias"
  | TypeSpec => lit "TypeSpec" | Global => lit "Global" | Super => lit "Super"
  end.
End NestedNameSpecifier.

Module TemplateName.
Inductive NameKind : Type :=
| Template | OverloadedTemplate | AssumedTemplate | QualifiedTemplate | DependentTemplate
| SubstTemplateTemplateParm | SubstTemplateTemplateParmPack | UsingTemplate.
Definition formatKind (kind : NameKind) : str :=
  match kind with
  | Template => lit "Template" | OverloadedTemplate => lit "OverloadedTemplate"
  | AssumedTemplate => lit "AssumedTemplate" | QualifiedTemplate => lit "QualifiedTemplate"
  | DependentTemplate => lit "DependentTemplate" | SubstTemplateTemplateParm => lit "SubstTemplateTemplateParm"
  | SubstTemplateTemplateParmPack => lit "SubstTemplateTemplateParmPack" | UsingTemplate => lit "UsingTemplate"
  end.
End TemplateName.

Module TemplateSpecialization.
Definition formatKind (kind : TemplateSpecializationKind) : str :=
  match kind with
  | TSK_Undeclared => lit "Undeclared" | TSK_ImplicitInstantiation => lit "ImplicitInstantiation"
  | TSK_ExplicitSpecialization => lit "ExplicitSpecialization"
  | TSK_ExplicitInstantiationDeclaration => lit "ExplicitInstantiationDeclaration"
  | TSK_ExplicitInstantiationDefinition => lit "ExplicitInstantiationDefinition"
  end.
End TemplateSpecialization.

Module FunctionTemplated.
Inductive TemplatedKind : Type :=
| TK_NonTemplate | TK_FunctionTemplate | TK_MemberSpecialization | TK_FunctionTemplateSpecialization
| TK_DependentFunctionTemplateSpecialization | TK_DependentNonTemplate.
Definition formatKind (kind : TemplatedKind) : str :=
  match kind with
  | TK_NonTemplate => lit "NonTemplate" | TK_FunctionTemplate => lit "FunctionTemplate"
  | TK_MemberSpecialization => lit "MemberSpecialization"
  | TK_FunctionTemplateSpecialization => lit "FunctionTemplateSpecialization"
  | TK_DependentFunctionTemplateSpecialization => lit "DependentFunctionTemplateSpecialization"
  | TK_DependentNonTemplate => lit "DependentNonTemplate"
  end.
End FunctionTemplated.

(** Different kinds have different names. *)
#[export] Instance specifier_formatKind_inj : Inj (=) (=) NestedNameSpecifier.formatKind.
Proof. intros [] [] E; (reflexivity || by vm_compute in E). Qed.
#[export] Instance template_name_formatKind_inj : Inj (=) (=) TemplateName.formatKind.
Proof. intros [] [] E; (reflexivity || by vm_compute in E). Qed.
#[export] Instance specialization_formatKind_inj : Inj (=) (=) TemplateSpecialization.formatKind.
Proof. intros [] [] E; (reflexivity || by vm_compute in E). Qed.
#[export] Instance templated_formatKind_inj : Inj (=) (=) FunctionTemplated.formatKind.
Proof. intros [] [] E; (reflexivity || by vm_compute in E). Qed.
#[export] Instance toString_inj : Inj (=) (=) toString.
Proof. intros [] [] E; (reflexivity || by vm_compute in E). Qed.

(** Spaces, not zeros, are between the prefix and the digits. *)
Example formatPtr_pads_with_spaces : formatPtr 51966 = lit "0x            cafe".
Proof. by vm_compute. Qed.
Example two_job_ids :
  map format_JobId [mkJobId 7 0; mkJobId 7 1]
  = [lit "(compdb index: 7, subtask: semantic analysis)"; lit "(compdb index: 7, subtask: emit index)"].
Proof. by vm_compute. Qed.

Definition demo_printing : @ClangPrinting _ demo_sm := {|
  printToString l := lit "loc " ++ fmt_uint (l : @SourceLocation _ demo_sm);
  same_filename_pointer p q := bool_decide (pl_getFilename p = pl_getFilename q);
|}.
Lemma demo_printing_laws : @ClangPrintingLaws _ demo_sm demo_printing.
Proof. split; [intros p q; apply bool_decide_eq_true|done]. Qed.
Example ranges_in_files :
  map (fun p => @formatRange _ _ demo_printing p.1 p.2) [(10203, 10207); (10203, 10301); (10203, 20101); (0, 10203)]
  = [lit "/p/a.cc:2:[3-7] (FileID)"; lit "/p/a.cc:[2:3-3:1] (FileID)"; lit "[/p/a.cc:2:3]-[/p/b.h:1:1] (FileID)";
     lit "[<invalid loc>]-[/p/a.cc:2:3 (FileID)]"].
Proof. by vm_compute. Qed.
