(* ===== verification/Histories.v ===== *)
(** * The logs of the processes in an execution of the system

    [System] forgets what a process has taken and sent.  Here every slot carries the log
    of its process, and an execution is one of the code when every log that occurs is a
    log that the code can produce.  Erasing the logs gives an execution of [System];
    every log is an execution of a process, and every result that the driver receives
    is in one of them. *)
From S2P Require Import Prelude Ordering CppString Paths Json PackageMaps IdPaths CommandLine Compdb.
From S2P Require Import Toolchains CompdbParser Ipc Planner Scheduler Driver System Worker WorkerProcess.
From S2P Require DriverRun.

(** The log of the running process of every slot. *)
Abbreviation Logs := (list (list Message)).

Lemma process_run_app w p ms p1 ms' p2 :
  process_run w p ms p1 -> process_run w p1 ms' p2 -> process_run w p (ms ++ ms') p2.
Proof. induction 1 as [|p m l p1' ms p1 Hl Hs _ IH]; [done|]. intros H. eapply run_cons; [done..|by apply IH]. Qed.
Lemma process_run_snoc w p ms p1 m l p2 :
  process_run w p ms p1 -> label m = Some l -> proc_step w p1 l p2 -> process_run w p (ms ++ [m]) p2.
Proof. intros Hrun Hl Hs. eapply process_run_app; [done|]. by eapply run_cons, run_nil. Qed.

(** ** Steps with logs *)
Definition log_message (w : nat) (m : Message) (L : Logs) : Logs := alter (.++ [m]) w L.

Inductive logged_step (W : World) (L : Logs) : World -> Logs -> Prop :=
| logged_take w request queue p p' :
    slots W !! w = Some (mkSlot (request :: queue) p) -> proc_step w p (Take request) p' ->
    logged_step W L (mkWorld (<[w := mkSlot queue p']> (slots W)) (results W))
      (log_message w (Received (inl request)) L)
| logged_answer w queue p response p' :
    slots W !! w = Some (mkSlot queue p) -> proc_step w p (Answer response) p' ->
    logged_step W L (mkWorld (<[w := mkSlot queue p']> (slots W)) (results W ++ [response]))
      (log_message w (Sent response) L)
| logged_crash w queue p p' :
    slots W !! w = Some (mkSlot queue p) -> proc_step w p Crash p' ->
    logged_step W L (mkWorld (<[w := mkSlot queue p']> (slots W)) (results W)) L.

Lemma logged_step_worker W L W' L' : logged_step W L W' L' -> worker_step W W'.
Proof. destruct 1; [by eapply step_take|by eapply step_answer|by eapply step_crash]. Qed.

(** A new process has an empty log. *)
Definition restart_logs (killed : nat -> bool) (L : Logs) : Logs :=
  imap (fun w log => if killed w then [] else log) L.

Lemma log_message_eq w m L log : L !! w = Some log -> log_message w m L !! w = Some (log ++ [m]).
Proof. intros Hl. unfold log_message. by rewrite list_lookup_alter decide_True // Hl. Qed.

(** ** Executions of the code *)
Section Histories.
Context `{BM : BuildMode} {Process P : Type} `{JS : !JobSource P}.
Variable code : nat -> list Message -> Prop.
Implicit Types (d : Driver Process P).

Definition by_code (L : Logs) : Prop := forall w log, L !! w = Some log -> code w log.

(** As [plays] and [schedule], where the processes run the code. *)
Inductive plays_code (env : Round Process) : Driver Process P -> World -> Logs -> list IndexJobResponse ->
    Driver Process P -> World -> Logs -> Prop :=
| code_done d W L : plays_code env d W L [] d W L
| code_worker d W L W1 L1 rs d' W' L' :
    logged_step W L W1 L1 -> by_code L1 -> plays_code env d W1 L1 rs d' W' L' -> plays_code env d W L rs d' W' L'
| code_receive d ss r queue L d1 rs d' W' L' :
    receive_and_process env d r = Ok d1 ->
    plays_code env d1 (deliver (mkWorld ss queue) (newly_sent d d1)) L rs d' W' L' ->
    plays_code env d (mkWorld ss (r :: queue)) L (r :: rs) d' W' L'.

Fixpoint code_schedule (rounds : list (Round Process)) d (rc : nat) (W : World) (L : Logs) : Prop :=
  match rounds with
  | [] => True
  | env :: rounds => unfinished d -> sends_ok env
      /\ forall d1 rc1 d2, refill_if_needed d rc = Ok (d1, rc1) -> use_idle_workers env d1 = Ok d2 ->
         exists d3 W3 L3 s',
           plays_code env d2 (deliver W (newly_sent d d2)) L (round_responses env) d3 W3 L3
           /\ end_of_round env d3 = Ok s' /\ killed_have_read d3 s' W3
           /\ code_schedule rounds (set_scheduler d3 s') rc1
                (restart (was_killed (scheduler d3) s') W3) (restart_logs (was_killed (scheduler d3) s') L3)
  end.
Definition code_schedule_from_start (rounds : list (Round Process)) d (n : nat) : Prop :=
  forall d1 rc, refillJobs d = Ok (d1, rc) -> code_schedule rounds d1 rc (World_new n) (replicate n []).

(** *** Erasing the logs *)
Lemma plays_code_plays env d W L rs d' W' L' : plays_code env d W L rs d' W' L' -> plays env d W rs d' W'.
Proof.
  induction 1 as [|d W L W1 L1 rs d' W' L' Hs _ _ IH|]; [constructor| |by econstructor].
  eapply plays_worker; [by eapply logged_step_worker|done].
Qed.

Lemma code_schedule_schedule rounds : forall d rc W L, code_schedule rounds d rc W L -> schedule rounds d rc W.
Proof.
  induction rounds as [|env rounds IH]; [done|]. intros d rc W L Hc Hun. destruct (Hc Hun) as [Hs Hnext].
  split; [done|]. intros d1 rc1 d2 Hr Hu. destruct (Hnext d1 rc1 d2 Hr Hu) as (d3 & W3 & L3 & s' & Hp & He & Hk & Hrest).
  exists d3, W3, s'. split_and!; [by eapply plays_code_plays|done..|by eapply IH].
Qed.

Lemma code_schedule_from_start_schedule rounds d n :
  code_schedule_from_start rounds d n -> schedule_from_start rounds d n.
Proof. intros Hc d1 rc Hr. by eapply code_schedule_schedule, Hc. Qed.

(** *** Every log is an execution, every result is in a log *)
Definition in_a_log (r : IndexJobResponse) : Prop :=
  exists w log p, code w log /\ process_run w (Expecting SemanticAnalysis) log p /\ Sent r ∈ log.

Record history (W : World) (L : Logs) : Prop := {
  hi_slots w s : slots W !! w = Some s -> exists log p,
    L !! w = Some log /\ process_run w (Expecting SemanticAnalysis) log p
    /\ (slot_proc s = p \/ slot_proc s = Gone);
  hi_results r : r ∈ results W -> in_a_log r
}.

Lemma history_new n : history (World_new n) (replicate n []).
Proof.
  split; [|by intros r ?%elem_of_nil]. intros w s [-> Hw]%lookup_replicate.
  exists [], (Expecting SemanticAnalysis). split_and!; [by apply lookup_replicate_2|constructor|by left].
Qed.

(** A process that moves is not gone, so its log is an execution up to its state. *)
Lemma history_current W L w queue p l p' :
  history W L -> slots W !! w = Some (mkSlot queue p) -> proc_step w p l p' ->
  exists log, L !! w = Some log /\ process_run w (Expecting SemanticAnalysis) log p.
Proof.
  intros H Hs Hp. destruct (hi_slots _ _ H w _ Hs) as (log & p0 & Hl & Hrun & [Heq|Hgone]); cbn in *; subst.
  - by exists log.
  - inversion Hp.
Qed.

Lemma history_message W L w queue queue' p m l p' res :
  history W L -> slots W !! w = Some (mkSlot queue p) -> proc_step w p l p' -> label m = Some l ->
  (forall r, r ∈ res -> in_a_log r) ->
  history (mkWorld (<[w := mkSlot queue' p']> (slots W)) res) (log_message w m L).
Proof.
  intros H Hs Hp Hl Hres. destruct (history_current _ _ _ _ _ _ _ H Hs Hp) as (log & Hlog & Hrun).
  split; cbn; [|done]. intros w' s. rewrite list_lookup_insert. case_decide as Hd.
  - destruct Hd as [<- _]. intros [= <-]. exists (log ++ [m]), p'.
    split_and!; [by apply log_message_eq|by eapply process_run_snoc|by left].
  - intros Hs'. destruct (hi_slots _ _ H w' s Hs') as (log' & p0 & Hlog' & ?). exists log', p0.
    unfold log_message. rewrite list_lookup_alter_ne //. intros <-. apply Hd. split; [done|]. by apply lookup_lt_Some in Hs.
Qed.

Lemma history_step W L W' L' : history W L -> logged_step W L W' L' -> by_code L' -> history W' L'.
Proof.
  intros H Hstep Hcode. destruct Hstep as [w request queue p p' Hs Hp|w queue p r p' Hs Hp|w queue p p' Hs Hp].
  - by eapply history_message; [..|apply H].
  - eapply history_message; [done..|]. intros r' [?| ->%list_elem_of_singleton]%elem_of_app; [by apply H|].
    destruct (history_current _ _ _ _ _ _ _ H Hs Hp) as (log & Hlog & Hrun).
    exists w, (log ++ [Sent r]), p'. split_and!.
    + apply Hcode. by apply log_message_eq.
    + by eapply process_run_snoc.
    + apply elem_of_app. right. by left.
  - destruct (history_current _ _ _ _ _ _ _ H Hs Hp) as (log & Hlog & Hrun). split; cbn; [|apply H].
    intros w' s. rewrite list_lookup_insert. case_decide as Hd; [|by apply H].
    destruct Hd as [<- _]. intros [= <-]. exists log, p. split_and!; [done..|]. right. by inversion Hp.
Qed.

(** Messages to workers change no process. *)
Lemma deliver_procs messages : forall W w s,
  slots (deliver W messages) !! w = Some s -> exists s0, slots W !! w = Some s0 /\ slot_proc s = slot_proc s0.
Proof.
  induction messages as [|[w1 request] messages IH]; intros W w s; [by exists s|]. intros Hs.
  destruct (IH (mkWorld (alter (enqueue request) w1 (slots W)) (results W)) w s Hs) as (s1 & Hs1 & ->). cbn in Hs1.
  destruct (decide (w1 = w)) as [<-|Hne].
  - rewrite list_lookup_alter decide_True // in Hs1. apply fmap_Some in Hs1 as (s0 & Hs0 & ->). by exists s0.
  - rewrite list_lookup_alter_ne // in Hs1. by exists s1.
Qed.

Lemma history_deliver W L messages : history W L -> history (deliver W messages) L.
Proof.
  intros [H1 H2]. split; [|done]. intros w s (s0 & Hs0 & ->)%deliver_procs. by apply H1.
Qed.

Lemma history_restart W L killed : history W L -> history (restart killed W) (restart_logs killed L).
Proof.
  intros [H1 H2]. split; [|done]. intros w s. cbn. rewrite !list_lookup_imap.
  intros (s0 & Hs0 & ->)%fmap_Some. destruct (H1 w s0 Hs0) as (log & p & -> & Hrun & Hp). cbn. unfold restart_slot.
  destruct (killed w); [|by eexists _, _]. exists [], (Expecting SemanticAnalysis).
  split_and!; [done|constructor|by left].
Qed.

Lemma plays_code_history env d W L rs d' W' L' :
  plays_code env d W L rs d' W' L' -> history W L -> history W' L' /\ Forall in_a_log rs.
Proof.
  induction 1 as [|d W L W1 L1 rs d' W' L' Hs Hc _ IH|d ss r queue L d1 rs d' W' L' _ _ IH]; intros H.
  - done.
  - apply IH. by eapply history_step.
  - destruct IH as [H' Hrs].
    { apply history_deliver. destruct H as [H1 H2]. split; [done|]. intros r' Hr'. apply H2. by right. }
    split; [done|]. constructor; [|done]. apply (hi_results _ _ H). by left.
Qed.

Lemma code_schedule_responses rounds : forall d rc W L,
  history W L -> code_schedule rounds d rc W L -> DriverRun.run_responses in_a_log rounds d rc.
Proof.
  induction rounds as [|env rounds IH]; [done|]. intros d rc W L H Hc Hun d' rc' Hit.
  destruct (Hc Hun) as [_ Hnext]. pose proof Hit as ([d1 rc1] & Hr & (d2 & Hu & _)%bind_Ok_inv)%bind_Ok_inv.
  destruct (Hnext d1 rc1 d2 Hr Hu) as (d3 & W3 & L3 & s' & Hp & He & _ & Hrest).
  destruct (plays_code_history _ _ _ _ _ _ _ _ Hp) as [H3 Hrs]; [by apply history_deliver|].
  apply plays_code_plays, plays_foldM in Hp.
  destruct (iteration_of_round env d rc d1 rc1 d2 d3 s' d' rc' Hr Hu Hp He Hit) as [-> ->].
  split; [done|]. by eapply IH; [apply history_restart|].
Qed.

Lemma code_schedule_from_start_responses rounds d n :
  code_schedule_from_start rounds d n -> DriverRun.responses_from_start in_a_log rounds d.
Proof. intros Hc d1 rc Hr. by eapply code_schedule_responses, Hc; [apply history_new|]. Qed.
End Histories.

(** ** Checking a concrete execution

    As in [System]: a worker takes its request and answers just before the driver reads
    the result.  What is left to show is that the logs are logs of the code. *)
Section Checkers.
Context `{BM : BuildMode} {Process P : Type} `{JS : !JobSource P}.
Variable code : nat -> list Message -> Prop.
Implicit Types (d : Driver Process P).

Fixpoint all_code (w : nat) (L : Logs) : Prop :=
  match L with [] => True | log :: L => code w log /\ all_code (S w) L end.
Lemma all_code_by_code L : all_code 0 L -> by_code code L.
Proof.
  intros H w log Hl. replace w with (0 + w)%nat by done. revert H Hl. generalize 0%nat as i. revert w.
  induction L as [|log' L IH]; intros w i; [done|]. cbn [all_code]. intros [Hc H].
  destruct w as [|w]; cbn [lookup list_lookup]; [intros [= <-]; by rewrite Nat.add_0_r|].
  intros Hl. replace (i + S w)%nat with (S i + w)%nat by lia. by apply IH.
Qed.

Fixpoint code_plays_wp (env : Round Process) d (W : World) (L : Logs) (rs : list IndexJobResponse)
    (K : Driver Process P -> World -> Logs -> Prop) : Prop :=
  match rs with
  | [] => K d W L
  | r :: rs =>
      let w := Z.to_nat (response_workerId r) in
      match results W, slots W !! w, answer_now W r, receive_and_process env d r with
      | [], Some (mkSlot (request :: _) _), Some ss, Ok d1 =>
          let L1 := log_message w (Received (inl request)) L in
          let L2 := log_message w (Sent r) L1 in
          all_code 0 L1 /\ all_code 0 L2
          /\ code_plays_wp env d1 (deliver (mkWorld ss []) (newly_sent d d1)) L2 rs K
      | _, _, _, _ => False
      end
  end.

Lemma code_plays_wp_sound env rs K : forall d W L,
  code_plays_wp env d W L rs K -> exists d' W' L', plays_code code env d W L rs d' W' L' /\ K d' W' L'.
Proof.
  induction rs as [|r rs IH]; intros d W L; cbn [code_plays_wp]; [intros H; by eexists _, _, _; split; [constructor|]|].
  set (w := Z.to_nat (response_workerId r)).
  destruct (results W) eqn:Hres; [|done]. destruct (slots W !! w) as [[[|request queue] p]|] eqn:Hs; [done| |done].
  destruct (answer_now W r) as [ss|] eqn:Ha; [|done]. destruct (receive_and_process env d r) as [d1|e] eqn:Hr; [|done].
  intros (H1%all_code_by_code & H2%all_code_by_code & H). apply IH in H as (d' & W' & L' & Hp & HK).
  exists d', W', L'. split; [|done]. unfold answer_now in Ha. fold w in Ha. rewrite Hs in Ha.
  destruct p as [k| |]; [|done..]. destruct (_ && _) eqn:Eb in Ha; [|done]. injection Ha as <-.
  apply andb_true_iff in Eb as [Eb Hans%answersb_sound]. apply andb_true_iff in Eb as [->%bool_decide_eq_true Hns%bool_decide_eq_true].
  eapply code_worker; [eapply logged_take; [exact Hs|by apply proc_take]|exact H1|].
  eapply code_worker; [|exact H2|].
  - eapply (logged_answer _ _ w queue _ r); [cbn; apply list_lookup_insert_eq; by eapply lookup_lt_Some|by apply proc_answer].
  - cbn [slots results]. rewrite list_insert_insert_eq Hres. by eapply code_receive.
Qed.

Fixpoint code_schedule_wp (rounds : list (Round Process)) d rc (W : World) (L : Logs) : Prop :=
  match rounds with
  | [] => True
  | env :: rounds =>
      if bool_decide (pendingJobs (scheduler d) = []) && bool_decide (wipJobs (scheduler d) = ∅) then True
      else match refill_if_needed d rc with
           | Ok (d1, rc1) =>
               match use_idle_workers env d1 with
               | Ok d2 =>
                   code_plays_wp env d2 (deliver W (newly_sent d d2)) L (round_responses env) (fun d3 W3 L3 =>
                     match end_of_round env d3 with
                     | Ok s' => killed_have_readb d3 s' W3 = true
                         /\ code_schedule_wp rounds (set_scheduler d3 s') rc1
                              (restart (was_killed (scheduler d3) s') W3) (restart_logs (was_killed (scheduler d3) s') L3)
                     | Err _ => False
                     end)
               | Err _ => True
               end
           | Err _ => True
           end
  end.

Lemma code_schedule_wp_sound rounds : Forall sends_ok rounds -> forall d rc W L, code_schedule_wp rounds d rc W L ->
  code_schedule code rounds d rc W L.
Proof.
  induction 1 as [|env rounds Hs _ IH]; intros d rc W L; cbn [code_schedule_wp code_schedule]; [done|].
  case_match eqn:Eun.
  - apply andb_true_iff in Eun as [Hp%bool_decide_eq_true Hw%bool_decide_eq_true]. by intros _ [].
  - intros H _. split; [done|]. intros d1 rc1 d2 Hr Hu. rewrite Hr Hu in H.
    apply code_plays_wp_sound in H as (d3 & W3 & L3 & Hp & H).
    destruct (end_of_round env d3) as [s'|e] eqn:He; [|done]. destruct H as [Hk H].
    exists d3, W3, L3, s'. split_and!; [done|done|by apply killed_have_readb_sound|by apply IH].
Qed.
End Checkers.
