(* ===== verification/EndToEnd.v ===== *)
(** * From the command line to the index

    Everything together: [driverMain] starts the same program once per worker, these
    processes run [main] and [workerMain] on the command lines that the driver makes, the
    driver receives what they announce and merges the shards that they wrote.

    An execution is one of the code when the log of every process ([Histories]) is one
    that [workerMain] can produce: what was in its queue is what it has taken, and the log
    is the beginning of what it takes and sends.  A process may also have taken a request
    that it fails on, and every process may see a different machine, with different files
    and sources. *)
From S2P Require Import Prelude Ordering CppString Paths Json PackageMaps IdPaths Symbols ScipMessages.
From S2P Require Import IndexBuilder CommandLine Compdb Toolchains CompdbParser Ipc CliOptions Clang.
From S2P Require Import Formatter MacroIndexer Preprocessor TuAst NameResolver TuIndexer AstConsumer.
From S2P Require Import ShardWellFormed Planner Scheduler Driver System Merge ParserSource DriverRun.
From S2P Require DriverSetup Main Worker WorkerProtocol.
From S2P Require Import WorkerProcess Histories.
Import Worker(ClangTooling, WorkerMachine, Message, Sent, Received, messages_log, w_files).

Section EndToEnd.
Context `{BM : BuildMode, AR : AbslReplace, LP : LlvmPath, LPL : !LlvmPathLaws, FS : FileSystem, CF : ClangFileID}.
Context `{AS : AbslStrings, U8 : Utf8, AE : AbslEmplace, TH : TextHash, SE : ScipEnums}.
Context `{WH : WyHash, RX : Cleaner.LlvmRegex, HI : HashIteration, HL : !HashIterationLaws, PE : ProcessEnv}.
Context `{PR : ProcessRunner, AP : AbslSplit, APL : !AbslSplitLaws, RE : RegexEscape, RV : RegexValid}.
Context `{WT : CommandLine.Parser.WindowsTokenizer, RJ : RapidJson, STF : StdFile, JL : JsonLib, JP : !JsonParser}.
Context `{SF : ShardFiles, MC : MergeConstants, SP : DriverSetup.SearchPath, SS : DriverSetup.ShmStat}.
Context `{QE : DriverSetup.QueueErrors, CX : Main.CxxOpts, CXL : !Main.CxxOptsLaws} {Process : Type}.
Implicit Types (options : DriverOptions) (log : list Message) (worker : Worker.Worker).

(** ** Worker processes *)

(** [worker] is the state in which the process ends that the driver starts for the worker
    [w], when [requests] come out of its queue. *)
Definition worker_process options (driverId : str) (level : Z) (w : nat) `{TL : !ClangTooling, WM : WorkerMachine}
    (requests : list IndexJobRequest) worker : Prop :=
  exists hardware_concurrency uninitialised qs argv cli,
    DriverSetup.spawnWorker_args options driverId level (Z.of_nat w) = Ok argv
    /\ Main.main hardware_concurrency argv = Ok (Main.RunWorker cli)
    /\ Worker.workerMain uninitialised cli qs (map inl requests) = Ok (0, Some worker).

(** The end of a log: a request on which the process may fail. *)
Definition at_most_a_request (rest : list Message) : Prop :=
  rest = [] \/ exists request, rest = [Received (inl request)].

Definition code_log options (driverId : str) (level : Z) (w : nat) log : Prop :=
  exists (TL : ClangTooling) (WM : WorkerMachine) log0 rest worker,
    WorkerProtocol.tooling_ok /\ Z.of_nat w < 2 ^ 64
    /\ log = log0 ++ rest /\ at_most_a_request rest
    /\ worker_process options driverId level w (omap taken log0) worker
    /\ log0 `prefix_of` messages_log worker
    /\ reads_back (w_files worker).

(** Both files of a shard were written by such a process, and are well formed. *)
Definition worker_wrote options (driverId : str) (level : Z) (p : ShardPaths) : Prop :=
  exists (TL : ClangTooling) (WM : WorkerMachine) w requests worker docs fwd,
    worker_process options driverId level w requests worker
    /\ (asStringRef (docsAndExternals p), IndexFile docs) ∈ w_files worker
    /\ (asStringRef (forwardDecls p), ForwardDeclFile fwd) ∈ w_files worker
    /\ WorkerProtocol.shard_ok docs fwd.

(** What such a process sends can be merged. *)
Definition from_worker options (driverId : str) (level : Z) (r : IndexJobResponse) : Prop :=
  announced_ok r
  /\ (result_kind (response_result r) = EmitIndex ->
      worker_wrote options driverId level (shardPaths (result_emitIndex (response_result r)))).

Section Process.
Variables (options : DriverOptions) (driverId : str) (level : Z).
Hypothesis debug : debugMode = true.
Hypothesis options_ok : Main.presentable options driverId.
Hypothesis level_ok : 0 <= level <= 4.
Hypothesis timeout_ok : 0 <= Driver.receiveTimeout options < 2 ^ 32.
Hypothesis absolute_ok : is_absolute (do_temporaryOutputDir options) = true.

(** The process understands its command line, and starts as a worker with its id. *)
Lemma worker_process_starts w `{TL : !ClangTooling, WM : WorkerMachine} requests worker :
  Z.of_nat w < 2 ^ 64 -> worker_process options driverId level w requests worker ->
  exists this, Worker.Worker_run this = Ok ((), worker)
    /\ Worker.mode (Worker.w_options this) = Worker.Mode_Ipc
    /\ workerId (Worker.ipcOptions this) = Z.of_nat w
    /\ Worker.inbox this = map inl requests /\ messages_log this = [] /\ w_files this = []
    /\ is_absolute (Worker.wo_temporaryOutputDir (Worker.w_options this)) = true.
Proof.
  intros Hw (hc & u & qs & argv & cli & Hargv & Hmain & Hrun).
  rewrite Main.spawnWorker_args_ok // in Hargv. injection Hargv as <-.
  destruct (Main.parseArguments_understood options driverId level (Z.of_nat w) hc
    (asStringRef (do_workerExecutablePath options))) as (cli' & Hcli & Hund); [done|done|lia|done|].
  unfold Main.main in Hmain. rewrite Hcli bind_Ok in Hmain. destruct (Main.isWorker cli'); [|done].
  injection Hmain as <-. clear Hcli.
  unfold Worker.workerMain in Hrun. apply bind_Ok_inv in Hrun as (wo & Hwo & ([this|] & Hthis & Hrun)%bind_Ok_inv);
    [|done]. apply bind_Ok_inv in Hrun as ([[] worker'] & Hrun & [= ->]).
  exists this. split; [done|].
  unfold Worker.WorkerOptions_fromCliOptions in Hwo. apply bind_Ok_inv in Hwo as (root & _ & Hwo).
  rewrite (Main.und_mode _ _ _ _ _ Hund) bool_decide_true // bind_Ok in Hwo. apply Ok_inj in Hwo as <-.
  unfold Worker.Worker_new in Hthis.
  apply bind_Ok_inv in Hthis as (pm & _ & ([[pair commands]|] & _ & Hthis)%bind_Ok_inv); [|done].
  apply bind_Ok_inv in Hthis as (recorder & _ & [= <-]).
  pose proof (Main.und_ipc _ _ _ _ _ Hund) as Hipc. unfold Worker.ipcOptions. split_and!; try done; cbn [Worker.w_options
    Worker.wo_ipcOptions Worker.wo_temporaryOutputDir]; [by rewrite Hipc|by rewrite (Main.und_temporary _ _ _ _ _ Hund)].
Qed.

Lemma process_run_prefix w p ms ms' p' : process_run w p (ms ++ ms') p' -> exists p1, process_run w p ms p1.
Proof.
  revert p. induction ms as [|m ms IH]; intros p; [by exists p; constructor|].
  inversion 1 as [|? ? l p1 ? ? Hl Hs Hrun]; subst. apply IH in Hrun as [p2 Hrun]. exists p2. by eapply run_cons.
Qed.

Lemma code_log_from_worker r : in_a_log (code_log options driverId level) r -> from_worker options driverId level r.
Proof.
  intros (w & log & p & (TL & WM & log0 & rest & worker & HT & Hw & -> & Hrest & Hproc & [more Hlog] & Hrb) & Hrun & Hr).
  assert (Sent r ∈ log0) as Hr0.
  { apply elem_of_app in Hr as [?|Hr]; [done|]. destruct Hrest as [->|[request ->]]; [by apply elem_of_nil in Hr|].
    by apply list_elem_of_singleton in Hr. }
  clear Hr. apply process_run_prefix in Hrun as [p1 Hrun].
  apply (process_run_in_turn _ _ _ _ SemanticAnalysis) in Hrun; [|done].
  destruct (worker_process_starts w _ worker Hw Hproc) as (this & Hok & Hm & Hid & Hin & Hm0 & Hf0 & Habs).
  pose proof (Worker_run_process this w (omap taken log0) HT Hm Hid Hin Hrun) as H. rewrite Hok in H.
  destruct H as (new & Hnew & _ & (written & Hfiles & Hwritten) & Hg). rewrite Hm0 /= in Hnew. rewrite Hf0 /= in Hfiles.
  rewrite Forall_forall in Hg. destruct (Hg (Sent r)) as (_ & _ & Ha).
  { rewrite -Hnew Hlog. apply elem_of_app. by left. }
  split.
  - eapply (announced_mergeable this); [done|done| |exact Hrb|done]. by rewrite Hfiles.
  - intros Hk. destruct (Ha Hk) as (_ & _ & docs & fwd & Hdocs & Hfwd & Hshard).
    by exists TL, WM, w, (omap taken log0), worker, docs, fwd.
Qed.
End Process.

(** ** The driver *)

(** What a run needs: options that can be passed on a command line, room for queues, a
    well-formed compilation database, and files that can be written. *)
Record started_well (cli : CliOptions) (driverId : str) (level : Z) (mss : list (list (str * doc))) (maxNumWorkers : Z)
    options : Prop := {
  sw_options : DriverSetup.DriverOptions_new driverId cli = Ok options;
  sw_presentable : Main.presentable options driverId;
  sw_absolute : is_absolute (do_temporaryOutputDir options) = true;
  sw_level : 0 <= level <= 4;
  sw_timeout : 0 <= Driver.receiveTimeout options < 2 ^ 32;
  sw_database : database_ok options mss;
  sw_queues : (forall name, DriverSetup.create_error name = None)
    /\ DriverSetup.numWorkersUpperBound (dio_ipcSizeHintBytes (do_ipcOptions options)) = Ok maxNumWorkers
    /\ 0 < maxNumWorkers /\ (0 < numWorkers options)%nat;
  sw_output : open_fails (asStringRef (do_indexOutputPath options)) = false
    /\ open_fails (asStringRef (statsFilePath options)) = false
}.

Lemma presentable_numWorkers options n driverId :
  Main.presentable options driverId -> Main.presentable (DriverSetup.set_numWorkers options n) driverId.
Proof. by intros []; split. Qed.
Lemma database_ok_numWorkers options n mss :
  database_ok options mss -> database_ok (DriverSetup.set_numWorkers options n) mss.
Proof. by intros []; split. Qed.

Lemma DriverOptions_root driverId cli options : debugMode = true ->
  DriverSetup.DriverOptions_new driverId cli = Ok options ->
  AbsolutePath_wf (root_value (projectRootPath_ options)) /\ root_kind (projectRootPath_ options) = Project.
Proof.
  intros Hdebug. unfold DriverSetup.DriverOptions_new.
  intros (u & Habs & (root & Hroot & H)%bind_Ok_inv)%bind_Ok_inv. apply ENFORCE_Ok_inv in Habs as [?|Habs]; [congruence|].
  apply bind_Ok_inv in H as (exe & _ & (p1 & _ & (p2 & _ & (p3 & _ & (p4 & _ & H)%bind_Ok_inv)%bind_Ok_inv)%bind_Ok_inv)%bind_Ok_inv).
  apply bind_Ok_inv in H as (filter & _ & (_ & _ & (_ & _ & [= <-])%bind_Ok_inv)%bind_Ok_inv).
  rewrite AbsolutePath_new_abs // in Hroot. by injection Hroot as <-.
Qed.

End EndToEnd.

(** ** One object, one worker *)
Definition ok_or {A} (a : A) (m : result A) : A := match m with Ok a => a | Err _ => a end.
Definition e2e_cli : CliOptions :=
  mkCliOptions (lit "/p/compile_commands.json") (lit "/bin/scip-clang") [] (lit "/p/index.scip") [] [] false true
    4096 10 1 2 true [] [] [] false [] true [] false [] [] 0.
Definition e2e_options : DriverOptions := ok_or (demo_driver_options 1)
   (@DriverSetup.DriverOptions_new true posix_path WorkerProtocol.demo_process (fun s => s) (fun _ => true) (lit "42") e2e_cli).
Definition e2e_objects : list (list (str * doc)) := [demo_object "a.c"].
Definition e2e_json : RapidJson := demo_tokens (DArray (map DObject e2e_objects)) true.
Definition e2e_parser : ResumableParser := ResumableParser_default (mkParseOptions 1 true true true).
Definition e2e_source : JobSource ResumableParser :=
  @parser_source true posix_path demo_all_files demo_runner demo_absl demo_c_regex demo_windows.
Definition e2e_new := @DriverSetup.Driver_new true Main.demo_shm Main.demo_no_errors nat _ (lit "42") e2e_options e2e_parser ∅.
Definition e2e_queues : gmap str BoostQueue := match e2e_new with Ok (qs, _, _) => qs | Err _ => ∅ end.
Definition e2e_opened := ok_or (Driver_opened e2e_options [] 0 e2e_parser)
  (@DriverSetup.openCompilationDatabase true posix_path e2e_json demo_files demo_escape nat 7
    (Driver_opened (DriverSetup.set_numWorkers e2e_options 1) (lit "42") 0 e2e_parser)).
Definition e2e_worker (requests : list IndexJobRequest) : result (Z * option Worker.Worker) :=
  argv ← @DriverSetup.spawnWorker_args true (Driver.options e2e_opened) (lit "42") 2 0;
  program ← @Main.main Main.demo_cxx 8 argv;
  match program with
  | Main.RunWorker cli =>
    @Worker.workerMain true demo_replace posix_path demo_all_files IdPaths.demo_files demo_absl demo_utf8
      demo_emplace demo_hash MacroIndexer.demo_enums WorkerProtocol.demo_wyhash demo_c_regex tree_iteration
      WorkerProtocol.demo_process WorkerProtocol.demo_tooling WorkerProtocol.demo_machine
      demo_runner demo_split demo_escape (fun _ => true) demo_windows e2e_json demo_files json_lib demo_json_parser
      7 cli e2e_queues (map inl requests)
  | _ => Err OutOfFuel
  end.
Definition e2e_state (requests : list IndexJobRequest) : Worker.Worker :=
  match e2e_worker requests with Ok (_, Some worker) => worker | _ => WorkerProtocol.demo_worker end.
Definition e2e_log (requests : list IndexJobRequest) : list Message := messages_log (e2e_state requests).
Definition e2e_responses (requests : list IndexJobRequest) : list IndexJobResponse :=
  omap (fun m => match m with Sent r => Some r | _ => None end) (e2e_log requests).
Definition e2e_spawned := ok_or (Driver_opened e2e_options [] 0 e2e_parser) (@spawnWorkers true nat _ e2e_opened (fun w => w)).
Definition e2e_sent (rounds : list (Round nat)) :=
  match @runJobsTillCompletionAndShutdownWorkers true nat _ e2e_source (demo_round RTimeout 100) rounds e2e_spawned with
  | Ok (Waiting d _) | Ok (Driver.Finished d _) => map snd (sent d) | Err _ => [] end.

(** The requests that the driver sends, and what the worker answers. *)
Definition e2e_request1 : IndexJobRequest := nth 0 (e2e_sent [demo_round RTimeout 0]) System.demo_sema_request.
Definition e2e_response1 : IndexJobResponse := nth 0 (e2e_responses [e2e_request1]) (demo_sema_response 0 0).
Definition e2e_round1 : Round nat := demo_round (RResponses e2e_response1 []) 0.
Definition e2e_request2 : IndexJobRequest := nth 1 (e2e_sent [e2e_round1; demo_round RTimeout 1]) System.demo_sema_request.
Definition e2e_response2 : IndexJobResponse := nth 1 (e2e_responses [e2e_request1; e2e_request2]) (demo_emit_response 0 0).
Definition e2e_round2 : Round nat := demo_round (RResponses e2e_response2 []) 1.
Definition e2e_rounds : list (Round nat) := [e2e_round1; e2e_round2; demo_round RTimeout 2].
Definition e2e_files : list (str * FileContent) := w_files (e2e_state [e2e_request1; e2e_request2]).
Definition e2e_stored : ShardFiles := stored e2e_files.
Definition e2e_run :=
  @driverMain true posix_path tree_iteration demo_split e2e_stored demo_constants WorkerProtocol.demo_process e2e_json
    demo_files demo_escape (fun _ => true) (fun s => s) Main.demo_shm Main.demo_no_errors nat e2e_source 42 7 e2e_parser
    (demo_round RTimeout 100) e2e_rounds (fun w => w) ∅ e2e_cli [].
Definition e2e_code : nat -> list Message -> Prop :=
  @code_log true demo_replace posix_path demo_all_files IdPaths.demo_files demo_absl demo_utf8 demo_emplace demo_hash
    MacroIndexer.demo_enums WorkerProtocol.demo_wyhash demo_c_regex tree_iteration WorkerProtocol.demo_process demo_runner
    demo_split demo_escape (fun _ => true) demo_windows e2e_json demo_files json_lib demo_json_parser e2e_stored
    Main.demo_cxx (Driver.options e2e_opened) (lit "42") 2.

(** The whole program computes: the index has one document, with four occurrences. *)
Example e2e_documents :
  match e2e_run with
  | Ok (Some (_, (_, (fragments, _), _))) => concat (map (fun f => match f with
      | IndexFragment i => map (fun d => (relative_path d, length (occurrences d))) (documents i)
      | MetadataFragment _ => [] end) fragments)
  | _ => []
  end = [(lit "a.cc", 4%nat)].
Proof. by vm_compute. Qed.

(** The log of the worker on [requests], and one more request. *)
Lemma e2e_code_log requests rest :
  (match e2e_worker requests with Ok (0, Some _) => true | _ => false end) = true ->
  omap taken (e2e_log requests) = requests -> at_most_a_request rest ->
  @reads_back e2e_stored (w_files (e2e_state requests)) -> e2e_code 0 (e2e_log requests ++ rest).
Proof.
  intros Hok Htaken Hrest Hrb. exists WorkerProtocol.demo_tooling, WorkerProtocol.demo_machine.
  exists (e2e_log requests), rest, (e2e_state requests).
  split; [exact WorkerProtocol.demo_tooling_ok|]. split; [done|]. split; [done|]. split; [exact Hrest|].
  split; [|split; [exists []; symmetry; apply app_nil_r|exact Hrb]]. rewrite Htaken.
  assert (e2e_worker requests = Ok (0, Some (e2e_state requests))) as Hw.
  { unfold e2e_state. destruct (e2e_worker requests) as [[[| |] [w|]]|]; try discriminate Hok. reflexivity. }
  unfold e2e_worker in Hw. apply bind_Ok_inv in Hw as (argv & Hargv & ([cli|cli] & Hmain & Hw)%bind_Ok_inv); [|done].
  exists 8, 7, e2e_queues, argv, cli. split; [exact Hargv|]. split; [exact Hmain|]. exact Hw.
Qed.

Lemma e2e_no_files worker : w_files worker = [] -> @reads_back e2e_stored (w_files worker).
Proof. intros ->. split; intros p c c' Hin _; destruct (not_elem_of_nil _ Hin). Qed.

Lemma e2e_code_schedule : @code_schedule_from_start true nat _ e2e_source e2e_code e2e_rounds e2e_spawned 1.
Proof.
  assert (e2e_code 0 (e2e_log [] ++ [Received (inl e2e_request1)])) as H1.
  { apply e2e_code_log; [by vm_compute|by vm_compute|right; by eexists|]. apply e2e_no_files; by vm_compute. }
  assert (e2e_code 0 (e2e_log [e2e_request1] ++ [])) as H2.
  { apply e2e_code_log; [by vm_compute|by vm_compute|by left|]. apply e2e_no_files; by vm_compute. }
  assert (e2e_code 0 (e2e_log [e2e_request1] ++ [Received (inl e2e_request2)])) as H3.
  { apply e2e_code_log; [by vm_compute|by vm_compute|right; by eexists|]. apply e2e_no_files; by vm_compute. }
  assert (e2e_code 0 (e2e_log [e2e_request1; e2e_request2] ++ [])) as H4.
  { apply e2e_code_log; [by vm_compute|by vm_compute|by left|]. exact (stored_reads_back e2e_files). }
  revert H1 H2 H3 H4. generalize e2e_code as code. intros code H1 H2 H3 H4 d1 rc Hr. apply code_schedule_wp_sound.
  { repeat (apply Forall_cons; split; [exact (fun _ _ => eq_refl)|]). by apply Forall_nil. }
  vm_compute in Hr. injection Hr as <- <-. vm_compute. vm_compute in H1, H2, H3, H4.
  by split_and!.
Qed.

Lemma e2e_started : @started_well true posix_path WorkerProtocol.demo_process demo_runner (fun _ => true) e2e_json demo_files
  (fun s => s) Main.demo_shm Main.demo_no_errors e2e_cli (lit "42") 2 e2e_objects 13653 e2e_options.
Proof.
  split.
  - by vm_compute.
  - split; [split; [done|]|split; [done|]|..]; apply (bool_decide_unpack _); by vm_compute.
  - by vm_compute.
  - lia.
  - split; [by vm_compute|reflexivity].
  - split.
    + by exists [], 100.
    + by vm_compute.
    + apply Forall_singleton, demo_object_clang.
    + cbn. lia.
    + by apply Forall_singleton.
    + apply demo_search_ok.
  - split; [reflexivity|]. split; [by vm_compute|]. split; [lia|]. by apply Nat.ltb_lt; vm_compute.
  - by split.
Qed.

